(* ===== verification/_CoqProject ===== *)
-Q . S2P
Prelude.v
McTypes.v
QuoteApi.v
QuotePricing.v
QuoteBook.v
InMemory.v
SqlTypes.v
Sqlite.v
BookEquiv.v
TestUtils.v
Conformance.v
BookTests.v
QuoteTests.v
Synchronized.v
SyncTests.v
ApiConvert.v
ClientService.v
ServiceRules.v
ServiceTests.v
ServiceSync.v
ServerP2P.v
Cluster.v
LiveMirror.v
ServerStart.v
TestServer.v
Wallet.v
WalletRun.v
WalletTests.v
TestCli.v
LiquidityBot.v
BotOffers.v
BotTests.v
BotSubmit.v
BotAdmin.v
ConvertTests.v
BotProgram.v
Network.v
NetBuild.v
ServerNet.v
ServerProgram.v
