(* ===== verification/Prelude.v ===== *)
(** DEQS, the decentralized quoting service: a verification of its quote books,
    its server, its peer-to-peer network and its liquidity bot.

    * The program

    A DEQS server keeps a book of quotes.  A quote is a signed contingent input
    (SCI): a promise, signed by its owner, to give up to so many base tokens
    for so many counter tokens.  Clients submit SCIs, query the book and
    subscribe to its changes over gRPC (server/src/client_service.rs); servers
    exchange quotes with each other (server/src/p2p) over a peer-to-peer network
    whose event loop and client are the p2p crate.  The book is a stack of three implementations of one
    trait (quote-book/api): an in-memory book, a book that also keeps the
    quotes in SQLite, and a book that checks quotes against the ledger and has
    a background thread which removes quotes as their inputs are spent or their
    tombstone passes.  The liquidity bot (liquidity-bot) is a client: its
    mini wallet scans the ledger for outputs of an account, and the bot offers
    each of them as an SCI and keeps it listed.

    * The files

    Foundations
    - Prelude.v: outcomes of fallible Rust code ([outcome]: Ok, Err or a
      panic), stateful code ([stateful]), machine integers with the
      wrap-around of the release profile, [BTreeSet], [HashMap] iteration in an
      unspecified order, shared lemmas and tactics.
    - McTypes.v: the data of the mobilecoin crates as far as the DEQS reads it,
      and the operations of these crates it calls ([McLib], a parameter).

    Quotes and quote books
    - QuoteApi.v: quote-book/api/src: [Quote], [Quote::new] ([quote_new]),
      [counter_tokens_cost], the order of quotes ([quote_cmp]), the errors.
    - QuotePricing.v: theorems on the price and the order of quotes.
    - QuoteBook.v: the trait [QuoteBook] as a class of state-passing operations,
      and [QuoteBookLaws], what each implementation promises to its clients:
      an invariant, the multiset of quotes a state holds ([contents]) and the
      effect of each operation on it.  The abstract book is a finite map from
      (pair, key image) to quotes ([slot_map]).
    - InMemory.v: quote-book/in-memory/src/lib.rs; [InMemoryQuoteBook_Laws].
    - SqlTypes.v: the column types and the rows (quote-book/sqlite/src/models.rs,
      sql_types.rs, error.rs).
    - Sqlite.v: quote-book/sqlite/src/lib.rs over a database that is a parameter
      ([SqlDb], [SqlDbLaws]); [SqliteQuoteBook_Laws].
    - BookEquiv.v: [TotalBook], what a book answers as long as it is up, for the
      in-memory book and for the SQLite book over a database that works
      ([WorkingDb]); sequences of operations on two books.
    - TestUtils.v: mc-test-utils/src/lib.rs, the SCIs of the tests, over a
      transaction builder that is a parameter ([TestLib]); calls that return
      ([returns]).
    - Conformance.v: quote-book/test-suite/src/lib.rs, the tests every quote book
      has to pass, as programs over the trait.
    - BookTests.v: opening the SQLite book (its connection options and pool), and
      the unit tests of the in-memory and the SQLite book.
    - QuoteTests.v: the unit tests of quote-book/api/src/quote.rs as programs.
    - Synchronized.v: quote-book/synchronized/src/lib.rs over a ledger that is a
      parameter ([Ledger], [LedgerLaws]): the book and the [DbFetcherThread];
      [SynchronizedQuoteBook_Laws].
    - SyncTests.v: the unit tests of the synchronized book as programs, with the
      thread at work between the calls, over a test ledger ([TestLedger]).

    The server
    - ApiConvert.v: the messages of the gRPC API and the conversions of
      api/src/convert.
    - ClientService.v: server/src/client_service.rs, the SCI validator of
      grpc_server.rs, the message bus (msg.rs) and the callback of server.rs.
    - ServiceRules.v: the calls of a client of the service, and what a request
      does to a server whose book is up.
    - ServiceTests.v, ServiceSync.v: the unit tests of client_service.rs as
      programs, over any working book and over the synchronized book.
    - ServerP2P.v: server/src/p2p and the event loop of server/src/server.rs.
    - Cluster.v: several servers, their ledgers, their clients and the messages
      between them as a step relation, as server/tests/e2e.rs runs them.  A step
      is one addition, one removal, one turn of an event loop or one delivery.
    - LiveMirror.v: the client service, the ledger thread and the peers on one
      book, as a step relation, and a subscriber to its live updates.
    - ServerStart.v: server/src/bin/main.rs and grpc_server.rs: the stack of books
      a server starts with, and the gRPC server over the grpcio crate ([GrpcIo]).
    - TestServer.v: test-server/src, the server the tests of clients use.

    The clients
    - Wallet.v: liquidity-bot/src/mini_wallet: the matching of outputs and the
      scanning of blocks.
    - WalletRun.v: the wallet as a process: its state file, its thread, and what
      a stop or a crash leaves.
    - WalletTests.v: the unit test of the wallet as a program, with its thread.
    - TestCli.v: test-cli/src/bin/main.rs, the command line client.
    - LiquidityBot.v: liquidity-bot/src/lib.rs and error.rs: the task, its lists
      of pending and listed outputs and its event loop.
    - BotOffers.v: the SCI the bot makes for an output and what a taker of it
      pays, over the laws of rust_decimal and of the SCI builder.
    - BotTests.v: the unit tests of liquidity-bot/src/lib.rs as programs, over
      the test server.
    - BotSubmit.v: the bot and the server together: what the bot may rely on a
      DEQS for ([DeqsService]), proved for the client service.
    - BotAdmin.v: liquidity-bot/src/convert, admin_service.rs, metrics.rs and
      bin/main.rs: what the bot shows and what it is fed.
    - ConvertTests.v: the unit tests of api/src/convert and of
      liquidity-bot/src/convert.
    - BotProgram.v: the bot's program: its configuration and start, and its loop
      with the wallet's thread behind it.

    The peer-to-peer network
    - Network.v: p2p/src/network_event_loop.rs, client.rs and network.rs: the
      event loop over a swarm that is a parameter ([Swarm]), with the maps of
      waiting requests, the command queue and the one-shot channels of the
      clients' calls.
    - NetBuild.v: p2p/src/network_builder.rs, the retries of client.rs and the
      codec of rpc.rs ([RpcIo]).
    - ServerNet.v: the server's peer-to-peer layer started on that network.
    - ServerProgram.v: the server's program, from its configuration to the
      running server.

    A record models a struct, an inductive type an enum; an operation that
    changes state is a function from a state to a result and a state, so that
    what is left behind by an error or a panic part of the way is visible.
    Definitions keep the names of the source where they can; prefixes ([im_],
    [sq_], [sync_], [qb_]) tell the methods of one trait apart.

    * The theorems

    - C1, C2: [Quote::new] accepts exactly the valid SCIs of three shapes, never
      panics, and builds a quote of 64-bit terms.
    - C3, C4: the price of a fill is the exact share rounded down; what the
      advertised maximum means with and without a change output.  Lemmas show a
      quote that can be built and not priced.
    - C5: the order of quotes is total and puts better rates first, on quotes
      that have a price; a lemma shows that it is not transitive on others.
    - C6 to C8: in-memory books reached by adding quotes with a price are
      well-formed; adding refines the abstract map, and [get_quotes] is its
      sorted listing.  The code does not check the price: a lemma shows a book
      that a quote without one breaks.
    - C9 to C11: table and book stay in step; a restarted server answers as
      before; what a failed commit breaks.  A lemma in BookEquiv.v shows that a
      quote whose tombstone is too far ahead makes a sweep of the SQLite book
      panic; C9 and C12 are for sweeps without such a quote.
    - C12, C13: books with the same quotes cannot be told apart by a sequence
      of operations both can carry out, and each passes the conformance tests.
    - C14 to C18: only unexpired, unspent quotes with a genuine ring are added;
      the thread catches up with the ledger and ends each round; no spent quote
      is in the book when additions are atomic; the thread does not stop while
      its book fails; the tests of the module pass however the thread runs.
    - C19 to C21: submissions, whatever order the parallel closures run in; the
      tests of the service pass; a subscriber can mirror the book from its live
      updates.
    - C22 to C25: a synchronization ends with the quotes of both peers, under
      every schedule of its tasks; peers can only inject quotes with the terms
      of their SCI; in a network of servers, when additions are atomic, every
      quote in any book is genuine and unspent, and a quote whose announcement
      is delivered to a node with its ring has its slot taken there.
    - C26 to C28: the wallet tracks exactly the unspent outputs, its scanner
      processes every block, and a restart after any stop or crash finds a state
      from which no output is missed.
    - C29 to C36: the bot never offers an output twice, and at no less than its
      rate, where the price is computed exactly; submitting and resubmitting list
      exactly what the response of the DEQS accepts and lose nothing when the RPC
      fails; the first fulfilled SCI ends the bot (its histogram has a bucket
      twice); the tests of the task pass; the bot tracks only what the wallet
      reported, and the program, however it interleaves with the wallet's
      thread, tells it exactly what the wallet holds.
    - C37 to C39: no call of the network's client is lost or answered twice; it
      returns what the call asked for, an RPC the answer to that request; all
      calls return when the loop is shut down.  The senders of the one-shot
      channels are not typed in the model, and C38 shows that the reply of
      another type, for which [call_result] has a case, does not occur.
      [shutdown] is the call on a loop that next looks at its shutdown signal.
    - C40: the codec of the network's messages.

    * Parameters and bounds

    Code outside the repository is a class parameter, with the behaviour the
    code relies on in a class of laws: the mobilecoin crates ([McLib],
    [SciCodec], [SciApi], [AccountKey], [SciBuilding], [ExternalApi]), SQLite
    ([SqlDb], [SqlitePools]), the ledger database ([Ledger], [LedgerTxOuts]), rust_decimal
    ([Decimal]), prometheus ([HistogramVecs]), serialization ([StateSerial],
    [GossipCodec]), libp2p ([Swarm], [SwarmTopics], [Libp2p], [Keypairs],
    [RpcIo]), grpcio ([GrpcIo]), and the builders, ledgers and clocks of the
    tests ([TestLib], [TestLedger], [BotTestLib], [TestOutputs], [WalletTestLib]),
    and what the programs open ([BotIo], [ServerIo]).  Each of them has a concrete
    instance (modules [Sample...] and [...Examples]) on which the theorems are
    evaluated.

    Loops that follow the data are structural.  Three are not and take a number
    of rounds: the retry loops of the thread and its looks at the ledger
    (Synchronized.v), where C15 shows that one attempt and one look per new
    block and one more are enough, and C17 that no number is when the book
    fails; the tasks of a synchronization (ServerP2P.v), which C22 shows to end
    under every fair schedule; and the sampling of a ring (LiquidityBot.v),
    which is random and may run forever ([Hangs]).

    The network of the p2p crate is a fold over its inputs (commands, events of
    the swarm, ticks, shutdown), so that its theorems hold for every order of
    them.  The system clock of the tests is a list of readings, which need not
    increase; a test whose expectations depend on the order of time stamps is
    proved for runs in which the readings it makes do ([ticks]).

    [validate_tombstone] refuses a tombstone that has passed or that is more than
    a limit of the library ahead ([TombstoneLaws], [max_tombstone_blocks]).  The
    laws of the database are about rows: the encoding of a column of integers
    by [ToSql] and [FromSql] is in SqlTypes.v with its round trip.

    * What is not modelled

    Logging; the parsing of command lines, which is the clap crate; generated
    protobuf code and the build scripts that make it; the URI schemes, which
    instantiate a trait of the mobilecoin crates; the insides of libp2p and the
    values its behaviours and transports are configured with; the registration
    of metrics with prometheus; the example program of the p2p crate.  The five
    tests that run the conformance suite on the synchronized book are left out:
    the suite is modelled over books whose state is their own, and the
    synchronized book also reads the ledger of the test. *)

From stdpp Require Export base gmap list strings pretty sorting.
From Stdlib Require Export ZArith Lia.

Declare Scope deqs_scope.
Delimit Scope deqs_scope with deqs.
Open Scope Z_scope.

(** * Outcomes of fallible Rust code

    A Rust function that returns [Result<A, E>] either returns [Ok], returns
    [Err], or panics (a failed [assert!], an index out of range, a division by
    zero, an [unwrap] of an error). *)

Inductive outcome (E A : Type) : Type :=
| Ok (a : A)
| Err (e : E)
| Panic (msg : string).
Arguments Ok {E A} a.
Arguments Err {E A} e.
Arguments Panic {E A} msg.

#[export] Instance outcome_ret {E} : MRet (outcome E) := λ _ a, Ok a.
#[export] Instance outcome_bind {E} : MBind (outcome E) := λ _ _ f m,
  match m with Ok a => f a | Err e => Err e | Panic s => Panic s end.
#[export] Instance outcome_fmap {E} : FMap (outcome E) := λ _ _ f m,
  match m with Ok a => Ok (f a) | Err e => Err e | Panic s => Panic s end.
#[export] Instance outcome_eq_dec `{EqDecision E, EqDecision A} : EqDecision (outcome E A).
Proof. solve_decision. Defined.

(** [Result::map_err] and the [?] operator's error conversion. *)
Definition map_err {E E' A} (f : E → E') (m : outcome E A) : outcome E' A :=
  match m with Ok a => Ok a | Err e => Err (f e) | Panic s => Panic s end.

(** [Option::ok_or]. *)
Definition ok_or {E A} (o : option A) (e : E) : outcome E A :=
  match o with Some a => Ok a | None => Err e end.

(** [assert!]. *)
Definition rust_assert {E} (b : bool) (msg : string) : outcome E unit :=
  if b then Ok tt else Panic msg.

(** Indexing a [Vec]: out of range panics. *)
Definition vec_index {E A} (l : list A) (i : nat) : outcome E A :=
  match l !! i with Some x => Ok x | None => Panic "index out of bounds" end.

(** [iter().map(f).collect::<Result<Vec<_>, _>>()] *)
Fixpoint collect_results {E A B} (f : A → outcome E B) (l : list A) : outcome E (list B) :=
  match l with
  | [] => Ok []
  | x :: xs => y ← f x; ys ← collect_results f xs; Ok (y :: ys)
  end.

Definition is_ok {E A} (m : outcome E A) : bool := match m with Ok _ => true | _ => false end.
Definition is_err {E A} (m : outcome E A) : bool := match m with Err _ => true | _ => false end.
Definition is_panic {E A} (m : outcome E A) : bool := match m with Panic _ => true | _ => false end.

(** ** Stateful fallible code *)

Definition stateful (S E A : Type) : Type := S → outcome E A * S.
Definition st_ret {S E A} (a : A) : stateful S E A := λ s, (Ok a, s).
Definition st_lift {S E A} (m : outcome E A) : stateful S E A := λ s, (m, s).
Definition st_bind {S E A B} (m : stateful S E A) (k : A → stateful S E B) : stateful S E B :=
  λ s, match m s with
       | (Ok a, s') => k a s'
       | (Err e, s') => (Err e, s')
       | (Panic p, s') => (Panic p, s')
       end.
Notation "x <-- m ;; k" := (st_bind m (λ x, k))
  (at level 100, m at next level, right associativity) : deqs_scope.
Notation "m ;;; k" := (st_bind m (λ _, k))
  (at level 100, right associativity) : deqs_scope.
Open Scope deqs_scope.

(** * Machine integers

    Integers are unbounded [Z]s with the wrap-around of the release profile
    ([overflow-checks = false] in Cargo.toml) written out. *)

Definition U64_MOD : Z := 2 ^ 64.
Definition U64_MAX : Z := U64_MOD - 1.
Definition U128_MOD : Z := 2 ^ 128.
Definition is_u64 (z : Z) : Prop := 0 ≤ z < U64_MOD.
Definition wrap64 (z : Z) : Z := z mod U64_MOD.
Definition wrap128 (z : Z) : Z := z mod U128_MOD.
Definition u64_add (a b : Z) : Z := wrap64 (a + b).
Definition u64_sub (a b : Z) : Z := wrap64 (a - b).
Definition u128_mul (a b : Z) : Z := wrap128 (a * b).
Definition checked_sub (a b : Z) : option Z := if b <=? a then Some (a - b) else None.
Definition saturating_add (a b : Z) : Z := Z.min (a + b) U64_MAX.
Definition saturating_sub (a b : Z) : Z := Z.max (a - b) 0.
(** [x as i64] of a [u64], and [y as u64] of an [i64]. *)
Definition as_i64 (z : Z) : Z := if wrap64 z <? 2 ^ 63 then wrap64 z else wrap64 z - U64_MOD.
Definition as_u64 (z : Z) : Z := wrap64 z.

#[export] Instance is_u64_dec z : Decision (is_u64 z).
Proof. unfold is_u64. apply _. Defined.

(** * Comparisons ([std::cmp::Ordering]) *)

(** [Ordering::then]: the lexicographic combination used by tuple [Ord]. *)
Definition cmp_then (c d : comparison) : comparison :=
  match c with Eq => d | _ => c end.

(** [Ord] on byte arrays and slices: lexicographic, shorter prefix first. *)
Fixpoint bytes_cmp (a b : list Z) : comparison :=
  match a, b with
  | [], [] => Eq
  | [], _ :: _ => Lt
  | _ :: _, [] => Gt
  | x :: xs, y :: ys => cmp_then (x ?= y) (bytes_cmp xs ys)
  end.

(** The laws of [Ord], relative to the values [P] on which they hold. *)
Class OrdOn {A} (P : A → Prop) (cmp : A → A → comparison) : Prop := {
  ord_refl x : P x → cmp x x = Eq;
  ord_opp x y : P x → P y → cmp y x = CompOpp (cmp x y);
  ord_trans x y z : P x → P y → P z → cmp x y = Lt → cmp y z = Lt → cmp x z = Lt;
}.
Arguments ord_refl {A} P cmp {_} x _.
Arguments ord_opp {A} P cmp {_} x y _ _.
Arguments ord_trans {A} P cmp {_} x y z _ _ _ _ _.

(** * [BTreeSet]: the elements in ascending order *)

Section BTreeSet.
Context {A : Type} (cmp : A → A → comparison).

(** [BTreeSet::insert]: [false] when an [Equal] element is present, in which
    case the set is unchanged. *)
Fixpoint bset_insert (x : A) (l : list A) : bool * list A :=
  match l with
  | [] => (true, [x])
  | y :: ys =>
      match cmp x y with
      | Lt => (true, x :: y :: ys)
      | Eq => (false, y :: ys)
      | Gt => let '(b, ys') := bset_insert x ys in (b, y :: ys')
      end
  end.

(** [BTreeSet::remove]: [true] when an [Equal] element was removed. *)
Fixpoint bset_remove (x : A) (l : list A) : bool * list A :=
  match l with
  | [] => (false, [])
  | y :: ys =>
      match cmp x y with
      | Lt => (false, y :: ys)
      | Eq => (true, ys)
      | Gt => let '(b, ys') := bset_remove x ys in (b, y :: ys')
      end
  end.

Definition cmp_lt (x y : A) : Prop := cmp x y = Lt.
End BTreeSet.

(** Insertion loses nothing and adds at most the new element, whatever the
    comparison. *)
Lemma bset_insert_perm {A} (cmp : A → A → comparison) x l b l' :
  bset_insert cmp x l = (b, l') → if b then l' ≡ₚ x :: l else l' = l.
Proof.
  revert b l'. induction l as [|y l IH]; intros b l'; cbn; [by intros [= <- <-]|].
  destruct (cmp x y); [by intros [= <- <-]..|].
  destruct (bset_insert cmp x l) as [b1 l1]. intros [= <- <-]. specialize (IH b1 l1 eq_refl).
  destruct b1; [rewrite IH; apply Permutation_swap|by subst].
Qed.

(** [BTreeSet::drain_filter]: the removed elements and the remaining ones. *)
Definition drain_filter {A} (p : A → bool) (l : list A) : list A * list A :=
  (filter (λ x, p x = true) l, filter (λ x, p x = false) l).

(** * [HashMap] iteration

    The iteration order of a [HashMap] is unspecified: theorems about code
    that iterates over one hold for every enumeration of its entries. *)
Class HashIter (K V : Type) `{Countable K} := {
  hash_entries : gmap K V → list (K * V);
  hash_entries_perm m : hash_entries m ≡ₚ map_to_list m;
}.

(** The enumeration stdpp's maps have. *)
#[export] Instance map_to_list_iter {K V} `{Countable K} : HashIter K V | 100 :=
  {| hash_entries := map_to_list; hash_entries_perm m := reflexivity _ |}.

(** * Tactics *)

Ltac destruct_if :=
  repeat match goal with
  | H : context [if ?b then _ else _] |- _ => destruct b eqn:?; simplify_eq/=
  | |- context [if ?b then _ else _] => destruct b eqn:?; simplify_eq/=
  end.

Ltac case_all := repeat (case_match; simplify_eq/=).

Create HintDb deqs.

(** * Lemmas on outcomes *)

Lemma bind_Ok_inv {E A B} (m : outcome E A) (f : A → outcome E B) b :
  m ≫= f = Ok b → ∃ a, m = Ok a ∧ f a = Ok b.
Proof. destruct m; naive_solver. Qed.

Lemma map_err_Ok_inv {E E' A} (f : E → E') (m : outcome E A) a :
  map_err f m = Ok a → m = Ok a.
Proof. destruct m; naive_solver. Qed.

Lemma ok_or_Ok_inv {E A} (o : option A) (e : E) a : ok_or o e = Ok a → o = Some a.
Proof. destruct o; naive_solver. Qed.

Lemma rust_assert_Ok_inv {E} b msg u : rust_assert (E:=E) b msg = Ok u → b = true.
Proof. destruct b; naive_solver. Qed.

Lemma vec_index_Ok {E A} (l : list A) i x : vec_index (E:=E) l i = Ok x ↔ l !! i = Some x.
Proof. unfold vec_index. destruct (l !! i); naive_solver. Qed.

Lemma checked_sub_Some a b c : checked_sub a b = Some c ↔ b ≤ a ∧ c = a - b.
Proof. unfold checked_sub. destruct (Z.leb_spec b a); naive_solver lia. Qed.

Lemma st_bind_Ok_inv {S E A B} (m : stateful S E A) (k : A → stateful S E B) s b s' :
  st_bind m k s = (Ok b, s') → ∃ a s1, m s = (Ok a, s1) ∧ k a s1 = (Ok b, s').
Proof. unfold st_bind. destruct (m s) as [[]]; naive_solver. Qed.

Lemma collect_results_Ok {E A B} (f : A → outcome E B) l l' :
  collect_results f l = Ok l' ↔ Forall2 (λ x y, f x = Ok y) l l'.
Proof.
  revert l'. induction l as [|x xs IH]; intros l'; cbn.
  - split; [by intros [= <-] | by inversion_clear 1].
  - split.
    + intros (y & Hy & (ys & Hys & [= <-])%bind_Ok_inv)%bind_Ok_inv.
      constructor; [done | by apply IH].
    + inversion_clear 1 as [|? y ? ys Hy Hys]. by rewrite Hy, (proj2 (IH ys) Hys).
Qed.

Lemma collect_results_fails {E A B} (f : A → outcome E B) l r :
  collect_results f l = r → is_ok r = false → ∃ x, x ∈ l ∧
    match r with Ok _ => False | Err e => f x = Err e | Panic p => f x = Panic p end.
Proof.
  intros <-. induction l as [|x xs IH]; [done|]. cbn.
  destruct (f x) as [y|e|p] eqn:Hx; cbn; [|by exists x; split; [left|]..].
  destruct (collect_results f xs) as [ys|e|p]; cbn in *; [done|..];
    intros Hr; destruct (IH Hr) as (z & Hz & Hf); exists z; by split; [right|].
Qed.

(** Turns every [_ = Ok _] hypothesis about a monadic term into the results of
    its steps. *)
Ltac inv_ok :=
  repeat match goal with
  | H : _ ≫= _ = Ok _ |- _ => apply bind_Ok_inv in H as (? & ? & H)
  | H : map_err _ _ = Ok _ |- _ => apply map_err_Ok_inv in H
  | H : ok_or _ _ = Ok _ |- _ => apply ok_or_Ok_inv in H
  | H : rust_assert _ _ = Ok _ |- _ => apply rust_assert_Ok_inv in H
  | H : vec_index _ _ = Ok _ |- _ => apply vec_index_Ok in H
  | H : checked_sub _ _ = Some _ |- _ => apply checked_sub_Some in H as [? H]
  end; simplify_eq/=.

(** * Lemmas on machine integers *)

Lemma wrap64_small z : is_u64 z → wrap64 z = z.
Proof. unfold wrap64, is_u64. apply Z.mod_small. Qed.

Lemma wrap64_u64 z : is_u64 (wrap64 z).
Proof. unfold is_u64, wrap64. apply Z.mod_pos_bound. done. Qed.

(** The product of two [u64]s fits in a [u128]. *)
Lemma u128_mul_u64 a b : is_u64 a → is_u64 b → u128_mul a b = a * b.
Proof.
  unfold is_u64, u128_mul, wrap128, U64_MOD, U128_MOD. intros. apply Z.mod_small.
  change (2 ^ 128) with (2 ^ 64 * 2 ^ 64). nia.
Qed.

Lemma as_i64_bounds z : - 2 ^ 63 ≤ as_i64 z < 2 ^ 63.
Proof.
  pose proof (wrap64_u64 z) as H. unfold as_i64, is_u64, U64_MOD in *.
  destruct (Z.ltb_spec (wrap64 z) (2 ^ 63)); lia.
Qed.

(** Casting a [u64] to [i64] and back loses nothing. *)
Lemma as_u64_as_i64 z : is_u64 z → as_u64 (as_i64 z) = z.
Proof.
  intros Hz. unfold as_u64, as_i64. rewrite (wrap64_small z Hz).
  destruct (Z.ltb_spec z (2 ^ 63)); [by apply wrap64_small|].
  unfold wrap64. rewrite <-(Z.mod_small z U64_MOD Hz) at 2.
  rewrite <-(Z.mod_add (z - U64_MOD) 1 U64_MOD) by done. f_equal. lia.
Qed.

Lemma as_i64_small z : 0 ≤ z < 2 ^ 63 → as_i64 z = z.
Proof.
  intros. unfold as_i64. rewrite wrap64_small by (unfold is_u64, U64_MOD; lia).
  by rewrite (proj2 (Z.ltb_lt _ _)) by lia.
Qed.

Lemma as_i64_large z : 2 ^ 63 ≤ z → is_u64 z → as_i64 z < 0.
Proof.
  intros Hz Hu. unfold as_i64. rewrite wrap64_small by done. rewrite (proj2 (Z.ltb_ge _ _) Hz).
  destruct Hu. lia.
Qed.

Lemma as_i64_inj a b : is_u64 a → is_u64 b → as_i64 a = as_i64 b → a = b.
Proof. intros Ha Hb H. by rewrite <-(as_u64_as_i64 a Ha), H, as_u64_as_i64. Qed.

#[export] Hint Resolve wrap64_u64 : deqs.

(** * Lemmas on comparisons *)

Lemma CompOpp_Lt c : CompOpp c = Lt ↔ c = Gt.
Proof. by destruct c. Qed.
Lemma CompOpp_Gt c : CompOpp c = Gt ↔ c = Lt.
Proof. by destruct c. Qed.

Lemma cmp_then_opp c d : CompOpp (cmp_then c d) = cmp_then (CompOpp c) (CompOpp d).
Proof. by destruct c. Qed.

Lemma cmp_then_Lt c d : cmp_then c d = Lt ↔ c = Lt ∨ (c = Eq ∧ d = Lt).
Proof. destruct c; naive_solver. Qed.
Lemma cmp_then_Eq c d : cmp_then c d = Eq ↔ c = Eq ∧ d = Eq.
Proof. destruct c; naive_solver. Qed.

Lemma bytes_cmp_refl a : bytes_cmp a a = Eq.
Proof. induction a as [|x a IH]; [done|]. cbn. by rewrite Z.compare_refl. Qed.

Lemma bytes_cmp_Eq a b : bytes_cmp a b = Eq ↔ a = b.
Proof.
  split; [|intros ->; apply bytes_cmp_refl].
  revert b. induction a as [|x a IH]; intros [|y b]; cbn; try done.
  rewrite cmp_then_Eq, Z.compare_eq_iff. intros [-> ?]. f_equal. auto.
Qed.

Lemma bytes_cmp_opp a b : bytes_cmp b a = CompOpp (bytes_cmp a b).
Proof.
  revert b. induction a as [|x a IH]; intros [|y b]; cbn; try done.
  by rewrite cmp_then_opp, <-IH, <-Z.compare_antisym.
Qed.

Lemma bytes_cmp_trans a b c : bytes_cmp a b = Lt → bytes_cmp b c = Lt → bytes_cmp a c = Lt.
Proof.
  revert b c. induction a as [|x a IH]; intros [|y b] [|z c]; cbn; try done.
  rewrite !cmp_then_Lt, !Z.compare_lt_iff, !Z.compare_eq_iff.
  intros [?|[-> ?]] [?|[-> ?]]; eauto with lia.
Qed.

(** ** Weak orders, closed under [cmp_then]

    A key comparison may return [Eq] on different values; [Ord] by a tuple of
    keys is the lexicographic combination of such weak orders. *)
Class WeakOrdOn {A} (P : A → Prop) (cmp : A → A → comparison) : Prop := {
  weak_refl x : P x → cmp x x = Eq;
  weak_opp x y : P x → P y → cmp y x = CompOpp (cmp x y);
  weak_trans x y z : P x → P y → P z → cmp x y = Lt → cmp y z = Lt → cmp x z = Lt;
  weak_eq x y z : P x → P y → P z → cmp x y = Eq → cmp x z = cmp y z;
}.

Lemma weak_eq_r {A} (P : A → Prop) cmp `{!WeakOrdOn P cmp} x y z :
  P x → P y → P z → cmp y z = Eq → cmp x y = cmp x z.
Proof.
  intros Px Py Pz E. rewrite (weak_opp (P:=P) (cmp:=cmp) y x), (weak_opp (P:=P) (cmp:=cmp) z x) by done.
  f_equal. by apply (weak_eq (P:=P)).
Qed.

#[export] Instance weak_then {A} (P : A → Prop) c1 c2 :
  WeakOrdOn P c1 → WeakOrdOn P c2 → WeakOrdOn P (λ x y, cmp_then (c1 x y) (c2 x y)).
Proof.
  intros W1 W2. split; intros.
  - by rewrite weak_refl, weak_refl.
  - rewrite cmp_then_opp. f_equal; by apply weak_opp.
  - rewrite cmp_then_Lt in *.
    destruct (c1 x y) eqn:Exy; [|left|naive_solver].
    + rewrite (weak_eq (P:=P) (cmp:=c1) x y z) by done.
      destruct (c1 y z); naive_solver (by eauto using weak_trans).
    + destruct (c1 y z) eqn:Eyz; [|by eauto using weak_trans|naive_solver].
      by rewrite <-(weak_eq_r P c1 x y z).
  - rewrite cmp_then_Eq in *. destruct_and?.
    rewrite (weak_eq (P:=P) (cmp:=c1) x y z), (weak_eq (P:=P) (cmp:=c2) x y z) by done. done.
Qed.

#[export] Instance weak_ord {A} (P : A → Prop) cmp : WeakOrdOn P cmp → OrdOn P cmp.
Proof. intros W. split; intros; eauto using weak_refl, weak_opp, weak_trans. Qed.

Lemma weak_key_Z {A} (P : A → Prop) (f : A → Z) : WeakOrdOn P (λ x y, f x ?= f y).
Proof.
  split; intros.
  - apply Z.compare_refl.
  - apply Z.compare_antisym.
  - rewrite Z.compare_lt_iff in *. lia.
  - rewrite Z.compare_eq_iff in *. congruence.
Qed.

Lemma weak_key_bytes {A} (P : A → Prop) (f : A → list Z) : WeakOrdOn P (λ x y, bytes_cmp (f x) (f y)).
Proof.
  split; intros.
  - apply bytes_cmp_refl.
  - apply bytes_cmp_opp.
  - by eapply bytes_cmp_trans.
  - rewrite bytes_cmp_Eq in *. congruence.
Qed.

(** * Lemmas on ordered sets *)

Section BTreeSetLemmas.
Context {A : Type} (P : A → Prop) (cmp : A → A → comparison) `{!OrdOn P cmp}.
Local Abbreviation sorted := (StronglySorted (cmp_lt cmp)).

Lemma cmp_Gt_Lt x y : P x → P y → cmp x y = Gt ↔ cmp y x = Lt.
Proof. intros. rewrite (ord_opp P cmp x y) by done. by rewrite CompOpp_Lt. Qed.

Lemma bset_insert_spec x l b l' :
  P x → Forall P l → sorted l → bset_insert cmp x l = (b, l') →
  sorted l' ∧ Forall P l' ∧ (if b then l' ≡ₚ x :: l else l' = l ∧ Exists (λ y, cmp x y = Eq) l).
Proof.
  intros Px. revert b l'.
  induction l as [|y ys IH]; intros b l' HP HS Hins; cbn in Hins; simplify_eq.
  { repeat constructor; done. }
  apply Forall_cons in HP as [Py HP]. apply StronglySorted_inv in HS as [HS Hy].
  destruct (cmp x y) eqn:E; simplify_eq.
  - repeat split; try constructor; auto.
  - repeat split; try (constructor; auto); auto.
    + by constructor.
    + constructor; [done|]. rewrite Forall_forall in Hy |- *. intros z Hz.
      eapply (ord_trans P cmp x y z); try done; [|by apply Hy].
      rewrite Forall_forall in HP. by apply HP.
  - destruct (bset_insert cmp x ys) as [b' ys'] eqn:Eins. simplify_eq.
    destruct (IH b ys' HP HS eq_refl) as (HS' & HP' & Hb).
    rewrite cmp_Gt_Lt in E by done. repeat split; [|by constructor|].
    + constructor; [done|]. destruct b; [|by destruct Hb as [-> _]].
      rewrite Hb. constructor; done.
    + destruct b; [by rewrite Hb; constructor|]. destruct Hb as [-> ?].
      split; [done | by apply Exists_cons_tl].
Qed.

Lemma bset_remove_spec x l :
  Forall P l → sorted l → x ∈ l →
  ∃ l', bset_remove cmp x l = (true, l') ∧ sorted l' ∧ Forall P l' ∧ l ≡ₚ x :: l'.
Proof.
  intros HP HS Hx. induction l as [|y ys IH]; [by apply elem_of_nil in Hx|].
  apply Forall_cons in HP as [Py HP]. apply StronglySorted_inv in HS as [HS Hy].
  cbn. apply elem_of_cons in Hx as [->|Hx].
  - rewrite (ord_refl P cmp y) by done. by exists ys.
  - rewrite Forall_forall in HP. assert (cmp x y = Gt) as ->.
    { apply cmp_Gt_Lt; [by apply HP|done|]. rewrite Forall_forall in Hy. by apply Hy. }
    rewrite <-Forall_forall in HP. destruct (IH HP HS Hx) as (ys' & -> & HS' & HP' & Hperm).
    exists (y :: ys'). repeat split; [|by constructor|by rewrite Hperm; constructor].
    constructor; [done|]. rewrite Hperm in Hy. by inversion Hy.
Qed.

Lemma sorted_filter (p : A → Prop) `{!∀ x, Decision (p x)} l : sorted l → sorted (filter p l).
Proof.
  induction 1 as [|x l HS IH Hx]; [constructor|]. rewrite filter_cons.
  case_decide; [|done]. constructor; [done|]. rewrite Forall_forall in Hx |- *.
  intros y [_ ?]%list_elem_of_filter. by apply Hx.
Qed.

(** A strictly sorted list is determined by its elements. *)
Lemma StronglySorted_unique_on l1 l2 :
  Forall P l1 → sorted l1 → sorted l2 → l1 ≡ₚ l2 → l1 = l2.
Proof.
  revert l2. induction l1 as [|x l1 IH]; intros [|y l2] HP HS1 HS2 Hperm;
    [done|by apply Permutation_nil_l in Hperm|by apply symmetry, Permutation_nil_l in Hperm|].
  assert (Forall P (y :: l2)) as HP2 by by rewrite <-Hperm.
  apply Forall_cons in HP as [Px HP], HP2 as [Py HP2].
  apply StronglySorted_inv in HS1 as [HS1 Hx], HS2 as [HS2 Hy].
  rewrite Forall_forall in Hx, Hy. assert (x = y) as ->.
  { assert (x ∈ y :: l2) as [->|Hx2]%elem_of_cons by (rewrite <-Hperm; apply list_elem_of_here); [done|].
    assert (y ∈ x :: l1) as [->|Hy1]%elem_of_cons by (rewrite Hperm; apply list_elem_of_here); [done|].
    specialize (Hx _ Hy1). specialize (Hy _ Hx2). unfold cmp_lt in *.
    rewrite (ord_opp P cmp x y) in Hy by done. by rewrite Hx in Hy. }
  f_equal. apply IH; auto. by eapply Permutation_cons_inv.
Qed.
End BTreeSetLemmas.

(** * Lemmas on lists *)

Lemma drain_filter_perm {A} (p : A → bool) (l : list A) :
  (drain_filter p l).1 ++ (drain_filter p l).2 ≡ₚ l.
Proof.
  unfold drain_filter; cbn. induction l as [|x l IH]; [done|].
  rewrite !filter_cons. destruct (p x); repeat case_decide; try done; cbn.
  - by constructor.
  - rewrite <-Permutation_middle. by constructor.
Qed.

Lemma find_Some {A} (P : A → Prop) `{!∀ x, Decision (P x)} (l : list A) i x :
  list_find P l = Some (i, x) → x ∈ l ∧ P x.
Proof. intros (Hl & ? & _)%list_find_Some. split; [by eapply list_elem_of_lookup_2|done]. Qed.

Section ListLemmas.
Context {A B : Type}.
Implicit Types l k : list A.

Lemma list_filter_all (P : A → Prop) `{!∀ x, Decision (P x)} l : (∀ x, x ∈ l → P x) → filter P l = l.
Proof.
  induction l as [|x l IH]; intros HP; [done|].
  rewrite filter_cons_True by (apply HP; apply list_elem_of_here).
  f_equal. apply IH. intros y Hy. apply HP. by apply list_elem_of_further.
Qed.

Lemma list_filter_none (P : A → Prop) `{!∀ x, Decision (P x)} l : (∀ x, x ∈ l → ¬ P x) → filter P l = [].
Proof.
  induction l as [|x l IH]; intros HP; [done|].
  rewrite filter_cons_False by (apply HP; apply list_elem_of_here).
  apply IH. intros y Hy. apply HP. by apply list_elem_of_further.
Qed.

Lemma list_filter_ext (P Q : A → Prop) `{!∀ x, Decision (P x), !∀ x, Decision (Q x)} l :
  (∀ x, x ∈ l → P x ↔ Q x) → filter P l = filter Q l.
Proof.
  induction l as [|x l IH]; intros HPQ; [done|].
  assert (P x ↔ Q x) as Hx by (apply HPQ; apply list_elem_of_here).
  rewrite !filter_cons, IH by (intros y Hy; apply HPQ; by apply list_elem_of_further).
  repeat case_decide; tauto.
Qed.

Lemma filter_length_lt (P Q : A → Prop) `{!∀ x, Decision (P x), !∀ x, Decision (Q x)} l :
  (∀ x, x ∈ l → P x → Q x) → (∃ x, x ∈ l ∧ Q x ∧ ¬ P x) → (length (filter P l) < length (filter Q l))%nat.
Proof.
  induction l as [|y l IH]; intros HPQ (x & Hx & HQ & HP); [by apply elem_of_nil in Hx|].
  assert (length (filter P l) ≤ length (filter Q l))%nat as Hle.
  { clear IH Hx. assert (∀ z, z ∈ l → P z → Q z) as Hl by (intros; apply HPQ; [by right|done]). clear HPQ.
    induction l as [|z l IH]; [done|]. rewrite !filter_cons.
    assert (length (filter P l) ≤ length (filter Q l))%nat by (apply IH; intros; apply Hl; [by right|done]).
    repeat case_decide; cbn; try lia.
    match goal with HQ : ¬ Q z |- _ => destruct HQ; apply Hl; [by left|done] end. }
  rewrite !filter_cons. apply elem_of_cons in Hx as [->|Hx].
  - rewrite decide_False, decide_True by done. cbn. lia.
  - assert (length (filter P l) < length (filter Q l))%nat.
    { apply IH; [intros; apply HPQ; [by right|done]|eauto]. }
    repeat case_decide; cbn; try lia.
    match goal with HQ : ¬ Q y |- _ => destruct HQ; apply HPQ; [by left|done] end.
Qed.

Lemma filter_fmap (f : A → B) (P : B → Prop) `{!∀ y, Decision (P y)} l :
  filter P (f <$> l) = f <$> filter (λ x, P (f x)) l.
Proof.
  induction l as [|x l IH]; [done|]. rewrite fmap_cons, !filter_cons, IH. by case_decide.
Qed.

Lemma NoDup_submseteq_inv l k : l ⊆+ k → NoDup k → NoDup l.
Proof. intros [k' ->]%submseteq_Permutation. by intros [? _]%NoDup_app. Qed.

Lemma Forall_submseteq (P : A → Prop) l k : l ⊆+ k → Forall P k → Forall P l.
Proof. intros [k' ->]%submseteq_Permutation. by intros [? _]%Forall_app. Qed.

Lemma filter_submseteq (P : A → Prop) `{!∀ x, Decision (P x)} l : filter P l ⊆+ l.
Proof. apply sublist_submseteq. apply sublist_filter. Qed.

Lemma NoDup_fmap_inj_on (f : A → B) l x y :
  NoDup (f <$> l) → x ∈ l → y ∈ l → f x = f y → x = y.
Proof.
  intros Hnd [i Hi]%list_elem_of_lookup [j Hj]%list_elem_of_lookup Hf.
  assert (i = j) as ->; [|congruence].
  eapply NoDup_lookup; [exact Hnd|..].
  - rewrite list_lookup_fmap, Hi. done.
  - rewrite list_lookup_fmap, Hj, Hf. done.
Qed.
End ListLemmas.

Lemma NoDup_fmap_fresh {A B} (f : A → B) x l k :
  NoDup (f <$> (x :: l) ++ k) → f x ∉ f <$> k ∧ f x ∉ f <$> l ++ k ∧ NoDup (f <$> l ++ k).
Proof.
  cbn. rewrite NoDup_cons. intros [Hx Hnd]. repeat split; [|exact Hx|exact Hnd].
  intros Hk. apply Hx. apply list_elem_of_fmap in Hk as (y & -> & Hy).
  apply list_elem_of_fmap_2. apply elem_of_app. by right.
Qed.

(** An invariant of every step is an invariant of every run. *)
Lemma rtc_preserve {A} (R : relation A) (P : A → Prop) x y :
  (∀ a b, P a → R a b → P b) → P x → rtc R x y → P y.
Proof. intros Hstep Hx Hrun. induction Hrun; eauto. Qed.
