(* ===== verification/McTypes.v ===== *)
(** The MobileCoin data the DEQS handles.

    The types come from the [mobilecoin] git submodule, which is not part of
    this repository.  The records below have the fields the DEQS reads; what a
    value holds besides is kept as an opaque byte string, so that equality of
    two values is not decided by the fields read here.  The operations of the
    submodule that the DEQS calls are the parameters of the class [McLib]. *)

From S2P Require Import Prelude.

Abbreviation bytes := (list Z) (only parsing).
Abbreviation TokenId := Z (only parsing).
Abbreviation BlockIndex := Z (only parsing).
Abbreviation KeyImage := (list Z) (only parsing).

(** [mc_transaction_types::Amount], and [UnmaskedAmount]'s value and token. *)
Record Amount := { amt_value : Z; amt_token_id : TokenId }.

(** [mc_transaction_core::tx::TxOut] *)
Record TxOut := { txo_public_key : bytes; txo_target_key : bytes; txo_rest : bytes }.

(** [mc_transaction_core::RevealedTxOut]: a TxOut with the secret that reveals its amount. *)
Record RevealedTxOut := { rto_tx_out : TxOut; rto_secret : bytes }.

(** [mc_transaction_core::InputRules] *)
Record InputRules := {
  required_outputs : list TxOut;
  partial_fill_outputs : list RevealedTxOut;
  partial_fill_change : option RevealedTxOut;
  min_partial_fill_value : Z;
  max_tombstone_block : Z;
}.

(** [mc_transaction_core::tx::TxIn] *)
Record TxIn := { ring : list TxOut; input_rules : option InputRules }.

(** [mc_transaction_extra::SignedContingentInput] *)
Record SignedContingentInput := {
  pseudo_output_amount : Amount;
  required_output_amounts : list Amount;
  tx_in : TxIn;
  tx_out_global_indices : list Z;
  sci_signature : bytes;
}.

(** Error values of the submodule, by their display text. *)
Abbreviation SciError := string (only parsing).
Abbreviation RevealedTxOutError := string (only parsing).

#[export] Instance Amount_eq_dec : EqDecision Amount.
Proof. solve_decision. Defined.
#[export] Instance TxOut_eq_dec : EqDecision TxOut.
Proof. solve_decision. Defined.
#[export] Instance RevealedTxOut_eq_dec : EqDecision RevealedTxOut.
Proof. solve_decision. Defined.
#[export] Instance InputRules_eq_dec : EqDecision InputRules.
Proof. solve_decision. Defined.
#[export] Instance TxIn_eq_dec : EqDecision TxIn.
Proof. solve_decision. Defined.
#[export] Instance SignedContingentInput_eq_dec : EqDecision SignedContingentInput.
Proof. solve_decision. Defined.

(** The operations of the submodule on these types that the DEQS calls. *)
Class McLib := {
  (** [SignedContingentInput::validate] *)
  sci_validate : SignedContingentInput → outcome SciError unit;
  (** [SignedContingentInput::key_image] *)
  sci_key_image : SignedContingentInput → KeyImage;
  (** [sci.digest32::<MerlinTranscript>(context)] *)
  sci_digest32 : string → SignedContingentInput → bytes;
  (** [RevealedTxOut::reveal_amount]: the amount and its blinding *)
  reveal_amount : RevealedTxOut → outcome RevealedTxOutError (Amount * bytes);
  (** [mc_transaction_core::validation::validate_tombstone] *)
  validate_tombstone : BlockIndex → BlockIndex → outcome string unit;
}.

(** What the DEQS relies on: a valid SCI reveals one amount per required
    output, amounts are 64-bit, digests are 32 bytes, and none of these
    functions panics. *)
Class McLibLaws (M : McLib) : Prop := {
  validate_required_amounts sci ir :
    sci_validate sci = Ok tt → input_rules (tx_in sci) = Some ir →
    length (required_output_amounts sci) = length (required_outputs ir);
  validate_no_panic sci p : sci_validate sci ≠ Panic p;
  reveal_no_panic rto p : reveal_amount rto ≠ Panic p;
  reveal_u64 rto a b :
    reveal_amount rto = Ok (a, b) → is_u64 (amt_value a) ∧ is_u64 (amt_token_id a);
  digest32_length ctx sci : length (sci_digest32 ctx sci) = 32%nat;
}.

(** [validate_tombstone] rejects a tombstone block that has been reached
    ([TombstoneBlockExceeded]) and one more than [MAX_TOMBSTONE_BLOCKS] blocks
    ahead of the current one ([TombstoneBlockTooFar]). *)
Class TombstoneLaws (M : McLib) := {
  max_tombstone_blocks : Z;
  max_tombstone_blocks_bound : 0 < max_tombstone_blocks < 2 ^ 32;
  validate_tombstone_spec n t : 0 ≤ n < 2 ^ 63 →
    is_err (validate_tombstone n t) = (t <=? n) || (n + max_tombstone_blocks <? t);
}.

(** The machine widths of an SCI's integers. *)
Definition amount_wf (a : Amount) : Prop := is_u64 (amt_value a) ∧ is_u64 (amt_token_id a).
Record sci_wf (sci : SignedContingentInput) : Prop := {
  wf_pseudo : amount_wf (pseudo_output_amount sci);
  wf_required : Forall amount_wf (required_output_amounts sci);
  wf_rules ir : input_rules (tx_in sci) = Some ir →
    is_u64 (min_partial_fill_value ir) ∧ is_u64 (max_tombstone_block ir);
}.

(** A small concrete library, for evaluating the model on examples: the key
    image is the first byte of the signature, the digest its remaining bytes
    padded to 32, a secret is the amount in clear. *)
Module Sample.
Definition validate (sci : SignedContingentInput) : outcome SciError unit :=
  match input_rules (tx_in sci) with
  | Some ir =>
      if decide (length (required_output_amounts sci) = length (required_outputs ir)) then Ok tt
      else Err "WrongNumberOfRequiredOutputAmounts"
  | None => Ok tt
  end.

Definition reveal (rto : RevealedTxOut) : outcome RevealedTxOutError (Amount * bytes) :=
  match rto_secret rto with
  | [v; t] =>
      if bool_decide (is_u64 v ∧ is_u64 t) then Ok ({| amt_value := v; amt_token_id := t |}, [])
      else Err "Amount"
  | _ => Err "Amount"
  end.

#[export] Instance sample_lib : McLib := {|
  sci_validate := validate;
  sci_key_image sci := take 1 (sci_signature sci);
  sci_digest32 _ sci := resize 32 0 (drop 1 (sci_signature sci));
  reveal_amount := reveal;
  validate_tombstone cur t :=
    if t <=? cur then Err "TombstoneBlockExceeded"
    else if cur + 20160 <? t then Err "TombstoneBlockTooFar" else Ok tt;
|}.

#[export] Program Instance sample_tombstones : TombstoneLaws sample_lib := {| max_tombstone_blocks := 20160 |}.
Next Obligation. lia. Qed.
Next Obligation. intros n t _. cbn. by destruct (t <=? n), (n + 20160 <? t). Qed.

#[export] Instance sample_laws : McLibLaws sample_lib.
Proof.
  split; cbn; unfold validate, reveal.
  - intros sci ir Hv Hir. rewrite Hir in Hv. by case_decide.
  - intros sci p. by case_all.
  - intros rto p. by case_all.
  - intros rto a b Ha. case_all. by case_bool_decide; simplify_eq/=.
  - intros _ sci. by rewrite length_resize.
Qed.

Definition tx_out (k : Z) : TxOut := {| txo_public_key := [k]; txo_target_key := [k]; txo_rest := [] |}.
Definition amount (v t : Z) : Amount := {| amt_value := v; amt_token_id := t |}.

(** An SCI with key image [ki] and digest starting with [id], offering
    [value] of token 1. *)
Definition sci (ki id value : Z) (required : list Amount) (partial : list (Z * Z))
    (min_fill tombstone : Z) : SignedContingentInput := {|
  pseudo_output_amount := amount value 1;
  required_output_amounts := required;
  tx_in := {|
    ring := [tx_out ki];
    input_rules := Some {|
      required_outputs := (λ a, tx_out (amt_value a)) <$> required;
      partial_fill_outputs := (λ '(v, t), {| rto_tx_out := tx_out v; rto_secret := [v; t] |}) <$> partial;
      partial_fill_change := None;
      min_partial_fill_value := min_fill;
      max_tombstone_block := tombstone;
    |} |};
  tx_out_global_indices := [ki];
  sci_signature := [ki; id];
|}.

(** 10 of token 1 against 20 of token 2, all or nothing. *)
Definition sci_full (ki id : Z) : SignedContingentInput := sci ki id 10 [amount 20 2] [] 0 0.
(** Up to 10 of token 1, at least 3, against 100 of token 2, with [change]
    returned to the offerer. *)
Definition sci_partial (ki id change : Z) : SignedContingentInput :=
  sci ki id 10 (if decide (change = 0) then [] else [amount change 1]) [(100, 2)] 3 0.

Lemma sci_samples_wf ki id :
  sci_wf (sci_full ki id) ∧ sci_wf (sci_partial ki id 0) ∧ sci_wf (sci_partial ki id 2).
Proof. repeat split; repeat (constructor; try done); cbn in *; by simplify_eq/=. Qed.
End Sample.
