(* ===== verification/QuoteApi.v ===== *)
(** The quote data model: quote-book/api (basic_types.rs, error.rs, quote.rs).

    [Quote] with its constructors, the price computation
    [counter_tokens_cost] and the [Ord] instance the books sort by. *)

From S2P Require Import Prelude McTypes.

(** * basic_types.rs *)

Record Pair := { base_token_id : TokenId; counter_token_id : TokenId }.

#[export] Instance Pair_eq_dec : EqDecision Pair.
Proof. solve_decision. Defined.
#[export] Program Instance Pair_countable : Countable Pair :=
  inj_countable' (λ p, (base_token_id p, counter_token_id p)) (λ '(b, c), {| base_token_id := b; counter_token_id := c |}) _.
Next Obligation. by intros []. Qed.

(** [QuoteId(pub [u8; 32])] *)
Abbreviation QuoteId := (list Z) (only parsing).

(** [impl From<&SignedContingentInput> for QuoteId] *)
Definition quote_id_from_sci `{McLib} (sci : SignedContingentInput) : QuoteId :=
  sci_digest32 "deqs-sci-quote-id" sci.

(** [impl TryFrom<&[u8]> for QuoteId]: a slice converts to [[u8; 32]] exactly
    when it has 32 bytes. *)
Definition quote_id_try_from (b : bytes) : outcome string QuoteId :=
  if decide (length b = 32%nat) then Ok b
  else Err "could not convert slice to array".

(** One nibble and [hex::encode], for [impl fmt::Display for QuoteId]. *)
Definition hex_digit (d : Z) : string :=
  match String.get (Z.to_nat d) "0123456789abcdef" with
  | Some c => String c EmptyString
  | None => ""
  end.
Definition quote_id_display (id : QuoteId) : string :=
  String.concat "" (map (λ b, hex_digit (b / 16) +:+ hex_digit (b mod 16)) id).

(** * quote.rs: the data *)

Record Quote := {
  q_sci : SignedContingentInput;
  q_id : QuoteId;
  q_pair : Pair;
  q_base_range : Z * Z;
  q_max_counter_tokens : Z;
  q_timestamp : Z;
}.

#[export] Instance Quote_eq_dec : EqDecision Quote.
Proof. solve_decision. Defined.

(** * error.rs *)

Inductive Error :=
| SciErr (e : SciError)
| UnsupportedSci (msg : string)
| QuoteAlreadyExists (existing_quote : Quote)
| QuoteNotFound
| QuoteIsStale
| InsufficientBaseTokens (n : Z)
| InvalidRing (msg : string)
| ImplementationSpecific (msg : string)
| RevealedTxOutErr (e : RevealedTxOutError)
| LockPoisoned
| TimeErr.

#[export] Instance Error_eq_dec : EqDecision Error.
Proof. solve_decision. Defined.

(** The [displaydoc] text of an error. *)
Definition error_display (e : Error) : string :=
  match e with
  | SciErr e => "SCI: " +:+ e
  | UnsupportedSci m => "Unsupported SCI: " +:+ m
  | QuoteAlreadyExists _ => "Quote already exists in book"
  | QuoteNotFound => "Quote not found"
  | QuoteIsStale => "Quote has a spent keyimage"
  | InsufficientBaseTokens n =>
      "Quote cannot fulfill the desired amount (" +:+ pretty n +:+ ") of base tokens"
  | InvalidRing m => "Quote has an invalid ring: " +:+ m
  | ImplementationSpecific m => "Implementation specific error: " +:+ m
  | RevealedTxOutErr e => "RevealedTxOut: " +:+ e
  | LockPoisoned => "LockPoisoned"
  | TimeErr => "Time conversion error"
  end.

(** * quote.rs: the operations *)

(** The default timestamp of [Quote::new]: the system clock, in nanoseconds
    since the epoch ([None] when the clock is before it), as a [u64]. *)
Definition default_timestamp (now : option Z) : outcome Error Z :=
  d ← ok_or now TimeErr;
  if bool_decide (is_u64 d) then Ok d else Err TimeErr.

Definition unsupported_counts (r p : nat) : Error :=
  UnsupportedSci ("Unsupported number of required/partial outputs "
                    +:+ pretty r +:+ "/" +:+ pretty p).

Section Operations.
Context `{McLib}.

(** The match of [Quote::new] on the numbers of required and partial
    outputs: the counter token, the base range and the counter amount. *)
Definition quote_terms (sci : SignedContingentInput) (ir : InputRules) :
    outcome Error (TokenId * (Z * Z) * Z) :=
  let base := amt_token_id (pseudo_output_amount sci) in
  let value := amt_value (pseudo_output_amount sci) in
  match length (required_outputs ir), length (partial_fill_outputs ir) with
  | O, O => Err (UnsupportedSci "No required/partial outputs")
  | S O, O =>
      a ← vec_index (required_output_amounts sci) 0;
      Ok (amt_token_id a, (value, value), amt_value a)
  | (O | S O) as num_required_outputs, S O =>
      pf ← vec_index (partial_fill_outputs ir) 0;
      '(amount, _) ← map_err RevealedTxOutErr (reveal_amount pf);
      let min_base_amount := min_partial_fill_value ir in
      max_base_amount ←
        match num_required_outputs with
        | O => Ok value
        | _ =>
            change ← vec_index (required_output_amounts sci) 0;
            if bool_decide (amt_token_id change ≠ base) then
              Err (UnsupportedSci
                     ("Suspected required-change-output token id " +:+ pretty (amt_token_id change)
                        +:+ " does not match partial output token id " +:+ pretty (amt_token_id amount)))
            else
              ok_or (checked_sub value (amt_value change))
                (UnsupportedSci ("max base amount " +:+ pretty value
                                   +:+ " is lower than required change " +:+ pretty (amt_value change)))
        end;
      Ok (amt_token_id amount, (min_base_amount, max_base_amount), amt_value amount)
  | r, p => Err (unsupported_counts r p)
  end.

(** [Quote::new]; [now] is the system clock. *)
Definition quote_new (now : option Z) (sci : SignedContingentInput) (timestamp : option Z) :
    outcome Error Quote :=
  timestamp ← match timestamp with Some t => Ok t | None => default_timestamp now end;
  _ ← map_err SciErr (sci_validate sci);
  ir ← ok_or (input_rules (tx_in sci)) (UnsupportedSci "Missing input rules");
  '(counter, base_range, max_counter) ← quote_terms sci ir;
  Ok {| q_sci := sci;
        q_id := quote_id_from_sci sci;
        q_pair := {| base_token_id := amt_token_id (pseudo_output_amount sci);
                     counter_token_id := counter |};
        q_base_range := base_range;
        q_max_counter_tokens := max_counter;
        q_timestamp := timestamp |}.

(** [Quote::new_from_fields] *)
Definition quote_new_from_fields sci id pair base_range max_counter timestamp : Quote :=
  {| q_sci := sci; q_id := id; q_pair := pair; q_base_range := base_range;
     q_max_counter_tokens := max_counter; q_timestamp := timestamp |}.

(** [impl TryFrom<SignedContingentInput> for Quote] *)
Definition quote_try_from_sci (now : option Z) (sci : SignedContingentInput) : outcome Error Quote :=
  quote_new now sci None.

(** [Quote::max_base_tokens] *)
Definition max_base_tokens (q : Quote) : Z := (q_base_range q).2.

(** [RangeInclusive::contains] *)
Definition range_contains (r : Z * Z) (x : Z) : bool := (r.1 <=? x) && (x <=? r.2).

(** The partial-fill branch of [counter_tokens_cost]. *)
Definition partial_fill_cost (q : Quote) (ir : InputRules) (num_required_outputs : nat)
    (base_tokens : Z) : outcome Error Z :=
  let sci := q_sci q in
  let value := amt_value (pseudo_output_amount sci) in
  _ ← rust_assert (min_partial_fill_value ir <=? base_tokens) "base_tokens >= min_partial_fill_value";
  max_available_amount ←
    match num_required_outputs with
    | S O =>
        change ← vec_index (required_output_amounts sci) 0;
        _ ← rust_assert (amt_value change <? value) "max_available_amount > required change";
        Ok (u64_sub value (amt_value change))
    | _ => Ok value
    end;
  _ ← rust_assert (base_tokens <=? max_available_amount) "base_tokens <= max_available_amount";
  pf ← vec_index (partial_fill_outputs ir) 0;
  '(amount, _) ← map_err RevealedTxOutErr (reveal_amount pf);
  let num_128 := u128_mul (amt_value amount) base_tokens in
  if value =? 0 then Panic "attempt to divide by zero"
  else Ok (wrap64 (num_128 / value)).

(** [Quote::counter_tokens_cost] *)
Definition counter_tokens_cost (q : Quote) (base_tokens : Z) : outcome Error Z :=
  if negb (range_contains (q_base_range q) base_tokens) then
    Err (InsufficientBaseTokens base_tokens)
  else
    ir ← ok_or (input_rules (tx_in (q_sci q))) (UnsupportedSci "Missing input rules");
    match length (required_outputs ir), length (partial_fill_outputs ir) with
    | O, O => Err (UnsupportedSci "No required/partial outputs")
    | S O, O =>
        _ ← rust_assert (base_tokens =? amt_value (pseudo_output_amount (q_sci q)))
              "base_tokens == pseudo_output_amount.value";
        a ← vec_index (required_output_amounts (q_sci q)) 0;
        Ok (amt_value a)
    | (O | S O) as num_required_outputs, S O => partial_fill_cost q ir num_required_outputs base_tokens
    | r, p => Err (unsupported_counts r p)
    end.
End Operations.

(** [#[derive(Ord)]] on [Pair]: its fields in order. *)
Definition pair_cmp (a b : Pair) : comparison :=
  cmp_then (base_token_id a ?= base_token_id b) (counter_token_id a ?= counter_token_id b).

(** [impl Ord for Quote] *)
Definition quote_cmp (self other : Quote) : comparison :=
  let self_rate := u128_mul (max_base_tokens other) (q_max_counter_tokens self) in
  let other_rate := u128_mul (max_base_tokens self) (q_max_counter_tokens other) in
  cmp_then (pair_cmp (q_pair self) (q_pair other))
    (cmp_then (self_rate ?= other_rate)
       (cmp_then (q_timestamp self ?= q_timestamp other)
          (bytes_cmp (q_id self) (q_id other)))).

(** [impl PartialOrd for Quote] *)
Definition quote_partial_cmp (self other : Quote) : option comparison := Some (quote_cmp self other).

(** * What an SCI offers

    The three shapes of SCI the DEQS accepts, with the terms it advertises:
    counter token, range of base tokens, counter tokens. *)
Inductive sci_offer `{McLib} (sci : SignedContingentInput) (ir : InputRules) :
    TokenId → Z * Z → Z → Prop :=
| offer_all_or_nothing a :
    length (required_outputs ir) = 1%nat → partial_fill_outputs ir = [] →
    required_output_amounts sci !! 0%nat = Some a →
    sci_offer sci ir (amt_token_id a)
      (amt_value (pseudo_output_amount sci), amt_value (pseudo_output_amount sci)) (amt_value a)
| offer_partial pf a bl :
    required_outputs ir = [] → partial_fill_outputs ir = [pf] →
    reveal_amount pf = Ok (a, bl) →
    sci_offer sci ir (amt_token_id a)
      (min_partial_fill_value ir, amt_value (pseudo_output_amount sci)) (amt_value a)
| offer_partial_with_change pf a bl change :
    length (required_outputs ir) = 1%nat → partial_fill_outputs ir = [pf] →
    reveal_amount pf = Ok (a, bl) →
    required_output_amounts sci !! 0%nat = Some change →
    amt_token_id change = amt_token_id (pseudo_output_amount sci) →
    amt_value change ≤ amt_value (pseudo_output_amount sci) →
    sci_offer sci ir (amt_token_id a)
      (min_partial_fill_value ir, amt_value (pseudo_output_amount sci) - amt_value change)
      (amt_value a).

Lemma length_1_inv {A} (l : list A) : length l = 1%nat → ∃ x, l = [x].
Proof. destruct l as [|x []]; naive_solver. Qed.

(** Case analysis on the numbers of outputs the code matches on. *)
Ltac case_counts ir :=
  destruct (required_outputs ir) as [|? [|? ?]] eqn:?,
           (partial_fill_outputs ir) as [|? [|? ?]] eqn:?; simplify_eq/=; try done.

Section Terms.
Context `{McLib}.

Lemma quote_terms_offer sci ir c r m :
  quote_terms sci ir = Ok (c, r, m) ↔ sci_offer sci ir c r m.
Proof.
  split.
  - unfold quote_terms. case_counts ir; intros Hterms; inv_ok.
    + destruct (reveal_amount _) as [[a bl]| |] eqn:Hr; simplify_eq/=.
      eapply offer_partial; eauto.
    + eapply offer_all_or_nothing; eauto; by rewrite ?Heql.
    + destruct (reveal_amount _) as [[a bl]| |] eqn:Hr; simplify_eq/=. inv_ok.
      case_bool_decide; simplify_eq/=. inv_ok.
      eapply offer_partial_with_change; eauto; by rewrite Heql.
  - unfold quote_terms.
    destruct 1 as [a Hl Hp Ha|pf a bl Hl Hp Hr|pf a bl ch Hl Hp Hr Ha Ht Hv]; rewrite Hl, Hp; cbn.
    + by rewrite (proj2 (vec_index_Ok _ _ _) Ha).
    + by rewrite Hr.
    + rewrite Hr; cbn. rewrite (proj2 (vec_index_Ok _ _ _) Ha); cbn.
      rewrite bool_decide_eq_false_2 by tauto.
      by rewrite (proj2 (checked_sub_Some _ _ _) (conj Hv eq_refl)).
Qed.
End Terms.

(** * Theorems on [Quote::new] *)

Section NewTheorems.
Context `{McLib}.

(** The quote [Quote::new] builds from an SCI on the terms [c], [r], [m]. *)
Definition quote_on_terms sci c r m ts : Quote :=
  {| q_sci := sci; q_id := quote_id_from_sci sci;
     q_pair := {| base_token_id := amt_token_id (pseudo_output_amount sci); counter_token_id := c |};
     q_base_range := r; q_max_counter_tokens := m; q_timestamp := ts |}.

Lemma quote_new_inv now sci ts q :
  quote_new now sci ts = Ok q →
  sci_validate sci = Ok tt ∧ ∃ ir c r m t,
    input_rules (tx_in sci) = Some ir ∧ sci_offer sci ir c r m ∧
    (∀ t', ts = Some t' → t = t') ∧ q = quote_on_terms sci c r m t.
Proof.
  unfold quote_new. intros Hq. inv_ok. destruct_and?.
  match goal with H : sci_validate _ = Ok ?u |- _ => destruct u end.
  split; [done|]. destruct x2 as [[c r] m]. simplify_eq/=.
  eexists _, c, r, m, _. repeat split; eauto; [by apply quote_terms_offer|].
  intros t' ->. naive_solver.
Qed.

(** C1: [Quote::new] with a timestamp accepts an SCI exactly when the SCI is
    valid and has one of the three supported shapes, and the quote it
    returns carries the SCI, its digest as the id, the offered token against
    the requested one, and the terms of that shape: an all-or-nothing range,
    or a range from the minimum fill to the offered amount less the change. *)
Theorem quote_new_spec now sci ts q :
  quote_new now sci (Some ts) = Ok q ↔
  sci_validate sci = Ok tt ∧ ∃ ir c r m,
    input_rules (tx_in sci) = Some ir ∧ sci_offer sci ir c r m ∧ q = quote_on_terms sci c r m ts.
Proof.
  split.
  - intros (Hv & ir & c & r & m & t & ? & ? & Ht & ->)%quote_new_inv.
    rewrite (Ht ts eq_refl). split; [done|]. by exists ir, c, r, m.
  - intros (Hv & ir & c & r & m & Hir & Ho & ->). apply quote_terms_offer in Ho.
    unfold quote_new. cbn. rewrite Hv, Hir. cbn. by rewrite Ho.
Qed.

Context `{!McLibLaws _}.

Lemma reveal_cases rto :
  (∃ a b, reveal_amount rto = Ok (a, b)) ∨ (∃ e, reveal_amount rto = Err e).
Proof.
  pose proof (reveal_no_panic rto). destruct (reveal_amount rto) as [[a b]|e|p]; naive_solver.
Qed.

(** The indexing of [required_output_amounts] stays in range because a valid
    SCI reveals an amount per required output, and the subtraction of the
    change is checked. *)
Lemma quote_new_no_panic now sci ts : is_panic (quote_new now sci ts) = false.
Proof.
  unfold quote_new, default_timestamp, ok_or.
  destruct ts as [t|]; [|destruct now as [d|]; cbn; [case_bool_decide|]]; try done; cbn.
  all: destruct (sci_validate sci) as [[]|e|p] eqn:Hv; try done;
    try by destruct (validate_no_panic sci p).
  all: destruct (input_rules (tx_in sci)) as [ir|] eqn:Hir; try done; cbn.
  all: pose proof (validate_required_amounts sci ir Hv Hir) as Hlen.
  all: unfold quote_terms, vec_index; case_counts ir.
  all: destruct (required_output_amounts sci) as [|a l]; try done; cbn; try done.
  all: try match goal with
       | |- context [reveal_amount ?r] =>
           destruct (reveal_cases r) as [(? & ? & ->)|[? ->]]; cbn; try done
       end.
  all: try (case_bool_decide; try done; cbn; unfold checked_sub, ok_or; by destruct_if).
Qed.

Lemma quote_new_u64 now sci ts q :
  sci_wf sci → quote_new now sci ts = Ok q →
  is_u64 (q_base_range q).1 ∧ is_u64 (max_base_tokens q) ∧
  is_u64 (q_max_counter_tokens q) ∧ length (q_id q) = 32%nat.
Proof.
  intros [Hp Hreq Hrules] (Hv & ir & c & r & m & t & Hir & Ho & _ & ->)%quote_new_inv.
  destruct (Hrules _ Hir) as [Hmin _]. destruct Hp as [Hval _]. rewrite Forall_lookup in Hreq.
  unfold max_base_tokens; cbn. unfold quote_id_from_sci. rewrite digest32_length.
  destruct Ho as [a _ _ Ha|pf a bl _ _ Hr|pf a bl ch _ _ Hr Hch _ Hle]; cbn.
  - by destruct (Hreq _ _ Ha).
  - by destruct (reveal_u64 _ _ _ Hr).
  - destruct (reveal_u64 _ _ _ Hr), (Hreq _ _ Hch). unfold is_u64 in *. lia.
Qed.

(** C2: [Quote::new] never panics, whatever the SCI; the integers of a quote it
    builds are 64-bit, so that the range never wraps below zero, and its id is
    32 bytes. *)
Theorem quote_new_sound now sci ts :
  is_panic (quote_new now sci ts) = false ∧
  (sci_wf sci → ∀ q, quote_new now sci ts = Ok q →
     is_u64 (q_base_range q).1 ∧ is_u64 (max_base_tokens q) ∧
     is_u64 (q_max_counter_tokens q) ∧ length (q_id q) = 32%nat).
Proof. split; [apply quote_new_no_panic|]. intros Hwf q. by apply quote_new_u64. Qed.
End NewTheorems.

(** * The theorems on examples *)

Module QuoteApiExamples.
Import Sample.

Definition partial_quote : Quote :=
  quote_on_terms (sci_partial 7 9 2) 2 (3, 8) 100 5.

Lemma quote_new_sound_witness :
  quote_new None (sci_partial 7 9 2) (Some 5) = Ok partial_quote ∧
  is_u64 (q_base_range partial_quote).1 ∧ is_u64 (max_base_tokens partial_quote) ∧
  is_u64 (q_max_counter_tokens partial_quote) ∧ length (q_id partial_quote) = 32%nat.
Proof.
  split; [by vm_compute|].
  apply (quote_new_sound None (sci_partial 7 9 2) (Some 5)); [apply sci_samples_wf|by vm_compute].
Defined.
End QuoteApiExamples.
