(* ===== verification/QuotePricing.v ===== *)
(** Pricing and ranking of quotes: what [counter_tokens_cost] charges, and the
    order in which a book lists its quotes (quote-book/api/src/quote.rs). *)

From S2P Require Import Prelude McTypes QuoteApi.

(** * The price of a fill *)

(** The amount the SCI of a quote puts up for sale. *)
Definition offered (q : Quote) : Z := amt_value (pseudo_output_amount (q_sci q)).

Section Cost.
Context `{McLib}.

Lemma range_contains_true r x : range_contains r x = true ↔ r.1 ≤ x ≤ r.2.
Proof. unfold range_contains. rewrite andb_true_iff, !Z.leb_le. done. Qed.

(** The quotient of the partial-fill branch fits in 64 bits when at most the
    whole offer is taken. *)
Lemma fill_quotient m b v :
  is_u64 m → is_u64 b → 0 < v → b ≤ v → wrap64 (u128_mul m b / v) = m * b / v.
Proof.
  intros Hm Hb Hv Hle. rewrite u128_mul_u64 by done. apply wrap64_small.
  unfold is_u64 in *. split; [apply Z.div_pos; nia|].
  apply (Z.le_lt_trans _ m); [|lia]. apply Z.div_le_upper_bound; nia.
Qed.

Context `{!McLibLaws _}.

Lemma counter_tokens_cost_eq now sci ts q b :
  sci_wf sci → quote_new now sci ts = Ok q → is_u64 b → 0 < max_base_tokens q →
  counter_tokens_cost q b =
    if range_contains (q_base_range q) b then Ok (q_max_counter_tokens q * b / offered q)
    else Err (InsufficientBaseTokens b).
Proof.
  intros Hwf (Hv & ir & c & r & m & t & Hir & Ho & _ & ->)%quote_new_inv Hb Hpos.
  unfold counter_tokens_cost, max_base_tokens, offered in *. cbn in *.
  destruct (range_contains r b) eqn:Hr; [|done]. apply range_contains_true in Hr.
  cbn. rewrite Hir. cbn. destruct Hwf as [[Hp _] Hreq _]. rewrite Forall_lookup in Hreq.
  destruct Ho as [a Hl Hpf Ha|pf a bl Hl Hpf Hrev|pf a bl ch Hl Hpf Hrev Hch _ Hle];
    rewrite Hl, Hpf; cbn in *.
  - assert (b = amt_value (pseudo_output_amount sci)) as -> by lia.
    rewrite Z.eqb_refl. cbn. rewrite (proj2 (vec_index_Ok _ _ _) Ha). cbn.
    by rewrite Z.div_mul by lia.
  - destruct (reveal_u64 _ _ _ Hrev) as [Hm _].
    unfold partial_fill_cost. rewrite Hpf. cbn.
    rewrite !(proj2 (Z.leb_le _ _)) by lia. cbn. rewrite Hrev. cbn.
    rewrite (proj2 (Z.eqb_neq _ _)) by lia. by rewrite fill_quotient by (done || lia).
  - destruct (reveal_u64 _ _ _ Hrev) as [Hm _], (Hreq _ _ Hch) as [Hc _].
    unfold is_u64 in Hp, Hc.
    unfold partial_fill_cost. rewrite Hpf. cbn.
    rewrite (proj2 (Z.leb_le _ b)) by lia. cbn.
    rewrite (proj2 (vec_index_Ok _ _ _) Hch). cbn.
    rewrite (proj2 (Z.ltb_lt _ _)) by lia. cbn.
    unfold u64_sub. rewrite wrap64_small by (unfold is_u64; lia).
    rewrite (proj2 (Z.leb_le b _)) by lia. cbn. rewrite Hrev. cbn.
    rewrite (proj2 (Z.eqb_neq _ _)) by lia. by rewrite fill_quotient by (done || unfold is_u64; lia).
Qed.

(** C3: the price of a fill.  For a quote built by [Quote::new] that has
    something to sell, [counter_tokens_cost] refuses exactly the amounts
    outside the advertised range, and otherwise charges the requested
    fraction of the counter amount, rounded down.  In particular none of its
    assertions fails, it never divides by zero, and neither the 128-bit
    product nor the cast of the quotient to 64 bits loses anything. *)
Theorem counter_tokens_cost_spec now sci ts q b :
  sci_wf sci → quote_new now sci ts = Ok q → is_u64 b → 0 < max_base_tokens q →
  counter_tokens_cost q b =
    if range_contains (q_base_range q) b then Ok (q_max_counter_tokens q * b / offered q)
    else Err (InsufficientBaseTokens b).
Proof. apply counter_tokens_cost_eq. Qed.

(** The facts about a quote with something to sell that the bounds need. *)
Lemma quote_new_offered now sci ts q :
  sci_wf sci → quote_new now sci ts = Ok q →
  0 ≤ q_max_counter_tokens q ∧ max_base_tokens q ≤ offered q.
Proof.
  intros Hwf (Hv & ir & c & r & m & t & Hir & Ho & _ & ->)%quote_new_inv.
  destruct Hwf as [[Hp _] Hreq _]. rewrite Forall_lookup in Hreq. unfold is_u64, max_base_tokens, offered in *.
  destruct Ho as [a Hl Hpf Ha|pf a bl Hl Hpf Hrev|pf a bl ch Hl Hpf Hrev Hch _ Hle]; cbn.
  - destruct (Hreq _ _ Ha). unfold is_u64 in *. lia.
  - destruct (reveal_u64 _ _ _ Hrev). unfold is_u64 in *. lia.
  - destruct (reveal_u64 _ _ _ Hrev), (Hreq _ _ Hch). unfold is_u64 in *. lia.
Qed.

Lemma cost_inv now sci ts q b c :
  sci_wf sci → quote_new now sci ts = Ok q → is_u64 b → 0 < max_base_tokens q →
  counter_tokens_cost q b = Ok c →
  c = q_max_counter_tokens q * b / offered q ∧ (q_base_range q).1 ≤ b ≤ max_base_tokens q.
Proof.
  intros Hwf Hq Hb Hpos. rewrite (counter_tokens_cost_eq now sci ts q b) by done.
  destruct (range_contains _ b) eqn:Hr; [|done]. intros [= <-].
  by apply range_contains_true in Hr.
Qed.

(** A fill is charged at most its exact share of the advertised counter amount
    and less than one token below it, and taking more never costs less. *)
Lemma cost_fair now sci ts q b b' c c' :
  sci_wf sci → quote_new now sci ts = Ok q → is_u64 b → is_u64 b' → 0 < max_base_tokens q →
  counter_tokens_cost q b = Ok c → counter_tokens_cost q b' = Ok c' → b ≤ b' →
  c * offered q ≤ q_max_counter_tokens q * b < (c + 1) * offered q ∧
  0 ≤ c ≤ c' ∧ c' ≤ q_max_counter_tokens q.
Proof.
  intros Hwf Hq Hb Hb' Hpos Hc Hc' Hle.
  destruct (cost_inv _ _ _ _ _ _ Hwf Hq Hb Hpos Hc) as [-> Hr].
  destruct (cost_inv _ _ _ _ _ _ Hwf Hq Hb' Hpos Hc') as [-> Hr'].
  destruct (quote_new_offered _ _ _ _ Hwf Hq). unfold is_u64 in *.
  set (m := q_max_counter_tokens q) in *. set (v := offered q) in *.
  pose proof (Z.mul_div_le (m * b) v ltac:(lia)).
  pose proof (Z.mul_succ_div_gt (m * b) v ltac:(lia)).
  repeat split; [lia|lia|apply Z.div_pos; nia|apply Z.div_le_mono; nia|].
  apply Z.div_le_upper_bound; nia.
Qed.

(** The price of the whole advertised range. *)
Lemma cost_of_maximum now sci ts q :
  sci_wf sci → quote_new now sci ts = Ok q → 0 < max_base_tokens q →
  (q_base_range q).1 ≤ max_base_tokens q →
  counter_tokens_cost q (max_base_tokens q) = Ok (q_max_counter_tokens q * max_base_tokens q / offered q).
Proof.
  intros Hwf Hq Hpos Hr. pose proof (quote_new_u64 _ _ _ _ Hwf Hq) as (_ & Hmax & _).
  rewrite (counter_tokens_cost_eq now sci ts) by done.
  by rewrite (proj2 (range_contains_true _ _)) by (unfold max_base_tokens in *; lia).
Qed.

(** C4: pricing is fair and monotone.  A fill is charged at most its exact
    share of the advertised counter amount and less than one token below it,
    never more than the whole amount, and taking more never costs less.  The
    whole range of a quote without change costs exactly [max_counter_tokens];
    with a change output it costs strictly less, although the field is
    documented as the counter tokens needed to trade the maximum amount of
    base tokens. *)
Theorem counter_tokens_cost_fair now sci ts q :
  sci_wf sci → quote_new now sci ts = Ok q → 0 < max_base_tokens q →
  (∀ b b' c c', is_u64 b → is_u64 b' →
     counter_tokens_cost q b = Ok c → counter_tokens_cost q b' = Ok c' → b ≤ b' →
     c * offered q ≤ q_max_counter_tokens q * b < (c + 1) * offered q ∧
     0 ≤ c ≤ c' ∧ c' ≤ q_max_counter_tokens q) ∧
  ((q_base_range q).1 ≤ max_base_tokens q → max_base_tokens q = offered q →
     counter_tokens_cost q (max_base_tokens q) = Ok (q_max_counter_tokens q)) ∧
  ((q_base_range q).1 ≤ max_base_tokens q → max_base_tokens q < offered q → 0 < q_max_counter_tokens q →
     ∃ c, counter_tokens_cost q (max_base_tokens q) = Ok c ∧ c < q_max_counter_tokens q).
Proof.
  intros Hwf Hq Hpos. split; [|split].
  - intros b b' c c' Hb Hb'. by eapply cost_fair.
  - intros Hr Heq. rewrite (cost_of_maximum now sci ts) by done. by rewrite <-Heq, Z.div_mul by lia.
  - intros Hr Hlt Hm. rewrite (cost_of_maximum now sci ts) by done.
    eexists. split; [done|]. apply Z.div_lt_upper_bound; nia.
Qed.
End Cost.

(** A quote can be listed that [counter_tokens_cost] panics on.  When the
    required change is the whole offered amount, [Quote::new] accepts the SCI
    with the range [0..=0], and pricing the one amount in that range fails the
    assertion that the offered amount exceeds the change. *)
Lemma counter_tokens_cost_panics_on_empty_offer `{McLib} now sci ts q ir change :
  quote_new now sci ts = Ok q → input_rules (tx_in sci) = Some ir →
  length (partial_fill_outputs ir) = 1%nat → length (required_outputs ir) = 1%nat →
  required_output_amounts sci !! 0%nat = Some change →
  amt_value change = offered q → min_partial_fill_value ir = 0 →
  q_base_range q = (0, 0) ∧ is_panic (counter_tokens_cost q 0) = true.
Proof.
  intros (Hv & ir' & c & r & m & t & Hir & Ho & _ & ->)%quote_new_inv ? Hp Hl Hch Heq Hmin.
  simplify_eq. destruct Ho as [a _ Hpf _|pf a bl Hl' _ _|pf a bl ch _ Hpf Hrev Hch' _ Hle];
    [by rewrite Hpf in Hp|by rewrite Hl' in Hl|].
  rewrite Hch in Hch'. injection Hch' as <-.
  unfold offered in Heq. cbn in Heq. cbn. rewrite Hmin, Heq, Z.sub_diag. split; [done|].
  unfold counter_tokens_cost. cbn. rewrite Hir. cbn. rewrite Hl, Hp. cbn.
  unfold partial_fill_cost. rewrite Hmin. cbn. rewrite (proj2 (vec_index_Ok _ _ _) Hch). cbn.
  by rewrite Heq, Z.ltb_irrefl.
Qed.

(** * The order of quotes *)

(** Terms that have a price: the exchange rate base / counter is a point of
    the projective line, undefined only when both amounts are zero. *)
Definition priced (q : Quote) : Prop :=
  is_u64 (max_base_tokens q) ∧ is_u64 (q_max_counter_tokens q) ∧
  (0 < max_base_tokens q ∨ 0 < q_max_counter_tokens q).

#[export] Instance priced_dec q : Decision (priced q).
Proof. unfold priced. apply _. Defined.

(** Proves a decidable fact about a concrete quote by evaluation. *)
Ltac solve_decide := refine (bool_decide_unpack _ _); by vm_compute.

(** The rate comparison of [Ord for Quote]. *)
Definition rate_cmp (x y : Quote) : comparison :=
  u128_mul (max_base_tokens y) (q_max_counter_tokens x) ?=
  u128_mul (max_base_tokens x) (q_max_counter_tokens y).

Lemma rate_cmp_mul x y : priced x → priced y →
  rate_cmp x y = (max_base_tokens y * q_max_counter_tokens x ?= max_base_tokens x * q_max_counter_tokens y).
Proof. intros (? & ? & _) (? & ? & _). unfold rate_cmp. by rewrite !u128_mul_u64. Qed.

(** Transitivity of "cheaper per base token", by cross multiplication. *)
Lemma rate_lt_trans b1 c1 b2 c2 b3 c3 :
  0 ≤ b1 → 0 ≤ c1 → 0 ≤ b2 → 0 ≤ c2 → 0 ≤ b3 → 0 ≤ c3 →
  b2 * c1 < b1 * c2 → b3 * c2 < b2 * c3 → b3 * c1 < b1 * c3.
Proof. intros. assert (0 < b2) by nia. assert (0 < b1) by nia. nia. Qed.

Lemma rate_eq_compare b1 c1 b2 c2 b3 c3 :
  0 ≤ b1 → 0 ≤ c1 → 0 ≤ b2 → 0 ≤ c2 → 0 ≤ b3 → 0 ≤ c3 →
  0 < b1 ∨ 0 < c1 → 0 < b2 ∨ 0 < c2 → b2 * c1 = b1 * c2 →
  (b3 * c1 ?= b1 * c3) = (b3 * c2 ?= b2 * c3).
Proof.
  intros ? ? ? ? ? ? H1 H2 E. destruct (Z.eq_dec b1 0) as [->|Hb1].
  - assert (b2 = 0) as -> by nia. destruct H1, H2; try lia.
    destruct (Z.eq_dec b3 0) as [->|]; [done|].
    rewrite (proj2 (Z.compare_gt_iff (b3 * c1) _)), (proj2 (Z.compare_gt_iff (b3 * c2) _)) by nia. done.
  - assert (0 < b2) by nia.
    rewrite (Zmult_compare_compat_l (b3 * c1) (b1 * c3) b2) by lia.
    rewrite (Zmult_compare_compat_l (b3 * c2) (b2 * c3) b1) by lia.
    f_equal; nia.
Qed.

#[export] Instance rate_cmp_weak : WeakOrdOn priced rate_cmp.
Proof.
  split; intros; rewrite ?rate_cmp_mul in * by done; repeat match goal with H : priced _ |- _ =>
      destruct H as ([? ?] & [? ?] & ?) end.
  - apply Z.compare_refl.
  - by rewrite Z.compare_antisym.
  - rewrite Z.compare_lt_iff in *. by eapply (rate_lt_trans _ _ (max_base_tokens y) (q_max_counter_tokens y)).
  - rewrite Z.compare_eq_iff in *. by apply rate_eq_compare.
Qed.

Lemma pair_cmp_weak (P : Quote → Prop) : WeakOrdOn P (λ x y, pair_cmp (q_pair x) (q_pair y)).
Proof. apply weak_then; apply weak_key_Z. Qed.

#[export] Instance quote_cmp_weak : WeakOrdOn priced quote_cmp.
Proof.
  apply (weak_then priced (λ x y, pair_cmp (q_pair x) (q_pair y))); [apply pair_cmp_weak|].
  apply (weak_then priced rate_cmp); [apply _|].
  apply weak_then; [apply weak_key_Z | apply weak_key_bytes].
Qed.

Lemma pair_cmp_Eq a b : pair_cmp a b = Eq ↔ a = b.
Proof.
  unfold pair_cmp. rewrite cmp_then_Eq, !Z.compare_eq_iff. destruct a, b; cbn. naive_solver.
Qed.

Lemma quote_cmp_Eq_id x y : quote_cmp x y = Eq → q_id x = q_id y.
Proof. unfold quote_cmp. rewrite !cmp_then_Eq, bytes_cmp_Eq. tauto. Qed.

(** At equal pairs the rate decides, then the time stamp. *)
Lemma quote_cmp_better_rate_first x y :
  priced x → priced y → q_pair x = q_pair y →
  (max_base_tokens x * q_max_counter_tokens y > max_base_tokens y * q_max_counter_tokens x →
     quote_cmp x y = Lt) ∧
  (max_base_tokens x * q_max_counter_tokens y = max_base_tokens y * q_max_counter_tokens x →
     q_timestamp x < q_timestamp y → quote_cmp x y = Lt).
Proof.
  intros Hx Hy Hp. unfold quote_cmp. fold (rate_cmp x y).
  rewrite rate_cmp_mul, (proj2 (pair_cmp_Eq _ _) Hp) by done. cbn. split.
  - intros ?. by rewrite (proj2 (Z.compare_lt_iff _ _)) by lia.
  - intros E ?. rewrite (proj2 (Z.compare_eq_iff _ _)) by lia. cbn.
    by rewrite (proj2 (Z.compare_lt_iff _ _)).
Qed.

(** C5: [Ord for Quote] is a total order on priced quotes: comparing a quote
    with itself gives [Equal], swapping the arguments reverses the answer,
    "less" is transitive, quotes that compare [Equal] have the same id, and the
    multiplications never overflow 128 bits.  It ranks by price: of two quotes
    of the same pair the one that gives strictly more base tokens per counter
    token comes first, whatever the time stamps and ids; at equal rates the
    older one does. *)
Theorem quote_cmp_total_order :
  (∀ x, priced x → quote_cmp x x = Eq) ∧
  (∀ x y, priced x → priced y → quote_cmp y x = CompOpp (quote_cmp x y)) ∧
  (∀ x y z, priced x → priced y → priced z →
     quote_cmp x y = Lt → quote_cmp y z = Lt → quote_cmp x z = Lt) ∧
  (∀ x y, quote_cmp x y = Eq → q_id x = q_id y) ∧
  (∀ x y, priced x → priced y →
     max_base_tokens y * q_max_counter_tokens x < U128_MOD) ∧
  (∀ x y, priced x → priced y → q_pair x = q_pair y →
     (max_base_tokens x * q_max_counter_tokens y > max_base_tokens y * q_max_counter_tokens x →
        quote_cmp x y = Lt) ∧
     (max_base_tokens x * q_max_counter_tokens y = max_base_tokens y * q_max_counter_tokens x →
        q_timestamp x < q_timestamp y → quote_cmp x y = Lt)).
Proof.
  split; [|split; [|split; [|split; [|split]]]].
  - intros x. apply (ord_refl priced quote_cmp).
  - intros x y. apply (ord_opp priced quote_cmp).
  - intros x y z. apply (ord_trans priced quote_cmp).
  - apply quote_cmp_Eq_id.
  - intros x y (_ & [? ?] & _) ([? ?] & _ & _). unfold U128_MOD, U64_MOD in *.
    change (2 ^ 128) with (2 ^ 64 * 2 ^ 64). nia.
  - apply quote_cmp_better_rate_first.
Qed.

(** A quote with given terms, for examples about the order. *)
Definition sample_quote (base counter timestamp : Z) (id : list Z) : Quote :=
  quote_new_from_fields (Sample.sci_full 0 0) id {| base_token_id := 1; counter_token_id := 2 |}
    (base, base) counter timestamp.

(** A quote of zero base tokens for zero counter tokens breaks [Ord]: it
    has the same rate as every quote, so that with timestamps in between it
    makes "less" intransitive, which a [BTreeSet] requires it not to be. *)
Lemma quote_cmp_not_transitive_with_unpriced :
  ∃ x y z, quote_cmp x y = Lt ∧ quote_cmp y z = Lt ∧ quote_cmp x z = Gt ∧
           priced x ∧ priced z ∧ (max_base_tokens y, q_max_counter_tokens y) = (0, 0).
Proof.
  exists (sample_quote 1 10 1 [1]), (sample_quote 0 0 2 [2]), (sample_quote 30 10 3 [3]).
  repeat split; first [by vm_compute|by left].
Qed.

(** * The theorems on examples *)

Module QuotePricingExamples.
Import Sample QuoteApiExamples.

(** A fill of 4 of at most 8 out of 10 offered against 100 costs 40. *)
Lemma counter_tokens_cost_spec_witness : counter_tokens_cost partial_quote 4 = Ok 40.
Proof.
  refine (eq_trans (counter_tokens_cost_spec None (sci_partial 7 9 2) (Some 5) partial_quote 4 _ _ _ _) _);
    [apply sci_samples_wf|by vm_compute..].
Defined.

Lemma counter_tokens_cost_fair_witness :
  (30 * 10 ≤ 100 * 3 < 31 * 10 ∧ 0 ≤ 30 ≤ 80 ∧ 80 ≤ q_max_counter_tokens partial_quote) ∧
  ∃ c, counter_tokens_cost partial_quote (max_base_tokens partial_quote) = Ok c ∧
       c < q_max_counter_tokens partial_quote.
Proof.
  destruct (counter_tokens_cost_fair None (sci_partial 7 9 2) (Some 5) partial_quote) as (Hfair & _ & Hless);
    [apply sci_samples_wf|by vm_compute..|].
  split; [by apply (Hfair 3 8 30 80)|by apply Hless].
Defined.

Definition whole_quote : Quote := quote_on_terms (sci_partial 7 9 0) 2 (3, 10) 100 5.

(** Without change the maximum costs what is advertised, 100 for 10; with a
    change of 2 it costs 80. *)
Example cost_of_maximum_samples :
  counter_tokens_cost whole_quote (max_base_tokens whole_quote) = Ok (q_max_counter_tokens whole_quote) ∧
  counter_tokens_cost partial_quote (max_base_tokens partial_quote) = Ok 80 ∧
  q_max_counter_tokens partial_quote = 100.
Proof. by vm_compute. Qed.

(** All of the 10 offered tokens are also required back as change. *)
Definition empty_offer : SignedContingentInput := sci 7 9 10 [amount 10 1] [(100, 2)] 0 0.
Definition empty_quote : Quote := quote_on_terms empty_offer 2 (0, 0) 100 5.

Lemma empty_offer_panics :
  q_base_range empty_quote = (0, 0) ∧ is_panic (counter_tokens_cost empty_quote 0) = true.
Proof.
  apply (counter_tokens_cost_panics_on_empty_offer None empty_offer (Some 5) empty_quote
           (default (Build_InputRules [] [] None 0 0) (input_rules (tx_in empty_offer))) (amount 10 1));
    by vm_compute.
Qed.

Lemma quote_cmp_total_order_witness :
  quote_cmp (sample_quote 2 10 1 [1]) (sample_quote 1 10 3 [3]) = Lt.
Proof.
  apply (proj1 (proj2 (proj2 quote_cmp_total_order)) (sample_quote 2 10 1 [1]) (sample_quote 2 10 2 [2]));
    try by vm_compute.
  all: solve_decide.
Defined.
End QuotePricingExamples.
