(* ===== verification/QuoteBook.v ===== *)
(** The interface of a quote book (quote-book/api/src/quote_book.rs).

    [QuoteBook] has the operations of the Rust trait over a state type;
    [QuoteBookLaws] is what every implementation promises to its clients: an
    invariant, the multiset of quotes a state holds, and how each operation
    acts on it.  The in-memory, SQLite and synchronized books are instances,
    the services above are proved against the interface. *)

From S2P Require Import Prelude McTypes QuoteApi QuotePricing.

(** [std::ops::Bound] and [RangeBounds<u64>] *)
Inductive Bound := Included (z : Z) | Excluded (z : Z) | Unbounded.

#[export] Instance Bound_eq_dec : EqDecision Bound.
Proof. solve_decision. Defined.

(** [pub trait QuoteBook]; the state is passed explicitly. *)
Class QuoteBook (B : Type) := {
  qb_add_quote : Quote → stateful B Error unit;
  qb_remove_quote_by_id : QuoteId → stateful B Error Quote;
  qb_remove_quotes_by_key_image : KeyImage → stateful B Error (list Quote);
  qb_remove_quotes_by_tombstone_block : BlockIndex → stateful B Error (list Quote);
  qb_get_quotes : Pair → Bound * Bound → Z → B → outcome Error (list Quote);
  qb_get_quote_ids : option Pair → B → outcome Error (list QuoteId);
  qb_get_quote_by_id : QuoteId → B → outcome Error (option Quote);
  qb_num_scis : B → outcome Error Z;
}.

(** The provided method [QuoteBook::add_sci]. *)
Definition qb_add_sci `{McLib} {B} `{QuoteBook B} (now : option Z)
    (sci : SignedContingentInput) (timestamp : option Z) : stateful B Error Quote :=
  quote <-- st_lift (quote_new now sci timestamp) ;;
  qb_add_quote quote ;;;
  st_ret quote.

(** * Vocabulary of the laws *)

Section Vocabulary.
Context `{McLib}.

Definition quote_key_image (q : Quote) : KeyImage := sci_key_image (q_sci q).

(** The place a quote takes in a book: one quote per pair and key image. *)
Definition slot (q : Quote) : Pair * KeyImage := (q_pair q, quote_key_image q).

(** The tombstone test of [remove_quotes_by_tombstone_block]: a block limit
    of zero means none. *)
Definition tombstone_expired (current_block_index : BlockIndex) (q : Quote) : bool :=
  match input_rules (tx_in (q_sci q)) with
  | Some ir =>
      negb (max_tombstone_block ir =? 0) &&
      is_err (validate_tombstone current_block_index (max_tombstone_block ir))
  | None => false
  end.

(** A quote a book may be given: it has a price, and its id, a digest of the
    SCI, is not the id of a quote with another key image. *)
Definition addable (l : list Quote) (q : Quote) : Prop :=
  priced q ∧ ∀ x, x ∈ l → q_id x = q_id q → quote_key_image x = quote_key_image q.
End Vocabulary.

(** The range a pair of bounds denotes, inclusive at both ends, with the
    saturation of the code at the limits of [u64]. *)
Definition bound_start (b : Bound) : Z :=
  match b with Included z => z | Excluded z => saturating_add z 1 | Unbounded => 0 end.
Definition bound_end (b : Bound) : Z :=
  match b with Included z => z | Excluded z => saturating_sub z 1 | Unbounded => U64_MAX end.
Definition overlaps (r : Bound * Bound) (s : Z * Z) : bool :=
  (bound_start r.1 <=? s.2) && (s.1 <=? bound_end r.2).

(** What [get_quotes] selects, best rate first; a limit of zero is no limit. *)
Definition listing (l : list Quote) (p : Pair) (r : Bound * Bound) (limit : Z) (res : list Quote) : Prop :=
  ∃ all, StronglySorted (cmp_lt quote_cmp) all ∧
         all ≡ₚ filter (λ q, q_pair q = p ∧ overlaps r (q_base_range q) = true) l ∧
         res = if limit =? 0 then all else take (Z.to_nat limit) all.

(** * The laws *)

Class QuoteBookLaws `{McLib} (B : Type) `{!QuoteBook B} := {
  book_inv : B → Prop;
  (** The quotes a book holds; their order carries no meaning. *)
  contents : B → list Quote;
  (** No two quotes share a slot. *)
  contents_slots b : book_inv b → NoDup (slot <$> contents b);

  add_inv q b r b' : book_inv b → addable (contents b) q → qb_add_quote q b = (r, b') → book_inv b';
  add_ok q b b' : book_inv b → addable (contents b) q → qb_add_quote q b = (Ok tt, b') →
    contents b' ≡ₚ q :: contents b;
  (** Whatever the answer, nothing but the new quote is added, nothing is lost. *)
  add_frame q b r b' : book_inv b → addable (contents b) q → qb_add_quote q b = (r, b') →
    contents b ⊆+ contents b' ∧ contents b' ⊆+ q :: contents b;
  add_exists q b b' e : book_inv b → addable (contents b) q →
    qb_add_quote q b = (Err (QuoteAlreadyExists e), b') →
    (e ∈ contents b ∧ slot e = slot q) ∨ q_id e = q_id q;

  remove_id_inv i b r b' : book_inv b → qb_remove_quote_by_id i b = (r, b') → book_inv b';
  remove_id_ok i b q b' : book_inv b → qb_remove_quote_by_id i b = (Ok q, b') →
    q_id q = i ∧ contents b ≡ₚ q :: contents b';
  remove_id_frame i b r b' : book_inv b → qb_remove_quote_by_id i b = (r, b') →
    contents b' ⊆+ contents b;

  remove_ki_inv k b r b' : book_inv b → qb_remove_quotes_by_key_image k b = (r, b') → book_inv b';
  remove_ki_ok k b l b' : book_inv b → qb_remove_quotes_by_key_image k b = (Ok l, b') →
    l ≡ₚ filter (λ q, quote_key_image q = k) (contents b) ∧
    contents b' ≡ₚ filter (λ q, quote_key_image q ≠ k) (contents b);
  remove_ki_frame k b r b' : book_inv b → qb_remove_quotes_by_key_image k b = (r, b') →
    contents b' ⊆+ contents b;

  remove_tombstone_inv n b r b' : book_inv b →
    qb_remove_quotes_by_tombstone_block n b = (r, b') → book_inv b';
  remove_tombstone_ok n b l b' : book_inv b →
    qb_remove_quotes_by_tombstone_block n b = (Ok l, b') →
    l ≡ₚ filter (λ q, tombstone_expired n q = true) (contents b) ∧
    contents b' ≡ₚ filter (λ q, tombstone_expired n q = false) (contents b);
  remove_tombstone_frame n b r b' : book_inv b →
    qb_remove_quotes_by_tombstone_block n b = (r, b') → contents b' ⊆+ contents b;

  get_quotes_ok p r limit b l : book_inv b → 0 ≤ limit → qb_get_quotes p r limit b = Ok l →
    listing (contents b) p r limit l;
  get_quote_ids_ok p b l : book_inv b → qb_get_quote_ids p b = Ok l →
    l ≡ₚ q_id <$> filter (λ q, default (q_pair q) p = q_pair q) (contents b);
  get_quote_by_id_ok i b o : book_inv b → qb_get_quote_by_id i b = Ok o →
    match o with
    | Some q => q ∈ contents b ∧ q_id q = i
    | None => ∀ q, q ∈ contents b → q_id q ≠ i
    end;
  num_scis_ok b n : book_inv b → qb_num_scis b = Ok n → n = wrap64 (Z.of_nat (length (contents b)));
}.
Arguments contents {_ B _ _} b.
Arguments book_inv {_ B _ _} b.

(** * Consequences for clients *)

Section Clients.
Context `{McLib} {B} `{!QuoteBook B, !QuoteBookLaws B}.

(** [add_sci] answers [Ok] exactly with the quote of [Quote::new], and the
    book then holds that quote and what it held before. *)
Lemma add_sci_ok now sci ts b q b' :
  book_inv b → (∀ q, quote_new now sci ts = Ok q → addable (contents b) q) →
  qb_add_sci now sci ts b = (Ok q, b') →
  quote_new now sci ts = Ok q ∧ book_inv b' ∧ contents b' ≡ₚ q :: contents b.
Proof.
  intros Hinv Hadd. unfold qb_add_sci, st_lift, st_ret.
  intros (q0 & b0 & [= Hq ->] & ([] & b1 & Hins & [= -> ->])%st_bind_Ok_inv)%st_bind_Ok_inv.
  specialize (Hadd _ Hq). split; [done|]. split; [by eapply add_inv | by eapply add_ok].
Qed.

Lemma add_sci_frame now sci ts b r b' :
  book_inv b → (∀ q, quote_new now sci ts = Ok q → addable (contents b) q) →
  qb_add_sci now sci ts b = (r, b') →
  book_inv b' ∧ contents b ⊆+ contents b' ∧
  (contents b' ⊆+ contents b ∨
   ∃ q, quote_new now sci ts = Ok q ∧ contents b' ⊆+ q :: contents b).
Proof.
  intros Hinv Hadd. unfold qb_add_sci, st_lift, st_ret, st_bind.
  destruct (quote_new now sci ts) as [q|e|p] eqn:Hq; [|by intros [= <- <-]; auto..].
  specialize (Hadd _ eq_refl). destruct (qb_add_quote q b) as [[[]|e|p] b1] eqn:Hins;
    intros [= <- <-]; (split; [by eapply add_inv|]);
    destruct (add_frame _ _ _ _ Hinv Hadd Hins); eauto.
Qed.

(** The listing of a pair is unique: it does not depend on the book. *)
Lemma listing_unique l p r limit res1 res2 :
  Forall priced l → listing l p r limit res1 → listing l p r limit res2 → res1 = res2.
Proof.
  intros HP (all1 & HS1 & Hp1 & ->) (all2 & HS2 & Hp2 & ->).
  assert (all1 = all2) as ->; [|done].
  apply (StronglySorted_unique_on priced quote_cmp); try done.
  - rewrite Hp1. apply Forall_forall. intros x [_ Hx]%list_elem_of_filter.
    rewrite Forall_forall in HP. by apply HP.
  - by rewrite Hp1.
Qed.
End Clients.

(** * The abstract book: a finite map from slots to quotes *)

Section SlotMap.
Context `{McLib}.
Implicit Types l : list Quote.

Definition slot_map l : gmap (Pair * KeyImage) Quote := list_to_map ((λ q, (slot q, q)) <$> l).

Lemma slot_keys l : ((λ q, (slot q, q)) <$> l).*1 = slot <$> l.
Proof. rewrite <-list_fmap_compose. done. Qed.

Lemma slot_map_lookup l s q :
  NoDup (slot <$> l) → slot_map l !! s = Some q ↔ q ∈ l ∧ slot q = s.
Proof.
  intros Hnd. unfold slot_map. rewrite <-elem_of_list_to_map by by rewrite slot_keys.
  rewrite list_elem_of_fmap. naive_solver.
Qed.

Lemma slot_map_perm l l' : NoDup (slot <$> l) → l ≡ₚ l' → slot_map l = slot_map l'.
Proof.
  intros Hnd Hp. unfold slot_map. apply list_to_map_proper; [by rewrite slot_keys|].
  by apply fmap_Permutation.
Qed.

Lemma slot_map_filter (P : Quote → Prop) `{!∀ q, Decision (P q)} l :
  NoDup (slot <$> l) → slot_map (filter P l) = filter (λ '(_, q), P q) (slot_map l).
Proof.
  intros Hnd. apply map_eq. intros s. apply option_eq. intros q.
  rewrite map_lookup_filter_Some, !slot_map_lookup; [|done|].
  - rewrite list_elem_of_filter. naive_solver.
  - eapply NoDup_submseteq_inv; [|exact Hnd]. apply fmap_submseteq, filter_submseteq.
Qed.

Lemma slot_map_filtered (P : Quote → Prop) `{!∀ q, Decision (P q)} l l' :
  NoDup (slot <$> l) → l' ≡ₚ filter P l → slot_map l' = filter (λ '(_, q), P q) (slot_map l).
Proof.
  intros Hnd Hp. rewrite <-slot_map_filter by done. symmetry. apply slot_map_perm; [|done].
  eapply NoDup_submseteq_inv; [|exact Hnd]. apply fmap_submseteq, filter_submseteq.
Qed.

Lemma slot_map_None l s : NoDup (slot <$> l) → (∀ q, q ∈ l → slot q ≠ s) → slot_map l !! s = None.
Proof.
  intros Hnd Hs. apply eq_None_not_Some. intros [q [Hq Hqs]%slot_map_lookup]; [|done]. by apply (Hs q).
Qed.

Lemma slot_map_size l : NoDup (slot <$> l) → size (slot_map l) = length l.
Proof.
  intros Hnd. unfold slot_map. rewrite map_size_list_to_map by by rewrite slot_keys.
  by rewrite length_fmap.
Qed.
End SlotMap.
