(* ===== verification/InMemory.v ===== *)
(** The in-memory quote book (quote-book/in-memory/src/lib.rs).

    The state is the map from pairs to sorted sets of quotes behind an
    [RwLock]; a panic while the write lock is held poisons the lock. *)

From S2P Require Import Prelude McTypes QuoteApi QuotePricing QuoteBook.

(** [Arc<RwLock<HashMap<Pair, BTreeSet<Quote>>>>] *)
Record InMemoryQuoteBook := {
  im_scis : gmap Pair (list Quote);
  im_poisoned : bool;
}.

(** [impl Default for InMemoryQuoteBook] *)
Definition im_default : InMemoryQuoteBook := {| im_scis := ∅; im_poisoned := false |}.

(** [self.scis.write()?]: an error when the lock is poisoned; the guard
    poisons the lock when the code holding it panics. *)
Definition with_write {A} (f : stateful (gmap Pair (list Quote)) Error A) :
    stateful InMemoryQuoteBook Error A := λ b,
  if im_poisoned b then (Err LockPoisoned, b)
  else let '(r, m) := f (im_scis b) in
       (r, {| im_scis := m; im_poisoned := is_panic r |}).

(** [self.scis.read()?] *)
Definition with_read {A} (f : gmap Pair (list Quote) → outcome Error A)
    (b : InMemoryQuoteBook) : outcome Error A :=
  if im_poisoned b then Err LockPoisoned else f (im_scis b).

(** [fn range_overlaps] *)
Definition range_overlaps (x y : Bound * Bound) : bool :=
  let x1 := match x.1 with
            | Included start => start
            | Excluded start => saturating_add start 1
            | Unbounded => 0
            end in
  let x2 := match x.2 with
            | Included end_ => end_
            | Excluded end_ => saturating_sub end_ 1
            | Unbounded => U64_MAX
            end in
  let y1 := match y.1 with
            | Included start => start
            | Excluded start => saturating_add start 1
            | Unbounded => 0
            end in
  let y2 := match y.2 with
            | Included end_ => end_
            | Excluded end_ => saturating_sub end_ 1
            | Unbounded => U64_MAX
            end in
  (x1 <=? y2) && (y1 <=? x2).

(** [RangeInclusive] as a range of bounds. *)
Definition inclusive (r : Z * Z) : Bound * Bound := (Included r.1, Included r.2).

Section InMemory.
Context `{McLib} `{!HashIter Pair (list Quote)}.

Definition im_add_quote (quote : Quote) : stateful InMemoryQuoteBook Error unit :=
  with_write (λ scis,
    let quotes := default [] (scis !! q_pair quote) in
    match list_find (λ entry, sci_key_image (q_sci entry) = sci_key_image (q_sci quote)) quotes with
    | Some (_, existing_quote) =>
        (Err (QuoteAlreadyExists existing_quote), <[q_pair quote := quotes]> scis)
    | None =>
        let '(inserted, quotes') := bset_insert quote_cmp quote quotes in
        (rust_assert inserted "quotes.insert(quote.clone())", <[q_pair quote := quotes']> scis)
    end).

(** The loop over [scis.values_mut()]. *)
Fixpoint remove_by_id_loop (id : QuoteId) (entries : list (Pair * list Quote)) :
    stateful (gmap Pair (list Quote)) Error Quote := λ scis,
  match entries with
  | [] => (Err QuoteNotFound, scis)
  | (key, quotes) :: rest =>
      match list_find (λ entry, q_id entry = id) quotes with
      | Some (_, element) =>
          let '(removed, quotes') := bset_remove quote_cmp element quotes in
          (_ ← rust_assert removed "entries.remove(&element)"; Ok element,
           <[key := quotes']> scis)
      | None => remove_by_id_loop id rest scis
      end
  end.

Definition im_remove_quote_by_id (id : QuoteId) : stateful InMemoryQuoteBook Error Quote :=
  with_write (λ scis, remove_by_id_loop id (hash_entries scis) scis).

(** [drain_filter] on every set, appending to [all_removed_quotes]. *)
Fixpoint drain_loop (p : Quote → bool) (entries : list (Pair * list Quote))
    (scis : gmap Pair (list Quote)) (all_removed_quotes : list Quote) :
    list Quote * gmap Pair (list Quote) :=
  match entries with
  | [] => (all_removed_quotes, scis)
  | (key, quotes) :: rest =>
      let '(removed_entries, kept) := drain_filter p quotes in
      drain_loop p rest (<[key := kept]> scis) (all_removed_quotes ++ removed_entries)
  end.

Definition im_remove_quotes_by_key_image (key_image : KeyImage) :
    stateful InMemoryQuoteBook Error (list Quote) :=
  with_write (λ scis,
    let '(removed, scis') :=
      drain_loop (λ entry, bool_decide (sci_key_image (q_sci entry) = key_image))
        (hash_entries scis) scis [] in
    (Ok removed, scis')).

Definition im_remove_quotes_by_tombstone_block (current_block_index : BlockIndex) :
    stateful InMemoryQuoteBook Error (list Quote) :=
  with_write (λ scis,
    let '(removed, scis') :=
      drain_loop (λ entry,
          match input_rules (tx_in (q_sci entry)) with
          | Some input_rules =>
              negb (max_tombstone_block input_rules =? 0) &&
              is_err (validate_tombstone current_block_index (max_tombstone_block input_rules))
          | None => false
          end)
        (hash_entries scis) scis [] in
    (Ok removed, scis')).

(** The loop of [get_quotes], with its [break] at the limit. *)
Fixpoint get_quotes_loop (range : Bound * Bound) (limit : Z) (quotes results : list Quote) : list Quote :=
  match quotes with
  | [] => results
  | quote :: rest =>
      if range_overlaps range (inclusive (q_base_range quote)) then
        let results := results ++ [quote] in
        if Z.of_nat (length results) =? limit then results
        else get_quotes_loop range limit rest results
      else get_quotes_loop range limit rest results
  end.

Definition im_get_quotes (pair_ : Pair) (base_token_quantity : Bound * Bound) (limit : Z) :
    InMemoryQuoteBook → outcome Error (list Quote) :=
  with_read (λ scis,
    match scis !! pair_ with
    | Some quotes => Ok (get_quotes_loop base_token_quantity limit quotes [])
    | None => Ok []
    end).

Definition im_get_quote_ids (pair_ : option Pair) : InMemoryQuoteBook → outcome Error (list QuoteId) :=
  with_read (λ scis,
    match pair_ with
    | Some key => match scis !! key with Some quotes => Ok (q_id <$> quotes) | None => Ok [] end
    | None => Ok (hash_entries scis ≫= λ '(_, quotes), q_id <$> quotes)
    end).

Fixpoint get_by_id_loop (id : QuoteId) (entries : list (Pair * list Quote)) : option Quote :=
  match entries with
  | [] => None
  | (_, quotes) :: rest =>
      match list_find (λ entry, q_id entry = id) quotes with
      | Some (_, element) => Some element
      | None => get_by_id_loop id rest
      end
  end.

Definition im_get_quote_by_id (id : QuoteId) : InMemoryQuoteBook → outcome Error (option Quote) :=
  with_read (λ scis, Ok (get_by_id_loop id (hash_entries scis))).

Definition im_num_scis : InMemoryQuoteBook → outcome Error Z :=
  with_read (λ scis,
    Ok (fold_left (λ sum '(_, entries), u64_add sum (Z.of_nat (length entries))) (hash_entries scis) 0)).

#[export] Instance InMemoryQuoteBook_QuoteBook : QuoteBook InMemoryQuoteBook := {|
  qb_add_quote := im_add_quote;
  qb_remove_quote_by_id := im_remove_quote_by_id;
  qb_remove_quotes_by_key_image := im_remove_quotes_by_key_image;
  qb_remove_quotes_by_tombstone_block := im_remove_quotes_by_tombstone_block;
  qb_get_quotes := im_get_quotes;
  qb_get_quote_ids := im_get_quote_ids;
  qb_get_quote_by_id := im_get_quote_by_id;
  qb_num_scis := im_num_scis;
|}.
End InMemory.

(** * The invariant and the contents *)

(** A set of the map is strictly sorted, holds priced quotes of its pair, and
    no two of them share a key image. *)
Record set_inv `{McLib} (p : Pair) (qs : list Quote) : Prop := {
  set_sorted : StronglySorted (cmp_lt quote_cmp) qs;
  set_priced : Forall priced qs;
  set_pair : Forall (λ q, q_pair q = p) qs;
  set_key_images : NoDup (quote_key_image <$> qs);
}.

Definition map_inv `{McLib} (m : gmap Pair (list Quote)) : Prop :=
  ∀ p qs, m !! p = Some qs → set_inv p qs.
Definition map_contents (m : gmap Pair (list Quote)) : list Quote := map_to_list m ≫= snd.

Section Contents.
Context `{McLib}.
Implicit Types (m : gmap Pair (list Quote)) (p : Pair) (qs : list Quote).

Lemma map_contents_insert m p qs : map_contents (<[p := qs]> m) ≡ₚ qs ++ map_contents (delete p m).
Proof.
  unfold map_contents. rewrite <-insert_delete_eq, map_to_list_insert by apply lookup_delete_eq. done.
Qed.

Lemma map_contents_lookup m p : map_contents m ≡ₚ default [] (m !! p) ++ map_contents (delete p m).
Proof.
  destruct (m !! p) as [qs|] eqn:E; cbn; [|by rewrite delete_id].
  rewrite <-(insert_id m p qs E) at 1. apply map_contents_insert.
Qed.

Lemma elem_of_map_contents m q : q ∈ map_contents m ↔ ∃ p qs, m !! p = Some qs ∧ q ∈ qs.
Proof.
  unfold map_contents. rewrite list_elem_of_bind. setoid_rewrite elem_of_map_to_list'. split.
  - intros ([p qs] & ? & ?). eauto.
  - intros (p & qs & ? & ?). by exists (p, qs).
Qed.

Lemma map_inv_insert m p qs : map_inv m → set_inv p qs → map_inv (<[p := qs]> m).
Proof. intros Hm Hs p' qs' [[-> ->]|[_ ?]]%lookup_insert_Some; eauto. Qed.

Lemma set_inv_nil p : set_inv p [].
Proof. by repeat constructor. Qed.

Lemma set_inv_default m p : map_inv m → set_inv p (default [] (m !! p)).
Proof. intros Hm. destruct (m !! p) eqn:E; cbn; eauto using set_inv_nil. Qed.

Lemma set_inv_sublist p qs qs' :
  set_inv p qs → StronglySorted (cmp_lt quote_cmp) qs' → qs' ⊆+ qs → set_inv p qs'.
Proof.
  intros [? HP Hp HK] HS Hsub. split; [done| | |].
  - by eapply Forall_submseteq.
  - by eapply Forall_submseteq.
  - eapply NoDup_submseteq_inv; [|exact HK]. by apply fmap_submseteq.
Qed.

(** The quotes of a pair are the quotes of its set. *)
Lemma map_contents_pair m p : map_inv m →
  filter (λ q, q_pair q = p) (map_contents m) ≡ₚ default [] (m !! p).
Proof.
  intros Hm. rewrite (map_contents_lookup m p), filter_app.
  rewrite (list_filter_all _ (default [] _)).
  2: { intros x Hx. pose proof (set_pair _ _ (set_inv_default m p Hm)) as HF.
       rewrite Forall_forall in HF. by apply HF. }
  rewrite (list_filter_none _ (map_contents _)), app_nil_r; [done|].
  intros x (p' & qs & [Hne Hqs]%lookup_delete_Some & Hx)%elem_of_map_contents Hxp.
  pose proof (set_pair _ _ (Hm _ _ Hqs)) as HF. rewrite Forall_forall in HF.
  specialize (HF x Hx). cbn in HF. congruence.
Qed.

Lemma map_contents_slots m : map_inv m → NoDup (slot <$> map_contents m).
Proof.
  induction m as [|p qs m Hp IH] using map_ind; intros Hm; [apply NoDup_nil_2|].
  rewrite map_contents_insert, (delete_id m p Hp), fmap_app. apply NoDup_app.
  assert (set_inv p qs) as [_ _ Hpair HK] by (apply Hm; apply lookup_insert_eq).
  assert (map_inv m) as Hm'.
  { intros p' qs' Hqs. apply Hm. rewrite lookup_insert_ne; [done|]. by intros ->; rewrite Hp in Hqs. }
  rewrite Forall_forall in Hpair. repeat split; [| |by apply IH].
  - apply (NoDup_fmap_2_strong slot qs).
    + intros x y Hx Hy [= _ Hk]. by eapply NoDup_fmap_inj_on.
    + by eapply NoDup_fmap_1.
  - intros s (x & -> & Hx)%list_elem_of_fmap (y & [= Hpp _] & Hy)%list_elem_of_fmap.
    apply elem_of_map_contents in Hy as (p' & qs' & Hqs & Hy).
    pose proof (set_pair _ _ (Hm' _ _ Hqs)) as HF. rewrite Forall_forall in HF.
    rewrite (Hpair _ Hx), (HF _ Hy) in Hpp. subst p'. by rewrite Hp in Hqs.
Qed.
End Contents.

(** * The operations on the contents *)

Section Operations.
Context `{McLib} `{!HashIter Pair (list Quote)}.
Implicit Types (m : gmap Pair (list Quote)) (b : InMemoryQuoteBook).

Lemma list_find_key_image_None k (qs : list Quote) :
  list_find (λ e, sci_key_image (q_sci e) = k) qs = None → ∀ x, x ∈ qs → quote_key_image x ≠ k.
Proof. intros HF%list_find_None. by rewrite Forall_forall in HF. Qed.

(** Inserting a quote with a new key image into the set of its pair. *)
Lemma set_insert p qs q :
  set_inv p qs → priced q → q_pair q = p →
  (∀ x, x ∈ qs → quote_key_image x ≠ quote_key_image q) →
  (∀ x, x ∈ qs → q_id x = q_id q → quote_key_image x = quote_key_image q) →
  ∃ qs', bset_insert quote_cmp q qs = (true, qs') ∧ set_inv p qs' ∧ qs' ≡ₚ q :: qs.
Proof.
  intros [HS HP Hp HK] Hq Hqp Hfresh Hid.
  destruct (bset_insert quote_cmp q qs) as [ins qs'] eqn:E.
  destruct (bset_insert_spec priced quote_cmp q qs ins qs') as (HS' & HP' & Hperm); try done.
  destruct ins.
  - exists qs'. split; [done|]. split; [|done]. split; [done|done| |].
    + rewrite Hperm. by constructor.
    + rewrite Hperm. cbn. apply NoDup_cons. split; [|done].
      intros (x & Hx & Hxin)%list_elem_of_fmap. by apply (Hfresh x Hxin).
  - destruct Hperm as [_ (x & Hx & HE%quote_cmp_Eq_id)%Exists_exists].
    destruct (Hfresh x); auto.
Qed.

Lemma im_add_cases q b r b' :
  map_inv (im_scis b) → addable (map_contents (im_scis b)) q → im_add_quote q b = (r, b') →
  map_inv (im_scis b') ∧
  ((r = Err LockPoisoned ∧ b' = b ∧ im_poisoned b = true) ∨
   (im_poisoned b = false ∧ im_poisoned b' = false ∧
    ((∃ e, r = Err (QuoteAlreadyExists e) ∧ e ∈ map_contents (im_scis b) ∧ slot e = slot q ∧
           map_contents (im_scis b') ≡ₚ map_contents (im_scis b)) ∨
     (r = Ok tt ∧ map_contents (im_scis b') ≡ₚ q :: map_contents (im_scis b) ∧
      ∀ x, x ∈ map_contents (im_scis b) → slot x ≠ slot q)))).
Proof.
  intros Hm [Hq Hid]. unfold im_add_quote, with_write.
  destruct (im_poisoned b) eqn:Hpois; [intros [= <- <-]; auto|].
  pose proof (set_inv_default _ (q_pair q) Hm) as Hset.
  pose proof (map_contents_lookup (im_scis b) (q_pair q)) as Hlk.
  set (qs := default [] (im_scis b !! q_pair q)) in *.
  assert (∀ x, x ∈ qs → x ∈ map_contents (im_scis b)) as Hqs
    by (intros x Hx; rewrite Hlk; set_solver).
  destruct (list_find _ qs) as [[i e]|] eqn:Hf.
  - intros [= <- <-]. cbn. split; [by apply map_inv_insert|]. right. split; [done|]. split; [done|].
    left. apply find_Some in Hf as [He Hk]. exists e. split; [done|]. split; [by apply Hqs|]. split.
    + unfold slot. pose proof (set_pair _ _ Hset) as HF. rewrite Forall_forall in HF.
      unfold quote_key_image. rewrite Hk. f_equal. by apply HF.
    + by rewrite map_contents_insert, <-Hlk.
  - pose proof (list_find_key_image_None _ _ Hf) as Hfresh.
    destruct (set_insert (q_pair q) qs q) as (qs' & -> & Hset' & Hperm); auto.
    intros [= <- <-]. cbn. split; [by apply map_inv_insert|]. right. split; [done|]. split; [done|].
    right. split; [done|]. split; [by rewrite map_contents_insert, Hperm, Hlk|].
    intros x Hx [= Hp Hk]. apply (Hfresh x); [|done]. unfold qs.
    rewrite <-(map_contents_pair _ _ Hm). by apply list_elem_of_filter.
Qed.

(** ** Removal by a predicate *)

Lemma drain_loop_spec p entries m acc :
  NoDup entries.*1 → (∀ k qs, (k, qs) ∈ entries → m !! k = Some qs) →
  (drain_loop p entries m acc).1 = acc ++ (entries ≫= λ '(_, qs), filter (λ q, p q = true) qs) ∧
  ∀ k, (drain_loop p entries m acc).2 !! k =
       if decide (k ∈ entries.*1) then filter (λ q, p q = false) <$> m !! k else m !! k.
Proof.
  revert m acc. induction entries as [|[k qs] rest IH]; intros m acc Hnd Hm; cbn.
  { split; [by rewrite app_nil_r|]. intros k. by rewrite decide_False by apply not_elem_of_nil. }
  apply NoDup_cons in Hnd as [Hk Hnd].
  destruct (IH (<[k := filter (λ q, p q = false) qs]> m) (acc ++ filter (λ q, p q = true) qs))
    as [-> Hlk]; [done| |].
  { intros k' qs' Hin. rewrite lookup_insert_ne.
    - apply Hm. by apply list_elem_of_further.
    - intros ->. apply Hk. by apply (list_elem_of_fmap_2 fst _ (k', qs')). }
  split; [by rewrite <-(assoc_L (++))|]. intros k'. rewrite Hlk.
  destruct (decide (k' = k)) as [->|Hne].
  - rewrite decide_False by done. rewrite decide_True by apply list_elem_of_here.
    rewrite lookup_insert_eq. rewrite (Hm k qs) by apply list_elem_of_here. done.
  - rewrite lookup_insert_ne by done. do 2 case_decide; set_solver.
Qed.

Lemma drain_map p m :
  (drain_loop p (hash_entries m) m []).1 ≡ₚ filter (λ q, p q = true) (map_contents m) ∧
  (drain_loop p (hash_entries m) m []).2 = filter (λ q, p q = false) <$> m.
Proof.
  pose proof (hash_entries_perm m) as Hperm.
  destruct (drain_loop_spec p (hash_entries m) m []) as [-> Hlk].
  { rewrite Hperm. apply NoDup_fst_map_to_list. }
  { intros k qs. rewrite Hperm. apply elem_of_map_to_list. }
  split.
  - cbn. rewrite Hperm. unfold map_contents. clear Hperm Hlk. induction (map_to_list m) as [|[k qs] l IH]; [done|].
    cbn. by rewrite filter_app, IH.
  - apply map_eq. intros k. rewrite Hlk, lookup_fmap. case_decide as Hk; [done|].
    destruct (m !! k) as [qs|] eqn:E; [|done]. destruct Hk. rewrite Hperm.
    apply (list_elem_of_fmap_2 fst _ (k, qs)). by apply elem_of_map_to_list.
Qed.

Lemma map_inv_filter (p : Quote → bool) m :
  map_inv m → map_inv (filter (λ q, p q = false) <$> m).
Proof.
  intros Hm k qs. rewrite lookup_fmap. destruct (m !! k) as [qs0|] eqn:E; [|done].
  intros [= <-]. eapply set_inv_sublist; [by apply Hm| |apply filter_submseteq].
  apply sorted_filter. eapply set_sorted. by apply Hm.
Qed.

Lemma map_contents_fmap_filter (P : Quote → Prop) `{!∀ x, Decision (P x)} m :
  map_contents (filter P <$> m) ≡ₚ filter P (map_contents m).
Proof.
  unfold map_contents. rewrite map_to_list_fmap.
  induction (map_to_list m) as [|[k qs] l IH]; [done|]. cbn. by rewrite filter_app, IH.
Qed.

(** Both removal operations, for the predicate they drain by. *)
Lemma im_drain_cases (p : Quote → bool) b r b' :
  map_inv (im_scis b) →
  with_write (λ scis, let '(removed, scis') := drain_loop p (hash_entries scis) scis [] in
                      (Ok removed, scis')) b = (r, b') →
  map_inv (im_scis b') ∧
  ((r = Err LockPoisoned ∧ b' = b ∧ im_poisoned b = true) ∨
   (im_poisoned b = false ∧ im_poisoned b' = false ∧
    ∃ l, r = Ok l ∧ l ≡ₚ filter (λ q, p q = true) (map_contents (im_scis b)) ∧
         map_contents (im_scis b') ≡ₚ filter (λ q, p q = false) (map_contents (im_scis b)))).
Proof.
  intros Hm. unfold with_write. destruct (im_poisoned b) eqn:Hpois; [intros [= <- <-]; auto|].
  destruct (drain_map p (im_scis b)) as [Hl Hm2].
  destruct (drain_loop _ _ _ _) as [l m2]. cbn in *. subst m2. intros [= <- <-]. cbn.
  split; [by apply map_inv_filter|]. right. repeat (split; [done|]). exists l.
  split; [done|]. split; [done|]. apply map_contents_fmap_filter.
Qed.
End Operations.

Section Reads.
Context `{McLib} `{!HashIter Pair (list Quote)}.
Implicit Types (m : gmap Pair (list Quote)) (b : InMemoryQuoteBook).

Lemma list_find_id_None i (qs : list Quote) :
  list_find (λ e, q_id e = i) qs = None → ∀ x, x ∈ qs → q_id x ≠ i.
Proof. intros HF%list_find_None. by rewrite Forall_forall in HF. Qed.

Lemma hash_entries_lookup m k qs : (k, qs) ∈ hash_entries m ↔ m !! k = Some qs.
Proof. rewrite hash_entries_perm. apply elem_of_map_to_list. Qed.

Lemma hash_entries_contents m : (hash_entries m ≫= snd) ≡ₚ map_contents m.
Proof. unfold map_contents. by rewrite hash_entries_perm. Qed.

Lemma remove_by_id_loop_spec i entries m :
  map_inv m → (∀ k qs, (k, qs) ∈ entries → m !! k = Some qs) →
  (remove_by_id_loop i entries m = (Err QuoteNotFound, m) ∧ ∀ x, x ∈ entries ≫= snd → q_id x ≠ i) ∨
  (∃ k qs qs' e, remove_by_id_loop i entries m = (Ok e, <[k := qs']> m) ∧
     m !! k = Some qs ∧ q_id e = i ∧ set_inv k qs' ∧ qs ≡ₚ e :: qs').
Proof.
  intros Hm. induction entries as [|[k qs] rest IH]; intros Hin; cbn.
  { left. split; [done|]. intros x Hx. by apply elem_of_nil in Hx. }
  assert (m !! k = Some qs) as Hk by (apply Hin; apply list_elem_of_here).
  destruct (list_find _ qs) as [[j e]|] eqn:Hf.
  - right. apply find_Some in Hf as [He Hi]. pose proof (Hm _ _ Hk) as Hset.
    destruct (bset_remove_spec priced quote_cmp e qs) as (qs' & -> & HS & HP & Hperm);
      [apply Hset|apply Hset|done|].
    exists k, qs, qs', e. repeat (split; [done|]). split; [|done].
    eapply set_inv_sublist; [exact Hset|exact HS|]. rewrite Hperm. by apply submseteq_cons.
  - destruct IH as [[-> Hnone]|Hsome]; [|left; split; [done|]|by right].
    + intros k' qs' H'. apply Hin. by apply list_elem_of_further.
    + intros x [Hx|Hx]%elem_of_app; [by eapply list_find_id_None | by apply Hnone].
Qed.

Lemma im_remove_id_cases i b r b' :
  map_inv (im_scis b) → im_remove_quote_by_id i b = (r, b') →
  map_inv (im_scis b') ∧
  ((r = Err LockPoisoned ∧ b' = b ∧ im_poisoned b = true) ∨
   (im_poisoned b = false ∧ im_poisoned b' = false ∧
    ((r = Err QuoteNotFound ∧ im_scis b' = im_scis b ∧
      ∀ x, x ∈ map_contents (im_scis b) → q_id x ≠ i) ∨
     (∃ e, r = Ok e ∧ q_id e = i ∧ map_contents (im_scis b) ≡ₚ e :: map_contents (im_scis b'))))).
Proof.
  intros Hm. unfold im_remove_quote_by_id, with_write.
  destruct (im_poisoned b) eqn:Hpois; [intros [= <- <-]; auto|].
  destruct (remove_by_id_loop_spec i (hash_entries (im_scis b)) (im_scis b))
    as [[-> Hnone]|(k & qs & qs' & e & -> & Hk & Hi & Hset & Hperm)]; [done| | |].
  - intros k qs. apply hash_entries_lookup.
  - intros [= <- <-]. cbn. split; [done|]. right. repeat (split; [done|]). left.
    repeat (split; [done|]). intros x. rewrite <-hash_entries_contents. apply Hnone.
  - intros [= <- <-]. cbn. split; [by apply map_inv_insert|]. right. repeat (split; [done|]). right.
    exists e. repeat (split; [done|]). rewrite map_contents_insert, (map_contents_lookup _ k), Hk. cbn.
    by rewrite Hperm.
Qed.

Lemma get_quotes_loop_spec range limit qs res :
  limit = 0 ∨ Z.of_nat (length res) < limit →
  get_quotes_loop range limit qs res =
    res ++ (if limit =? 0 then filter (λ q, overlaps range (q_base_range q) = true) qs
            else take (Z.to_nat limit - length res)
                   (filter (λ q, overlaps range (q_base_range q) = true) qs)).
Proof.
  revert res. induction qs as [|q qs IH]; intros res Hlim; cbn [get_quotes_loop].
  { rewrite filter_nil, take_nil. by destruct (limit =? 0); rewrite app_nil_r. }
  change (range_overlaps range (inclusive (q_base_range q))) with (overlaps range (q_base_range q)).
  rewrite filter_cons. destruct (overlaps _ _); [|by rewrite decide_False, IH].
  rewrite decide_True by done. rewrite length_app. cbn [length].
  destruct (Z.eqb_spec limit 0) as [->|Hne].
  - assert ((Z.of_nat (length res + 1) =? 0) = false) as -> by (apply Z.eqb_neq; lia).
    rewrite IH by auto. by rewrite <-(assoc_L (++)).
  - assert (Z.to_nat limit - length res = S (Z.to_nat limit - S (length res)))%nat as -> by lia.
    cbn. destruct (Z.eqb_spec (Z.of_nat (length res + 1)) limit) as [E|E].
    + by assert (Z.to_nat limit - S (length res) = 0)%nat as -> by lia.
    + rewrite IH by (rewrite length_app; cbn; lia).
      rewrite length_app, <-(assoc_L (++)). cbn. by rewrite Nat.add_1_r.
Qed.

Lemma im_get_quotes_listing p range limit b l :
  map_inv (im_scis b) → 0 ≤ limit → im_get_quotes p range limit b = Ok l →
  listing (map_contents (im_scis b)) p range limit l.
Proof.
  intros Hm Hlim. unfold im_get_quotes, with_read. destruct (im_poisoned b); [done|].
  intros Hl. exists (filter (λ q, overlaps range (q_base_range q) = true) (default [] (im_scis b !! p))).
  split; [|split].
  - apply sorted_filter. eapply set_sorted. by apply (set_inv_default _ p).
  - rewrite <-(map_contents_pair _ _ Hm), list_filter_filter.
    erewrite list_filter_ext; [done|]. cbn. tauto.
  - destruct (im_scis b !! p) as [qs|]; simplify_eq/=.
    + rewrite get_quotes_loop_spec by (cbn; lia). cbn. by rewrite Nat.sub_0_r.
    + destruct (limit =? 0); [done|]. by rewrite filter_nil, take_nil.
Qed.

Lemma im_get_quote_ids_spec p b l :
  map_inv (im_scis b) → im_get_quote_ids p b = Ok l →
  l ≡ₚ q_id <$> filter (λ q, default (q_pair q) p = q_pair q) (map_contents (im_scis b)).
Proof.
  intros Hm. unfold im_get_quote_ids, with_read. destruct (im_poisoned b); [done|].
  destruct p as [p|]; cbn.
  - intros Hl. assert (l = q_id <$> default [] (im_scis b !! p)) as -> by by case_match; simplify_eq.
    rewrite <-(map_contents_pair _ _ Hm). apply fmap_Permutation.
    erewrite list_filter_ext; [done|]. naive_solver.
  - intros [= <-]. rewrite list_filter_all by done. rewrite <-hash_entries_contents.
    induction (hash_entries (im_scis b)) as [|[k qs] es IH]; [done|]. cbn. by rewrite fmap_app, IH.
Qed.

Lemma get_by_id_loop_spec i entries :
  match get_by_id_loop i entries with
  | Some q => q ∈ entries ≫= snd ∧ q_id q = i
  | None => ∀ q, q ∈ entries ≫= snd → q_id q ≠ i
  end.
Proof.
  induction entries as [|[k qs] es IH]; cbn; [intros q Hq; by apply elem_of_nil in Hq|].
  destruct (list_find _ qs) as [[j e]|] eqn:Hf.
  - apply find_Some in Hf as [? ?]. set_solver.
  - pose proof (list_find_id_None _ _ Hf). destruct (get_by_id_loop i es); set_solver.
Qed.

Lemma num_scis_fold entries acc :
  fold_left (λ sum '(_, qs), u64_add sum (Z.of_nat (length qs))) entries (wrap64 acc) =
  wrap64 (acc + Z.of_nat (length (entries ≫= (snd : Pair * list Quote → list Quote)))).
Proof.
  revert acc. induction entries as [|[k qs] es IH]; intros acc; cbn; [f_equal; lia|].
  rewrite length_app, Nat2Z.inj_add, Z.add_assoc, <-IH. f_equal.
  unfold u64_add, wrap64. by rewrite Zplus_mod_idemp_l.
Qed.
End Reads.

(** * The in-memory book implements the interface *)

Section Laws.
Context `{McLib} `{!HashIter Pair (list Quote)}.

#[export] Program Instance InMemoryQuoteBook_Laws : QuoteBookLaws InMemoryQuoteBook := {|
  book_inv b := map_inv (im_scis b);
  contents b := map_contents (im_scis b);
|}.
Next Obligation. intros b. apply map_contents_slots. Qed.
Next Obligation. intros q b r b' Hm Ha Hadd. by destruct (im_add_cases q b r b' Hm Ha Hadd). Qed.
Next Obligation.
  intros q b b' Hm Ha Hadd.
  by destruct (im_add_cases q b _ b' Hm Ha Hadd) as [_ [(? & _)|(_ & _ & [(e & ? & _)|(_ & ? & _)])]].
Qed.
Next Obligation.
  intros q b r b' Hm Ha Hadd. destruct (im_add_cases q b r b' Hm Ha Hadd)
    as [_ [(_ & -> & _)|(_ & _ & [(e & _ & _ & _ & ->)|(_ & -> & _)])]];
    split; try done; by apply submseteq_cons.
Qed.
Next Obligation.
  intros q b b' e Hm Ha Hadd.
  destruct (im_add_cases q b _ b' Hm Ha Hadd) as [_ [(? & _)|(_ & _ & [(e' & [= ->] & ? & ? & _)|(? & _)])]];
    [done|by left|done].
Qed.
Next Obligation. intros i b r b' Hm Hr. by destruct (im_remove_id_cases i b r b' Hm Hr). Qed.
Next Obligation.
  intros i b q b' Hm Hr.
  by destruct (im_remove_id_cases i b _ b' Hm Hr) as [_ [(? & _)|(_ & _ & [(? & _)|(e & [= ->] & ? & ?)])]].
Qed.
Next Obligation.
  intros i b r b' Hm Hr. destruct (im_remove_id_cases i b r b' Hm Hr)
    as [_ [(_ & -> & _)|(_ & _ & [(_ & -> & _)|(e & _ & _ & ->)])]]; try done.
  by apply submseteq_cons.
Qed.
Next Obligation. intros k b r b' Hm Hr. by destruct (im_drain_cases _ b r b' Hm Hr). Qed.
Next Obligation.
  intros k b l b' Hm Hr.
  destruct (im_drain_cases _ b _ b' Hm Hr) as [_ [(? & _)|(_ & _ & l' & [= <-] & -> & ->)]]; [done|].
  split; (erewrite list_filter_ext; [done|]); intros; cbn.
  - by rewrite bool_decide_eq_true.
  - by rewrite bool_decide_eq_false.
Qed.
Next Obligation.
  intros k b r b' Hm Hr.
  destruct (im_drain_cases _ b _ b' Hm Hr) as [_ [(_ & -> & _)|(_ & _ & l' & _ & _ & ->)]]; [done|].
  apply filter_submseteq.
Qed.
Next Obligation. intros n b r b' Hm Hr. by destruct (im_drain_cases _ b r b' Hm Hr). Qed.
Next Obligation.
  intros n b l b' Hm Hr.
  destruct (im_drain_cases _ b _ b' Hm Hr) as [_ [(? & _)|(_ & _ & l' & [= <-] & -> & ->)]]; done.
Qed.
Next Obligation.
  intros n b r b' Hm Hr.
  destruct (im_drain_cases _ b _ b' Hm Hr) as [_ [(_ & -> & _)|(_ & _ & l' & _ & _ & ->)]]; [done|].
  apply filter_submseteq.
Qed.
Next Obligation. intros p range limit b l. apply im_get_quotes_listing. Qed.
Next Obligation. intros p b l. apply im_get_quote_ids_spec. Qed.
Next Obligation.
  intros i b o _ Ho. cbn in Ho. unfold im_get_quote_by_id, with_read in Ho.
  destruct (im_poisoned b); simplify_eq/=. pose proof (get_by_id_loop_spec i (hash_entries (im_scis b))) as Hg.
  destruct (get_by_id_loop _ _); [|intros q]; rewrite <-hash_entries_contents; [done|apply Hg].
Qed.
Next Obligation.
  intros b n _ Hn. cbn in Hn. unfold im_num_scis, with_read in Hn.
  destruct (im_poisoned b); simplify_eq/=. change 0 with (wrap64 0) at 1.
  rewrite num_scis_fold. by rewrite hash_entries_contents.
Qed.
End Laws.

(** * Theorems *)

Section Theorems.
Context `{McLib} `{!HashIter Pair (list Quote)}.

(** One use of the book by a client: an operation of the trait.  [may_add l q]
    says which quotes are added to a book that holds [l]; [add_quote] itself
    refuses none for its terms. *)
Inductive im_step (may_add : list Quote → Quote → Prop) : InMemoryQuoteBook → InMemoryQuoteBook → Prop :=
| step_add q b r b' : may_add (contents b) q → im_add_quote q b = (r, b') → im_step may_add b b'
| step_remove_id i b r b' : im_remove_quote_by_id i b = (r, b') → im_step may_add b b'
| step_remove_ki k b r b' : im_remove_quotes_by_key_image k b = (r, b') → im_step may_add b b'
| step_remove_tombstone n b r b' :
    im_remove_quotes_by_tombstone_block n b = (r, b') → im_step may_add b b'.

(** The states the book goes through when the quotes added are such. *)
Definition im_reachable (may_add : list Quote → Quote → Prop) : InMemoryQuoteBook → Prop :=
  rtc (im_step may_add) im_default.

Definition im_healthy (b : InMemoryQuoteBook) : Prop := map_inv (im_scis b) ∧ im_poisoned b = false.

Lemma im_step_healthy b b' : im_healthy b → im_step addable b b' → im_healthy b'.
Proof.
  intros [Hm Hp] Hstep. unfold im_healthy. destruct Hstep as [q b r b' Ha Hr|i b r b' Hr|k b r b' Hr|n b r b' Hr].
  - destruct (im_add_cases q b r b' Hm Ha Hr) as [? [(_ & _ & ?)|(_ & ? & _)]]; [congruence|done].
  - destruct (im_remove_id_cases i b r b' Hm Hr) as [? [(_ & _ & ?)|(_ & ? & _)]]; [congruence|done].
  - destruct (im_drain_cases _ b r b' Hm Hr) as [? [(_ & _ & ?)|(_ & ? & _)]]; [congruence|done].
  - destruct (im_drain_cases _ b r b' Hm Hr) as [? [(_ & _ & ?)|(_ & ? & _)]]; [congruence|done].
Qed.

Lemma im_reachable_healthy b : im_reachable addable b → im_healthy b.
Proof.
  apply rtc_preserve; [exact im_step_healthy|].
  split; [|done]. intros p qs Hp. cbn in Hp. by rewrite lookup_empty in Hp.
Qed.

Lemma map_inv_priced m : map_inv m → Forall priced (map_contents m).
Proof.
  intros Hm. apply Forall_forall. intros q (p & qs & Hqs & Hq)%elem_of_map_contents.
  pose proof (set_priced _ _ (Hm _ _ Hqs)) as HF. rewrite Forall_forall in HF. auto.
Qed.

(** Adding a quote whose slot and id are free succeeds. *)
Lemma im_add_fresh q b :
  im_healthy b → priced q → slot q ∉ slot <$> contents b → q_id q ∉ q_id <$> contents b →
  ∃ b', im_add_quote q b = (Ok tt, b') ∧ im_healthy b' ∧ contents b' ≡ₚ q :: contents b.
Proof.
  intros [Hm Hp] Hq Hslot Hid. destruct (im_add_quote q b) as [r b'] eqn:Hr.
  assert (addable (contents b) q) as Ha.
  { split; [done|]. intros x Hx Hxq. destruct Hid. rewrite <-Hxq. by apply list_elem_of_fmap_2. }
  destruct (im_add_cases q b r b' Hm Ha Hr)
    as [Hm' [(_ & _ & ?)|(_ & Hp' & [(e & _ & He & Hs & _)|(-> & Hc & _)])]]; [congruence| |].
  - destruct Hslot. rewrite <-Hs. by apply list_elem_of_fmap_2.
  - by exists b'.
Qed.

(** C6: in every state the book comes to when each quote added has a price
    (not zero base for zero counter tokens) and no quote added has the id, a
    digest, of one with another key image, each set is strictly sorted by rate
    and holds quotes of its own pair, no key image occurs twice in a pair, and
    the lock is not poisoned: neither assertion of the code has failed.  The
    code does not check the price, and without it an assertion fails:
    [unpriced_quote_poisons_book]. *)
Theorem im_reachable_invariant b :
  im_reachable addable b →
  im_poisoned b = false ∧
  ∀ p qs, im_scis b !! p = Some qs →
    StronglySorted (cmp_lt quote_cmp) qs ∧ Forall (λ q, q_pair q = p) qs ∧
    NoDup (quote_key_image <$> qs).
Proof.
  intros [Hm Hp]%im_reachable_healthy. split; [done|]. intros p qs Hqs. by destruct (Hm p qs Hqs).
Qed.

(** C7: [add_quote] refines insertion into the finite map from (pair, key
    image) to quotes: it succeeds exactly when the slot is free, and then
    changes that slot only; otherwise it answers with the quote that holds
    the slot and leaves the map as it was. *)
Theorem im_add_quote_refines q b r b' :
  im_reachable addable b → addable (contents b) q → im_add_quote q b = (r, b') →
  match slot_map (contents b) !! slot q with
  | None => r = Ok tt ∧ slot_map (contents b') = <[slot q := q]> (slot_map (contents b))
  | Some e => r = Err (QuoteAlreadyExists e) ∧ slot_map (contents b') = slot_map (contents b)
  end.
Proof.
  intros [Hm Hp]%im_reachable_healthy Ha Hr.
  pose proof (map_contents_slots _ Hm) as Hnd. cbn [contents InMemoryQuoteBook_Laws] in *.
  destruct (im_add_cases q b r b' Hm Ha Hr)
    as [Hm' [(_ & _ & ?)|(_ & _ & [(e & -> & He & Hs & Hc)|(-> & Hc & Hfree)])]]; [congruence| |];
    pose proof (map_contents_slots _ Hm') as Hnd'.
  - rewrite (proj2 (slot_map_lookup _ _ e Hnd)) by done.
    split; [done|]. by apply slot_map_perm.
  - rewrite (slot_map_None _ _ Hnd Hfree). split; [done|].
    rewrite (slot_map_perm _ _ Hnd' Hc). done.
Qed.

(** The removals refine the corresponding deletions from that map: by id
    one quote with that id, or [QuoteNotFound] when there is none; by key
    image and by tombstone block exactly the quotes concerned, which are the
    ones returned. *)
Lemma im_removals_refine b :
  im_reachable addable b →
  (∀ i r b', im_remove_quote_by_id i b = (r, b') →
     (r = Err QuoteNotFound ∧ slot_map (contents b') = slot_map (contents b) ∧
      ∀ q, q ∈ contents b → q_id q ≠ i) ∨
     (∃ q, r = Ok q ∧ q_id q = i ∧ slot_map (contents b) !! slot q = Some q ∧
           slot_map (contents b') = delete (slot q) (slot_map (contents b)))) ∧
  (∀ k r b', im_remove_quotes_by_key_image k b = (r, b') →
     ∃ l, r = Ok l ∧ l ≡ₚ filter (λ q, quote_key_image q = k) (contents b) ∧
          slot_map (contents b') = filter (λ '(_, q), quote_key_image q ≠ k) (slot_map (contents b))) ∧
  (∀ n r b', im_remove_quotes_by_tombstone_block n b = (r, b') →
     ∃ l, r = Ok l ∧ l ≡ₚ filter (λ q, tombstone_expired n q = true) (contents b) ∧
          slot_map (contents b') =
            filter (λ '(_, q), tombstone_expired n q = false) (slot_map (contents b))).
Proof.
  intros [Hm Hp]%im_reachable_healthy. pose proof (map_contents_slots _ Hm) as Hnd.
  cbn [contents InMemoryQuoteBook_Laws]. split; [|split]; intros x r b' Hr.
  - destruct (im_remove_id_cases x b r b' Hm Hr)
      as [Hm' [(_ & _ & ?)|(_ & _ & [(-> & -> & ?)|(q & -> & Hi & Hc)])]]; [congruence|by left|right].
    pose proof (map_contents_slots _ Hm') as Hnd'.
    exists q. repeat (split; [done|]). rewrite (slot_map_perm _ _ Hnd Hc). split; cbn.
    + by rewrite lookup_insert_eq.
    + rewrite delete_insert_id; [done|]. apply slot_map_None; [done|].
      rewrite Hc in Hnd. cbn in Hnd. apply NoDup_cons in Hnd as [Hnin _].
      intros y Hy Heq. apply Hnin. apply list_elem_of_fmap. by exists y.
  - destruct (im_drain_cases _ b r b' Hm Hr) as [_ [(_ & _ & ?)|(_ & _ & l & -> & _)]]; [congruence|].
    exists l. split; [done|]. destruct (@remove_ki_ok _ _ _ InMemoryQuoteBook_Laws x b l b' Hm Hr) as [Hl Hc]. split; [done|].
    by apply slot_map_filtered.
  - destruct (im_drain_cases _ b r b' Hm Hr) as [_ [(_ & _ & ?)|(_ & _ & l & -> & _)]]; [congruence|].
    exists l. split; [done|]. destruct (@remove_tombstone_ok _ _ _ InMemoryQuoteBook_Laws x b l b' Hm Hr) as [Hl Hc]. split; [done|].
    by apply slot_map_filtered.
Qed.

(** [get_quotes] lists exactly the quotes of the pair whose range of
    base tokens meets the requested one, best exchange rate first, and only
    the first [limit] of them when [limit] is not zero. *)
Lemma im_get_quotes_sorted b p range limit :
  im_healthy b → 0 ≤ limit →
  ∃ l all, im_get_quotes p range limit b = Ok l ∧
    StronglySorted (cmp_lt quote_cmp) all ∧
    all ≡ₚ filter (λ q, q_pair q = p ∧ overlaps range (q_base_range q) = true) (contents b) ∧
    l = if limit =? 0 then all else take (Z.to_nat limit) all.
Proof.
  intros [Hm Hp] Hlim.
  assert (∃ l, im_get_quotes p range limit b = Ok l) as [l Hl]
    by (unfold im_get_quotes, with_read; rewrite Hp; case_match; eauto).
  destruct (im_get_quotes_listing p range limit b l Hm Hlim Hl) as (all & ? & ? & ?).
  by exists l, all.
Qed.

(** C8: the queries agree with the contents.  [get_quotes] lists exactly the
    quotes of the pair whose range of base tokens meets the requested one, best
    exchange rate first, and only the first [limit] of them when [limit] is not
    zero; the listed ids are those of the quotes of the pair (of all quotes
    without a pair), a lookup by id finds a quote with that id or there is
    none, and the number of SCIs is the number of quotes. *)
Theorem im_queries_spec b :
  im_reachable addable b →
  (∀ p range limit, 0 ≤ limit →
     ∃ l all, im_get_quotes p range limit b = Ok l ∧
       StronglySorted (cmp_lt quote_cmp) all ∧
       all ≡ₚ filter (λ q, q_pair q = p ∧ overlaps range (q_base_range q) = true) (contents b) ∧
       l = if limit =? 0 then all else take (Z.to_nat limit) all) ∧
  (∀ p, ∃ l, im_get_quote_ids p b = Ok l ∧
     l ≡ₚ q_id <$> filter (λ q, default (q_pair q) p = q_pair q) (contents b)) ∧
  (∀ i, ∃ o, im_get_quote_by_id i b = Ok o ∧
     match o with
     | Some q => q ∈ contents b ∧ q_id q = i
     | None => ∀ q, q ∈ contents b → q_id q ≠ i
     end) ∧
  im_num_scis b = Ok (wrap64 (Z.of_nat (length (contents b)))).
Proof.
  intros Hb%im_reachable_healthy. split; [intros; by apply im_get_quotes_sorted|].
  destruct Hb as [Hm Hp]. split; [|split].
  - intros p. assert (∃ l, im_get_quote_ids p b = Ok l) as [l Hl]
      by (unfold im_get_quote_ids, with_read; rewrite Hp; case_match; [case_match|]; eauto).
    exists l. split; [done|]. by apply im_get_quote_ids_spec.
  - intros i. assert (∃ o, im_get_quote_by_id i b = Ok o) as [o Ho]
      by (unfold im_get_quote_by_id, with_read; rewrite Hp; eauto).
    exists o. split; [done|]. by apply (@get_quote_by_id_ok _ _ _ InMemoryQuoteBook_Laws i b o).
  - assert (∃ n, im_num_scis b = Ok n) as [n Hn] by (unfold im_num_scis, with_read; rewrite Hp; eauto).
    rewrite Hn. f_equal. by apply (@num_scis_ok _ _ _ InMemoryQuoteBook_Laws b n).
Qed.
End Theorems.

(** * The theorems on examples *)

Module InMemoryExamples.
Import Sample.

(** Two quotes of one pair: 3 and 2 base tokens for 10 counter tokens. *)
Definition quote_a : Quote := quote_on_terms (sci_full 1 1) 2 (10, 10) 20 5.
Definition quote_b : Quote := quote_on_terms (sci_partial 2 2 0) 2 (3, 10) 100 6.
Definition book_a : InMemoryQuoteBook := (im_add_quote quote_a im_default).2.

Lemma book_a_reachable : im_reachable addable book_a.
Proof.
  eapply rtc_once, (step_add _ quote_a); [|apply surjective_pairing].
  split; [solve_decide|]. intros x Hx. by apply elem_of_nil in Hx.
Qed.

Lemma contents_book_a : contents book_a = [quote_a].
Proof. by vm_compute. Qed.

Lemma book_a_addable : addable (contents book_a) quote_b.
Proof.
  split; [solve_decide|]. intros x Hx.
  rewrite contents_book_a in Hx.
  apply list_elem_of_singleton in Hx as ->. by vm_compute.
Qed.

Lemma im_reachable_invariant_witness : im_poisoned book_a = false.
Proof. apply (im_reachable_invariant book_a book_a_reachable). Defined.

(** A quote of nothing for nothing between two others of its pair: each of
    the three comes before the next, and the third before the first.  The set
    has them in an order in which the search for the second stops at the
    first, so its removal fails the assertion and poisons the lock. *)
Definition unpriced (ki base counter timestamp : Z) : Quote :=
  quote_new_from_fields (sci_full ki ki) [ki] {| base_token_id := 1; counter_token_id := 2 |}
    (base, base) counter timestamp.
Definition quotes_around_nothing : list Quote := [unpriced 2 0 0 2; unpriced 1 1 10 1; unpriced 3 30 10 3].
Definition book_around_nothing : InMemoryQuoteBook :=
  foldl (λ b q, (im_add_quote q b).2) im_default quotes_around_nothing.

Lemma unpriced_quote_poisons_book :
  im_reachable (λ _ _, True) book_around_nothing ∧ im_poisoned book_around_nothing = false ∧
  is_panic (im_remove_quote_by_id [2] book_around_nothing).1 = true ∧
  let b := (im_remove_quote_by_id [2] book_around_nothing).2 in
  im_reachable (λ _ _, True) b ∧ im_poisoned b = true ∧
  ∀ q, im_add_quote q b = (Err LockPoisoned, b).
Proof.
  assert (∀ q b, im_reachable (λ _ _, True) b → im_reachable (λ _ _, True) (im_add_quote q b).2) as Hadd.
  { intros q b Hb. eapply rtc_r; [exact Hb|]. by eapply step_add, surjective_pairing. }
  assert (im_reachable (λ _ _, True) book_around_nothing) as Hb by by do 3 apply Hadd; apply rtc_refl.
  split; [done|]. split; [by vm_compute|]. split; [by vm_compute|]. split; [|split; [by vm_compute|]].
  - eapply rtc_r; [exact Hb|]. eapply step_remove_id, surjective_pairing.
  - intros q. unfold im_add_quote, with_write.
    by replace (im_poisoned _) with true by by vm_compute.
Qed.

Lemma im_add_quote_refines_witness :
  (im_add_quote quote_b book_a).1 = Ok tt ∧
  slot_map (contents (im_add_quote quote_b book_a).2) =
    <[slot quote_b := quote_b]> (slot_map (contents book_a)).
Proof.
  pose proof (im_add_quote_refines quote_b book_a (im_add_quote quote_b book_a).1
                (im_add_quote quote_b book_a).2 book_a_reachable book_a_addable eq_refl) as Href.
  assert (slot_map (contents book_a) !! slot quote_b = None) as E by by vm_compute.
  rewrite E in Href. exact Href.
Defined.

Lemma im_removals_refine_witness :
  ∃ l, (im_remove_quotes_by_key_image [1] book_a).1 = Ok l ∧
       l ≡ₚ filter (λ q, quote_key_image q = [1]) (contents book_a).
Proof.
  destruct (proj1 (proj2 (im_removals_refine book_a book_a_reachable)) [1] _ _
              (surjective_pairing (im_remove_quotes_by_key_image [1] book_a))) as (l & ? & ? & _).
  by exists l.
Defined.

Lemma im_queries_spec_witness :
  (∃ l all, im_get_quotes (q_pair quote_a) (Included 4, Unbounded) 1 book_a = Ok l ∧
     StronglySorted (cmp_lt quote_cmp) all ∧
     all ≡ₚ filter (λ q, q_pair q = q_pair quote_a ∧
                         overlaps (Included 4, Unbounded) (q_base_range q) = true) (contents book_a) ∧
     l = take 1 all) ∧
  im_num_scis book_a = Ok 1.
Proof.
  destruct (im_queries_spec book_a book_a_reachable) as (Hq & _ & _ & Hn). split.
  - apply (Hq (q_pair quote_a) (Included 4, Unbounded) 1). lia.
  - refine (eq_trans Hn _). by vm_compute.
Defined.
End InMemoryExamples.
