(* ===== verification/SqlTypes.v ===== *)
(** Rows of the SQLite quote table and their conversions
    (quote-book/sqlite/src/sql_types.rs, models.rs, schema.rs). *)

From S2P Require Import Prelude McTypes QuoteApi QuotePricing QuoteBook.

(** * sql_types.rs: a [u64] in a binary column *)

(** [u64::to_be_bytes] for [n] bytes, and [u64::from_be_bytes]. *)
Fixpoint to_be_bytes (n : nat) (z : Z) : bytes :=
  match n with
  | O => []
  | S n => (z / 256 ^ Z.of_nat n) mod 256 :: to_be_bytes n z
  end.
Definition from_be_bytes (b : bytes) : Z := fold_left (λ acc x, acc * 256 + x) b 0.

(** [impl ToSql for VecU64] *)
Definition vec_u64_to_sql (z : Z) : bytes := to_be_bytes 8 z.

(** [impl FromSql for VecU64] *)
Definition vec_u64_from_sql (vec : bytes) : outcome string Z :=
  if negb (length vec =? 8)%nat then Err "VecU64: Invalid array length"
  else Ok (from_be_bytes vec).

(** * models.rs *)

(** [mc_util_serial::{encode, decode}] on SCIs. *)
Class SciCodec := {
  sci_encode : SignedContingentInput → bytes;
  sci_decode : bytes → outcome string SignedContingentInput;
}.
(** What the table relies on: decoding an encoded SCI gives it back. *)
Class SciCodecLaws (C : SciCodec) : Prop := {
  decode_encode sci : sci_decode (sci_encode sci) = Ok sci;
}.

(** A concrete codec: the fields in order, lists and options with their length. *)
Module SampleCodec.
Class Ser (A : Type) := {
  ser : A → list Z;
  deser : list Z → option (A * list Z);
  deser_ser a rest : deser (ser a ++ rest) = Some (a, rest);
}.

#[export] Program Instance Z_ser : Ser Z :=
  {| ser z := [z]; deser l := match l with z :: rest => Some (z, rest) | [] => None end |}.
Next Obligation. done. Qed.

#[export] Program Instance pair_ser `{Ser A, Ser B} : Ser (A * B) := {|
  ser p := ser p.1 ++ ser p.2;
  deser l := '(a, l) ← deser l; '(b, l) ← deser l; Some ((a, b), l);
|}.
Next Obligation. intros A ? B ? [a b] rest. cbn. rewrite <-(assoc_L (++)), deser_ser. cbn. by rewrite deser_ser. Qed.

Fixpoint deser_n `{Ser A} (n : nat) (l : list Z) : option (list A * list Z) :=
  match n with
  | O => Some ([], l)
  | S n => '(a, l) ← deser l; '(r, l) ← deser_n n l; Some (a :: r, l)
  end.
Lemma deser_n_ser `{Ser A} (x : list A) rest : deser_n (length x) ((x ≫= ser) ++ rest) = Some (x, rest).
Proof.
  induction x as [|a x IH]; [done|]. cbn. rewrite <-(assoc_L (++)), deser_ser. cbn. by rewrite IH.
Qed.
#[export] Program Instance list_ser `{Ser A} : Ser (list A) := {|
  ser x := Z.of_nat (length x) :: (x ≫= ser);
  deser l := match l with n :: l => deser_n (Z.to_nat n) l | [] => None end;
|}.
Next Obligation. intros A ? x rest. cbn. rewrite Nat2Z.id. apply deser_n_ser. Qed.

(** A type with the same values as one that has a codec. *)
Program Definition iso_ser `{Ser B} {A} (f : A → B) (g : B → A) (Hgf : ∀ a, g (f a) = a) : Ser A := {|
  ser a := ser (f a);
  deser l := '(b, l) ← deser l; Some (g b, l);
|}.
Next Obligation. intros B ? A f g Hgf a rest. cbn. rewrite deser_ser. cbn. by rewrite Hgf. Qed.

#[export] Program Instance option_ser `{Ser A} : Ser (option A) :=
  iso_ser (λ o, match o with Some a => [a] | None => [] end) head _.
Next Obligation. by intros A ? []. Qed.
#[export] Program Instance Amount_ser : Ser Amount :=
  iso_ser (λ a, (amt_value a, amt_token_id a)) (λ '(v, t), Build_Amount v t) _.
Next Obligation. by intros []. Qed.
#[export] Program Instance TxOut_ser : Ser TxOut :=
  iso_ser (λ t, (txo_public_key t, txo_target_key t, txo_rest t)) (λ '(a, b, c), Build_TxOut a b c) _.
Next Obligation. by intros []. Qed.
#[export] Program Instance RevealedTxOut_ser : Ser RevealedTxOut :=
  iso_ser (λ t, (rto_tx_out t, rto_secret t)) (λ '(a, b), Build_RevealedTxOut a b) _.
Next Obligation. by intros []. Qed.
#[export] Program Instance InputRules_ser : Ser InputRules :=
  iso_ser (λ r, (required_outputs r, partial_fill_outputs r, partial_fill_change r,
                 min_partial_fill_value r, max_tombstone_block r))
    (λ '(a, b, c, d, e), Build_InputRules a b c d e) _.
Next Obligation. by intros []. Qed.
#[export] Program Instance TxIn_ser : Ser TxIn :=
  iso_ser (λ t, (ring t, input_rules t)) (λ '(a, b), Build_TxIn a b) _.
Next Obligation. by intros []. Qed.
#[export] Program Instance SignedContingentInput_ser : Ser SignedContingentInput :=
  iso_ser (λ s, (pseudo_output_amount s, required_output_amounts s, tx_in s,
                 tx_out_global_indices s, sci_signature s))
    (λ '(a, b, c, d, e), Build_SignedContingentInput a b c d e) _.
Next Obligation. by intros []. Qed.

#[export] Instance sample_codec : SciCodec := {|
  sci_encode := ser;
  sci_decode b := ok_or (fst <$> deser b) "DecodeError";
|}.

#[export] Instance sample_codec_laws : SciCodecLaws sample_codec.
Proof. split. intros sci. cbn -[deser ser]. by rewrite <-(app_nil_r (ser sci)), deser_ser. Qed.
End SampleCodec.

(** [models::Quote], a row of the table of schema.rs. *)
Record Row := {
  row_id : bytes;
  row_sci_protobuf : bytes;
  row_base_token_id : Z;
  row_counter_token_id : Z;
  row_base_range_min : Z;
  row_base_range_max : Z;
  row_max_counter_tokens : Z;
  row_timestamp : Z;
  row_key_image : bytes;
  row_tombstone_block : Z;
}.

#[export] Instance Row_eq_dec : EqDecision Row.
Proof. solve_decision. Defined.

(** [models::Quote::id] *)
Definition row_quote_id (r : Row) : outcome Error QuoteId :=
  if negb (length (row_id r) =? 32)%nat then
    Err (ImplementationSpecific ("Expected 32 bytes quote id, found " +:+ pretty (length (row_id r))
                                   +:+ " bytes instead"))
  else Ok (row_id r).

(** [models::Quote::decode_sci] *)
Definition row_decode_sci `{SciCodec} (r : Row) : outcome Error SignedContingentInput :=
  map_err (λ e, ImplementationSpecific ("failed decoding SCI protobuf: " +:+ e))
    (sci_decode (row_sci_protobuf r)).

(** [models::Quote::pair], with [base_token_id] and [counter_token_id]. *)
Definition row_pair (r : Row) : Pair :=
  {| base_token_id := as_u64 (row_base_token_id r);
     counter_token_id := as_u64 (row_counter_token_id r) |}.

(** [impl From<&deqs_quote_book_api::Quote> for models::Quote] *)
Definition row_from_quote `{McLib, SciCodec} (quote : Quote) : Row := {|
  row_id := q_id quote;
  row_sci_protobuf := sci_encode (q_sci quote);
  row_base_token_id := as_i64 (base_token_id (q_pair quote));
  row_counter_token_id := as_i64 (counter_token_id (q_pair quote));
  row_base_range_min := (q_base_range quote).1;
  row_base_range_max := (q_base_range quote).2;
  row_max_counter_tokens := q_max_counter_tokens quote;
  row_timestamp := as_i64 (q_timestamp quote);
  row_key_image := sci_key_image (q_sci quote);
  row_tombstone_block :=
    as_i64 (default 0 (max_tombstone_block <$> input_rules (tx_in (q_sci quote))));
|}.

(** [impl TryFrom<&models::Quote> for deqs_quote_book_api::Quote] *)
Definition quote_from_row `{SciCodec} (r : Row) : outcome Error Quote :=
  id ← row_quote_id r;
  sci ← row_decode_sci r;
  let pair_ := row_pair r in
  let base_range := (row_base_range_min r, row_base_range_max r) in
  let max_counter_tokens := row_max_counter_tokens r in
  let timestamp := as_u64 (row_timestamp r) in
  Ok (quote_new_from_fields sci id pair_ base_range max_counter_tokens timestamp).

(** The machine widths of a quote. *)
Record quote_wf (q : Quote) : Prop := {
  wf_id : length (q_id q) = 32%nat;
  wf_base : is_u64 (base_token_id (q_pair q));
  wf_counter : is_u64 (counter_token_id (q_pair q));
  wf_timestamp : is_u64 (q_timestamp q);
}.

(** * Theorems *)

Lemma to_be_bytes_length n z : length (to_be_bytes n z) = n.
Proof. induction n; cbn; congruence. Qed.

Lemma from_be_bytes_app acc b :
  fold_left (λ acc x, acc * 256 + x) b acc = acc * 256 ^ Z.of_nat (length b) + from_be_bytes b.
Proof.
  unfold from_be_bytes. revert acc. induction b as [|x b IH]; intros acc; cbn [fold_left length].
  - rewrite Z.pow_0_r. lia.
  - rewrite IH, (IH (0 * 256 + x)), Nat2Z.inj_succ, Z.pow_succ_r by lia. lia.
Qed.

Lemma from_to_be_bytes n z : from_be_bytes (to_be_bytes n z) = z mod 256 ^ Z.of_nat n.
Proof.
  induction n as [|n IH]; [by rewrite Z.mod_1_r|].
  unfold from_be_bytes. cbn [to_be_bytes fold_left]. rewrite from_be_bytes_app, IH, to_be_bytes_length.
  rewrite Nat2Z.inj_succ, Z.pow_succ_r by lia.
  rewrite (Z.mul_comm 256), Z.rem_mul_r by (try apply Z.pow_nonzero; lia). lia.
Qed.

Lemma to_be_bytes_cmp n a b :
  bytes_cmp (to_be_bytes n a) (to_be_bytes n b) = (a mod 256 ^ Z.of_nat n ?= b mod 256 ^ Z.of_nat n).
Proof.
  induction n as [|n IH]; [by rewrite !Z.mod_1_r|].
  cbn [to_be_bytes bytes_cmp]. rewrite IH, Nat2Z.inj_succ, Z.pow_succ_r by lia.
  rewrite (Z.mul_comm 256), !Z.rem_mul_r by (try apply Z.pow_nonzero; lia).
  set (p := 256 ^ Z.of_nat n). assert (0 < p) by (apply Z.pow_pos_nonneg; lia).
  pose proof (Z.mod_pos_bound a p ltac:(lia)). pose proof (Z.mod_pos_bound b p ltac:(lia)).
  destruct (Z.compare_spec ((a / p) mod 256) ((b / p) mod 256)) as [->|Hlt|Hgt]; cbn.
  - destruct (Z.compare_spec (a mod p) (b mod p)) as [->| |]; symmetry;
      [apply Z.compare_refl|apply Z.compare_lt_iff; lia|apply Z.compare_gt_iff; lia].
  - symmetry. apply Z.compare_lt_iff. nia.
  - symmetry. apply Z.compare_gt_iff. nia.
Qed.

(** A [u64] survives the binary column, and comparing the stored blobs
    byte by byte, as SQLite does, orders them as the numbers. *)
Lemma vec_u64_roundtrip_and_order a b :
  is_u64 a → is_u64 b →
  vec_u64_from_sql (vec_u64_to_sql a) = Ok a ∧
  bytes_cmp (vec_u64_to_sql a) (vec_u64_to_sql b) = (a ?= b).
Proof.
  intros Ha Hb. change (is_u64 a) with (0 ≤ a < 256 ^ Z.of_nat 8) in Ha.
  change (is_u64 b) with (0 ≤ b < 256 ^ Z.of_nat 8) in Hb.
  unfold vec_u64_from_sql, vec_u64_to_sql. rewrite to_be_bytes_length, from_to_be_bytes, to_be_bytes_cmp.
  by rewrite !Z.mod_small.
Qed.

(** A stored integer column of the wrong length is reported, never misread. *)
Lemma vec_u64_bad_length v : length v ≠ 8%nat → is_err (vec_u64_from_sql v) = true.
Proof. intros Hv. unfold vec_u64_from_sql. by rewrite (proj2 (Nat.eqb_neq _ _) Hv). Qed.

Section Rows.
Context `{McLib, SciCodec} `{!SciCodecLaws _}.

(** A quote stored as a row and read back is the same quote, although
    the token ids and the timestamp are stored as signed integers. *)
Lemma quote_from_row_from_quote q : quote_wf q → quote_from_row (row_from_quote q) = Ok q.
Proof.
  intros [Hid Hb Hc Ht]. unfold quote_from_row, row_quote_id, row_decode_sci, row_pair. cbn.
  rewrite (proj2 (Nat.eqb_eq _ _) Hid). cbn. rewrite decode_encode. cbn.
  rewrite !as_u64_as_i64 by done. unfold quote_new_from_fields. by destruct q as [? ? [] [] ? ?].
Qed.

(** The quotes of [Quote::new] have these widths. *)
Lemma quote_new_quote_wf `{!McLibLaws _} now sci ts q :
  sci_wf sci → is_u64 ts → quote_new now sci (Some ts) = Ok q → quote_wf q.
Proof.
  intros Hwf Hts (Hv & ir & c & r & m & t & Hir & Ho & Heq & ->)%quote_new_inv.
  specialize (Heq ts eq_refl) as ->. destruct Hwf as [[_ Hb] Hreq _]. rewrite Forall_lookup in Hreq.
  split; cbn; [apply digest32_length|done| |done].
  destruct Ho as [a _ _ Ha|pf a bl _ _ Hr|pf a bl ch _ _ Hr _ _ _].
  - by destruct (Hreq _ _ Ha).
  - by destruct (reveal_u64 _ _ _ Hr).
  - by destruct (reveal_u64 _ _ _ Hr).
Qed.
End Rows.

(** * The theorems on examples *)

Module SqlTypesExamples.
Import Sample SampleCodec QuoteApiExamples.

Example vec_u64_samples :
  vec_u64_from_sql (vec_u64_to_sql 258) = Ok 258 ∧
  bytes_cmp (vec_u64_to_sql 258) (vec_u64_to_sql 513) = (258 ?= 513).
Proof. by apply (vec_u64_roundtrip_and_order 258 513). Qed.

Example row_sample : quote_from_row (row_from_quote partial_quote) = Ok partial_quote.
Proof. apply (quote_from_row_from_quote partial_quote). by split. Qed.
End SqlTypesExamples.
