(* ===== verification/Sqlite.v ===== *)
(** The SQLite quote book (quote-book/sqlite/src/lib.rs, error.rs): a table of
    quotes kept in step with an underlying quote book that answers queries.

    Diesel, r2d2 and SQLite are not part of the repository: the class [SqlDb]
    has the calls the code makes, [SqlDbLaws] what SQLite documents about them
    for the table of migrations/2023-02-17-204631_quotes/up.sql. *)

From S2P Require Import Prelude McTypes QuoteApi QuotePricing QuoteBook InMemory SqlTypes.

(** [diesel::result::Error], by whether it is a unique violation. *)
Inductive DieselError := UniqueViolation (msg : string) | OtherDieselError (msg : string).
Definition diesel_display (e : DieselError) : string :=
  match e with UniqueViolation m => m | OtherDieselError m => m end.

(** * error.rs *)

Inductive SqlError :=
| Diesel (e : DieselError)
| QuoteBookE (e : Error)
| R2d2 (e : string).

(** [impl From<Error> for QuoteBookError] *)
Definition sql_error_into (e : SqlError) : Error :=
  match e with
  | Diesel e => ImplementationSpecific ("diesel error: " +:+ diesel_display e)
  | QuoteBookE e => e
  | R2d2 e => ImplementationSpecific ("r2d2 error: " +:+ e)
  end.

(** * The database *)

Class SqlDb (DB : Type) := {
  (** [pool.get()] *)
  db_get_conn : DB → outcome string unit;
  (** [conn.run_pending_migrations(MIGRATIONS)] *)
  db_migrate : stateful DB string unit;
  (** [insert_into(quotes).values(&row).execute(conn)] *)
  db_insert : Row → stateful DB DieselError unit;
  (** [diesel::delete(quotes.filter(p)).execute(conn)] *)
  db_delete : (Row → bool) → stateful DB DieselError Z;
  (** [quotes.filter(p).first(conn).optional()] *)
  db_first : (Row → bool) → DB → outcome DieselError (option Row);
  (** [quotes.count().get_result(conn)] and [quotes.load(conn)] *)
  db_count : DB → outcome DieselError Z;
  db_load : DB → outcome DieselError (list Row);
  (** [conn.immediate_transaction(f)], where [f] also changes a state [S] of
      the program that the database does not know of *)
  db_transaction {S A} : (DB → S → outcome SqlError A * DB * S) → DB → S → outcome SqlError A * DB * S;
}.

(** The outcomes of a transaction: it could not begin; its body failed or
    panicked, and the table is rolled back; its body returned and the commit
    succeeded, or failed and the table is rolled back.  The program's own state
    is whatever the body left. *)
Inductive transaction_outcome {DB S A} (rows : DB → list Row)
    (f : DB → S → outcome SqlError A * DB * S) (db : DB) (s : S) : outcome SqlError A → DB → S → Prop :=
| tx_begin_failed e db' : rows db' = rows db → transaction_outcome rows f db s (Err (Diesel e)) db' s
| tx_committed db0 a db1 s1 db' :
    rows db0 = rows db → f db0 s = (Ok a, db1, s1) → rows db' = rows db1 →
    transaction_outcome rows f db s (Ok a) db' s1
| tx_commit_failed db0 a db1 s1 e db' :
    rows db0 = rows db → f db0 s = (Ok a, db1, s1) → rows db' = rows db →
    transaction_outcome rows f db s (Err (Diesel e)) db' s1
| tx_rolled_back db0 e db1 s1 db' :
    rows db0 = rows db → f db0 s = (Err e, db1, s1) → rows db' = rows db →
    transaction_outcome rows f db s (Err e) db' s1
| tx_panicked db0 p db1 s1 db' :
    rows db0 = rows db → f db0 s = (Panic p, db1, s1) → rows db' = rows db →
    transaction_outcome rows f db s (Panic p) db' s1.

Class SqlDbLaws (DB : Type) `{!SqlDb DB} := {
  rows : DB → list Row;
  get_conn_no_panic db p : db_get_conn db ≠ Panic p;
  migrate_rows db r db' : db_migrate db = (r, db') → rows db' = rows db;
  insert_ok row db db' : db_insert row db = (Ok tt, db') →
    row_id row ∉ row_id <$> rows db ∧ rows db' ≡ₚ row :: rows db;
  insert_err row db e db' : db_insert row db = (Err e, db') → rows db' = rows db;
  insert_no_panic row db p db' : db_insert row db ≠ (Panic p, db');
  delete_ok p db n db' : db_delete p db = (Ok n, db') →
    n = Z.of_nat (length (filter (λ r, p r = true) (rows db))) ∧
    rows db' ≡ₚ filter (λ r, p r = false) (rows db);
  delete_no_panic p db m db' : db_delete p db ≠ (Panic m, db');
  first_ok p db o : db_first p db = Ok o →
    match o with
    | Some r => r ∈ rows db ∧ p r = true
    | None => ∀ r, r ∈ rows db → p r = false
    end;
  first_no_panic p db m : db_first p db ≠ Panic m;
  count_ok db n : db_count db = Ok n → n = Z.of_nat (length (rows db));
  load_ok db l : db_load db = Ok l → l ≡ₚ rows db;
  transaction_ok S A (f : DB → S → outcome SqlError A * DB * S) db s r db' s' :
    db_transaction f db s = (r, db', s') → transaction_outcome rows f db s r db' s';
}.
Arguments rows {DB _ _} db.

(** A concrete database: the rows of the table, and whether the next commit
    fails. *)
Module SampleDb.
Record Db := { db_rows : list Row; commit_fails : bool }.

Definition insert (row : Row) : stateful Db DieselError unit := λ db,
  if bool_decide (row_id row ∈ row_id <$> db_rows db)
  then (Err (UniqueViolation "UNIQUE constraint failed: quotes.id"), db)
  else (Ok tt, {| db_rows := db_rows db ++ [row]; commit_fails := commit_fails db |}).

Definition delete (p : Row → bool) : stateful Db DieselError Z := λ db,
  (Ok (Z.of_nat (length (filter (λ r, p r = true) (db_rows db)))),
   {| db_rows := filter (λ r, p r = false) (db_rows db); commit_fails := commit_fails db |}).

Definition transaction {S A} (f : Db → S → outcome SqlError A * Db * S) (db : Db) (s : S) :
    outcome SqlError A * Db * S :=
  match f db s with
  | (Ok a, db1, s1) =>
      if commit_fails db
      then (Err (Diesel (OtherDieselError "database is locked")),
            {| db_rows := db_rows db; commit_fails := false |}, s1)
      else (Ok a, db1, s1)
  | (Err e, _, s1) => (Err e, db, s1)
  | (Panic p, _, s1) => (Panic p, db, s1)
  end.

#[export] Instance sample_db : SqlDb Db := {|
  db_get_conn _ := Ok tt;
  db_migrate db := (Ok tt, db);
  db_insert := insert;
  db_delete := delete;
  db_first p db := Ok (snd <$> list_find (λ r, p r = true) (db_rows db));
  db_count db := Ok (Z.of_nat (length (db_rows db)));
  db_load db := Ok (db_rows db);
  db_transaction S A := @transaction S A;
|}.

#[export] Program Instance sample_db_laws : SqlDbLaws Db := {| rows := db_rows |}.
Next Obligation. done. Qed.
Next Obligation. by intros db r db' [= _ <-]. Qed.
Next Obligation.
  intros row db db'. cbn. unfold insert. case_bool_decide; [done|]. intros [= <-]. cbn.
  split; [done|]. by rewrite Permutation_app_comm.
Qed.
Next Obligation. intros row db e db'. cbn. unfold insert. case_bool_decide; by intros [= _ <-]. Qed.
Next Obligation. intros row db p db'. cbn. unfold insert. by case_bool_decide. Qed.
Next Obligation. by intros p db n db' [= <- <-]. Qed.
Next Obligation. done. Qed.
Next Obligation.
  intros p db o [= <-]. destruct (list_find _ _) as [[i r]|] eqn:Hf; cbn; [exact (find_Some _ _ _ _ Hf)|].
  apply list_find_None in Hf. rewrite Forall_forall in Hf. intros r Hr.
  specialize (Hf r Hr). cbn in Hf. by destruct (p r).
Qed.
Next Obligation. done. Qed.
Next Obligation. by intros db n [= <-]. Qed.
Next Obligation. by intros db l [= <-]. Qed.
Next Obligation.
  intros S A f db s r db' s'. cbn. unfold transaction.
  destruct (f db s) as [[[a|e|p] db1] s1] eqn:Hf; [destruct (commit_fails db)|..]; intros [= <- <- <-].
  - by eapply tx_commit_failed.
  - by eapply tx_committed.
  - by eapply tx_rolled_back.
  - by eapply tx_panicked.
Qed.
End SampleDb.

(** * lib.rs *)

(** [pub struct SqliteQuoteBook<QB>] *)
Record SqliteQuoteBook (DB QB : Type) := mk_sqlite {
  sq_pool : DB;
  sq_quote_book : QB;
}.
Arguments mk_sqlite {DB QB} sq_pool sq_quote_book.
Arguments sq_pool {DB QB} _.
Arguments sq_quote_book {DB QB} _.

Section Sqlite.
Context `{McLib, SciCodec} {DB QB : Type} `{!SqlDb DB, !QuoteBook QB}.
Abbreviation book := (SqliteQuoteBook DB QB).

(** A closure run in an immediate transaction on a fresh connection; its
    error is converted by [?]. *)
Definition in_transaction {A} (f : DB → QB → outcome SqlError A * DB * QB) : stateful book Error A :=
  λ s,
  match db_get_conn (sq_pool s) with
  | Err e => (Err (sql_error_into (R2d2 e)), s)
  | Panic p => (Panic p, s)
  | Ok _ =>
      let '(r, db, qb) := db_transaction f (sq_pool s) (sq_quote_book s) in
      (map_err sql_error_into r, mk_sqlite db qb)
  end.

(** [models::Quote::get_by_id] *)
Definition row_get_by_id (db : DB) (id : QuoteId) : outcome Error (option Row) :=
  map_err (λ e, sql_error_into (Diesel e)) (db_first (λ r, bool_decide (row_id r = id)) db).

(** The insert that failed with a unique violation: its error names the row
    that holds the id, if it can be read back. *)
Definition duplicate_error (db : DB) (quote : Quote) : outcome SqlError unit :=
  match
    maybe_quote ← row_get_by_id db (q_id quote);
    row ← ok_or maybe_quote
      (ImplementationSpecific ("Quote with id " +:+ quote_id_display (q_id quote)
                                 +:+ " not found in database (but it should've been!)"));
    quote_from_row row
  with
  | Ok existing_quote => Err (QuoteBookE (QuoteAlreadyExists existing_quote))
  | Err err =>
      Err (QuoteBookE (ImplementationSpecific
            ("Getting quote by id " +:+ quote_id_display (q_id quote)
               +:+ " failed, but we expected it to succeed: " +:+ error_display err)))
  | Panic p => Panic p
  end.

(** A step of the underlying quote book inside a transaction. *)
Definition run_inner {A} (m : stateful QB Error A) (db : DB) (qb : QB) : outcome SqlError A * DB * QB :=
  let '(r, qb') := m qb in (map_err QuoteBookE r, db, qb').

(** The closure of [add_quote]. *)
Definition add_transaction (quote : Quote) (db : DB) (qb : QB) : outcome SqlError unit * DB * QB :=
  match db_insert (row_from_quote quote) db with
  | (Ok _, db) => run_inner (qb_add_quote quote) db qb
  | (Err (UniqueViolation _), db) => (duplicate_error db quote, db, qb)
  | (Err e, db) => (Err (Diesel e), db, qb)
  | (Panic p, db) => (Panic p, db, qb)
  end.

Definition sq_add_quote (quote : Quote) : stateful book Error unit :=
  in_transaction (add_transaction quote).

(** The rows a removal deletes first, then the removal in the underlying
    book, given the number of deleted rows. *)
Definition delete_then {A} (p : Row → bool) (k : Z → DB → QB → outcome SqlError A * DB * QB) :
    DB → QB → outcome SqlError A * DB * QB := λ db qb,
  match db_delete p db with
  | (Ok num_deleted, db) => k num_deleted db qb
  | (Err e, db) => (Err (Diesel e), db, qb)
  | (Panic m, db) => (Panic m, db, qb)
  end.

Definition sq_remove_quote_by_id (id : QuoteId) : stateful book Error Quote :=
  in_transaction (delete_then (λ r, bool_decide (row_id r = id)) (λ num_deleted db qb,
    if num_deleted =? 0 then (Err (QuoteBookE QuoteNotFound), db, qb)
    else if num_deleted =? 1 then run_inner (qb_remove_quote_by_id id) db qb
    else (Err (QuoteBookE (ImplementationSpecific "Deleted more than one quote")), db, qb))).

(** [assert_eq!(quotes.len(), num_deleted)] after a removal. *)
Definition check_deleted (num_deleted : Z) (quotes : list Quote) : outcome Error (list Quote) :=
  _ ← rust_assert (Z.of_nat (length quotes) =? num_deleted) "quotes.len() == num_deleted";
  Ok quotes.

Definition remove_checked (m : stateful QB Error (list Quote)) (num_deleted : Z) :
    DB → QB → outcome SqlError (list Quote) * DB * QB :=
  run_inner (quotes <-- m ;; st_lift (check_deleted num_deleted quotes)).

Definition sq_remove_quotes_by_key_image (key_image : KeyImage) : stateful book Error (list Quote) :=
  in_transaction (delete_then (λ r, bool_decide (row_key_image r = key_image))
    (remove_checked (qb_remove_quotes_by_key_image key_image))).

Definition sq_remove_quotes_by_tombstone_block (current_block_index : BlockIndex) :
    stateful book Error (list Quote) :=
  in_transaction (delete_then
    (λ r, (0 <? row_tombstone_block r) && (row_tombstone_block r <=? as_i64 current_block_index))
    (remove_checked (qb_remove_quotes_by_tombstone_block current_block_index))).

Definition sq_get_quotes (p : Pair) (range : Bound * Bound) (limit : Z) (s : book) :=
  qb_get_quotes p range limit (sq_quote_book s).
Definition sq_get_quote_ids (p : option Pair) (s : book) := qb_get_quote_ids p (sq_quote_book s).
Definition sq_get_quote_by_id (id : QuoteId) (s : book) := qb_get_quote_by_id id (sq_quote_book s).
Definition sq_num_scis (s : book) := qb_num_scis (sq_quote_book s).

#[export] Instance SqliteQuoteBook_QuoteBook : QuoteBook book := {|
  qb_add_quote := sq_add_quote;
  qb_remove_quote_by_id := sq_remove_quote_by_id;
  qb_remove_quotes_by_key_image := sq_remove_quotes_by_key_image;
  qb_remove_quotes_by_tombstone_block := sq_remove_quotes_by_tombstone_block;
  qb_get_quotes := sq_get_quotes;
  qb_get_quote_ids := sq_get_quote_ids;
  qb_get_quote_by_id := sq_get_quote_by_id;
  qb_num_scis := sq_num_scis;
|}.

(** The loading loop of [SqliteQuoteBook::new]: the percentage logged for row
    [i] is computed first, then the row is decoded and added. *)
Fixpoint load_rows (num_quotes : Z) (i : Z) (loaded : list Row) : stateful QB Error unit :=
  match loaded with
  | [] => st_ret tt
  | row :: rest =>
      st_lift (rust_assert (negb (num_quotes =? 0)) "attempt to divide by zero") ;;;
      quote <-- st_lift (quote_from_row row) ;;
      qb_add_quote quote ;;;
      load_rows num_quotes (i + 1) rest
  end.

(** [SqliteQuoteBook::new] *)
Definition sq_new (pool : DB) (quote_book : QB) : outcome Error book :=
  match db_get_conn pool with
  | Err e => Err (sql_error_into (R2d2 e))
  | Panic p => Panic p
  | Ok _ =>
      let '(r, pool) := db_migrate pool in
      _ ← map_err (λ e, ImplementationSpecific ("run pending migrations: " +:+ e)) r;
      num_quotes ← map_err (λ e, sql_error_into (Diesel e)) (db_count pool);
      loaded ← map_err (λ e, sql_error_into (Diesel e)) (db_load pool);
      let '(r, quote_book) := load_rows num_quotes 0 loaded quote_book in
      _ ← r;
      Ok (mk_sqlite pool quote_book)
  end.
End Sqlite.

(** * The table is kept in step with the underlying book *)

Section Transactions.
Context `{McLib, SciCodec} {DB QB : Type} `{!SqlDb DB, !SqlDbLaws DB, !QuoteBook QB}.
Abbreviation book := (SqliteQuoteBook DB QB).
Implicit Types (s : book).

(** What a closure run in a transaction leaves: nothing happened; or it ran
    on the table and the book, and either was committed or its effect on the
    table, not on the book, was undone. *)
Inductive in_transaction_result {A} (f : DB → QB → outcome SqlError A * DB * QB) s :
    outcome Error A → book → Prop :=
| itr_not_begun e s' :
    rows (sq_pool s') = rows (sq_pool s) → sq_quote_book s' = sq_quote_book s →
    in_transaction_result f s (Err (ImplementationSpecific e)) s'
| itr_committed db0 a db1 s' :
    rows db0 = rows (sq_pool s) → f db0 (sq_quote_book s) = (Ok a, db1, sq_quote_book s') →
    rows (sq_pool s') = rows db1 → in_transaction_result f s (Ok a) s'
| itr_undone db0 r0 db1 r s' :
    rows db0 = rows (sq_pool s) → f db0 (sq_quote_book s) = (r0, db1, sq_quote_book s') →
    rows (sq_pool s') = rows (sq_pool s) →
    (is_ok r0 = true ∧ (∃ e, r = Err (ImplementationSpecific e)) ∨
     is_ok r0 = false ∧ r = map_err sql_error_into r0) →
    in_transaction_result f s r s'.

Lemma in_transaction_inv {A} (f : DB → QB → outcome SqlError A * DB * QB) s r s' :
  in_transaction f s = (r, s') → in_transaction_result f s r s'.
Proof.
  unfold in_transaction. destruct (db_get_conn (sq_pool s)) as [[]|e|p] eqn:Hc.
  - destruct (db_transaction f (sq_pool s) (sq_quote_book s)) as [[r0 db'] qb'] eqn:Ht.
    apply transaction_ok in Ht. intros [= <- <-].
    destruct Ht as [e db' Hr|db0 a db1 s1 db' Hd Hf Hr|db0 a db1 s1 e db' Hd Hf Hr
                   |db0 e db1 s1 db' Hd Hf Hr|db0 p db1 s1 db' Hd Hf Hr]; cbn [map_err sql_error_into].
    + by apply itr_not_begun.
    + by eapply itr_committed.
    + apply (itr_undone f s db0 (Ok a) db1); [done..|]. left. eauto.
    + apply (itr_undone f s db0 (Err e) db1); [done..|]. by right.
    + apply (itr_undone f s db0 (Panic p) db1); [done..|]. by right.
  - intros [= <- <-]. by apply itr_not_begun.
  - by apply get_conn_no_panic in Hc.
Qed.

Lemma in_transaction_Ok {A} (f : DB → QB → outcome SqlError A * DB * QB) s a s' :
  in_transaction f s = (Ok a, s') →
  ∃ db0 db1, rows db0 = rows (sq_pool s) ∧ f db0 (sq_quote_book s) = (Ok a, db1, sq_quote_book s') ∧
             rows (sq_pool s') = rows db1.
Proof.
  intros Hr%in_transaction_inv. inversion Hr as [|db0 ? db1|? r0 ? ? ? ? ? ? [[_ [? ?]]|[Hk Hr0]]]; [|done|].
  - by exists db0, db1.
  - by destruct r0.
Qed.

(** An operation of the SQLite book acts on the underlying book as [m], or
    not at all; [Ok] is the answer of [m]. *)
Definition inner_step {A} (m : stateful QB Error A) s (r : outcome Error A) s' : Prop :=
  (sq_quote_book s' = sq_quote_book s ∧ is_ok r = false) ∨
  (∃ r0, m (sq_quote_book s) = (r0, sq_quote_book s') ∧ ∀ a, r = Ok a → r0 = Ok a).

(** It is enough that the closure does so. *)
Lemma in_transaction_inner {A} (m : stateful QB Error A) f s r s' :
  (∀ db0 r0 db1 qb1, f db0 (sq_quote_book s) = (r0, db1, qb1) →
     (qb1 = sq_quote_book s ∧ is_ok r0 = false) ∨
     (∃ r1, m (sq_quote_book s) = (r1, qb1) ∧ ∀ a, r0 = Ok a → r1 = Ok a)) →
  in_transaction f s = (r, s') → inner_step m s r s'.
Proof.
  intros Hf Hr%in_transaction_inv. destruct Hr as [e s' _ ?|db0 a db1 s' _ Hr _|db0 r0 db1 r s' _ Hr _ Hcase].
  - by left.
  - destruct (Hf _ _ _ _ Hr) as [[_ ?]|(r1 & Hm & Hok)]; [done|]. right. exists r1.
    split; [done|]. intros b [= <-]. by apply Hok.
  - assert (is_ok r = false) as Hnok
      by (destruct Hcase as [[_ [e ->]]|[Hk ->]]; [done|by destruct r0]).
    destruct (Hf _ _ _ _ Hr) as [[? _]|(r1 & Hm & _)]; [by left|].
    right. exists r1. split; [done|]. by intros a ->.
Qed.

Lemma delete_then_inner {A} (m : stateful QB Error A) p k s r s' :
  (∀ n db0 r0 db1 qb1, k n db0 (sq_quote_book s) = (r0, db1, qb1) →
     (qb1 = sq_quote_book s ∧ is_ok r0 = false) ∨
     (∃ r1, m (sq_quote_book s) = (r1, qb1) ∧ ∀ a, r0 = Ok a → r1 = Ok a)) →
  in_transaction (delete_then p k) s = (r, s') → inner_step m s r s'.
Proof.
  intros Hk. apply in_transaction_inner. intros db0 r0 db1 qb1. unfold delete_then.
  destruct (db_delete p db0) as [[n|e|msg] db]; [apply Hk|intros [= <- <- <-]; by left..].
Qed.

Lemma sq_remove_checked_inner m p s r s' :
  in_transaction (delete_then p (remove_checked m)) s = (r, s') → inner_step m s r s'.
Proof.
  apply delete_then_inner. intros n db0 r0 db1 qb1. unfold remove_checked, run_inner, st_bind, st_lift.
  destruct (m (sq_quote_book s)) as [[l|e|msg] qb]; intros [= <- <- <-]; right; eexists; (split; [done|]);
    try done. intros l'. unfold check_deleted, rust_assert. case_match; cbn; congruence.
Qed.

Lemma sq_remove_id_inner i s r s' :
  sq_remove_quote_by_id i s = (r, s') → inner_step (qb_remove_quote_by_id i) s r s'.
Proof.
  apply delete_then_inner. intros n db0 r0 db1 qb1. unfold run_inner.
  destruct (n =? 0); [intros [= <- <- <-]; by left|]. destruct (n =? 1); [|intros [= <- <- <-]; by left].
  destruct (qb_remove_quote_by_id i (sq_quote_book s)) as [r1 qb]; intros [= <- <- <-]; right.
  exists r1. split; [done|]. by destruct r1; intros ? [= ->].
Qed.

(** The row read back for a duplicate has the id of the quote. *)
Lemma duplicate_error_Err db q r : duplicate_error db q = r →
  is_ok r = false ∧
  ∀ e, r = Err (QuoteBookE (QuoteAlreadyExists e)) → q_id e = q_id q.
Proof.
  intros <-. unfold duplicate_error, row_get_by_id.
  destruct (db_first _ db) as [[row|]| |] eqn:Hf; cbn; try done.
  apply first_ok in Hf as [_ Hid%bool_decide_eq_true]. unfold quote_from_row, row_quote_id.
  destruct (negb _); cbn; [done|]. destruct (row_decode_sci row); cbn; [|done..].
  split; [done|]. by intros e [= <-].
Qed.

Lemma sq_add_inner q s r s' : sq_add_quote q s = (r, s') → inner_step (qb_add_quote q) s r s'.
Proof.
  apply in_transaction_inner. intros db0 r0 db1 qb1. unfold add_transaction, run_inner.
  destruct (db_insert _ db0) as [[[]|[]|] db]; try (intros [= <- <- <-]; by left).
  - destruct (qb_add_quote q (sq_quote_book s)) as [r1 qb]; intros [= <- <- <-]; right.
    exists r1. split; [done|]. by destruct r1; intros ? [= ->].
  - intros [= <- <- <-]; left. split; [done|]. by destruct (duplicate_error_Err db q _ eq_refl).
Qed.

Lemma sq_add_exists_cases q s e s' :
  sq_add_quote q s = (Err (QuoteAlreadyExists e), s') →
  q_id e = q_id q ∨
  qb_add_quote q (sq_quote_book s) = (Err (QuoteAlreadyExists e), sq_quote_book s').
Proof.
  intros Hr%in_transaction_inv. inversion Hr as [| |db0 r0 db1 r ? Hd Hf Hrows Hcase]; subst.
  destruct Hcase as [[_ [? ?]]|[_ Hr0]]; [done|]. revert Hf. unfold add_transaction, run_inner.
  destruct (db_insert _ db0) as [[[]|[]|] db]; [| | |].
  - destruct (qb_add_quote q (sq_quote_book s)) as [r1 qb]; intros [= <- _ ->].
    right. destruct r1 as [|x|]; cbn in Hr0; [done|congruence|done].
  - intros [= <- _ ->]. left. destruct (duplicate_error_Err db q _ eq_refl) as [_ He].
    destruct (duplicate_error db q) as [|[|x|]|]; cbn in Hr0; try done.
    apply He. congruence.
  - intros [= <- _ ->]. done.
  - intros [= <- _ ->]. done.
Qed.
End Transactions.

(** * The SQLite book implements the interface

    Its contents are those of the underlying book, whatever becomes of the
    table. *)

Section SqliteLaws.
Context `{McLib, SciCodec} {DB QB : Type} `{!SqlDb DB, !SqlDbLaws DB, !QuoteBook QB, !QuoteBookLaws QB}.

Ltac inner_cases H := destruct H as [[Hsame ?]|(? & ? & ?)]; [try (by rewrite Hsame)|].
Ltac by_inner L := eapply L; [..|eassumption]; done.

#[export] Program Instance SqliteQuoteBook_Laws : QuoteBookLaws (SqliteQuoteBook DB QB) := {|
  book_inv s := book_inv (sq_quote_book s);
  contents s := contents (sq_quote_book s);
|}.
Next Obligation. intros s. apply contents_slots. Qed.
Next Obligation.
  intros q s r s' Hi Ha Hr. inner_cases (sq_add_inner q s r s' Hr); by_inner add_inv.
Qed.
Next Obligation.
  intros q s s' Hi Ha Hr. inner_cases (sq_add_inner q s _ s' Hr).
  eapply add_ok; [done..|]. naive_solver.
Qed.
Next Obligation.
  intros q s r s' Hi Ha Hr. inner_cases (sq_add_inner q s _ s' Hr); [|by_inner add_frame].
  rewrite Hsame. split; [done|by apply submseteq_cons].
Qed.
Next Obligation.
  intros q s s' e Hi Ha [?|Hr]%sq_add_exists_cases; [by right|]. by_inner add_exists.
Qed.
Next Obligation.
  intros i s r s' Hi Hr. inner_cases (sq_remove_id_inner i s r s' Hr); by_inner remove_id_inv.
Qed.
Next Obligation.
  intros i s q s' Hi Hr. inner_cases (sq_remove_id_inner i s _ s' Hr).
  eapply remove_id_ok; [done|]. naive_solver.
Qed.
Next Obligation.
  intros i s r s' Hi Hr. inner_cases (sq_remove_id_inner i s _ s' Hr); by_inner remove_id_frame.
Qed.
Next Obligation.
  intros k s r s' Hi Hr. inner_cases (sq_remove_checked_inner _ _ s r s' Hr); by_inner remove_ki_inv.
Qed.
Next Obligation.
  intros k s l s' Hi Hr. inner_cases (sq_remove_checked_inner _ _ s _ s' Hr).
  eapply remove_ki_ok; [done|]. naive_solver.
Qed.
Next Obligation.
  intros k s r s' Hi Hr. inner_cases (sq_remove_checked_inner _ _ s r s' Hr); by_inner remove_ki_frame.
Qed.
Next Obligation.
  intros n s r s' Hi Hr.
  inner_cases (sq_remove_checked_inner _ _ s r s' Hr); by_inner remove_tombstone_inv.
Qed.
Next Obligation.
  intros n s l s' Hi Hr. inner_cases (sq_remove_checked_inner _ _ s _ s' Hr).
  eapply remove_tombstone_ok; [done|]. naive_solver.
Qed.
Next Obligation.
  intros n s r s' Hi Hr. inner_cases (sq_remove_checked_inner _ _ s r s' Hr); by_inner remove_tombstone_frame.
Qed.
Next Obligation. intros p range limit s l. exact (get_quotes_ok p range limit (sq_quote_book s) l). Qed.
Next Obligation. intros p s l. exact (get_quote_ids_ok p (sq_quote_book s) l). Qed.
Next Obligation. intros i s o. exact (get_quote_by_id_ok i (sq_quote_book s) o). Qed.
Next Obligation. intros s n. exact (num_scis_ok (sq_quote_book s) n). Qed.
End SqliteLaws.

(** * Theorems *)

Section Theorems.
Context `{McLib, SciCodec} {DB QB : Type} `{!SqlDb DB, !SqlDbLaws DB, !QuoteBook QB, !QuoteBookLaws QB}.
Abbreviation book := (SqliteQuoteBook DB QB).
Implicit Types (s : book).

(** The table holds the rows of the quotes of the underlying book, one per id. *)
Record in_step s : Prop := {
  step_inv : book_inv (sq_quote_book s);
  step_rows : rows (sq_pool s) ≡ₚ row_from_quote <$> contents (sq_quote_book s);
  step_ids : NoDup (q_id <$> contents (sq_quote_book s));
}.

(** The condition of the tombstone deletion, on the quote. *)
Definition row_expired (n : BlockIndex) (q : Quote) : bool :=
  let t := as_i64 (default 0 (max_tombstone_block <$> input_rules (tx_in (q_sci q)))) in
  (0 <? t) && (t <=? as_i64 n).

(** The rows deleted and kept, read as quotes. *)
Lemma delete_rows p db n db' l (P : Quote → bool) :
  rows db ≡ₚ row_from_quote <$> l → (∀ q, q ∈ l → p (row_from_quote q) = P q) →
  db_delete p db = (Ok n, db') →
  n = Z.of_nat (length (filter (λ q, P q = true) l)) ∧
  rows db' ≡ₚ row_from_quote <$> filter (λ q, P q = false) l.
Proof.
  intros Hrows HP [-> Hdel]%delete_ok.
  assert (∀ b, filter (λ r, p r = b) (rows db) ≡ₚ row_from_quote <$> filter (λ q, P q = b) l) as Hf.
  { intros b. rewrite Hrows, filter_fmap. cbn.
    by erewrite (list_filter_ext _ (λ q, P q = b)); [|intros q Hq; cbn; rewrite HP]. }
  split; [|by rewrite Hdel]. by rewrite (Hf true), length_fmap.
Qed.

Lemma ids_submseteq l k : k ⊆+ l → NoDup (q_id <$> l) → NoDup (q_id <$> k).
Proof. intros Hk. apply NoDup_submseteq_inv. by apply fmap_submseteq. Qed.

Lemma add_in_step q s s' :
  in_step s → addable (contents s) q → sq_add_quote q s = (Ok tt, s') → in_step s'.
Proof.
  intros [Hi Hrows Hids] Ha Hr. pose proof Hr as Hr'. apply in_transaction_Ok in Hr.
  pose proof (@add_inv _ _ _ SqliteQuoteBook_Laws q s _ s' Hi Ha Hr') as Hinv.
  pose proof (@add_ok _ _ _ SqliteQuoteBook_Laws q s s' Hi Ha Hr') as Hc. cbn in Hinv, Hc.
  destruct Hr as (db0 & db1 & Hd & Hf & Hrows'). revert Hf. unfold add_transaction.
  destruct (db_insert _ db0) as [[[]|[]|] db] eqn:Hins;
    [|by destruct (duplicate_error_Err db q _ eq_refl) as [Hk _]; destruct (duplicate_error _ _)|done..].
  apply insert_ok in Hins as [Hnin Hins]. unfold run_inner. case_match. intros [= _ <- _].
  split; [done| |].
  - by rewrite Hrows', Hins, Hd, Hrows, Hc.
  - rewrite Hc. cbn. apply NoDup_cons. split; [|done]. intros Hin. apply Hnin.
    rewrite Hd, Hrows, <-list_fmap_compose. done.
Qed.

(** A removal that deletes the rows of the quotes [P] holds of, and returns
    and removes exactly these quotes. *)
Lemma remove_checked_in_step m p P s l s' :
  in_step s → (∀ q, q ∈ contents s → p (row_from_quote q) = P q) →
  (∀ l b', m (sq_quote_book s) = (Ok l, b') →
     contents b' ≡ₚ filter (λ q, P q = false) (contents (sq_quote_book s)) ∧ book_inv b') →
  in_transaction (delete_then p (remove_checked m)) s = (Ok l, s') → in_step s'.
Proof.
  intros [Hi Hrows Hids] HP Hm Hr. pose proof Hr as Hr'. apply in_transaction_Ok in Hr.
  apply sq_remove_checked_inner in Hr' as [[_ ?]|(r1 & Hr1 & Hl)]; [done|]. specialize (Hl l eq_refl) as ->.
  destruct (Hm _ _ Hr1) as [Hc Hinv].
  destruct Hr as (db0 & db1 & Hd & Hf & Hrows'). revert Hf. unfold delete_then, remove_checked, run_inner, st_bind, st_lift.
  destruct (db_delete p db0) as [[n| |] db] eqn:Hdel; [|done..].
  rewrite <-Hd in Hrows. destruct (delete_rows p db0 n db _ P Hrows HP Hdel) as [_ Hdb].
  rewrite Hr1. intros [= _ <-]. split; [done| |].
  - by rewrite Hrows', Hdb, Hc.
  - rewrite Hc. eapply ids_submseteq; [apply filter_submseteq|done].
Qed.

Lemma remove_ki_in_step k s l s' :
  in_step s → sq_remove_quotes_by_key_image k s = (Ok l, s') → in_step s'.
Proof.
  intros Hs. apply (remove_checked_in_step _ _ (λ q, bool_decide (quote_key_image q = k))); [done..|].
  intros l' b' Hr. split; [|by eapply remove_ki_inv; [apply Hs|]].
  destruct (remove_ki_ok k _ l' b' (step_inv _ Hs) Hr) as [_ ->].
  erewrite list_filter_ext; [done|]. intros q _. cbn. by rewrite bool_decide_eq_false.
Qed.

Lemma remove_id_in_step i s q s' : in_step s → sq_remove_quote_by_id i s = (Ok q, s') → in_step s'.
Proof.
  intros [Hi Hrows Hids] Hr. pose proof Hr as Hr'. apply in_transaction_Ok in Hr.
  pose proof (@remove_id_inv _ _ _ SqliteQuoteBook_Laws i s _ s' Hi Hr') as Hinv.
  destruct (@remove_id_ok _ _ _ SqliteQuoteBook_Laws i s _ s' Hi Hr') as [Hq Hc]. cbn in Hinv, Hc. subst i.
  destruct Hr as (db0 & db1 & Hd & Hf & Hrows'). revert Hf. unfold delete_then, run_inner.
  destruct (db_delete _ db0) as [[n| |] db] eqn:Hdel; [|done..].
  rewrite <-Hd in Hrows.
  destruct (delete_rows _ db0 n db _ (λ x, bool_decide (q_id x = q_id q)) Hrows (λ _ _, eq_refl) Hdel)
    as [_ Hdb].
  destruct (n =? 0); [done|]. destruct (n =? 1); [|done]. case_match. intros [= _ <- _].
  rewrite Hc in Hids. apply NoDup_cons in Hids as [Hnin Hids]. split; [done| |done].
  rewrite Hrows', Hdb, Hc. rewrite filter_cons_False by by rewrite bool_decide_eq_false; intros [].
  rewrite list_filter_all; [done|]. intros x Hx. apply bool_decide_eq_false. intros Hxq.
  apply Hnin. rewrite <-Hxq. by apply list_elem_of_fmap_2.
Qed.

(** A failed transaction leaves the table as it was. *)
Lemma in_transaction_rollback {A} (f : DB → QB → outcome SqlError A * DB * QB) s r s' :
  in_transaction f s = (r, s') → is_ok r = false → rows (sq_pool s') = rows (sq_pool s).
Proof. intros Hr%in_transaction_inv. by destruct Hr. Qed.

(** A removal whose count agrees with the deleted rows does not panic. *)
Lemma remove_checked_no_panic m p P s msg s' :
  in_step s → (∀ q, q ∈ contents s → p (row_from_quote q) = P q) →
  (∀ r b', m (sq_quote_book s) = (r, b') → is_panic r = false ∧
     ∀ l, r = Ok l → l ≡ₚ filter (λ q, P q = true) (contents (sq_quote_book s))) →
  in_transaction (delete_then p (remove_checked m)) s ≠ (Panic msg, s').
Proof.
  intros [_ Hrows _] HP Hm Hr%in_transaction_inv.
  inversion Hr as [| |db0 r0 db1 r ? Hd Hf _ [[_ [? ?]]|[_ Hr0]]]; [done|].
  revert Hf. unfold delete_then, remove_checked, run_inner, st_bind, st_lift.
  destruct (db_delete p db0) as [[n|e|x] db] eqn:Hdel; [|by intros [= <- _ _]|by apply delete_no_panic in Hdel].
  rewrite <-Hd in Hrows. destruct (delete_rows p db0 n db _ P Hrows HP Hdel) as [Hn _].
  destruct (m (sq_quote_book s)) as [[l|e|x] b'] eqn:Hb; destruct (Hm _ _ eq_refl) as [? Hl]; [|by intros [= <- _ _]|done].
  unfold check_deleted. rewrite Hn, (Hl l eq_refl), Z.eqb_refl. by intros [= <- _ _].
Qed.

(** ** The tombstone sweep

    The table deletes the rows whose tombstone has been reached; the
    underlying book asks [validate_tombstone], which also rejects a tombstone
    too far ahead. *)

Context `{!TombstoneLaws H}.

(** The tombstone is more than [MAX_TOMBSTONE_BLOCKS] ahead of block [n]. *)
Definition tombstone_too_far (n : BlockIndex) (q : Quote) : bool :=
  match input_rules (tx_in (q_sci q)) with
  | Some ir => n + max_tombstone_blocks <? max_tombstone_block ir
  | None => false
  end.

(** The tombstone is a [u64]. *)
Definition tombstone_wf (q : Quote) : Prop :=
  ∀ ir, input_rules (tx_in (q_sci q)) = Some ir → is_u64 (max_tombstone_block ir).

Lemma sci_wf_tombstone q : sci_wf (q_sci q) → tombstone_wf q.
Proof. intros [_ _ Hr] ir Hir. by destruct (Hr ir Hir). Qed.

(** What the two tests have in common and where they differ. *)
Lemma tombstone_tests n q :
  0 ≤ n < 2 ^ 62 → tombstone_wf q →
  tombstone_expired n q = row_expired n q || tombstone_too_far n q ∧
  (tombstone_too_far n q = true → row_expired n q = false).
Proof.
  intros Hn Hwf. unfold tombstone_expired, row_expired, tombstone_too_far. rewrite (as_i64_small n) by lia.
  pose proof max_tombstone_blocks_bound. destruct (input_rules _) as [ir|] eqn:Hir; cbn; [|done].
  specialize (Hwf ir Hir). set (t := max_tombstone_block ir) in *. rewrite validate_tombstone_spec by lia.
  destruct (Z.ltb_spec (n + max_tombstone_blocks) t) as [Hfar|Hnear].
  - assert ((0 <? as_i64 t) && (as_i64 t <=? n) = false) as ->.
    { destruct (Z_lt_le_dec t (2 ^ 63)).
      - rewrite as_i64_small by lia. apply andb_false_iff. right. apply Z.leb_gt. lia.
      - apply andb_false_iff. left. apply Z.ltb_ge. pose proof (as_i64_large t ltac:(done) Hwf). lia. }
    rewrite (proj2 (Z.eqb_neq t 0)) by lia. by rewrite orb_true_r.
  - rewrite as_i64_small by (destruct Hwf; lia). rewrite !orb_false_r. split; [|done].
    destruct (Z.eqb_spec t 0) as [->|]; [done|]. by rewrite (proj2 (Z.ltb_lt 0 t)) by (destruct Hwf; lia).
Qed.

Lemma tombstone_tests_agree n q :
  0 ≤ n < 2 ^ 62 → tombstone_wf q → tombstone_too_far n q = false → tombstone_expired n q = row_expired n q.
Proof. intros Hn Hwf Hnear. destruct (tombstone_tests n q Hn Hwf) as [-> _]. by rewrite Hnear, orb_false_r. Qed.

(** The sweep removes more quotes than rows when a tombstone is too far ahead. *)
Lemma too_far_count n l :
  0 ≤ n < 2 ^ 62 → Forall tombstone_wf l → (∃ q, q ∈ l ∧ tombstone_too_far n q = true) →
  (length (filter (λ q, row_expired n q = true) l) < length (filter (λ q, tombstone_expired n q = true) l))%nat.
Proof.
  intros Hn Hwf (q & Hq & Hfar). rewrite Forall_forall in Hwf. apply filter_length_lt.
  - intros x Hx Hr. destruct (tombstone_tests n x Hn (Hwf x Hx)) as [-> _]. by rewrite Hr.
  - exists q. destruct (tombstone_tests n q Hn (Hwf q Hq)) as [-> Hr]. rewrite (Hr Hfar), Hfar. auto.
Qed.

(** The number of rows the sweep deletes and of quotes it removes. *)
Lemma sweep_counts n s db0 k db l b' :
  in_step s → rows db0 = rows (sq_pool s) →
  db_delete (λ r, (0 <? row_tombstone_block r) && (row_tombstone_block r <=? as_i64 n)) db0 = (Ok k, db) →
  qb_remove_quotes_by_tombstone_block n (sq_quote_book s) = (Ok l, b') →
  k = Z.of_nat (length (filter (λ q, row_expired n q = true) (contents s))) ∧
  length l = length (filter (λ q, tombstone_expired n q = true) (contents s)).
Proof.
  intros [Hi Hrows _] Hd Hdel Hb. rewrite <-Hd in Hrows.
  destruct (delete_rows _ db0 k db _ (row_expired n) Hrows (λ _ _, eq_refl) Hdel) as [-> _]. split; [done|].
  by destruct (remove_tombstone_ok n _ l b' Hi Hb) as [-> _].
Qed.

(** A sweep that answers [Ok] met no tombstone that is too far ahead. *)
Lemma sweep_ok_near n s l s' :
  in_step s → Forall tombstone_wf (contents s) → 0 ≤ n < 2 ^ 62 →
  sq_remove_quotes_by_tombstone_block n s = (Ok l, s') →
  ∀ q, q ∈ contents s → tombstone_too_far n q = false.
Proof.
  intros Hs Hwf Hn Hr q Hq. apply not_true_is_false. intros Hfar.
  apply in_transaction_Ok in Hr as (db0 & db1 & Hd & Hf & _). revert Hf.
  unfold delete_then, remove_checked, run_inner, st_bind, st_lift.
  destruct (db_delete _ db0) as [[k| |] db] eqn:Hdel; [|done..].
  destruct (qb_remove_quotes_by_tombstone_block _ _) as [[l'| |] b'] eqn:Hb; [|done..].
  destruct (sweep_counts n s db0 k db l' b' Hs Hd Hdel Hb) as [-> Hl].
  pose proof (too_far_count n (contents s) Hn Hwf ltac:(eauto)).
  unfold check_deleted. by rewrite (proj2 (Z.eqb_neq _ _)) by lia.
Qed.

Lemma remove_tombstone_in_step n s l s' :
  in_step s → Forall tombstone_wf (contents s) → 0 ≤ n < 2 ^ 62 →
  sq_remove_quotes_by_tombstone_block n s = (Ok l, s') → in_step s'.
Proof.
  intros Hs Hwf Hn Hr. pose proof (sweep_ok_near n s l s' Hs Hwf Hn Hr) as Hnear. rewrite Forall_forall in Hwf.
  revert Hr. apply (remove_checked_in_step _ _ (tombstone_expired n)); [done| |].
  { intros q Hq. by rewrite tombstone_tests_agree by auto. }
  intros l' b' Hr. split; [|by eapply remove_tombstone_inv; [apply Hs|]].
  by destruct (remove_tombstone_ok n _ l' b' (step_inv _ Hs) Hr).
Qed.

(** While table and book are in step, the assertions that the number of
    deleted rows is the number of removed quotes do not fail unless a
    tombstone is too far ahead: a removal panics only if the underlying book
    does. *)
Lemma sqlite_removals_do_not_panic s :
  in_step s → Forall tombstone_wf (contents s) →
  (∀ k p s', is_panic (qb_remove_quotes_by_key_image k (sq_quote_book s)).1 = false →
     sq_remove_quotes_by_key_image k s ≠ (Panic p, s')) ∧
  (∀ n p s', 0 ≤ n < 2 ^ 62 → (∀ q, q ∈ contents s → tombstone_too_far n q = false) →
     is_panic (qb_remove_quotes_by_tombstone_block n (sq_quote_book s)).1 = false →
     sq_remove_quotes_by_tombstone_block n s ≠ (Panic p, s')).
Proof.
  intros Hs Hwf. rewrite Forall_forall in Hwf. split.
  - intros k p s' Hnp.
    apply (remove_checked_no_panic _ _ (λ q, bool_decide (quote_key_image q = k))); [done..|].
    intros r b' Hb. rewrite Hb in Hnp. split; [done|]. intros l ->.
    destruct (remove_ki_ok k _ l b' (step_inv _ Hs) Hb) as [-> _].
    erewrite list_filter_ext; [done|]. intros q _. cbn. by rewrite bool_decide_eq_true.
  - intros n p s' Hn Hnear Hnp. apply (remove_checked_no_panic _ _ (tombstone_expired n)); [done|..].
    { intros q Hq. by rewrite tombstone_tests_agree by auto. }
    intros r b' Hb. rewrite Hb in Hnp. split; [done|]. intros l ->.
    by destruct (remove_tombstone_ok n _ l b' (step_inv _ Hs) Hb) as [-> _].
Qed.

(** C9: the table stays in step with the underlying book.  Every operation
    that answers [Ok], given a quote with a price and a new digest to add and a
    block index below 2^62 to sweep at, leaves the table with exactly the rows
    of the quotes the book then holds, and every operation that fails leaves
    the table as it was.  While they are in step the assertion that the number
    of deleted rows is the number of removed quotes does not fail in a removal
    by key image; in a sweep of tombstones it does not fail as long as no quote
    held has a tombstone more than [MAX_TOMBSTONE_BLOCKS] ahead of the block,
    and with such a quote no sweep answers [Ok].  Tombstones are 64-bit, and
    the underlying book does not panic itself. *)
Theorem sqlite_table_in_step s :
  in_step s → Forall tombstone_wf (contents s) →
  (∀ q r s', addable (contents s) q → sq_add_quote q s = (r, s') →
     if is_ok r then in_step s' else rows (sq_pool s') = rows (sq_pool s)) ∧
  (∀ i r s', sq_remove_quote_by_id i s = (r, s') →
     if is_ok r then in_step s' else rows (sq_pool s') = rows (sq_pool s)) ∧
  (∀ k r s', sq_remove_quotes_by_key_image k s = (r, s') →
     if is_ok r then in_step s' else rows (sq_pool s') = rows (sq_pool s)) ∧
  (∀ n r s', 0 ≤ n < 2 ^ 62 → sq_remove_quotes_by_tombstone_block n s = (r, s') →
     if is_ok r then in_step s' ∧ ∀ q, q ∈ contents s → tombstone_too_far n q = false
     else rows (sq_pool s') = rows (sq_pool s)) ∧
  (∀ k p s', is_panic (qb_remove_quotes_by_key_image k (sq_quote_book s)).1 = false →
     sq_remove_quotes_by_key_image k s ≠ (Panic p, s')) ∧
  (∀ n p s', 0 ≤ n < 2 ^ 62 → (∀ q, q ∈ contents s → tombstone_too_far n q = false) →
     is_panic (qb_remove_quotes_by_tombstone_block n (sq_quote_book s)).1 = false →
     sq_remove_quotes_by_tombstone_block n s ≠ (Panic p, s')).
Proof.
  intros Hs Hwf. split; [|split; [|split; [|split; [|by apply sqlite_removals_do_not_panic]]]].
  - intros q [[]|e|p] s' Ha Hr; [by eapply add_in_step|by eapply in_transaction_rollback..].
  - intros i [q|e|p] s' Hr; [by eapply remove_id_in_step|by eapply in_transaction_rollback..].
  - intros k [l|e|p] s' Hr; [by eapply remove_ki_in_step|by eapply in_transaction_rollback..].
  - intros n [l|e|p] s' Hn Hr; [|by eapply in_transaction_rollback..].
    split; [by eapply remove_tombstone_in_step|by eapply sweep_ok_near].
Qed.

End Theorems.

(** * The theorems on examples *)

Module SqliteExamples.
Import Sample SampleCodec SampleDb InMemoryExamples.
Abbreviation sample_book := (SqliteQuoteBook Db InMemoryQuoteBook).

(** A table and a book that both hold [quote_a]. *)
Definition sq_book_a (commit_fails : bool) : sample_book :=
  mk_sqlite {| db_rows := [row_from_quote quote_a]; commit_fails := commit_fails |} book_a.

Lemma sq_book_a_in_step c : in_step (sq_book_a c).
Proof.
  split.
  - apply (im_reachable_healthy _ book_a_reachable).
  - assert (contents (sq_quote_book (sq_book_a c)) = [quote_a]) as -> by by vm_compute. done.
  - assert (contents (sq_quote_book (sq_book_a c)) = [quote_a]) as -> by by vm_compute. apply NoDup_singleton.
Qed.

Lemma sq_book_a_wf c : Forall tombstone_wf (contents (sq_book_a c)).
Proof.
  assert (contents (sq_book_a c) = [quote_a]) as -> by by vm_compute.
  constructor; [by intros ir [= <-]|constructor].
Qed.

(** A table and a book that both hold a quote with a tombstone. *)
Definition quote_t (tombstone : Z) : Quote := quote_on_terms (sci 1 1 10 [amount 20 2] [] 0 tombstone) 2 (10, 10) 20 5.
Definition sq_book_t (tombstone : Z) : sample_book :=
  mk_sqlite {| db_rows := [row_from_quote (quote_t tombstone)]; commit_fails := false |}
    (im_add_quote (quote_t tombstone) im_default).2.

Lemma quote_t_priced t : priced (quote_t t).
Proof. split; [split; cbv; congruence|split; [split; cbv; congruence|by left]]. Qed.

Lemma contents_book_t t : contents (sq_book_t t) = [quote_t t].
Proof. done. Qed.

Lemma sq_book_t_healthy t : im_healthy (sq_quote_book (sq_book_t t)).
Proof.
  apply im_reachable_healthy. eapply rtc_once, (step_add _ (quote_t t)); [|apply surjective_pairing].
  split; [apply quote_t_priced|]. intros x Hx. by apply elem_of_nil in Hx.
Qed.

Lemma sq_book_t_in_step t : in_step (sq_book_t t).
Proof. split; [exact (proj1 (sq_book_t_healthy t))|done|]. apply NoDup_singleton. Qed.

Lemma sq_book_t_wf t : is_u64 t → Forall tombstone_wf (contents (sq_book_t t)).
Proof. intros Ht. rewrite contents_book_t. constructor; [by intros ir [= <-]|constructor]. Qed.

(** A tombstone of 100 is kept by the sweep at block 5 and removed by the one
    at block 100; one of 30000 is too far ahead at block 5. *)
Lemma sqlite_table_in_step_witness :
  (if is_ok (sq_remove_quotes_by_key_image [1] (sq_book_a false)).1
   then in_step (sq_remove_quotes_by_key_image [1] (sq_book_a false)).2
   else rows (sq_pool (sq_remove_quotes_by_key_image [1] (sq_book_a false)).2) = rows (sq_pool (sq_book_a false))) ∧
  sq_remove_quotes_by_key_image [1] (sq_book_a false) ≠ (Panic "quotes.len() == num_deleted", sq_book_a false) ∧
  in_step (sq_remove_quotes_by_tombstone_block 5 (sq_book_t 100)).2 ∧
  in_step (sq_remove_quotes_by_tombstone_block 100 (sq_book_t 100)).2 ∧
  is_ok (sq_remove_quotes_by_tombstone_block 5 (sq_book_t 30000)).1 = false.
Proof.
  destruct (sqlite_table_in_step (sq_book_a false) (sq_book_a_in_step false) (sq_book_a_wf false))
    as (_ & _ & Hki & _ & Hnp & _). split; [|split; [|split; [|split]]].
  - apply (Hki [1]). apply surjective_pairing.
  - apply Hnp. by vm_compute.
  - destruct (sqlite_table_in_step (sq_book_t 100) (sq_book_t_in_step 100) (sq_book_t_wf 100 ltac:(done)))
      as (_ & _ & _ & Ht & _).
    specialize (Ht 5 (Ok []) _ ltac:(lia) ltac:(by vm_compute)). apply Ht.
  - destruct (sqlite_table_in_step (sq_book_t 100) (sq_book_t_in_step 100) (sq_book_t_wf 100 ltac:(done)))
      as (_ & _ & _ & Ht & _).
    specialize (Ht 100 (Ok [quote_t 100]) _ ltac:(lia) ltac:(by vm_compute)). apply Ht.
  - destruct (sqlite_table_in_step (sq_book_t 30000) (sq_book_t_in_step 30000) (sq_book_t_wf 30000 ltac:(done)))
      as (_ & _ & _ & Ht & _).
    specialize (Ht 5 _ _ ltac:(lia) (surjective_pairing _)). destruct (is_ok _); [|done].
    destruct Ht as [_ Ht]. specialize (Ht (quote_t 30000) ltac:(rewrite contents_book_t; by left)). done.
Defined.
End SqliteExamples.

(** * Restarting from the table: [SqliteQuoteBook::new] over an empty in-memory book *)

Section Restart.
Context `{McLib, SciCodec} `{!SciCodecLaws _} `{!HashIter Pair (list Quote)}.
Context {DB : Type} `{!SqlDb DB, !SqlDbLaws DB}.
Implicit Types (s : SqliteQuoteBook DB InMemoryQuoteBook) (b : InMemoryQuoteBook).

Lemma load_rows_ok num l i b :
  im_healthy b → (l ≠ [] → num ≠ 0) → Forall quote_wf l → Forall priced l →
  NoDup (slot <$> l ++ contents b) → NoDup (q_id <$> l ++ contents b) →
  ∃ b', load_rows num i (row_from_quote <$> l) b = (Ok tt, b') ∧ im_healthy b' ∧
        contents b' ≡ₚ l ++ contents b.
Proof.
  intros Hb Hnum. revert i b Hb. induction l as [|q l IH]; intros i b Hb Hwf Hpr Hslots Hids.
  { by exists b. }
  apply Forall_cons in Hwf as [Hwf Hwfl], Hpr as [Hpr Hprl].
  destruct (im_add_fresh q b) as (b1 & Hadd & Hb1 & Hc1); [done|done| | |].
  { by apply NoDup_fmap_fresh in Hslots as [? _]. }
  { by apply NoDup_fmap_fresh in Hids as [? _]. }
  assert (q :: l ++ contents b ≡ₚ l ++ contents b1) as Hperm by by rewrite Hc1, Permutation_middle.
  destruct (IH ltac:(intros; by apply Hnum) (i + 1) b1) as (b' & Hload & Hb' & Hc'); try done.
  { by rewrite <-Hperm. }
  { by rewrite <-Hperm. }
  exists b'. split; [|split; [done|by rewrite Hc', <-Hperm]].
  rewrite fmap_cons. cbn [load_rows]. unfold st_bind at 1, st_lift at 1.
  rewrite (proj2 (Z.eqb_neq num 0)) by by apply Hnum. cbn [negb rust_assert].
  unfold st_bind at 1, st_lift. rewrite quote_from_row_from_quote by done.
  unfold st_bind. cbn [qb_add_quote InMemoryQuoteBook_QuoteBook]. by rewrite Hadd.
Qed.

(** After a restart the book is the one before it: when the database
    can be read, [new] on the table of a book that was in step succeeds and
    rebuilds exactly its quotes, in step with the table and with a lock that is
    not poisoned. *)
Lemma sqlite_restart s pool n loaded :
  in_step s → Forall quote_wf (contents s) →
  db_get_conn (sq_pool s) = Ok tt → db_migrate (sq_pool s) = (Ok tt, pool) →
  db_count pool = Ok n → db_load pool = Ok loaded →
  ∃ s', sq_new (sq_pool s) im_default = Ok s' ∧ contents s' ≡ₚ contents s ∧ in_step s' ∧
        im_healthy (sq_quote_book s').
Proof.
  intros [Hinv Hrows Hids] Hwf Hconn Hmig Hcount Hload. unfold sq_new. rewrite Hconn, Hmig. cbn.
  rewrite Hcount. cbn. rewrite Hload. cbn.
  apply migrate_rows in Hmig. apply count_ok in Hcount. apply load_ok in Hload.
  assert (loaded ≡ₚ row_from_quote <$> contents (sq_quote_book s)) as Hl by by rewrite Hload, Hmig.
  apply Permutation_map_inv in Hl as (l & -> & Hl). symmetry in Hl.
  rewrite <-Hl in Hids. cbn in Hwf. rewrite <-Hl in Hwf.
  pose proof (map_contents_slots _ Hinv) as Hslots. cbn in Hl. rewrite <-Hl in Hslots.
  destruct (load_rows_ok n l 0 im_default) as (b' & Hb' & [Hm' Hp'] & Hc'); try done.
  - intros Hne. rewrite Hcount, <-Hload, length_fmap. by destruct l.
  - rewrite Hl. by eapply map_inv_priced.
  - cbn. by rewrite app_nil_r.
  - cbn. by rewrite app_nil_r.
  - change (map row_from_quote l) with (row_from_quote <$> l). rewrite Hb'. cbn.
    cbn in Hc'. rewrite app_nil_r in Hc'. eexists. split; [done|]. cbn. split; [by rewrite Hc', Hl|]. split; [|done].
    split; cbn; [done|by rewrite Hmig, Hrows, Hc', Hl|by rewrite Hc'].
Qed.
End Restart.
