(* ===== verification/BookEquiv.v ===== *)
(** Quote books are interchangeable.

    [TotalBook] strengthens the laws of a quote book with what it answers as
    long as it is up.  The in-memory book is one while its lock is not
    poisoned, the SQLite book while its database works.  Two such books with
    the same quotes give the same answers to every sequence of operations. *)

From S2P Require Import Prelude McTypes QuoteApi QuotePricing QuoteBook InMemory SqlTypes Sqlite.

(** * Books that answer *)

(** A quote that may be offered to a book: an id belongs to one slot. *)
Definition offerable `{McLib} (l : list Quote) (q : Quote) : Prop :=
  priced q ∧ ∀ x, x ∈ l → q_id x = q_id q → slot x = slot q.

Lemma offerable_addable `{McLib} l q : offerable l q → addable l q.
Proof. intros [Hq Hid]. split; [done|]. intros x Hx Hxq. by injection (Hid x Hx Hxq). Qed.

Class TotalBook `{McLib} (B : Type) `{!QuoteBook B, !QuoteBookLaws B} := {
  book_up : B → Prop;
  (** The quotes the book can store, and those it can hold when tombstones are
      swept at a block. *)
  storable : Quote → Prop;
  sweepable : BlockIndex → Quote → Prop;
  up_inv b : book_up b → book_inv b;
  up_ids b : book_up b → NoDup (q_id <$> contents b);
  up_priced b : book_up b → Forall priced (contents b);
  up_add q b r b' : book_up b → storable q → offerable (contents b) q → qb_add_quote q b = (r, b') →
    book_up b' ∧
    match slot_map (contents b) !! slot q with
    | None => r = Ok tt
    | Some e => r = Err (QuoteAlreadyExists e) ∧ contents b' ≡ₚ contents b
    end;
  up_remove_id i b r b' : book_up b → qb_remove_quote_by_id i b = (r, b') →
    book_up b' ∧ ((∃ q, r = Ok q) ∨
      (r = Err QuoteNotFound ∧ contents b' ≡ₚ contents b ∧ ∀ q, q ∈ contents b → q_id q ≠ i));
  up_remove_ki k b r b' : book_up b → qb_remove_quotes_by_key_image k b = (r, b') →
    book_up b' ∧ ∃ l, r = Ok l;
  up_remove_tombstone n b r b' : book_up b → (∀ q, q ∈ contents b → sweepable n q) →
    qb_remove_quotes_by_tombstone_block n b = (r, b') → book_up b' ∧ ∃ l, r = Ok l;
  up_get_quotes p r limit b : book_up b → ∃ l, qb_get_quotes p r limit b = Ok l;
  up_get_quote_ids p b : book_up b → ∃ l, qb_get_quote_ids p b = Ok l;
  up_get_quote_by_id i b : book_up b → ∃ o, qb_get_quote_by_id i b = Ok o;
  up_num_scis b : book_up b → ∃ n, qb_num_scis b = Ok n;
}.

(** ** The in-memory book *)

Section InMemoryTotal.
Context `{McLib} `{!HashIter Pair (list Quote)}.

Definition im_up (b : InMemoryQuoteBook) : Prop := im_healthy b ∧ NoDup (q_id <$> contents b).

Lemma im_up_shrink b b' : im_healthy b' → NoDup (q_id <$> contents b) → contents b' ⊆+ contents b → im_up b'.
Proof. intros Hb' Hids Hsub. split; [done|]. eapply NoDup_submseteq_inv; [by apply fmap_submseteq|done]. Qed.

#[export] Program Instance InMemory_Total : TotalBook InMemoryQuoteBook := {|
  book_up := im_up; storable _ := True; sweepable _ _ := True;
|}.
Next Obligation. by intros b [[? _] _]. Qed.
Next Obligation. by intros b [_ ?]. Qed.
Next Obligation. intros b [[? _] _]. by apply map_inv_priced. Qed.
Next Obligation.
  intros q b r b' [[Hm Hp] Hids] _ Hoff Hr.
  destruct (im_add_cases q b r b' Hm (offerable_addable _ _ Hoff) Hr)
    as [Hm' [(_ & _ & ?)|(_ & Hp' & [(e & -> & He & Hs & Hc)|(-> & Hc & Hfree)])]]; [congruence| |].
  - split; [apply (im_up_shrink b); [done|done|]; cbn; by rewrite Hc|].
    cbn [contents InMemoryQuoteBook_Laws] in *.
    by rewrite (proj2 (slot_map_lookup _ _ e (map_contents_slots _ Hm))).
  - cbn [contents InMemoryQuoteBook_Laws] in *.
    split; [split; [done|]|by rewrite (slot_map_None _ _ (map_contents_slots _ Hm) Hfree)].
    cbn in *. rewrite Hc. cbn. constructor; [|done].
    intros (x & Hx & Hin)%list_elem_of_fmap. apply (Hfree x Hin). by apply Hoff.
Qed.
Next Obligation.
  intros i b r b' [[Hm Hp] Hids] Hr.
  destruct (im_remove_id_cases i b r b' Hm Hr) as [Hm' [(_ & _ & ?)|(_ & Hp' & [(-> & Hc & Hn)|(e & -> & _ & Hc)])]];
    [congruence| |].
  - split; [|by right; cbn; rewrite Hc]. apply (im_up_shrink b); [done|done|]. cbn. by rewrite Hc.
  - split; [|eauto]. apply (im_up_shrink b); [done|done|]. cbn. rewrite Hc. by apply submseteq_cons.
Qed.
Next Obligation.
  intros k b r b' [[Hm Hp] Hids] Hr.
  destruct (im_drain_cases _ b r b' Hm Hr) as [? [(_ & _ & ?)|(_ & ? & l & -> & _ & Hc)]]; [congruence|].
  split; [|eauto]. apply (im_up_shrink b); [done|done|]. cbn. rewrite Hc. apply filter_submseteq.
Qed.
Next Obligation.
  intros n b r b' [[Hm Hp] Hids] _ Hr.
  destruct (im_drain_cases _ b r b' Hm Hr) as [? [(_ & _ & ?)|(_ & ? & l & -> & _ & Hc)]]; [congruence|].
  split; [|eauto]. apply (im_up_shrink b); [done|done|]. cbn. rewrite Hc. apply filter_submseteq.
Qed.
Next Obligation. intros p r limit b [[_ Hp] _]. cbn. unfold im_get_quotes, with_read. rewrite Hp. case_match; eauto. Qed.
Next Obligation.
  intros p b [[_ Hp] _]. cbn. unfold im_get_quote_ids, with_read. rewrite Hp. case_match; [case_match|]; eauto.
Qed.
Next Obligation. intros i b [[_ Hp] _]. cbn. unfold im_get_quote_by_id, with_read. rewrite Hp. eauto. Qed.
Next Obligation. intros b [[_ Hp] _]. cbn. unfold im_num_scis, with_read. rewrite Hp. eauto. Qed.
End InMemoryTotal.

(** ** The SQLite book over a database that works *)

(** A database that is up gives connections, refuses a row only because its id
    is taken, and commits the transactions whose closure succeeds. *)
Class WorkingDb (DB : Type) `{!SqlDb DB, !SqlDbLaws DB} := {
  db_up : DB → Prop;
  db_up_conn db : db_up db → db_get_conn db = Ok tt;
  db_up_insert row db r db' : db_up db → db_insert row db = (r, db') → db_up db' ∧
    (r = Ok tt ∨ (∃ m, r = Err (UniqueViolation m)) ∧ row_id row ∈ row_id <$> rows db);
  db_up_delete p db r db' : db_up db → db_delete p db = (r, db') → db_up db' ∧ ∃ n, r = Ok n;
  db_up_first p db : db_up db → ∃ o, db_first p db = Ok o;
  db_up_transaction S A (f : DB → S → outcome SqlError A * DB * S) db s r db' s' :
    db_up db → (∀ db0, db_up db0 → db_up (f db0 s).1.2) → db_transaction f db s = (r, db', s') →
    db_up db' ∧ ∃ db0 db1, db_up db0 ∧ rows db0 = rows db ∧ f db0 s = (r, db1, s') ∧
      rows db' = if is_ok r then rows db1 else rows db;
}.

Section SqliteTotal.
Context `{McLib, SciCodec} `{!TombstoneLaws _, !SciCodecLaws _} {DB QB : Type}.
Context `{!SqlDb DB, !SqlDbLaws DB, !WorkingDb DB, !QuoteBook QB, !QuoteBookLaws QB, !TotalBook QB}.
Local Abbreviation book := (SqliteQuoteBook DB QB).
Implicit Types (s : book).

(** A quote with the machine widths of its fields. *)
Definition sq_storable (q : Quote) : Prop := storable q ∧ quote_wf q ∧ tombstone_wf q.

(** At the block swept, the tombstone is not too far ahead. *)
Definition sq_sweepable (n : BlockIndex) (q : Quote) : Prop :=
  sweepable n q ∧ 0 ≤ n < 2 ^ 62 ∧ tombstone_too_far n q = false.

Record sq_up s : Prop := {
  sq_up_step : in_step s;
  sq_up_db : db_up (sq_pool s);
  sq_up_book : book_up (sq_quote_book s);
  sq_up_stored : Forall sq_storable (contents (sq_quote_book s));
}.

Lemma up_in_transaction {A} (f : DB → QB → outcome SqlError A * DB * QB) s r s' :
  db_up (sq_pool s) → (∀ db0, db_up db0 → db_up (f db0 (sq_quote_book s)).1.2) →
  in_transaction f s = (r, s') →
  db_up (sq_pool s') ∧ ∃ r0 db0 db1, db_up db0 ∧ rows db0 = rows (sq_pool s) ∧
    f db0 (sq_quote_book s) = (r0, db1, sq_quote_book s') ∧ r = map_err sql_error_into r0 ∧
    rows (sq_pool s') = if is_ok r0 then rows db1 else rows (sq_pool s).
Proof.
  intros Hup Hf. unfold in_transaction. rewrite (db_up_conn _ Hup).
  destruct (db_transaction f (sq_pool s) (sq_quote_book s)) as [[r0 db'] qb'] eqn:Ht. intros [= <- <-].
  destruct (db_up_transaction _ _ _ _ _ _ _ _ Hup Hf Ht) as (Hup' & db0 & db1 & Hup0 & Hd & Hr & Hrows).
  split; [done|]. by exists r0, db0, db1.
Qed.

(** What is left of [in_step] after a change that keeps the quotes. *)
Lemma sq_up_same s s' :
  sq_up s → db_up (sq_pool s') → book_up (sq_quote_book s') → rows (sq_pool s') = rows (sq_pool s) →
  contents (sq_quote_book s') ≡ₚ contents (sq_quote_book s) → sq_up s'.
Proof.
  intros [[Hi Hrows Hids] _ _ Hst] Hdb Hqb Hr Hc. split; [|done|done|by rewrite Hc].
  split; [by apply up_inv|by rewrite Hr, Hrows, Hc|by rewrite Hc].
Qed.

Lemma map_err_into {A} (r : outcome Error A) : map_err sql_error_into (map_err QuoteBookE r) = r.
Proof. by destruct r. Qed.

(** The row found for a taken id is that of the quote in the book. *)
Lemma duplicate_error_found q x s db :
  in_step s → rows db = rows (sq_pool s) → db_up db → Forall sq_storable (contents (sq_quote_book s)) →
  x ∈ contents (sq_quote_book s) → q_id x = q_id q →
  duplicate_error db q = Err (QuoteBookE (QuoteAlreadyExists x)).
Proof.
  intros [_ Hrows Hids] Hdb Hup Hst Hx Hid. unfold duplicate_error, row_get_by_id.
  destruct (db_up_first (λ r, bool_decide (row_id r = q_id q)) db Hup) as [o Ho]. rewrite Ho. cbn.
  apply first_ok in Ho. rewrite <-Hdb in Hrows. destruct o as [row|].
  - destruct Ho as [Hin Hrow%bool_decide_eq_true]. rewrite Hrows in Hin.
    apply list_elem_of_fmap in Hin as (y & -> & Hy). cbn in Hrow.
    assert (y = x) as -> by (eapply (NoDup_fmap_inj_on q_id); [done..|congruence]).
    rewrite Forall_forall in Hst. destruct (Hst x Hx) as (_ & Hwf & _). cbn.
    by rewrite quote_from_row_from_quote.
  - specialize (Ho (row_from_quote x)). apply bool_decide_eq_false in Ho; [done|].
    rewrite Hrows. by apply list_elem_of_fmap_2.
Qed.

Lemma slot_taken s x q :
  in_step s → x ∈ contents (sq_quote_book s) → slot x = slot q →
  slot_map (contents (sq_quote_book s)) !! slot q = Some x.
Proof. intros [Hi _ _] Hx Hs. apply slot_map_lookup; [by apply contents_slots|done]. Qed.

Lemma sq_up_add q s r s' :
  sq_up s → sq_storable q → offerable (contents s) q → sq_add_quote q s = (r, s') →
  sq_up s' ∧
  match slot_map (contents s) !! slot q with
  | None => r = Ok tt
  | Some e => r = Err (QuoteAlreadyExists e) ∧ contents s' ≡ₚ contents s
  end.
Proof.
  intros Hs Hq Hoff Hr. pose proof Hs as [Hstep Hdb Hqb Hst]. pose proof Hr as Hr'.
  apply up_in_transaction in Hr as (Hdb' & r0 & db0 & db1 & Hup0 & Hd & Hf & -> & Hrows); [|done|]; last first.
  { intros db Hup. unfold add_transaction, run_inner. destruct (db_insert _ db) as [x db2] eqn:Hins.
    destruct (db_up_insert _ _ _ _ Hup Hins) as [? _]. by destruct x as [[]|[]|]; try destruct (qb_add_quote _ _). }
  unfold add_transaction in Hf. destruct (db_insert (row_from_quote q) db0) as [x db2] eqn:Hins.
  destruct (db_up_insert _ _ _ _ Hup0 Hins) as [Hup2 [->|[[m ->] Htaken]]].
  - unfold run_inner in Hf. destruct (qb_add_quote q (sq_quote_book s)) as [r1 qb1] eqn:Hadd.
    injection Hf as <- <- ->. destruct (up_add _ _ _ _ Hqb (proj1 Hq) Hoff Hadd) as [Hqb' Hans].
    rewrite map_err_into in Hr' |- *. cbn [contents SqliteQuoteBook_Laws] in *. destruct (slot_map _ !! slot q) as [e|].
    + destruct Hans as [-> Hc]. split; [|done]. by apply (sq_up_same s); [..|exact Hrows|].
    + subst r1. split; [|done]. pose proof (add_in_step q s s' Hstep (offerable_addable _ _ Hoff) Hr') as Hstep'.
      split; [done|done|done|]. rewrite (add_ok q _ _ (up_inv _ Hqb) (offerable_addable _ _ Hoff) Hadd).
      by constructor.
  - rewrite Hd, (step_rows _ Hstep), <-list_fmap_compose in Htaken.
    apply list_elem_of_fmap in Htaken as (x & Hid & Hx). cbn in Hid. symmetry in Hid.
    assert (slot x = slot q) as Hslot by (apply Hoff; done).
    cbn [contents SqliteQuoteBook_Laws] in *. rewrite (slot_taken s x q Hstep Hx Hslot).
    assert (rows db2 = rows (sq_pool s)) as Hd2 by (rewrite (insert_err _ _ _ _ Hins); done).
    rewrite (duplicate_error_found q x s db2 Hstep Hd2 Hup2 Hst Hx Hid) in Hf. injection Hf as <- <- Hsame.
    split; [|by rewrite <-Hsame]. apply (sq_up_same s); [done|done|by rewrite <-Hsame|done|by rewrite <-Hsame].
Qed.

(** A removal that shrinks the book keeps the rest of [sq_up]. *)
Lemma sq_up_shrink s s' :
  sq_up s → in_step s' → db_up (sq_pool s') → book_up (sq_quote_book s') →
  contents (sq_quote_book s') ⊆+ contents (sq_quote_book s) → sq_up s'.
Proof. intros [_ _ _ Hst] ? ? ? Hc. split; [done..|]. by eapply Forall_submseteq. Qed.

Lemma delete_then_up {A} p (k : Z → DB → QB → outcome SqlError A * DB * QB) db qb :
  db_up db → (∀ n db, db_up db → db_up (k n db qb).1.2) → db_up (delete_then p k db qb).1.2.
Proof.
  intros Hup Hk. unfold delete_then. destruct (db_delete p db) as [x db2] eqn:Hdel.
  destruct (db_up_delete _ _ _ _ Hup Hdel) as [? [n ->]]. by apply Hk.
Qed.

Lemma sq_up_remove_id i s r s' :
  sq_up s → sq_remove_quote_by_id i s = (r, s') →
  sq_up s' ∧ ((∃ q, r = Ok q) ∨
    (r = Err QuoteNotFound ∧ contents s' ≡ₚ contents s ∧ ∀ q, q ∈ contents s → q_id q ≠ i)).
Proof.
  intros Hs Hr. pose proof Hs as [Hstep Hdb Hqb Hst]. pose proof Hr as Hr'.
  apply up_in_transaction in Hr as (Hdb' & r0 & db0 & db1 & Hup0 & Hd & Hf & -> & Hrows); [|done|]; last first.
  { intros db Hup. apply delete_then_up; [done|]. intros n db2 Hup2. unfold run_inner.
    repeat case_match; done. }
  unfold delete_then in Hf. destruct (db_delete _ db0) as [x db2] eqn:Hdel.
  destruct (db_up_delete _ _ _ _ Hup0 Hdel) as [Hup2 [n ->]].
  pose proof (step_rows _ Hstep) as Hsrows. rewrite <-Hd in Hsrows.
  destruct (delete_rows _ db0 n db2 _ (λ x, bool_decide (q_id x = i)) Hsrows (λ _ _, eq_refl) Hdel) as [Hn _].
  assert (∃ found, n = Z.of_nat (length found) ∧ found ⊆+ contents (sq_quote_book s) ∧
    ∀ q, q ∈ found ↔ q ∈ contents (sq_quote_book s) ∧ q_id q = i) as (found & Hlen & Hsub & Hfound).
  { eexists. split; [exact Hn|]. split; [apply filter_submseteq|].
    intros q. rewrite list_elem_of_filter, bool_decide_eq_true. tauto. }
  clear Hn.
  destruct (n =? 0) eqn:Hn0; [apply Z.eqb_eq in Hn0|apply Z.eqb_neq in Hn0].
  - injection Hf as <- _ Hsame. cbn in Hrows. split; [by apply (sq_up_same s); rewrite <-?Hsame|].
    right. cbn. rewrite <-Hsame. repeat (split; [done|]). intros q Hq Hi.
    assert (q ∈ found) as Hin by by apply Hfound. destruct found; [by apply elem_of_nil in Hin|cbn in Hlen; lia].
  - assert (n = 1) as ->.
    { destruct found as [|y [|z found]]; [cbn in Hlen; lia|done|exfalso].
      pose proof (ids_submseteq _ _ Hsub (step_ids _ Hstep)) as Hnd. cbn in Hnd. apply NoDup_cons in Hnd as [Hnot _].
      apply Hnot. destruct (proj1 (Hfound y)) as [_ ->]; [set_solver|].
      destruct (proj1 (Hfound z)) as [_ <-]; [set_solver|]. apply list_elem_of_here. }
    cbn in Hf. unfold run_inner in Hf.
    destruct (qb_remove_quote_by_id i (sq_quote_book s)) as [r1 qb1] eqn:Hrem. injection Hf as <- <- ->.
    destruct (up_remove_id _ _ _ _ Hqb Hrem) as [Hqb' [[q ->]|(-> & _ & Hnone)]].
    + split; [|eauto]. apply (sq_up_shrink s); [done| |done|done|].
      * exact (remove_id_in_step i s q s' Hstep Hr').
      * by eapply remove_id_frame; [apply up_inv|].
    + exfalso. destruct found as [|y found]; [done|]. destruct (proj1 (Hfound y)); [set_solver|]. by apply (Hnone y).
Qed.

Lemma sq_up_remove_checked m p (P : Quote → bool) s r s' :
  sq_up s → (∀ q, q ∈ contents s → p (row_from_quote q) = P q) →
  (∀ r b', m (sq_quote_book s) = (r, b') → book_up b' ∧ ∃ l, r = Ok l ∧
     l ≡ₚ filter (λ q, P q = true) (contents (sq_quote_book s)) ∧
     contents b' ≡ₚ filter (λ q, P q = false) (contents (sq_quote_book s))) →
  in_transaction (delete_then p (remove_checked m)) s = (r, s') →
  sq_up s' ∧ ∃ l, r = Ok l.
Proof.
  intros Hs HP Hm Hr. pose proof Hs as [Hstep Hdb Hqb Hst]. pose proof Hr as Hr'.
  apply up_in_transaction in Hr as (Hdb' & r0 & db0 & db1 & Hup0 & Hd & Hf & -> & Hrows); [|done|]; last first.
  { intros db Hup. apply delete_then_up; [done|]. intros n db2 Hup2. unfold remove_checked, run_inner.
    by destruct (st_bind _ _ _). }
  unfold delete_then, remove_checked, run_inner, st_bind, st_lift in Hf. destruct (db_delete _ db0) as [x db2] eqn:Hdel.
  destruct (db_up_delete _ _ _ _ Hup0 Hdel) as [Hup2 [n ->]].
  pose proof (step_rows _ Hstep) as Hsrows. rewrite <-Hd in Hsrows.
  destruct (delete_rows _ db0 n db2 _ P Hsrows HP Hdel) as [Hn _].
  destruct (m (sq_quote_book s)) as [r1 qb1] eqn:Hrem. destruct (Hm _ _ eq_refl) as (Hqb' & l & -> & Hl & Hc).
  unfold check_deleted in Hf. rewrite Hl, Hn, Z.eqb_refl in Hf. cbn in Hf. injection Hf as <- <- ->.
  split; [|by exists l]. apply (sq_up_shrink s); [done| |done|done|rewrite Hc; apply filter_submseteq].
  eapply remove_checked_in_step; [done|exact HP| |exact Hr'].
  intros l' b' Hl'. rewrite Hrem in Hl'. injection Hl' as <- <-. split; [done|]. by apply up_inv.
Qed.

#[export] Program Instance Sqlite_Total : TotalBook book := {|
  book_up := sq_up; storable := sq_storable; sweepable := sq_sweepable;
|}.
Next Obligation. intros s [_ _ Hqb _]. exact (up_inv (B:=QB) _ Hqb). Qed.
Next Obligation. intros s [_ _ Hqb _]. exact (up_ids (B:=QB) _ Hqb). Qed.
Next Obligation. intros s [_ _ Hqb _]. exact (up_priced (B:=QB) _ Hqb). Qed.
Next Obligation. apply sq_up_add. Qed.
Next Obligation. apply sq_up_remove_id. Qed.
Next Obligation.
  intros k s r s' Hs. apply (sq_up_remove_checked _ _ (λ q, bool_decide (quote_key_image q = k))); [done|done|].
  intros r0 b' Hr. destruct (up_remove_ki _ _ _ _ (sq_up_book _ Hs) Hr) as [Hup [l ->]]. split; [done|].
  exists l. split; [done|]. destruct (remove_ki_ok _ _ _ _ (up_inv _ (sq_up_book _ Hs)) Hr) as [-> ->].
  split; (erewrite list_filter_ext; [done|]); intros q _; cbn; by rewrite ?bool_decide_eq_true, ?bool_decide_eq_false.
Qed.
Next Obligation.
  intros n s r s' Hs Hok. apply (sq_up_remove_checked _ _ (tombstone_expired n)); [done|..].
  { intros q Hq. pose proof (sq_up_stored _ Hs) as Hst. rewrite Forall_forall in Hst.
    destruct (Hst q Hq) as (_ & _ & Hwf), (Hok q Hq) as (_ & Hn & Hnear). by rewrite tombstone_tests_agree. }
  intros r0 b' Hr. destruct (up_remove_tombstone _ _ _ _ (sq_up_book _ Hs) (λ q Hq, proj1 (Hok q Hq)) Hr) as [Hup [l ->]]. split; [done|].
  exists l. split; [done|]. by apply (remove_tombstone_ok _ _ _ _ (up_inv _ (sq_up_book _ Hs)) Hr).
Qed.
Next Obligation. intros p r limit s [_ _ Hqb _]. exact (up_get_quotes (B:=QB) p r limit _ Hqb). Qed.
Next Obligation. intros p s [_ _ Hqb _]. exact (up_get_quote_ids (B:=QB) p _ Hqb). Qed.
Next Obligation. intros i s [_ _ Hqb _]. exact (up_get_quote_by_id (B:=QB) i _ Hqb). Qed.
Next Obligation. intros s [_ _ Hqb _]. exact (up_num_scis (B:=QB) _ Hqb). Qed.
End SqliteTotal.

(** * Where table and book come apart *)

Section Divergence.
Context `{McLib, SciCodec} `{!TombstoneLaws _} {DB QB : Type}.
Context `{!SqlDb DB, !SqlDbLaws DB, !WorkingDb DB, !QuoteBook QB, !QuoteBookLaws QB, !TotalBook QB}.
Local Abbreviation book := (SqliteQuoteBook DB QB).
Implicit Types (s : book).

(** The closure of an operation succeeded, and the transaction did not: its
    commit failed. *)
Definition commit_failed {A} (f : DB → QB → outcome SqlError A * DB * QB) s s' : Prop :=
  ∃ db0 a db1 e, rows db0 = rows (sq_pool s) ∧ f db0 (sq_quote_book s) = (Ok a, db1, sq_quote_book s') ∧
    in_transaction f s = (Err (sql_error_into (Diesel e)), s').

(** A removal whose count differs from the deleted rows panics; the table is
    rolled back, the underlying book has lost the quotes. *)
Lemma remove_checked_mismatch m p s r s' l b' :
  db_up (sq_pool s) → m (sq_quote_book s) = (Ok l, b') →
  (∀ db0 k db, rows db0 = rows (sq_pool s) → db_delete p db0 = (Ok k, db) → Z.of_nat (length l) ≠ k) →
  in_transaction (delete_then p (remove_checked m)) s = (r, s') →
  r = Panic "quotes.len() == num_deleted" ∧ rows (sq_pool s') = rows (sq_pool s) ∧ sq_quote_book s' = b'.
Proof.
  intros Hdb Hm Hne Hr.
  apply up_in_transaction in Hr as (_ & r0 & db0 & db1 & Hup0 & Hd & Hf & -> & Hrows); [|done|]; last first.
  { intros db Hup. apply delete_then_up; [done|]. intros n db2 Hup2. unfold remove_checked, run_inner.
    by destruct (st_bind _ _ _). }
  unfold delete_then, remove_checked, run_inner, st_bind, st_lift in Hf. destruct (db_delete _ db0) as [x db2] eqn:Hdel.
  destruct (db_up_delete _ _ _ _ Hup0 Hdel) as [Hup2 [n ->]]. specialize (Hne _ _ _ Hd Hdel).
  rewrite Hm in Hf. unfold check_deleted in Hf. rewrite (proj2 (Z.eqb_neq _ _) Hne) in Hf. cbn in Hf.
  by injection Hf as <- <- ->.
Qed.

(** An id the table does not have is not found. *)
Lemma remove_missing_id i s r s' :
  db_up (sq_pool s) → i ∉ row_id <$> rows (sq_pool s) → sq_remove_quote_by_id i s = (r, s') →
  r = Err QuoteNotFound ∧ contents s' ≡ₚ contents s.
Proof.
  intros Hdb Hnin Hr.
  apply up_in_transaction in Hr as (_ & r0 & db0 & db1 & Hup0 & Hd & Hf & -> & _); [|done|]; last first.
  { intros db Hup. apply delete_then_up; [done|]. intros n db2 Hup2. unfold run_inner.
    repeat case_match; done. }
  unfold delete_then in Hf. destruct (db_delete _ db0) as [x db2] eqn:Hdel.
  destruct (db_up_delete _ _ _ _ Hup0 Hdel) as [_ [k ->]]. apply delete_ok in Hdel as [-> _].
  rewrite list_filter_none in Hf; [|intros row Hrow Hid%bool_decide_eq_true].
  - injection Hf as <- _ Hb. cbn. by rewrite Hb.
  - rewrite Hd in Hrow. apply Hnin. rewrite <-Hid. by apply list_elem_of_fmap_2.
Qed.

(** C11: when the commit of [add_quote] fails after the underlying book was
    changed, table and book come apart: the caller is told of a database error
    and the table has no row for the quote, but the book holds it.  Once the
    database works again the quote cannot be removed by its id, which the
    table does not have, and the removal by its key image, made when its input
    is spent, panics on the assertion that as many rows were deleted as quotes
    removed. *)
Theorem sqlite_commit_failure_diverges q s s' :
  in_step s → book_up (sq_quote_book s) → storable (B:=QB) q → offerable (contents s) q →
  commit_failed (add_transaction q) s s' →
  (∃ e, sq_add_quote q s = (Err (ImplementationSpecific e), s')) ∧
  rows (sq_pool s') = rows (sq_pool s) ∧ q_id q ∉ row_id <$> rows (sq_pool s') ∧
  contents s' ≡ₚ q :: contents s ∧
  (db_up (sq_pool s') →
     (∀ r s'', sq_remove_quote_by_id (q_id q) s' = (r, s'') →
        r = Err QuoteNotFound ∧ contents s'' ≡ₚ contents s') ∧
     (∀ r s'', sq_remove_quotes_by_key_image (quote_key_image q) s' = (r, s'') →
        r = Panic "quotes.len() == num_deleted" ∧ rows (sq_pool s'') = rows (sq_pool s'))).
Proof.
  intros Hs Hup Hst Hoff (db0 & [] & db1 & e & Hd & Hf & Hr).
  pose proof (in_transaction_rollback _ _ _ _ Hr eq_refl) as Hrows.
  unfold add_transaction, run_inner in Hf.
  destruct (db_insert _ db0) as [[[]|[]|] db] eqn:Hins; [|
    by destruct (duplicate_error_Err db q _ eq_refl) as [Hk _]; destruct (duplicate_error _ _)|done..].
  apply insert_ok in Hins as [Hnin _]. rewrite Hd in Hnin.
  destruct (qb_add_quote q (sq_quote_book s)) as [[[]| |] qb] eqn:Hadd; [|done..]. injection Hf as <- ->.
  pose proof (offerable_addable _ _ Hoff) as Ha.
  pose proof (add_ok q _ _ (step_inv _ Hs) Ha Hadd) as Hc.
  destruct (up_add _ _ _ _ Hup Hst Hoff Hadd) as [Hup' _].
  split; [|split; [done|split; [by rewrite Hrows|split; [exact Hc|]]]].
  { eexists. exact Hr. }
  rewrite <-Hrows in Hnin. intros Hdb. split; intros r s'' Hrem.
  - by apply (remove_missing_id (q_id q) s').
  - destruct (up_remove_ki (quote_key_image q) _ _ _ Hup' (surjective_pairing _)) as [_ [l Hl]].
    destruct (qb_remove_quotes_by_key_image (quote_key_image q) (sq_quote_book s')) as [? b'] eqn:Hb.
    cbn in Hl. subst. destruct (remove_ki_ok _ _ _ _ (up_inv _ Hup') Hb) as [Hlen _].
    eapply remove_checked_mismatch in Hrem as (-> & ? & _); [done|done|exact Hb|].
    intros dba k dbb Hda Hdel.
    eapply (delete_rows _ dba k dbb (contents (sq_quote_book s)) (λ x, bool_decide (quote_key_image x = quote_key_image q)))
      in Hdel as [-> _]; [|by rewrite Hda, Hrows, (step_rows _ Hs)|done].
    rewrite Hlen, Hc, filter_cons_True by done. cbn [length].
    rewrite (list_filter_ext (λ x, bool_decide (quote_key_image x = quote_key_image q) = true)
               (λ x, quote_key_image x = quote_key_image q)) by (intros x _; apply bool_decide_eq_true). lia.
Qed.

(** A quote whose tombstone is more than [MAX_TOMBSTONE_BLOCKS] ahead makes the
    next sweep panic: the underlying book removes it, the table does not. *)
Lemma far_tombstone_panics n q s r s' :
  in_step s → Forall tombstone_wf (contents s) → db_up (sq_pool s) → book_up (sq_quote_book s) →
  (∀ x, x ∈ contents s → sweepable (B:=QB) n x) → 0 ≤ n < 2 ^ 62 →
  q ∈ contents s → tombstone_too_far n q = true →
  sq_remove_quotes_by_tombstone_block n s = (r, s') →
  r = Panic "quotes.len() == num_deleted" ∧ q ∉ contents s' ∧ row_from_quote q ∈ rows (sq_pool s').
Proof.
  intros Hs Hwf Hdb Hup Hsw Hn Hq Hfar Hr.
  destruct (qb_remove_quotes_by_tombstone_block n (sq_quote_book s)) as [r0 b'] eqn:Hb.
  destruct (up_remove_tombstone n _ _ _ Hup Hsw Hb) as [_ [l ->]].
  eapply remove_checked_mismatch in Hr as (-> & Hrows & Hbook); [|done|exact Hb|]; last first.
  { intros db0 k db Hd Hdel. destruct (sweep_counts n s db0 k db l b' Hs Hd Hdel Hb) as [-> ->].
    pose proof (too_far_count n (contents s) Hn Hwf ltac:(eauto)). lia. }
  split; [done|]. split.
  - destruct (remove_tombstone_ok n _ l b' (step_inv _ Hs) Hb) as [_ Hc]. cbn. rewrite Hbook, Hc.
    intros [Hexp _]%list_elem_of_filter. rewrite Forall_forall in Hwf.
    destruct (tombstone_tests n q Hn (Hwf q Hq)) as [He _]. rewrite He, Hfar, orb_true_r in Hexp. done.
  - rewrite Hrows, (step_rows _ Hs). by apply list_elem_of_fmap_2.
Qed.
End Divergence.

(** * Sequences of operations *)

Inductive BookOp :=
| OpAdd (q : Quote)
| OpRemoveById (i : QuoteId)
| OpRemoveByKeyImage (k : KeyImage)
| OpRemoveByTombstone (n : BlockIndex)
| OpGetQuotes (p : Pair) (r : Bound * Bound) (limit : Z)
| OpGetQuoteIds (p : option Pair)
| OpGetQuoteById (i : QuoteId)
| OpNumScis.

(** The answer; [AnsSet] is one whose order means nothing. *)
Inductive BookAnswer :=
| AnsUnit (r : outcome Error unit)
| AnsQuote (r : outcome Error Quote)
| AnsSet (r : outcome Error (list Quote))
| AnsList (r : outcome Error (list Quote))
| AnsIds (r : outcome Error (list QuoteId))
| AnsFound (r : outcome Error (option Quote))
| AnsNum (r : outcome Error Z).

Definition answer_equiv (a1 a2 : BookAnswer) : Prop :=
  match a1, a2 with
  | AnsSet (Ok l1), AnsSet (Ok l2) => l1 ≡ₚ l2
  | AnsIds (Ok l1), AnsIds (Ok l2) => l1 ≡ₚ l2
  | _, _ => a1 = a2
  end.

Definition exec_op {B} `{!QuoteBook B} (op : BookOp) (b : B) : BookAnswer * B :=
  match op with
  | OpAdd q => let '(r, b') := qb_add_quote q b in (AnsUnit r, b')
  | OpRemoveById i => let '(r, b') := qb_remove_quote_by_id i b in (AnsQuote r, b')
  | OpRemoveByKeyImage k => let '(r, b') := qb_remove_quotes_by_key_image k b in (AnsSet r, b')
  | OpRemoveByTombstone n => let '(r, b') := qb_remove_quotes_by_tombstone_block n b in (AnsSet r, b')
  | OpGetQuotes p r limit => (AnsList (qb_get_quotes p r limit b), b)
  | OpGetQuoteIds p => (AnsIds (qb_get_quote_ids p b), b)
  | OpGetQuoteById i => (AnsFound (qb_get_quote_by_id i b), b)
  | OpNumScis => (AnsNum (qb_num_scis b), b)
  end.

Fixpoint exec_ops {B} `{!QuoteBook B} (ops : list BookOp) (b : B) : list BookAnswer * B :=
  match ops with
  | [] => ([], b)
  | op :: ops =>
      let '(a, b) := exec_op op b in
      let '(answers, b) := exec_ops ops b in
      (a :: answers, b)
  end.

Section Equivalence.
Context `{McLib} {B1 B2 : Type}.
Context `{!QuoteBook B1, !QuoteBookLaws B1, !TotalBook B1, !QuoteBook B2, !QuoteBookLaws B2, !TotalBook B2}.

(** What the operation needs of both books. *)
Definition op_ok (op : BookOp) (b1 : B1) : Prop :=
  match op with
  | OpAdd q => storable (B:=B1) q ∧ storable (B:=B2) q ∧ offerable (contents b1) q
  | OpRemoveByTombstone n => ∀ q, q ∈ contents b1 → sweepable (B:=B1) n q ∧ sweepable (B:=B2) n q
  | OpGetQuotes _ _ limit => 0 ≤ limit
  | _ => True
  end.
Fixpoint ops_ok (ops : list BookOp) (b1 : B1) : Prop :=
  match ops with
  | [] => True
  | op :: ops => op_ok op b1 ∧ ops_ok ops (exec_op op b1).2
  end.

(** Both books are up and hold the same quotes. *)
Definition same_quotes (b1 : B1) (b2 : B2) : Prop := book_up b1 ∧ book_up b2 ∧ contents b1 ≡ₚ contents b2.

Lemma offerable_perm l1 l2 q : l1 ≡ₚ l2 → offerable l1 q → offerable l2 q.
Proof. intros Hp [Hq Hid]. split; [done|]. intros x. rewrite <-Hp. apply Hid. Qed.

Lemma add_same q b1 b2 : same_quotes b1 b2 → op_ok (OpAdd q) b1 →
  answer_equiv (exec_op (OpAdd q) b1).1 (exec_op (OpAdd q) b2).1 ∧
  same_quotes (exec_op (OpAdd q) b1).2 (exec_op (OpAdd q) b2).2.
Proof.
  intros (Hup1 & Hup2 & Hc) (Hs1 & Hs2 & Hoff1). pose proof (offerable_perm _ _ _ Hc Hoff1) as Hoff2. cbn.
  destruct (qb_add_quote q b1) as [r1 b1'] eqn:E1. destruct (qb_add_quote q b2) as [r2 b2'] eqn:E2.
  destruct (up_add _ _ _ _ Hup1 Hs1 Hoff1 E1) as [Hup1' H1], (up_add _ _ _ _ Hup2 Hs2 Hoff2 E2) as [Hup2' H2].
  rewrite <-(slot_map_perm (contents b1)) in H2; [|by apply contents_slots, up_inv|done].
  destruct (slot_map (contents b1) !! slot q) as [e|].
  - destruct H1 as [-> Hc1], H2 as [-> Hc2]. split; [done|]. split; [done|]. split; [done|]. cbn. by rewrite Hc1, Hc2.
  - subst r1 r2. split; [done|]. split; [done|]. split; [done|]. cbn.
    rewrite (add_ok _ _ _ (up_inv _ Hup1) (offerable_addable _ _ Hoff1) E1).
    by rewrite (add_ok _ _ _ (up_inv _ Hup2) (offerable_addable _ _ Hoff2) E2), Hc.
Qed.

Lemma remove_id_same i b1 b2 : same_quotes b1 b2 →
  answer_equiv (exec_op (OpRemoveById i) b1).1 (exec_op (OpRemoveById i) b2).1 ∧
  same_quotes (exec_op (OpRemoveById i) b1).2 (exec_op (OpRemoveById i) b2).2.
Proof.
  intros (Hup1 & Hup2 & Hc). cbn.
  destruct (qb_remove_quote_by_id i b1) as [r1 b1'] eqn:E1. destruct (qb_remove_quote_by_id i b2) as [r2 b2'] eqn:E2.
  destruct (up_remove_id _ _ _ _ Hup1 E1) as [Hup1' [[q1 ->]|(-> & Hc1 & Hn1)]],
    (up_remove_id _ _ _ _ Hup2 E2) as [Hup2' [[q2 ->]|(-> & Hc2 & Hn2)]]; cbn.
  - destruct (remove_id_ok _ _ _ _ (up_inv _ Hup1) E1) as [Hi1 Hp1], (remove_id_ok _ _ _ _ (up_inv _ Hup2) E2) as [Hi2 Hp2].
    assert (q1 = q2) as <-.
    { apply (NoDup_fmap_inj_on q_id (contents b1)); [by apply up_ids|rewrite Hp1; set_solver| |congruence].
      rewrite Hc, Hp2. set_solver. }
    split; [done|]. split; [done|]. split; [done|]. apply (Permutation_cons_inv (a:=q1)). by rewrite <-Hp1, <-Hp2.
  - destruct (remove_id_ok _ _ _ _ (up_inv _ Hup1) E1) as [Hi1 Hp1]. destruct (Hn2 q1); [|done].
    rewrite <-Hc, Hp1. set_solver.
  - destruct (remove_id_ok _ _ _ _ (up_inv _ Hup2) E2) as [Hi2 Hp2]. destruct (Hn1 q2); [|done].
    rewrite Hc, Hp2. set_solver.
  - split; [done|]. split; [done|]. split; [done|]. by rewrite Hc1, Hc2.
Qed.

Lemma exec_op_same op b1 b2 : same_quotes b1 b2 → op_ok op b1 →
  answer_equiv (exec_op op b1).1 (exec_op op b2).1 ∧ same_quotes (exec_op op b1).2 (exec_op op b2).2.
Proof.
  intros Hsame Hok. pose proof Hsame as (Hup1 & Hup2 & Hc).
  pose proof (up_inv _ Hup1) as Hi1. pose proof (up_inv _ Hup2) as Hi2.
  destruct op as [q|i|k|n|p r limit|p|i|]; [by apply add_same|by apply remove_id_same|..]; cbn.
  - destruct (qb_remove_quotes_by_key_image k b1) as [r1 b1'] eqn:E1, (qb_remove_quotes_by_key_image k b2) as [r2 b2'] eqn:E2.
    destruct (up_remove_ki _ _ _ _ Hup1 E1) as [? [l1 ->]], (up_remove_ki _ _ _ _ Hup2 E2) as [? [l2 ->]].
    destruct (remove_ki_ok _ _ _ _ Hi1 E1) as [Hl1 Hc1], (remove_ki_ok _ _ _ _ Hi2 E2) as [Hl2 Hc2]. cbn.
    split; [by rewrite Hl1, Hl2, Hc|]. split; [done|]. split; [done|]. by rewrite Hc1, Hc2, Hc.
  - assert (∀ q, q ∈ contents b1 → sweepable (B:=B1) n q) as Hn1 by (intros q Hq; apply (Hok q Hq)).
    assert (∀ q, q ∈ contents b2 → sweepable (B:=B2) n q) as Hn2 by (intros q Hq; rewrite <-Hc in Hq; apply (Hok q Hq)).
    destruct (qb_remove_quotes_by_tombstone_block n b1) as [r1 b1'] eqn:E1, (qb_remove_quotes_by_tombstone_block n b2) as [r2 b2'] eqn:E2.
    destruct (up_remove_tombstone _ _ _ _ Hup1 Hn1 E1) as [? [l1 ->]], (up_remove_tombstone _ _ _ _ Hup2 Hn2 E2) as [? [l2 ->]].
    destruct (remove_tombstone_ok _ _ _ _ Hi1 E1) as [Hl1 Hc1], (remove_tombstone_ok _ _ _ _ Hi2 E2) as [Hl2 Hc2]. cbn.
    split; [by rewrite Hl1, Hl2, Hc|]. split; [done|]. split; [done|]. by rewrite Hc1, Hc2, Hc.
  - split; [|done]. destruct (up_get_quotes p r limit b1 Hup1) as [l1 E1], (up_get_quotes p r limit b2 Hup2) as [l2 E2].
    rewrite E1, E2. do 2 f_equal. apply (listing_unique (contents b1) p r limit); [by apply up_priced| |].
    + by apply get_quotes_ok.
    + destruct (get_quotes_ok _ _ _ _ _ Hi2 Hok E2) as (all & Hs & Hp & ->). exists all.
      split; [done|]. split; [by rewrite Hp, Hc|done].
  - split; [|done]. destruct (up_get_quote_ids p b1 Hup1) as [l1 E1], (up_get_quote_ids p b2 Hup2) as [l2 E2].
    rewrite E1, E2. cbn. by rewrite (get_quote_ids_ok _ _ _ Hi1 E1), (get_quote_ids_ok _ _ _ Hi2 E2), Hc.
  - split; [|done]. destruct (up_get_quote_by_id i b1 Hup1) as [o1 E1], (up_get_quote_by_id i b2 Hup2) as [o2 E2].
    rewrite E1, E2. apply get_quote_by_id_ok in E1, E2; [|done..]. do 2 f_equal.
    destruct o1 as [q1|], o2 as [q2|]; [| | |done].
    + f_equal. destruct E1 as [? ?], E2 as [H2 ?]. rewrite <-Hc in H2.
      apply (NoDup_fmap_inj_on q_id (contents b1)); [by apply up_ids|done|done|congruence].
    + destruct E1 as [Hin Hid]. rewrite Hc in Hin. by destruct (E2 q1 Hin).
    + destruct E2 as [Hin Hid]. rewrite <-Hc in Hin. by destruct (E1 q2 Hin).
  - split; [|done]. destruct (up_num_scis b1 Hup1) as [n1 E1], (up_num_scis b2 Hup2) as [n2 E2].
    rewrite E1, E2. by rewrite (num_scis_ok _ _ Hi1 E1), (num_scis_ok _ _ Hi2 E2), Hc.
Qed.

(** C12: two books that are up and hold the same quotes cannot be told apart:
    whatever sequence of operations is made that both can carry out, they give
    the same answers, the order of a set of removed quotes or of ids apart, and
    hold the same quotes at the end.  Both can carry out every operation with
    these restrictions: a quote added has a price, its fields have their machine
    widths and its id, a digest, is not that of a quote of another slot; and
    where one of the books is the SQLite book, tombstones are swept at a block
    below 2^62 at which no quote held has a tombstone more than
    [MAX_TOMBSTONE_BLOCKS] ahead. *)
Theorem books_equivalent ops b1 b2 :
  same_quotes b1 b2 → ops_ok ops b1 →
  Forall2 answer_equiv (exec_ops ops b1).1 (exec_ops ops b2).1 ∧
  same_quotes (exec_ops ops b1).2 (exec_ops ops b2).2.
Proof.
  revert b1 b2. induction ops as [|op ops IH]; intros b1 b2 Hsame Hok; [done|].
  destruct Hok as [Hop Hok]. destruct (exec_op_same op b1 b2 Hsame Hop) as [Ha Hsame']. cbn.
  destruct (exec_op op b1) as [a1 b1'], (exec_op op b2) as [a2 b2']. cbn in *.
  destruct (IH b1' b2' Hsame' Hok) as [Has Hend].
  destruct (exec_ops ops b1') as [as1 b1''], (exec_ops ops b2') as [as2 b2'']. cbn in *. auto.
Qed.
End Equivalence.

(** * The theorem on an example *)

Module BookEquivExamples.
Import Sample SampleCodec SampleDb InMemoryExamples SqliteExamples.

(** The sample database works unless its commit is made to fail. *)
#[export] Program Instance sample_working : WorkingDb Db := {| db_up db := commit_fails db = false |}.
Next Obligation. done. Qed.
Next Obligation.
  intros row db r db' Hup. cbn. unfold insert. case_bool_decide; intros [= <- <-]; cbn; eauto.
Qed.
Next Obligation. intros p db r db' Hup. cbn. intros [= <- <-]. eauto. Qed.
Next Obligation. eauto. Qed.
Next Obligation.
  intros S A f db s r db' s' Hup Hf. cbn. unfold transaction. specialize (Hf db Hup).
  destruct (f db s) as [[[a|e|p] db1] s1] eqn:E; cbn in Hf; rewrite ?Hup; intros [= <- <- <-];
    (split; [done|]); exists db, db1; done.
Qed.

Lemma quote_a_storable : sq_storable (QB:=InMemoryQuoteBook) quote_a.
Proof. split; [done|]. split; [split; by vm_compute|by intros ir [= <-]]. Qed.
Lemma quote_b_storable : sq_storable (QB:=InMemoryQuoteBook) quote_b.
Proof. split; [done|]. split; [split; by vm_compute|by intros ir [= <-]]. Qed.

(** A quote with tombstone 100. *)
Definition quote_c : Quote := quote_on_terms (sci 3 3 10 [amount 30 2] [] 0 100) 2 (10, 10) 30 7.
Lemma quote_c_storable : sq_storable (QB:=InMemoryQuoteBook) quote_c.
Proof. split; [done|]. split; [split; by vm_compute|by intros ir [= <-]]. Qed.

Lemma books_a_same : same_quotes (sq_book_a false) book_a.
Proof.
  assert (im_up book_a) as Hup.
  { split; [by apply im_reachable_healthy, book_a_reachable|]. rewrite contents_book_a. apply NoDup_singleton. }
  split; [|split; [exact Hup|reflexivity]].
  split; [apply sq_book_a_in_step|reflexivity|exact Hup|]. change (Forall (sq_storable (QB:=InMemoryQuoteBook)) (contents book_a)).
  rewrite contents_book_a. constructor; [apply quote_a_storable|constructor].
Qed.

Definition some_ops : list BookOp :=
  [OpAdd quote_b; OpAdd quote_b; OpAdd quote_c; OpGetQuotes (q_pair quote_a) (Unbounded, Unbounded) 0;
   OpRemoveByKeyImage [1]; OpRemoveByTombstone 5; OpRemoveByTombstone 100;
   OpGetQuoteById (q_id quote_a); OpNumScis].

Lemma offerable_dec l q :
  priced q → bool_decide (Forall (λ x, q_id x = q_id q → slot x = slot q) l) = true → offerable l q.
Proof. intros Hq Hl%bool_decide_eq_true. split; [done|]. by rewrite Forall_forall in Hl. Qed.

Lemma sweepable_dec n l :
  0 ≤ n < 2 ^ 62 → forallb (λ q, negb (tombstone_too_far n q)) l = true →
  ∀ q, q ∈ l → sq_sweepable (QB:=InMemoryQuoteBook) n q ∧ True.
Proof.
  intros Hn Hl q Hq. split; [|done]. split; [done|]. split; [done|].
  rewrite forallb_forall in Hl. apply negb_true_iff, Hl. by apply list_elem_of_In.
Qed.

Lemma some_ops_ok : ops_ok (B2:=InMemoryQuoteBook) some_ops (sq_book_a false).
Proof.
  unfold some_ops. cbn [ops_ok op_ok].
  repeat match goal with
  | |- _ ∧ _ => split
  | |- offerable _ _ => apply offerable_dec; [solve_decide|by vm_compute]
  | |- ∀ q, _ → _ => apply sweepable_dec; [lia|by vm_compute]
  end; first [exact quote_b_storable|exact quote_c_storable|exact I|lia].
Qed.

Lemma books_equivalent_witness :
  Forall2 answer_equiv (exec_ops some_ops (sq_book_a false)).1 (exec_ops some_ops book_a).1.
Proof. exact (proj1 (books_equivalent some_ops (sq_book_a false) book_a books_a_same some_ops_ok)). Defined.

(** The commit of an addition fails, then the database works again. *)
Definition after_failure : sample_book := (sq_add_quote quote_b (sq_book_a true)).2.

Lemma sample_commit_failed : commit_failed (add_transaction quote_b) (sq_book_a true) after_failure.
Proof.
  exists (sq_pool (sq_book_a true)), tt, (add_transaction quote_b (sq_pool (sq_book_a true)) book_a).1.2,
    (OtherDieselError "database is locked"). split; [done|]. split; by vm_compute.
Qed.

Lemma sqlite_commit_failure_diverges_witness :
  rows (sq_pool after_failure) = [row_from_quote quote_a] ∧ quote_b ∈ contents after_failure ∧
  (sq_remove_quote_by_id (q_id quote_b) after_failure).1 = Err QuoteNotFound ∧
  (sq_remove_quotes_by_key_image [2] after_failure).1 = Panic "quotes.len() == num_deleted".
Proof.
  destruct (sqlite_commit_failure_diverges quote_b (sq_book_a true) after_failure) as (_ & Hrows & _ & Hc & Hrem).
  - apply sq_book_a_in_step.
  - apply books_a_same.
  - exact I.
  - apply offerable_dec; [solve_decide|by vm_compute].
  - apply sample_commit_failed.
  - destruct Hrem as [Hid Hki]; [by vm_compute|]. split; [exact Hrows|]. split; [rewrite Hc; by left|]. split.
    + exact (proj1 (Hid _ _ (surjective_pairing _))).
    + exact (proj1 (Hki _ _ (surjective_pairing _))).
Defined.

(** At block 5 a tombstone of 30000 is too far ahead. *)
Example far_tombstone_sample :
  (sq_remove_quotes_by_tombstone_block 5 (sq_book_t 30000)).1 = Panic "quotes.len() == num_deleted".
Proof.
  apply (far_tombstone_panics 5 (quote_t 30000) (sq_book_t 30000) _ _ (sq_book_t_in_step 30000)
           (sq_book_t_wf 30000 ltac:(done))) with (7 := surjective_pairing _).
  - done.
  - split; [apply sq_book_t_healthy|]. apply NoDup_singleton.
  - done.
  - lia.
  - rewrite contents_book_t. by left.
  - done.
Qed.
End BookEquivExamples.
