(* ===== verification/TestUtils.v ===== *)
(** SCIs for tests (mc-test-utils/src/lib.rs).

    The functions that make an SCI drive the transaction builder, a test
    ledger and a random generator of the mobilecoin crates, which are the
    parameter [TestLib].  [TestLibLaws] is what its crates document: a builder
    collects the terms it is given, and what it builds is a valid SCI on these
    terms, with a new key image and a new digest. *)

From S2P Require Import Prelude McTypes QuoteApi QuotePricing QuoteBook.

(** * The mobilecoin crates *)

(** [S] is the random generator, the test ledger and the system clock. *)
Class TestLib (S Acc IC B : Type) := {
  account_random : S → Acc * S;
  get_input_credentials : Amount → Acc → S → IC * S;
  ic_ring : IC → list TxOut;
  (** The [index] of each membership proof. *)
  ic_proof_indices : IC → list Z;
  ic_set_proof_indices : list Z → IC → IC;
  ledger_num_txos : S → outcome string Z;
  add_txos_to_ledger : list TxOut → stateful S string unit;
  tb_new : IC → outcome string B;
  tb_add_required_output : Amount → Acc → B → stateful S string B;
  tb_add_required_change_output : Amount → Acc → B → stateful S string B;
  tb_add_partial_fill_output : Amount → Acc → B → stateful S string B;
  tb_add_partial_fill_change_output : Amount → Acc → B → stateful S string B;
  tb_set_tombstone_block : Z → B → B;
  tb_set_min_partial_fill_value : Z → B → B;
  tb_build : B → stateful S string SignedContingentInput;
  (** [sci.mlsag.responses.pop()] *)
  pop_response : SignedContingentInput → SignedContingentInput;
  (** [SystemTime::now()], since the epoch *)
  system_time : S → option Z * S;
}.

(** * The functions of the crate *)

Section TestUtils.
Context `{McLib} {S Acc IC B : Type} `{!TestLib S Acc IC B}.

(** [Result::unwrap] of a call. *)
Definition unwrap {W E A} (m : stateful W E A) : stateful W E A := λ w,
  match m w with
  | (Err e, w') => (Panic "called `Result::unwrap()` on an `Err` value", w')
  | r => r
  end.
Definition from_fun {W E A} (f : W → A * W) : stateful W E A := λ w, let '(a, w') := f w in (Ok a, w').
Definition reading {W E A} (f : W → outcome E A) : stateful W E A := λ w, (f w, w).

(** The ring of the credentials becomes part of the ledger, and its proofs
    point there. *)
Definition add_ring_to_ledger (with_ledger : bool) (ic : IC) : stateful S string IC :=
  if with_ledger then
    num_txos <-- unwrap (reading ledger_num_txos);;
    let ic := ic_set_proof_indices
                (imap (λ i _, u64_add num_txos (Z.of_nat i)) (ic_proof_indices ic)) ic in
    unwrap (add_txos_to_ledger (ic_ring ic));;;
    st_ret ic
  else st_ret ic.

Definition tu_create_sci_builder (base_token_id counter_token_id : TokenId) (base_amount counter_amount : Z)
    (with_ledger : bool) : stateful S string B :=
  offerer_account <-- from_fun account_random;;
  offered <-- from_fun (get_input_credentials {| amt_value := base_amount; amt_token_id := base_token_id |} offerer_account);;
  offered <-- add_ring_to_ledger with_ledger offered;;
  builder <-- unwrap (st_lift (tb_new offered));;
  builder <-- unwrap (tb_add_required_output {| amt_value := counter_amount; amt_token_id := counter_token_id |}
                        offerer_account builder);;
  st_ret (tb_set_tombstone_block 2000 builder).

Definition tu_create_sci (base_token_id counter_token_id : TokenId) (base_amount counter_amount : Z)
    (with_ledger : bool) : stateful S string SignedContingentInput :=
  builder <-- tu_create_sci_builder base_token_id counter_token_id base_amount counter_amount with_ledger;;
  sci <-- unwrap (tb_build builder);;
  unwrap (st_lift (sci_validate sci));;;
  st_ret sci.

Definition tu_create_partial_sci (base_token_id counter_token_id : TokenId)
    (base_amount_offered min_base_fill_amount required_base_change_amount counter_amount : Z)
    (with_ledger : bool) : stateful S string SignedContingentInput :=
  offerer_account <-- from_fun account_random;;
  offered <-- from_fun (get_input_credentials
                          {| amt_value := base_amount_offered; amt_token_id := base_token_id |} offerer_account);;
  offered <-- add_ring_to_ledger with_ledger offered;;
  builder <-- unwrap (st_lift (tb_new offered));;
  builder <-- unwrap (tb_add_partial_fill_change_output
                        {| amt_value := base_amount_offered; amt_token_id := base_token_id |} offerer_account builder);;
  builder <-- (if 0 <? required_base_change_amount then
                 unwrap (tb_add_required_change_output
                           {| amt_value := required_base_change_amount; amt_token_id := base_token_id |}
                           offerer_account builder)
               else st_ret builder);;
  builder <-- unwrap (tb_add_partial_fill_output
                        {| amt_value := counter_amount; amt_token_id := counter_token_id |} offerer_account builder);;
  let builder := tb_set_min_partial_fill_value min_base_fill_amount builder in
  sci <-- unwrap (tb_build builder);;
  unwrap (st_lift (sci_validate sci));;;
  st_ret sci.
End TestUtils.

(** * What the crates promise *)

(** The terms a builder has collected. *)
Record Offer := mk_offer {
  of_key_image : KeyImage;
  of_base : Amount;
  of_required : list Amount;
  of_partial : list Amount;
  of_change : option Amount;
  of_min_fill : Z;
  of_tombstone : Z;
}.

(** What the outside has issued so far: key images, digests and the last time
    read; and what the clock is going to read. *)
Record Trace := mk_trace {
  key_images : list KeyImage;
  digests : list QuoteId;
  last_time : Z;
  clock : list Z;
}.

(** The next [j] readings of the clock fit 64 bits, and each is later than the
    one before.  [SystemTime] does not promise this: it is a condition on the
    run in which a test is made. *)
Fixpoint advances (last : Z) (readings : list Z) (j : nat) : Prop :=
  match j, readings with
  | O, _ => True
  | Datatypes.S _, [] => False
  | Datatypes.S j, t :: readings => is_u64 t ∧ last < t ∧ advances t readings j
  end.
Definition ticks (j : nat) (tr : Trace) : Prop := advances (last_time tr) (clock tr) j.

Lemma advances_le last readings j k : advances last readings j → (k ≤ j)%nat → advances last readings k.
Proof.
  revert last readings k. induction j as [|j IH]; intros last readings k Hj Hk;
    (destruct k as [|k]; [by destruct readings|]); [lia|].
  destruct readings as [|t readings]; [done|]. destruct Hj as (? & ? & Hj). split; [done|]. split; [done|].
  apply (IH t readings k Hj). lia.
Qed.
Lemma ticks_same j tr tr' : last_time tr' = last_time tr → clock tr' = clock tr → ticks j tr → ticks j tr'.
Proof. unfold ticks. by intros -> ->. Qed.
Lemma ticks_le j k tr : ticks j tr → (k ≤ j)%nat → ticks k tr.
Proof. apply advances_le. Qed.

(** An SCI on the terms of an offer. *)
Record sci_on `{McLib} (o : Offer) (sci : SignedContingentInput) : Prop := {
  on_valid : sci_validate sci = Ok tt;
  on_wf : sci_wf sci;
  on_key_image : sci_key_image sci = of_key_image o;
  on_base : pseudo_output_amount sci = of_base o;
  on_required : required_output_amounts sci = of_required o;
  on_indices : tx_out_global_indices sci ≠ [];
  on_rules : ∃ ir, input_rules (tx_in sci) = Some ir ∧
    length (required_outputs ir) = length (of_required o) ∧
    Forall2 (λ r a, ∃ blinding, reveal_amount r = Ok (a, blinding)) (partial_fill_outputs ir) (of_partial o) ∧
    min_partial_fill_value ir = of_min_fill o ∧ max_tombstone_block ir = of_tombstone o;
}.

Definition with_global_indices (l : list Z) (sci : SignedContingentInput) : SignedContingentInput :=
  {| pseudo_output_amount := pseudo_output_amount sci; required_output_amounts := required_output_amounts sci;
     tx_in := tx_in sci; tx_out_global_indices := l; sci_signature := sci_signature sci |}.

(** The amounts of an offer are 64-bit; partial outputs come with a change. *)
Record buildable (o : Offer) : Prop := {
  bd_base : amount_wf (of_base o);
  bd_required : Forall amount_wf (of_required o);
  bd_partial : Forall amount_wf (of_partial o);
  bd_min : is_u64 (of_min_fill o) ∧ is_u64 (of_tombstone o);
  bd_change : of_partial o ≠ [] → is_Some (of_change o);
}.

Class TestLibLaws `{McLib} (S Acc IC B : Type) `{!TestLib S Acc IC B} := {
  trace : S → Trace;
  ic_amount : IC → Amount;
  ic_key_image : IC → KeyImage;
  tb_offer : B → Offer;
  (** The tombstone of a builder that was not given one. *)
  default_tombstone : Z;

  default_tombstone_u64 : is_u64 default_tombstone;
  account_random_trace s : trace (account_random s).2 = trace s;
  credentials_new amount acc s ic s' : get_input_credentials amount acc s = (ic, s') →
    ic_amount ic = amount ∧ ic_key_image ic ∉ key_images (trace s) ∧
    trace s' = mk_trace (ic_key_image ic :: key_images (trace s)) (digests (trace s)) (last_time (trace s))
                 (clock (trace s));
  set_proof_indices_keeps l ic :
    ic_amount (ic_set_proof_indices l ic) = ic_amount ic ∧ ic_key_image (ic_set_proof_indices l ic) = ic_key_image ic;
  num_txos_ok s : ∃ n, ledger_num_txos s = Ok n;
  add_txos_ok ring s : ∃ s', add_txos_to_ledger ring s = (Ok tt, s') ∧ trace s' = trace s;

  tb_new_ok ic : ∃ b, tb_new ic = Ok b ∧
    tb_offer b = mk_offer (ic_key_image ic) (ic_amount ic) [] [] None 0 default_tombstone;
  add_required_ok a acc b s : ∃ b' s', tb_add_required_output a acc b s = (Ok b', s') ∧ trace s' = trace s ∧
    let o := tb_offer b in
    tb_offer b' = mk_offer (of_key_image o) (of_base o) (of_required o ++ [a]) (of_partial o) (of_change o)
                    (of_min_fill o) (of_tombstone o);
  add_required_change_ok a acc b s : ∃ b' s', tb_add_required_change_output a acc b s = (Ok b', s') ∧ trace s' = trace s ∧
    let o := tb_offer b in
    tb_offer b' = mk_offer (of_key_image o) (of_base o) (of_required o ++ [a]) (of_partial o) (of_change o)
                    (of_min_fill o) (of_tombstone o);
  add_partial_ok a acc b s : ∃ b' s', tb_add_partial_fill_output a acc b s = (Ok b', s') ∧ trace s' = trace s ∧
    let o := tb_offer b in
    tb_offer b' = mk_offer (of_key_image o) (of_base o) (of_required o) (of_partial o ++ [a]) (of_change o)
                    (of_min_fill o) (of_tombstone o);
  add_change_ok a acc b s : of_change (tb_offer b) = None →
    ∃ b' s', tb_add_partial_fill_change_output a acc b s = (Ok b', s') ∧ trace s' = trace s ∧
    let o := tb_offer b in
    tb_offer b' = mk_offer (of_key_image o) (of_base o) (of_required o) (of_partial o) (Some a)
                    (of_min_fill o) (of_tombstone o);
  set_tombstone_offer n b : let o := tb_offer b in
    tb_offer (tb_set_tombstone_block n b) =
      mk_offer (of_key_image o) (of_base o) (of_required o) (of_partial o) (of_change o) (of_min_fill o) n;
  set_min_offer n b : let o := tb_offer b in
    tb_offer (tb_set_min_partial_fill_value n b) =
      mk_offer (of_key_image o) (of_base o) (of_required o) (of_partial o) (of_change o) n (of_tombstone o);
  build_ok b s : buildable (tb_offer b) → ∃ sci s', tb_build b s = (Ok sci, s') ∧ sci_on (tb_offer b) sci ∧
    quote_id_from_sci sci ∉ digests (trace s) ∧
    trace s' = mk_trace (key_images (trace s)) (quote_id_from_sci sci :: digests (trace s)) (last_time (trace s))
                 (clock (trace s));

  (** A signature of a ring of eleven lacks a response. *)
  pop_response_invalid o sci : sci_on o sci →
    sci_validate (pop_response sci) = Err "RingSignature(LengthMismatch(22, 21))";
  (** The global indices are part of the digest, not of what is signed. *)
  reindexed o sci i rest : sci_on o sci → tx_out_global_indices sci = i :: rest →
    let sci2 := with_global_indices (u64_add i 1 :: rest) sci in
    sci_validate sci2 = Ok tt ∧ sci_key_image sci2 = sci_key_image sci ∧
    quote_id_from_sci sci2 ≠ quote_id_from_sci sci;
  (** Reading the clock gives its next reading and changes nothing else. *)
  system_time_reads s t readings : clock (trace s) = t :: readings →
    ∃ s', system_time s = (Some t, s') ∧
      trace s' = mk_trace (key_images (trace s)) (digests (trace s)) t readings;
}.

(** Reading a clock that advances. *)
Lemma system_time_ok `{McLib} {S Acc IC B : Type} `{!TestLib S Acc IC B, !TestLibLaws S Acc IC B} (s : S) j :
  ticks (Datatypes.S j) (trace s) →
  ∃ t s', system_time s = (Some t, s') ∧ is_u64 t ∧ last_time (trace s) < t ∧
    key_images (trace s') = key_images (trace s) ∧ digests (trace s') = digests (trace s) ∧
    last_time (trace s') = t ∧ ticks j (trace s').
Proof.
  unfold ticks. destruct (clock (trace s)) as [|t readings] eqn:Hc; [done|]. intros (? & ? & Hj).
  destruct (system_time_reads s t readings Hc) as (s' & Hs & Ht). exists t, s'. by rewrite Ht.
Qed.

(** * Calls that return *)

(** The call returns, without an error or a panic, and [Q] holds of its value
    and of the state it leaves. *)
Definition returns {W E A} (m : stateful W E A) (w : W) (Q : A → W → Prop) : Prop :=
  ∃ a w', m w = (Ok a, w') ∧ Q a w'.

Lemma returns_bind {W E A C} (m : stateful W E A) (k : A → stateful W E C) w Q :
  returns m w (λ a w', returns (k a) w' Q) → returns (st_bind m k) w Q.
Proof. intros (a & w' & Hm & c & w'' & Hk & HQ). exists c, w''. unfold st_bind. by rewrite Hm. Qed.

Lemma returns_mono {W E A} (m : stateful W E A) w (Q Q' : A → W → Prop) :
  (∀ a w', Q a w' → Q' a w') → returns m w Q → returns m w Q'.
Proof. intros HQ (a & w' & ? & ?). exists a, w'. auto. Qed.

Lemma returns_ret {W E A} (a : A) w (Q : A → W → Prop) : Q a w → returns (st_ret (E:=E) a) w Q.
Proof. intros HQ. by exists a, w. Qed.

Lemma returns_lift {W E A} (m : outcome E A) a w (Q : A → W → Prop) : m = Ok a → Q a w → returns (st_lift m) w Q.
Proof. intros -> HQ. by exists a, w. Qed.

Lemma returns_unwrap {W E A} (m : stateful W E A) w Q : returns m w Q → returns (unwrap m) w Q.
Proof. intros (a & w' & Hm & HQ). exists a, w'. unfold unwrap. by rewrite Hm. Qed.

Lemma returns_fun {W E A} (f : W → A * W) w (Q : A → W → Prop) :
  Q (f w).1 (f w).2 → returns (from_fun (E:=E) f) w Q.
Proof. intros HQ. exists (f w).1, (f w).2. unfold from_fun. by destruct (f w). Qed.

(** * What the functions return *)

Section Created.
Context `{McLib} {S Acc IC B : Type} `{!TestLib S Acc IC B, !TestLibLaws S Acc IC B}.
Implicit Types (s : S) (b : B).

(** [tr] with a new key image, and with a new digest on top. *)
Definition issue_key (k : KeyImage) (tr : Trace) : Trace := mk_trace (k :: key_images tr) (digests tr) (last_time tr) (clock tr).
Definition issue_digest (d : QuoteId) (tr : Trace) : Trace := mk_trace (key_images tr) (d :: digests tr) (last_time tr) (clock tr).

Lemma add_ring_returns with_ledger ic s :
  returns (add_ring_to_ledger with_ledger ic) s (λ ic' s',
    ic_amount ic' = ic_amount ic ∧ ic_key_image ic' = ic_key_image ic ∧ trace s' = trace s).
Proof.
  unfold add_ring_to_ledger. destruct with_ledger; [|by apply returns_ret].
  destruct (num_txos_ok s) as [n Hn]. apply returns_bind, returns_unwrap.
  exists n, s. unfold reading. rewrite Hn. split; [done|].
  set (ic' := ic_set_proof_indices _ ic). destruct (add_txos_ok (ic_ring ic') s) as (s' & Hs' & Ht).
  apply returns_bind, returns_unwrap. exists tt, s'. split; [done|]. apply returns_ret.
  destruct (set_proof_indices_keeps (imap (λ i _, u64_add n (Z.of_nat i)) (ic_proof_indices ic)) ic). auto.
Qed.

(** The credentials of a new account, and the builder on them. *)
Lemma new_builder_returns {A} amount with_ledger (k : Acc → B → stateful S string A) s Q :
  (∀ acc b s' key, key ∉ key_images (trace s) → trace s' = issue_key key (trace s) →
     tb_offer b = mk_offer key amount [] [] None 0 default_tombstone → returns (k acc b) s' Q) →
  returns (offerer_account <-- from_fun account_random;;
           offered <-- from_fun (get_input_credentials amount offerer_account);;
           offered <-- add_ring_to_ledger with_ledger offered;;
           builder <-- unwrap (st_lift (tb_new offered));; k offerer_account builder) s Q.
Proof.
  intros Hk. apply returns_bind, returns_fun, returns_bind, returns_fun.
  pose proof (account_random_trace s) as Htr. destruct (account_random s) as [acc s1]. cbn in Htr |- *.
  destruct (get_input_credentials amount acc s1) as [ic s2] eqn:Hic.
  destruct (credentials_new _ _ _ _ _ Hic) as (Ha & Hkey & Ht). rewrite Htr in *.
  apply returns_bind. eapply returns_mono; [|apply add_ring_returns]. cbn. intros ic' s' (Ha' & Hk' & Ht').
  destruct (tb_new_ok ic') as (b & Hb & Ho). apply returns_bind, returns_unwrap.
  apply (returns_lift _ b); [done|]. eapply (Hk acc b s' (ic_key_image ic)); [done|by rewrite Ht', Ht|].
  by rewrite Ho, Ha', Hk', Ha.
Qed.

(** Building a builder, and validating what it built. *)
Lemma tb_build_returns b s Q :
  buildable (tb_offer b) →
  (∀ sci s', sci_on (tb_offer b) sci → quote_id_from_sci sci ∉ digests (trace s) →
     trace s' = issue_digest (quote_id_from_sci sci) (trace s) → Q sci s') →
  returns (unwrap (tb_build b)) s Q.
Proof.
  intros Hb HQ. destruct (build_ok b s Hb) as (sci & s' & Hs & Hon & Hd & Ht).
  apply returns_unwrap. exists sci, s'. auto.
Qed.

Lemma create_builder_returns p base counter with_ledger s :
  returns (tu_create_sci_builder (base_token_id p) (counter_token_id p) base counter with_ledger) s (λ b s',
    ∃ key, key ∉ key_images (trace s) ∧ trace s' = issue_key key (trace s) ∧
      tb_offer b = mk_offer key {| amt_value := base; amt_token_id := base_token_id p |}
                     [{| amt_value := counter; amt_token_id := counter_token_id p |}] [] None 0 2000).
Proof.
  apply new_builder_returns. intros acc b s' key Hkey Ht Ho.
  destruct (add_required_ok {| amt_value := counter; amt_token_id := counter_token_id p |} acc b s')
    as (b' & s'' & Hr & Ht' & Ho'). apply returns_bind, returns_unwrap. exists b', s''. split; [done|].
  apply returns_ret. exists key. split; [done|]. split; [by rewrite Ht'|].
  by rewrite set_tombstone_offer, Ho', Ho.
Qed.

(** An SCI with a new key image and a new digest. *)
Definition new_sci (tr : Trace) (o : KeyImage → Offer) (sci : SignedContingentInput) (s' : S) : Prop :=
  sci_on (o (sci_key_image sci)) sci ∧ sci_key_image sci ∉ key_images tr ∧ quote_id_from_sci sci ∉ digests tr ∧
  trace s' = issue_digest (quote_id_from_sci sci) (issue_key (sci_key_image sci) tr).

Definition full_offer (p : Pair) (base counter : Z) (key : KeyImage) : Offer :=
  mk_offer key {| amt_value := base; amt_token_id := base_token_id p |}
    [{| amt_value := counter; amt_token_id := counter_token_id p |}] [] None 0 2000.
Definition partial_offer (p : Pair) (base min_fill change counter : Z) (key : KeyImage) : Offer :=
  mk_offer key {| amt_value := base; amt_token_id := base_token_id p |}
    (if 0 <? change then [{| amt_value := change; amt_token_id := base_token_id p |}] else [])
    [{| amt_value := counter; amt_token_id := counter_token_id p |}]
    (Some {| amt_value := base; amt_token_id := base_token_id p |}) min_fill default_tombstone.

Lemma create_sci_returns p base counter with_ledger s :
  amount_wf {| amt_value := base; amt_token_id := base_token_id p |} →
  amount_wf {| amt_value := counter; amt_token_id := counter_token_id p |} →
  returns (tu_create_sci (base_token_id p) (counter_token_id p) base counter with_ledger) s
    (new_sci (trace s) (full_offer p base counter)).
Proof.
  intros Hb Hc. apply returns_bind. eapply returns_mono; [|apply create_builder_returns].
  cbn. intros b s1 (key & Hkey & Ht & Ho).
  apply returns_bind, tb_build_returns; rewrite Ho.
  { split; cbn; [done|by apply Forall_singleton|done|done|done]. }
  intros sci s2 Hon Hd Ht2. apply returns_bind, returns_unwrap, (returns_lift _ tt); [apply Hon|].
  apply returns_ret. pose proof (on_key_image _ _ Hon) as Hk. cbn in Hk. rewrite Ht in *.
  unfold new_sci, full_offer. rewrite Hk. auto.
Qed.

Lemma create_partial_sci_returns p base min_fill change counter with_ledger s :
  amount_wf {| amt_value := base; amt_token_id := base_token_id p |} →
  amount_wf {| amt_value := counter; amt_token_id := counter_token_id p |} → is_u64 min_fill → is_u64 change →
  returns (tu_create_partial_sci (base_token_id p) (counter_token_id p) base min_fill change counter with_ledger) s
    (new_sci (trace s) (partial_offer p base min_fill change counter)).
Proof.
  intros Hb Hc Hm Hch. apply new_builder_returns. intros acc b s1 key Hkey Ht Ho.
  destruct (add_change_ok {| amt_value := base; amt_token_id := base_token_id p |} acc b s1)
    as (b2 & s2 & Hr2 & Ht2 & Ho2); [by rewrite Ho|]. apply returns_bind, returns_unwrap. exists b2, s2. split; [done|].
  rewrite Ho in Ho2. rewrite Ht in Ht2. apply returns_bind.
  assert (returns (if 0 <? change then
      unwrap (tb_add_required_change_output {| amt_value := change; amt_token_id := base_token_id p |} acc b2)
      else st_ret b2) s2 (λ b3 s3, trace s3 = trace s2 ∧ tb_offer b3 =
        mk_offer key {| amt_value := base; amt_token_id := base_token_id p |}
          (of_required (partial_offer p base min_fill change counter key)) []
          (Some {| amt_value := base; amt_token_id := base_token_id p |}) 0 default_tombstone)) as Hreq.
  { cbn. destruct (0 <? change); [|by apply returns_ret]. apply returns_unwrap.
    destruct (add_required_change_ok {| amt_value := change; amt_token_id := base_token_id p |} acc b2 s2)
      as (b3 & s3 & Hr3 & Ht3 & Ho3). exists b3, s3. rewrite Ho2 in Ho3. auto. }
  eapply returns_mono; [|exact Hreq]. cbn beta. intros b3 s3 [Ht3 Ho3].
  destruct (add_partial_ok {| amt_value := counter; amt_token_id := counter_token_id p |} acc b3 s3)
    as (b4 & s4 & Hr4 & Ht4 & Ho4). apply returns_bind, returns_unwrap. exists b4, s4. split; [done|].
  rewrite Ho3 in Ho4. rewrite Ht3, Ht2 in Ht4.
  assert (tb_offer (tb_set_min_partial_fill_value min_fill b4) = partial_offer p base min_fill change counter key)
    as Ho5 by by rewrite set_min_offer, Ho4.
  apply returns_bind, tb_build_returns; rewrite Ho5.
  { split; cbn; [done| |by apply Forall_singleton|by split; [|apply default_tombstone_u64]|by eauto].
    destruct (0 <? change); repeat constructor; try apply Hb; apply Hch. }
  intros sci s5 Hon Hd Ht5. apply returns_bind, returns_unwrap, (returns_lift _ tt); [apply Hon|].
  apply returns_ret. pose proof (on_key_image _ _ Hon) as Hk. cbn in Hk. rewrite Ht4 in *.
  unfold new_sci. rewrite Hk. auto.
Qed.
End Created.
