(* ===== verification/Conformance.v ===== *)
(** The conformance tests of quote books (quote-book/test-suite/src/lib.rs).

    The tests are programs over the trait; each of them returns on every book
    that is up and empty and keeps the promises of [TotalBook]. *)

From S2P Require Import Prelude McTypes QuoteApi QuotePricing QuoteBook InMemory SqlTypes Sqlite BookEquiv TestUtils.

(** * The tests *)

Section Tests.
Context `{McLib} {S Acc IC B QB : Type} `{!TestLib S Acc IC B, !QuoteBook QB}.
(** Whether the tests are given a ledger. *)
Variable with_ledger : bool.

(** The outside and the book under test. *)
Local Abbreviation world := (S * QB)%type.

Definition in_env {A} (m : stateful S string A) : stateful world Error A := λ w,
  match m w.1 with
  | (Ok a, s) => (Ok a, (s, w.2))
  | (Err e, s) => (Panic e, (s, w.2))
  | (Panic p, s) => (Panic p, (s, w.2))
  end.
Definition in_book {A} (m : stateful QB Error A) : stateful world Error A := λ w,
  let '(r, b) := m w.2 in (r, (w.1, b)).
Definition ask_book {A} (f : QB → outcome Error A) : stateful world Error A := λ w, (f w.2, w).

(** [Result::unwrap_err], [assert_eq!], [assert_ne!] *)
Definition unwrap_err {W A} (m : stateful W Error A) : stateful W Error Error := λ w,
  match m w with
  | (Ok _, w') => (Panic "called `Result::unwrap_err()` on an `Ok` value", w')
  | (Err e, w') => (Ok e, w')
  | (Panic p, w') => (Panic p, w')
  end.
Definition assert_eq {W A} `{EqDecision A} (left right : A) : stateful W Error unit :=
  st_lift (rust_assert (bool_decide (left = right)) "assertion failed: `(left == right)`").
Definition assert_ne {W A} `{EqDecision A} (left right : A) : stateful W Error unit :=
  st_lift (rust_assert (bool_decide (left ≠ right)) "assertion failed: `(left != right)`").

Definition test_pair : Pair := {| base_token_id := 1; counter_token_id := 2 |}.
Definition test_pair2 : Pair := {| base_token_id := 10; counter_token_id := 2 |}.
Definition test_pair3 : Pair := {| base_token_id := 20; counter_token_id := 2 |}.

Definition create_sci_builder (p : Pair) (base_amount counter_amount : Z) : stateful world Error B :=
  in_env (tu_create_sci_builder (base_token_id p) (counter_token_id p) base_amount counter_amount with_ledger).
Definition create_sci (p : Pair) (base_amount counter_amount : Z) : stateful world Error SignedContingentInput :=
  in_env (tu_create_sci (base_token_id p) (counter_token_id p) base_amount counter_amount with_ledger).
Definition create_partial_sci (p : Pair) (base_amount_offered min_base_fill_amount required_base_change_amount
    counter_amount : Z) : stateful world Error SignedContingentInput :=
  in_env (tu_create_partial_sci (base_token_id p) (counter_token_id p) base_amount_offered min_base_fill_amount
            required_base_change_amount counter_amount with_ledger).
Definition build_sci (builder : B) : stateful world Error SignedContingentInput :=
  in_env (unwrap (tb_build builder)).

(** [quote_book.add_sci(sci, None)] and [Quote::new(sci, None)] *)
Definition add_sci (sci : SignedContingentInput) : stateful world Error Quote :=
  now <-- in_env (from_fun system_time);; in_book (qb_add_sci now sci None).
Definition new_quote (sci : SignedContingentInput) : stateful world Error Quote :=
  now <-- in_env (from_fun system_time);; st_lift (quote_new now sci None).
Definition get_quotes (p : Pair) (range : Bound * Bound) (limit : Z) : stateful world Error (list Quote) :=
  unwrap (ask_book (qb_get_quotes p range limit)).
Definition everything : Bound * Bound := (Unbounded, Unbounded).

Definition quote_tombstone (q : Quote) : outcome Error Z :=
  match input_rules (tx_in (q_sci q)) with
  | Some ir => Ok (max_tombstone_block ir)
  | None => Panic "called `Option::unwrap()` on a `None` value"
  end.

(** Three quotes that differ in their tombstone block: the second part of
    [basic_happy_flow]. *)
Definition tombstone_flow (quote : Quote) : stateful world Error unit :=
  sci <-- create_sci test_pair 10 20;;
  quote1 <-- unwrap (add_sci sci);;
  quote1_tombstone <-- st_lift (quote_tombstone quote);;
  sci_builder <-- create_sci_builder test_pair 10 20;;
  sci2 <-- build_sci (tb_set_tombstone_block (u64_sub quote1_tombstone 1) sci_builder);;
  quote2 <-- unwrap (add_sci sci2);;
  sci_builder <-- create_sci_builder test_pair 10 20;;
  sci3 <-- build_sci (tb_set_tombstone_block 0 sci_builder);;
  quote3 <-- unwrap (add_sci sci3);;
  removed <-- unwrap (in_book (qb_remove_quotes_by_tombstone_block (u64_sub quote1_tombstone 1)));;
  assert_eq removed [quote2];;;
  removed <-- unwrap (in_book (qb_remove_quotes_by_tombstone_block (u64_sub quote1_tombstone 1)));;
  assert_eq removed [];;;
  removed <-- unwrap (in_book (qb_remove_quotes_by_tombstone_block quote1_tombstone));;
  assert_eq removed [quote1];;;
  removed <-- unwrap (in_book (qb_remove_quotes_by_tombstone_block quote1_tombstone));;
  assert_eq removed [];;;
  quotes <-- get_quotes test_pair everything 0;;
  assert_eq quotes [quote3].

Definition basic_happy_flow : stateful world Error unit :=
  sci <-- create_sci test_pair 10 20;;
  quote <-- unwrap (add_sci sci);;
  quotes <-- get_quotes test_pair everything 0;;
  assert_eq quotes [quote];;;
  sci <-- create_sci test_pair 10 200;;
  quote2 <-- unwrap (add_sci sci);;
  quotes <-- get_quotes test_pair everything 0;;
  assert_eq quotes [quote; quote2];;;
  removed <-- unwrap (in_book (qb_remove_quote_by_id (q_id quote)));;
  assert_eq quote removed;;;
  quotes <-- get_quotes test_pair everything 0;;
  assert_eq quotes [quote2];;;
  err <-- unwrap_err (in_book (qb_remove_quote_by_id (q_id quote)));;
  assert_eq err QuoteNotFound;;;
  removed <-- unwrap (in_book (qb_remove_quotes_by_key_image (sci_key_image (q_sci quote))));;
  assert_eq removed [];;;
  removed <-- unwrap (in_book (qb_remove_quotes_by_key_image (sci_key_image (q_sci quote2))));;
  assert_eq [quote2] removed;;;
  quotes <-- get_quotes test_pair everything 0;;
  assert_eq quotes [];;;
  tombstone_flow quote.

Definition cannot_add_invalid_sci : stateful world Error unit :=
  sci_builder <-- create_sci_builder test_pair 10 20;;
  recipient <-- in_env (from_fun account_random);;
  sci_builder <-- in_env (unwrap (tb_add_required_output {| amt_value := 10; amt_token_id := 3 |} recipient sci_builder));;
  sci <-- build_sci sci_builder;;
  err <-- unwrap_err (add_sci sci);;
  assert_eq err (UnsupportedSci "Unsupported number of required/partial outputs 2/0");;;
  sci <-- create_sci test_pair 10 20;;
  err <-- unwrap_err (add_sci (pop_response sci));;
  assert_eq err (SciErr "RingSignature(LengthMismatch(22, 21))").

(** [sci2.tx_out_global_indices[0] += 1] *)
Definition bump_first_index (sci : SignedContingentInput) : outcome Error SignedContingentInput :=
  match tx_out_global_indices sci with
  | i :: rest => Ok (with_global_indices (u64_add i 1 :: rest) sci)
  | [] => Panic "index out of bounds"
  end.

Definition cannot_add_duplicate_sci : stateful world Error unit :=
  sci <-- create_sci test_pair 10 20;;
  quote1 <-- unwrap (add_sci sci);;
  err <-- unwrap_err (add_sci sci);;
  assert_eq err (QuoteAlreadyExists quote1);;;
  sci2 <-- st_lift (bump_first_index sci);;
  err <-- unwrap_err (add_sci sci2);;
  assert_eq err (QuoteAlreadyExists quote1);;;
  assert_eq (sci_key_image sci) (sci_key_image sci2);;;
  quote2 <-- unwrap (new_quote sci2);;
  assert_ne (q_id quote1) (q_id quote2);;;
  assert_eq (quote_key_image quote1) (quote_key_image quote2).

Definition get_quotes_filtering_works : stateful world Error unit :=
  sci <-- create_sci test_pair 100 1000;;
  p1_100_for_1000 <-- unwrap (add_sci sci);;
  sci <-- create_partial_sci test_pair2 100 1 0 1000;;
  p2_100_for_1000 <-- unwrap (add_sci sci);;
  sci <-- create_partial_sci test_pair2 5 1 0 50;;
  p2_5_for_50 <-- unwrap (add_sci sci);;
  sci <-- create_partial_sci test_pair2 50 1 0 5;;
  p2_50_for_5 <-- unwrap (add_sci sci);;
  sci <-- create_sci test_pair2 50 3;;
  p2_50_for_3 <-- unwrap (add_sci sci);;
  quotes <-- get_quotes test_pair everything 0;;
  assert_eq quotes [p1_100_for_1000];;;
  quotes <-- get_quotes test_pair2 everything 0;;
  assert_eq quotes [p2_50_for_3; p2_50_for_5; p2_100_for_1000; p2_5_for_50];;;
  quotes <-- get_quotes test_pair everything 2;;
  assert_eq quotes [p1_100_for_1000];;;
  quotes <-- get_quotes test_pair2 everything 2;;
  assert_eq quotes [p2_50_for_3; p2_50_for_5];;;
  quotes <-- get_quotes test_pair (Included 10000, Unbounded) 2;;
  assert_eq quotes [];;;
  quotes <-- get_quotes test_pair2 (Included 10000, Unbounded) 2;;
  assert_eq quotes [];;;
  quotes <-- get_quotes test_pair2 (Included 50, Unbounded) 0;;
  assert_eq quotes [p2_50_for_3; p2_50_for_5; p2_100_for_1000];;;
  quotes <-- get_quotes test_pair2 (Included 51, Unbounded) 0;;
  assert_eq quotes [p2_100_for_1000];;;
  quotes <-- get_quotes test_pair2 (Included 50, Excluded 70) 0;;
  assert_eq quotes [p2_50_for_3; p2_50_for_5; p2_100_for_1000].

Definition ids_as_set (l : list QuoteId) : gset QuoteId := list_to_set l.

Definition get_quote_ids_works : stateful world Error unit :=
  pair1_sci1 <-- create_sci test_pair 100 1000;;
  quote1 <-- unwrap (add_sci pair1_sci1);;
  pair1_sci2 <-- create_sci test_pair 100 1000;;
  quote2 <-- unwrap (add_sci pair1_sci2);;
  pair2_sci3 <-- create_sci test_pair2 100 1000;;
  quote3 <-- unwrap (add_sci pair2_sci3);;
  quote_ids <-- unwrap (ask_book (qb_get_quote_ids None));;
  assert_eq (ids_as_set [q_id quote1; q_id quote2; q_id quote3]) (ids_as_set quote_ids);;;
  quote_ids <-- unwrap (ask_book (qb_get_quote_ids (Some test_pair)));;
  assert_eq (ids_as_set [q_id quote1; q_id quote2]) (ids_as_set quote_ids);;;
  quote_ids <-- unwrap (ask_book (qb_get_quote_ids (Some test_pair2)));;
  assert_eq (ids_as_set [q_id quote3; q_id quote3]) (ids_as_set quote_ids);;;
  quote_ids <-- unwrap (ask_book (qb_get_quote_ids (Some test_pair3)));;
  assert_eq quote_ids [].

Definition get_quote_by_id_works : stateful world Error unit :=
  sci1 <-- create_sci test_pair 100 1000;;
  quote1 <-- unwrap (add_sci sci1);;
  sci2 <-- create_sci test_pair 100 1000;;
  quote2 <-- unwrap (new_quote sci2);;
  found <-- unwrap (ask_book (qb_get_quote_by_id (q_id quote1)));;
  assert_eq found (Some quote1);;;
  found <-- unwrap (ask_book (qb_get_quote_by_id (q_id quote2)));;
  assert_eq found None.
End Tests.

(** * Books the tests can use *)

(** The quotes of the tests can be stored, and swept while their tombstones are
    not too far ahead. *)
Class StoresTests `{McLib} `{!TombstoneLaws _} {S Acc IC B} `{!TestLib S Acc IC B, !TestLibLaws S Acc IC B}
    (QB : Type) `{!QuoteBook QB, !QuoteBookLaws QB, !TotalBook QB} : Prop := {
  stores_quote o sci c r m t : sci_on o sci → is_u64 t → is_u64 c →
    storable (B:=QB) (quote_on_terms sci c r m t);
  sweeps_quote n q : 0 ≤ n < 2 ^ 62 → tombstone_too_far n q = false → sweepable (B:=QB) n q;
}.

Section Rules.
Context `{McLib} `{!McLibLaws _, !TombstoneLaws _} {S Acc IC B QB : Type} `{!TestLib S Acc IC B, !TestLibLaws S Acc IC B}.
Context `{!QuoteBook QB, !QuoteBookLaws QB, !TotalBook QB, !StoresTests QB}.
Context (with_ledger : bool).
Local Abbreviation world := (S * QB)%type.
Implicit Types (w : world) (l : list Quote).

(** What has been issued covers the quotes of the book. *)
Definition known (tr : Trace) l : Prop := ∀ x, x ∈ l →
  quote_key_image x ∈ key_images tr ∧ q_id x ∈ digests tr ∧ q_timestamp x ≤ last_time tr.

(** The book under test is up and holds the quotes [l], and the next [j]
    readings of the clock advance. *)
Record holds (j : nat) l w : Prop := {
  holds_up : book_up w.2;
  holds_contents : contents w.2 ≡ₚ l;
  holds_known : known (trace w.1) l;
  holds_time : ticks j (trace w.1);
}.

(** A new SCI is unlike those of the quotes in the book. *)
Record unlike l (sci : SignedContingentInput) w : Prop := {
  unlike_quotes x : x ∈ l → quote_key_image x ≠ sci_key_image sci ∧ q_id x ≠ quote_id_from_sci sci;
  unlike_key : sci_key_image sci ∈ key_images (trace w.1);
  unlike_digest : quote_id_from_sci sci ∈ digests (trace w.1);
}.

(** A quote with these terms that is new to the quotes [l] and younger. *)
Record made (p : Pair) (r : Z * Z) (counter tombstone : Z) l (q : Quote) : Prop := {
  made_pair : q_pair q = p;
  made_range : q_base_range q = r;
  made_counter : q_max_counter_tokens q = counter;
  made_tombstone : ∃ ir, input_rules (tx_in (q_sci q)) = Some ir ∧ max_tombstone_block ir = tombstone;
  made_unlike x : x ∈ l → quote_key_image x ≠ quote_key_image q ∧ q_id x ≠ q_id q;
  made_newer x : x ∈ l → q_timestamp x < q_timestamp q;
}.

Lemma returns_env {A} (m : stateful S string A) w (Q : A → world → Prop) :
  returns m w.1 (λ a s', Q a (s', w.2)) → returns (in_env m) w Q.
Proof. intros (a & s' & Hm & HQ). exists a, (s', w.2). unfold in_env. by rewrite Hm. Qed.

Lemma returns_assert {A} `{EqDecision A} (a a' : A) w (Q : unit → world → Prop) :
  a = a' → Q tt w → returns (assert_eq a a') w Q.
Proof. intros -> HQ. apply (returns_lift _ tt); [|done]. by rewrite bool_decide_true. Qed.

Lemma known_issue tr k d l : known tr l → known (issue_digest d (issue_key k tr)) l.
Proof. intros Hk x Hx. destruct (Hk x Hx) as (? & ? & ?). cbn. split; [by right|]. split; [by right|done]. Qed.

(** A new SCI leaves the book as it is. *)
Lemma new_sci_holds j l w o sci s' :
  holds j l w → new_sci (trace w.1) o sci s' → holds j l (s', w.2) ∧ unlike l sci (s', w.2).
Proof.
  intros [Hup Hc Hk Hj] (Hon & Hkey & Hd & Ht). split; split; cbn; [done|done| | | | |].
  - rewrite Ht. by apply known_issue.
  - by rewrite Ht.
  - intros x Hx. destruct (Hk x Hx) as (? & ? & ?). split; intros E; [by rewrite E in *|by rewrite E in *].
  - rewrite Ht. left.
  - rewrite Ht. left.
Qed.

Lemma create_sci_ok {A} p base counter {j} l w (k : SignedContingentInput → stateful world Error A) Q :
  amount_wf {| amt_value := base; amt_token_id := base_token_id p |} →
  amount_wf {| amt_value := counter; amt_token_id := counter_token_id p |} → holds j l w →
  (∀ sci w', holds j l w' → unlike l sci w' → sci_on (full_offer p base counter (sci_key_image sci)) sci →
     returns (k sci) w' Q) →
  returns (sci <-- create_sci with_ledger p base counter;; k sci) w Q.
Proof.
  intros Hb Hc Hh Hk. apply returns_bind, returns_env. eapply returns_mono; [|by apply create_sci_returns].
  intros sci s' Hnew. destruct (new_sci_holds _ _ _ _ _ _ Hh Hnew). apply Hk; [done|done|apply Hnew].
Qed.

Lemma create_partial_ok {A} p base min_fill change counter {j} l w (k : SignedContingentInput → stateful world Error A) Q :
  amount_wf {| amt_value := base; amt_token_id := base_token_id p |} →
  amount_wf {| amt_value := counter; amt_token_id := counter_token_id p |} → is_u64 min_fill → is_u64 change →
  holds j l w →
  (∀ sci w', holds j l w' → unlike l sci w' →
     sci_on (partial_offer p base min_fill change counter (sci_key_image sci)) sci → returns (k sci) w' Q) →
  returns (sci <-- create_partial_sci with_ledger p base min_fill change counter;; k sci) w Q.
Proof.
  intros Hb Hc Hm Hch Hh Hk. apply returns_bind, returns_env. eapply returns_mono; [|by apply create_partial_sci_returns].
  intros sci s' Hnew. destruct (new_sci_holds _ _ _ _ _ _ Hh Hnew). apply Hk; [done|done|apply Hnew].
Qed.

(** A builder whose tombstone is set before it builds. *)
Lemma create_with_tombstone_ok {A} p base counter n {j} l w (k : SignedContingentInput → stateful world Error A) Q :
  amount_wf {| amt_value := base; amt_token_id := base_token_id p |} →
  amount_wf {| amt_value := counter; amt_token_id := counter_token_id p |} → is_u64 n → holds j l w →
  (∀ sci w', holds j l w' → unlike l sci w' →
     sci_on (mk_offer (sci_key_image sci) {| amt_value := base; amt_token_id := base_token_id p |}
       [{| amt_value := counter; amt_token_id := counter_token_id p |}] [] None 0 n) sci → returns (k sci) w' Q) →
  returns (builder <-- create_sci_builder with_ledger p base counter;;
           sci <-- build_sci (tb_set_tombstone_block n builder);; k sci) w Q.
Proof.
  intros Hb Hc Hn Hh Hk. apply returns_bind, returns_env. eapply returns_mono; [|apply create_builder_returns].
  cbn. intros b s1 (key & Hkey & Ht & Ho). apply returns_bind, returns_env, tb_build_returns; rewrite set_tombstone_offer, Ho; cbn.
  { split; cbn; [done|by apply Forall_singleton|done|done|done]. }
  intros sci s2 Hon Hd Ht2. pose proof (on_key_image _ _ Hon) as Hki. cbn in Hki. rewrite Ht in *.
  assert (new_sci (trace w.1) (λ key, mk_offer key {| amt_value := base; amt_token_id := base_token_id p |}
       [{| amt_value := counter; amt_token_id := counter_token_id p |}] [] None 0 n) sci s2) as Hnew
    by by unfold new_sci; rewrite Hki.
  destruct (new_sci_holds _ _ _ _ _ _ Hh Hnew). apply Hk; [done|done|by rewrite Hki].
Qed.

(** The terms of the SCIs of the tests. *)
Lemma full_terms key base a change min_fill tombstone sci :
  sci_on (mk_offer key base [a] [] change min_fill tombstone) sci →
  ∃ ir, input_rules (tx_in sci) = Some ir ∧ max_tombstone_block ir = tombstone ∧
    sci_offer sci ir (amt_token_id a) (amt_value base, amt_value base) (amt_value a).
Proof.
  intros [_ _ _ Hb Hr _ (ir & Hir & Hlen & Hpf & _ & Ht)]. cbn in *. exists ir. split; [done|]. split; [done|].
  rewrite <-Hb. apply offer_all_or_nothing; [done|by apply Forall2_nil_inv_r in Hpf|by rewrite Hr].
Qed.

Lemma partial_terms key base a change min_fill tombstone sci :
  sci_on (mk_offer key base [] [a] change min_fill tombstone) sci →
  ∃ ir, input_rules (tx_in sci) = Some ir ∧ max_tombstone_block ir = tombstone ∧
    sci_offer sci ir (amt_token_id a) (min_fill, amt_value base) (amt_value a).
Proof.
  intros [_ _ _ Hb Hr _ (ir & Hir & Hlen & Hpf & Hmin & Ht)]. cbn in *. exists ir. split; [done|]. split; [done|].
  apply Forall2_cons_inv_r in Hpf as (pf & pfs & [bl Hrev] & Hnil & Hpf). apply Forall2_nil_inv_r in Hnil as ->.
  rewrite <-Hb, <-Hmin. eapply (offer_partial sci ir pf a bl); [|done..]. by apply nil_length_inv.
Qed.

Lemma quote_new_now sci ir c r m t :
  sci_validate sci = Ok tt → input_rules (tx_in sci) = Some ir → sci_offer sci ir c r m → is_u64 t →
  quote_new (Some t) sci None = Ok (quote_on_terms sci c r m t).
Proof.
  intros Hv Hir Ho%quote_terms_offer Ht. unfold quote_new, default_timestamp. cbn.
  rewrite bool_decide_true by done. cbn. rewrite Hv, Hir. cbn. by rewrite Ho.
Qed.

(** Reading the clock. *)
Lemma returns_clock {A} {j} l w (k : option Z → stateful world Error A) Q :
  holds (Datatypes.S j) l w →
  (∀ t w', holds j l w' → w'.2 = w.2 → is_u64 t → (∀ x, x ∈ l → q_timestamp x < t) →
     key_images (trace w'.1) = key_images (trace w.1) → digests (trace w'.1) = digests (trace w.1) →
     last_time (trace w'.1) = t → returns (k (Some t)) w' Q) →
  returns (now <-- in_env (from_fun system_time);; k now) w Q.
Proof.
  intros [Hup Hc Hk Hj] HQ. apply returns_bind, returns_env, returns_fun.
  destruct (system_time_ok w.1 j Hj) as (t & s' & Hs & Ht & Hlt & Htk & Htd & Htt & Hj'). rewrite Hs. cbn.
  apply HQ; cbn; [|done|done| |done..].
  - split; cbn; [done|done| |done]. intros x Hx. destruct (Hk x Hx) as (? & ? & ?).
    rewrite Htk, Htd, Htt. split; [done|]. split; [done|lia].
  - intros x Hx. destruct (Hk x Hx) as (_ & _ & ?). lia.
Qed.

Lemma holds_priced j l w : holds j l w → Forall priced l.
Proof. intros [Hup Hc _ _]. rewrite <-Hc. by apply up_priced. Qed.

Lemma add_sci_returns {A} o sci ir c r m {j} l w (k : Quote → stateful world Error A) Q :
  holds (Datatypes.S j) l w → unlike l sci w → sci_on o sci → input_rules (tx_in sci) = Some ir → sci_offer sci ir c r m →
  is_u64 c → is_u64 r.2 → is_u64 m → 0 < r.2 →
  (∀ t w', holds j (quote_on_terms sci c r m t :: l) w' → (∀ x, x ∈ l → q_timestamp x < t) →
     returns (k (quote_on_terms sci c r m t)) w' Q) →
  returns (q <-- unwrap (add_sci sci);; k q) w Q.
Proof.
  intros Hh [Hun Hkey Hdig] Hon Hir Ho Hc Hr Hm Hpos HQ. apply returns_bind, returns_unwrap.
  eapply (returns_clock l w); [done|]. intros t w1 Hh1 _ Ht Hnew Htk Htd Htt. pose proof Hh1 as [Hup1 Hc1 Hk1 Hj1].
  unfold in_book, qb_add_sci. unfold returns, st_bind at 1, st_lift.
  rewrite (quote_new_now sci ir c r m t) by (done || apply Hon). set (q := quote_on_terms sci c r m t).
  unfold st_bind. destruct (qb_add_quote q w1.2) as [res b'] eqn:Hadd.
  assert (offerable (contents w1.2) q) as Hoff.
  { split; [unfold priced, max_base_tokens; cbn; auto|]. intros x. rewrite Hc1. intros Hx Hid.
    destruct (Hun x Hx) as [_ Hne]. by destruct Hne. }
  destruct (up_add q w1.2 res b' Hup1) as [Hup' Hres]; [eapply stores_quote; eauto|done|done|].
  assert (slot_map (contents w1.2) !! slot q = None) as Hfree.
  { apply slot_map_None; [by apply contents_slots, up_inv|]. intros x. rewrite Hc1. intros Hx [= _ Hki].
    by destruct (Hun x Hx) as [[] _]. }
  rewrite Hfree in Hres. subst res. exists q, (w1.1, b'). split; [done|]. apply HQ; [|done]. split; cbn; [done| | |done].
  - rewrite (add_ok _ _ _ (up_inv _ Hup1) (offerable_addable _ _ Hoff) Hadd). by rewrite Hc1.
  - intros x [->|Hx]%elem_of_cons; [|by apply Hk1]. rewrite Htk, Htd. split; [done|]. split; [done|]. cbn. lia.
Qed.

(** What an SCI on a full offer is added as. *)
Lemma add_full_ok {A} key p base counter change min_fill tombstone sci {j} l w (k : Quote → stateful world Error A) Q :
  sci_on (mk_offer key {| amt_value := base; amt_token_id := base_token_id p |}
            [{| amt_value := counter; amt_token_id := counter_token_id p |}] [] change min_fill tombstone) sci →
  is_u64 base → is_u64 counter → is_u64 (counter_token_id p) → 0 < base →
  holds (Datatypes.S j) l w → unlike l sci w →
  (∀ q w', holds j (q :: l) w' → made p (base, base) counter tombstone l q → returns (k q) w' Q) →
  returns (q <-- unwrap (add_sci sci);; k q) w Q.
Proof.
  intros Hon Hb Hc Hp Hpos Hh Hun HQ. destruct (full_terms _ _ _ _ _ _ _ Hon) as (ir & Hir & Ht & Ho). cbn in Ho.
  eapply add_sci_returns; [done..|]. intros t w' Hh' Hnew. apply HQ; [done|].
  pose proof (on_base _ _ Hon) as Hbase. cbn in Hbase.
  split; cbn; [rewrite Hbase; by destruct p|done|done|by exists ir| |done].
  intros x Hx. by apply (unlike_quotes _ _ _ Hun).
Qed.

Lemma offer_full_ok {A} p base counter {j} l w (k : Quote → stateful world Error A) Q :
  is_u64 base → is_u64 counter → is_u64 (base_token_id p) → is_u64 (counter_token_id p) → 0 < base → holds (Datatypes.S j) l w →
  (∀ q w', holds j (q :: l) w' → made p (base, base) counter 2000 l q → returns (k q) w' Q) →
  returns (sci <-- create_sci with_ledger p base counter;; q <-- unwrap (add_sci sci);; k q) w Q.
Proof.
  intros Hb Hc Hp1 Hp2 Hpos Hh HQ. eapply (create_sci_ok p base counter l); [by split..|done|].
  intros sci w' Hh' Hun Hon. by eapply add_full_ok.
Qed.

Lemma offer_tombstone_ok {A} p base counter n {j} l w (k : Quote → stateful world Error A) Q :
  is_u64 base → is_u64 counter → is_u64 (base_token_id p) → is_u64 (counter_token_id p) → 0 < base → is_u64 n →
  holds (Datatypes.S j) l w →
  (∀ q w', holds j (q :: l) w' → made p (base, base) counter n l q → returns (k q) w' Q) →
  returns (builder <-- create_sci_builder with_ledger p base counter;;
           sci <-- build_sci (tb_set_tombstone_block n builder);; q <-- unwrap (add_sci sci);; k q) w Q.
Proof.
  intros Hb Hc Hp1 Hp2 Hpos Hn Hh HQ. eapply (create_with_tombstone_ok p base counter n l); [by split..|done|done|].
  intros sci w' Hh' Hun Hon. by eapply add_full_ok.
Qed.

Lemma offer_partial_ok {A} p base min_fill counter {j} l w (k : Quote → stateful world Error A) Q :
  is_u64 base → is_u64 counter → is_u64 (base_token_id p) → is_u64 (counter_token_id p) → is_u64 min_fill →
  0 < base → holds (Datatypes.S j) l w →
  (∀ q w', holds j (q :: l) w' → made p (min_fill, base) counter default_tombstone l q → returns (k q) w' Q) →
  returns (sci <-- create_partial_sci with_ledger p base min_fill 0 counter;; q <-- unwrap (add_sci sci);; k q) w Q.
Proof.
  intros Hb Hc Hp1 Hp2 Hm Hpos Hh HQ. eapply (create_partial_ok p base min_fill 0 counter l); [by split..|done|by split|done|].
  intros sci w' Hh' Hun Hon. destruct (partial_terms _ _ _ _ _ _ _ Hon) as (ir & Hir & Ht & Ho). cbn in Ho.
  eapply add_sci_returns; [done..|]. intros t w2 Hh2 Hnew. apply HQ; [done|].
  pose proof (on_base _ _ Hon) as Hbase. cbn in Hbase.
  split; cbn; [rewrite Hbase; by destruct p|done|done|by exists ir| |done].
  intros x Hx. by apply (unlike_quotes _ _ _ Hun).
Qed.

(** ** Additions that fail *)

Lemma add_invalid_fails {A} sci e {j} l w (k : Error → stateful world Error A) Q :
  holds (Datatypes.S j) l w → (∀ t, is_u64 t → quote_new (Some t) sci None = Err e) →
  (∀ w', holds j l w' → returns (k e) w' Q) →
  returns (err <-- unwrap_err (add_sci sci);; k err) w Q.
Proof.
  intros Hh He HQ. apply returns_bind. destruct (returns_clock l w st_ret (λ a w', holds j l w' ∧
    ∃ t, a = Some t ∧ is_u64 t) Hh) as (a & w' & Hr & Hh' & t & -> & Ht).
  { intros t w' ? _ ? _ _ _ _. apply returns_ret. eauto. }
  exists e, w'. split; [|by apply HQ]. unfold unwrap_err, add_sci. unfold st_bind, st_ret in Hr |- *.
  destruct (in_env _ w) as [[now|?|?] w1]; [|done..]. injection Hr as -> ->.
  unfold in_book, qb_add_sci, st_bind, st_lift. rewrite (He t Ht). by destruct w'.
Qed.

Lemma add_duplicate_fails {A} o sci ir c r m e {j} l w (k : Error → stateful world Error A) Q :
  holds (Datatypes.S j) l w → sci_on o sci → input_rules (tx_in sci) = Some ir → sci_offer sci ir c r m →
  is_u64 c → is_u64 r.2 → is_u64 m → 0 < r.2 →
  (∀ x, x ∈ l → slot x = ({| base_token_id := amt_token_id (pseudo_output_amount sci); counter_token_id := c |},
                          sci_key_image sci)) → e ∈ l →
  (∀ w', holds j l w' → returns (k (QuoteAlreadyExists e)) w' Q) →
  returns (err <-- unwrap_err (add_sci sci);; k err) w Q.
Proof.
  intros Hh Hon Hir Ho Hc Hr Hm Hpos Hslot He HQ. apply returns_bind.
  destruct (returns_clock l w st_ret (λ a w', holds j l w' ∧ ∃ t, a = Some t ∧ is_u64 t) Hh)
    as (a & w' & Hrun & Hh' & t & -> & Ht).
  { intros t w' ? _ ? _ _ _ _. apply returns_ret. eauto. }
  pose proof Hh' as [Hup Hcont Hknown Hj]. set (q := quote_on_terms sci c r m t).
  destruct (qb_add_quote q w'.2) as [res b'] eqn:Hadd.
  destruct (up_add q w'.2 res b' Hup) as [Hup' Hres]; [eapply stores_quote; eauto| |done|].
  { split; [unfold priced, max_base_tokens; cbn; auto|]. intros x. rewrite Hcont. intros Hx _. by apply Hslot. }
  rewrite (proj2 (slot_map_lookup _ _ e (contents_slots _ (up_inv _ Hup)))) in Hres
    by (rewrite Hcont; split; [done|by apply Hslot]).
  destruct Hres as [-> Hc']. exists (QuoteAlreadyExists e), (w'.1, b'). split.
  - unfold unwrap_err, add_sci. unfold st_bind, st_ret in Hrun |- *.
    destruct (in_env _ w) as [[now|?|?] w1]; [|done..]. injection Hrun as -> ->.
    unfold in_book, qb_add_sci, st_bind, st_lift.
    rewrite (quote_new_now sci ir c r m t) by (done || apply Hon). fold q. by rewrite Hadd.
  - apply HQ. split; cbn; [done|by rewrite Hc', Hcont|done|done].
Qed.

(** ** Queries *)

(** The quotes of the pair in the range, in their order. *)
Definition selected p (r : Bound * Bound) l : list Quote :=
  filter (λ q, q_pair q = p ∧ overlaps r (q_base_range q) = true) l.

Lemma get_quotes_returns {A} p r limit all {j} l w (k : list Quote → stateful world Error A) Q :
  holds j l w → 0 ≤ limit → StronglySorted (cmp_lt quote_cmp) all → all ≡ₚ selected p r l →
  returns (k (if limit =? 0 then all else take (Z.to_nat limit) all)) w Q →
  returns (quotes <-- get_quotes p r limit;; k quotes) w Q.
Proof.
  intros Hh Hlim Hs Hp HQ. pose proof Hh as [Hup Hc _ _].
  destruct (up_get_quotes p r limit w.2 Hup) as [res Hres].
  apply returns_bind, returns_unwrap. exists res, w. unfold ask_book. rewrite Hres. split; [done|].
  enough (res = if limit =? 0 then all else take (Z.to_nat limit) all) as -> by done.
  apply (listing_unique (contents w.2) p r limit); [by apply up_priced|by apply get_quotes_ok; [apply up_inv|..]|].
  exists all. split; [done|]. split; [by rewrite Hp, Hc|done].
Qed.

(** The quotes of a pair, or all. *)
Definition in_pair (p : option Pair) l : list Quote := filter (λ q, default (q_pair q) p = q_pair q) l.

Lemma get_quote_ids_returns {A} p {j} l w (k : list QuoteId → stateful world Error A) Q :
  holds j l w →
  (∀ ids, ids ≡ₚ q_id <$> in_pair p l → returns (k ids) w Q) →
  returns (ids <-- unwrap (ask_book (qb_get_quote_ids p));; k ids) w Q.
Proof.
  intros [Hup Hc _ _] HQ. destruct (up_get_quote_ids p w.2 Hup) as [ids Hids].
  apply returns_bind, returns_unwrap. exists ids, w. unfold ask_book. rewrite Hids. split; [done|].
  apply HQ. by rewrite (get_quote_ids_ok _ _ _ (up_inv _ Hup) Hids), Hc.
Qed.

Lemma get_quote_by_id_returns {A} i {j} l w (k : option Quote → stateful world Error A) Q :
  holds j l w →
  (∀ o, match o with Some q => q ∈ l ∧ q_id q = i | None => ∀ q, q ∈ l → q_id q ≠ i end → returns (k o) w Q) →
  returns (o <-- unwrap (ask_book (qb_get_quote_by_id i));; k o) w Q.
Proof.
  intros [Hup Hc _ _] HQ. destruct (up_get_quote_by_id i w.2 Hup) as [o Ho].
  apply returns_bind, returns_unwrap. exists o, w. unfold ask_book. rewrite Ho. split; [done|].
  apply HQ. pose proof (get_quote_by_id_ok _ _ _ (up_inv _ Hup) Ho) as Hok.
  destruct o as [q|]; [by rewrite <-Hc|]. intros q. rewrite <-Hc. apply Hok.
Qed.

(** ** Removals *)

Lemma known_sub tr l l' : l' ⊆ l → known tr l → known tr l'.
Proof. intros Hsub Hk x Hx. by apply Hk, Hsub. Qed.

Lemma remove_id_returns {A} q {j} l w (k : Quote → stateful world Error A) Q :
  holds j (q :: l) w → (∀ x, x ∈ l → q_id x ≠ q_id q) →
  (∀ w', holds j l w' → returns (k q) w' Q) →
  returns (removed <-- unwrap (in_book (qb_remove_quote_by_id (q_id q)));; k removed) w Q.
Proof.
  intros [Hup Hc Hk Hj] Hids HQ. apply returns_bind, returns_unwrap. unfold in_book, returns.
  destruct (qb_remove_quote_by_id (q_id q) w.2) as [r b'] eqn:Hr.
  destruct (up_remove_id _ _ _ _ Hup Hr) as [Hup' [[q' ->]|(_ & _ & Hnone)]].
  - destruct (remove_id_ok _ _ _ _ (up_inv _ Hup) Hr) as [Hid Hc']. rewrite Hc in Hc'.
    assert (q' = q) as ->.
    { assert (q' ∈ q :: l) as [->|Hin]%elem_of_cons by (rewrite Hc'; left); [done|]. by destruct (Hids q' Hin). }
    exists q, (w.1, b'). split; [done|]. apply HQ. split; cbn; [done|by apply Permutation_cons_inv in Hc'| |done].
    eapply known_sub; [|exact Hk]. set_solver.
  - destruct (Hnone q); [|done]. rewrite Hc. left.
Qed.

Lemma remove_id_missing {A} i {j} l w (k : Error → stateful world Error A) Q :
  holds j l w → (∀ x, x ∈ l → q_id x ≠ i) →
  (∀ w', holds j l w' → returns (k QuoteNotFound) w' Q) →
  returns (err <-- unwrap_err (in_book (qb_remove_quote_by_id i));; k err) w Q.
Proof.
  intros [Hup Hc Hk Hj] Hids HQ. apply returns_bind. unfold unwrap_err, in_book, returns.
  destruct (qb_remove_quote_by_id i w.2) as [r b'] eqn:Hr.
  destruct (up_remove_id _ _ _ _ Hup Hr) as [Hup' [[q' ->]|(-> & Hc' & _)]].
  - destruct (remove_id_ok _ _ _ _ (up_inv _ Hup) Hr) as [Hid Hc']. destruct (Hids q'); [|done].
    rewrite <-Hc, Hc'. left.
  - eexists QuoteNotFound, (w.1, b'). split; [done|]. apply HQ. split; cbn; [done|by rewrite Hc'|done|done].
Qed.

(** The removals that return what they removed: at most one quote here. *)
Lemma remove_some_returns {A} (P : Quote → Prop) `{!∀ q, Decision (P q)} (m : stateful QB Error (list Quote))
    removed {j} l w (k : list Quote → stateful world Error A) Q :
  holds j l w →
  (∀ r b', m w.2 = (r, b') → book_up b' ∧ ∃ l', r = Ok l' ∧
     l' ≡ₚ filter P (contents w.2) ∧ contents b' ≡ₚ filter (λ q, ¬ P q) (contents w.2)) →
  filter P l = removed → (length removed ≤ 1)%nat →
  (∀ w', holds j (filter (λ q, ¬ P q) l) w' → returns (k removed) w' Q) →
  returns (removed <-- unwrap (in_book m);; k removed) w Q.
Proof.
  intros [Hup Hc Hk Hj] Hm Hrem Hlen HQ. apply returns_bind, returns_unwrap. unfold in_book, returns.
  destruct (m w.2) as [r b'] eqn:Hr. destruct (Hm r b' eq_refl) as (Hup' & l' & -> & Hl' & Hc').
  rewrite Hc, Hrem in Hl'. exists l', (w.1, b'). split; [done|].
  assert (l' = removed) as ->.
  { destruct removed as [|x [|]]; cbn in Hlen; [by apply Permutation_nil_r in Hl'|by apply Permutation_singleton_r in Hl'|lia]. }
  apply HQ. split; cbn; [done|by rewrite Hc', Hc| |done]. eapply known_sub; [|exact Hk]. intros x. rewrite list_elem_of_filter. tauto.
Qed.

Lemma remove_ki_returns {A} key removed {j} l w (k : list Quote → stateful world Error A) Q :
  holds j l w → filter (λ q, quote_key_image q = key) l = removed → (length removed ≤ 1)%nat →
  (∀ w', holds j (filter (λ q, quote_key_image q ≠ key) l) w' → returns (k removed) w' Q) →
  returns (removed <-- unwrap (in_book (qb_remove_quotes_by_key_image key));; k removed) w Q.
Proof.
  intros Hh. eapply (remove_some_returns (λ q, quote_key_image q = key)); [done|]. intros r b' Hr.
  destruct (up_remove_ki _ _ _ _ (holds_up _ _ _ Hh) Hr) as [? [l' ->]]. split; [done|]. exists l'. split; [done|].
  by apply remove_ki_ok; [apply up_inv, Hh|].
Qed.

(** Whether a block index is at or past the tombstone of a quote. *)
Definition expired (n : BlockIndex) (q : Quote) : Prop := tombstone_expired n q = true.
#[export] Instance expired_dec n q : Decision (expired n q).
Proof. unfold expired. apply _. Defined.

Lemma remove_tombstone_returns {A} n removed {j} l w (k : list Quote → stateful world Error A) Q :
  holds j l w → 0 ≤ n < 2 ^ 62 → Forall (λ q, tombstone_too_far n q = false) l →
  filter (expired n) l = removed → (length removed ≤ 1)%nat →
  (∀ w', holds j (filter (λ q, ¬ expired n q) l) w' → returns (k removed) w' Q) →
  returns (removed <-- unwrap (in_book (qb_remove_quotes_by_tombstone_block n));; k removed) w Q.
Proof.
  intros Hh Hn Hnear. eapply (remove_some_returns (expired n)); [done|]. intros r b' Hr.
  rewrite Forall_forall in Hnear.
  assert (∀ q, q ∈ contents w.2 → sweepable n q) as Hsw.
  { intros q. rewrite (holds_contents _ _ _ Hh). intros Hq. apply sweeps_quote; [done|by apply Hnear]. }
  destruct (up_remove_tombstone _ _ _ _ (holds_up _ _ _ Hh) Hsw Hr) as [? [l' ->]].
  split; [done|]. exists l'. split; [done|].
  destruct (remove_tombstone_ok _ _ _ _ (up_inv _ (holds_up _ _ _ Hh)) Hr) as [Hl Hc]. split; [done|].
  rewrite Hc. erewrite list_filter_ext; [done|]. intros q _. unfold expired. by destruct (tombstone_expired n q).
Qed.

(** ** The quotes of the tests, by their terms *)

Lemma selected_cons p r q l p' r' :
  q_pair q = p' → q_base_range q = r' →
  selected p r (q :: l) = if bool_decide (p' = p) && overlaps r r' then q :: selected p r l else selected p r l.
Proof.
  intros <- <-. unfold selected. rewrite filter_cons. case_bool_decide as Hp; cbn.
  - destruct (overlaps r (q_base_range q)) eqn:Ho; [by rewrite decide_True|]. rewrite decide_False; [done|]. by intros [_ ?].
  - rewrite decide_False; [done|]. by intros [? _].
Qed.

Lemma in_pair_cons p q l p' : q_pair q = p' →
  in_pair p (q :: l) = if bool_decide (default p' p = p') then q :: in_pair p l else in_pair p l.
Proof. intros <-. unfold in_pair. rewrite filter_cons. by repeat case_decide || case_bool_decide. Qed.

Lemma made_better p r c t l q r' c' t' l' q' :
  priced q → priced q' → made p r c t l q → made p r' c' t' l' q' → r'.2 * c < r.2 * c' → cmp_lt quote_cmp q q'.
Proof.
  intros Hq Hq' [Hp Hr Hc _ _ _] [Hp' Hr' Hc' _ _ _] Hlt.
  refine (proj1 (quote_cmp_better_rate_first q q' Hq Hq' _) _); [by rewrite Hp, Hp'|].
  unfold max_base_tokens. rewrite Hr, Hr', Hc, Hc'. lia.
Qed.

Lemma made_older p r c t l q r' c' t' l' q' :
  priced q → priced q' → made p r c t l q → made p r' c' t' l' q' → r.2 * c' = r'.2 * c → q ∈ l' → cmp_lt quote_cmp q q'.
Proof.
  intros Hq Hq' [Hp Hr Hc _ _ _] [Hp' Hr' Hc' _ _ Hnew] Heq Hin.
  refine (proj2 (quote_cmp_better_rate_first q q' Hq Hq' _) _ _); [by rewrite Hp, Hp'| |by apply Hnew].
  unfold max_base_tokens. by rewrite Hr, Hr', Hc, Hc'.
Qed.

(** A tombstone at most one block ahead is not too far. *)
Lemma made_near p r c t l q n : made p r c t l q → t ≤ n + 1 → tombstone_too_far n q = false.
Proof.
  intros [_ _ _ (ir & Hir & Ht) _ _] Hn. unfold tombstone_too_far. rewrite Hir, Ht.
  pose proof max_tombstone_blocks_bound. apply Z.ltb_ge. lia.
Qed.

Lemma made_expired p r c t l q n :
  made p r c t l q → 0 ≤ n < 2 ^ 62 → t ≤ n + 1 → expired n q ↔ t ≠ 0 ∧ t ≤ n.
Proof.
  intros [_ _ _ (ir & Hir & Ht) _ _] Hn Htn. unfold expired, tombstone_expired.
  pose proof max_tombstone_blocks_bound. rewrite Hir, Ht, validate_tombstone_spec by lia.
  rewrite (proj2 (Z.ltb_ge _ _)), orb_false_r by lia.
  rewrite andb_true_iff, negb_true_iff, Z.eqb_neq, Z.leb_le. done.
Qed.

Lemma expired_cons p r c t l0 q n l : made p r c t l0 q → 0 ≤ n < 2 ^ 62 → t ≤ n + 1 →
  filter (expired n) (q :: l) = if bool_decide (t ≠ 0 ∧ t ≤ n) then q :: filter (expired n) l else filter (expired n) l.
Proof.
  intros Hq Hn Ht. pose proof (made_expired _ _ _ _ _ _ n Hq Hn Ht). rewrite filter_cons.
  by destruct (decide (expired n q)), (bool_decide_reflect (t ≠ 0 ∧ t ≤ n)); tauto.
Qed.
Lemma unexpired_cons p r c t l0 q n l : made p r c t l0 q → 0 ≤ n < 2 ^ 62 → t ≤ n + 1 →
  filter (λ x, ¬ expired n x) (q :: l) =
  if bool_decide (t ≠ 0 ∧ t ≤ n) then filter (λ x, ¬ expired n x) l else q :: filter (λ x, ¬ expired n x) l.
Proof.
  intros Hq Hn Ht. pose proof (made_expired _ _ _ _ _ _ n Hq Hn Ht). rewrite filter_cons.
  by destruct (decide (¬ expired n q)), (bool_decide_reflect (t ≠ 0 ∧ t ≤ n)); tauto.
Qed.
End Rules.

(** Evaluates which quotes of known terms a query selects. *)
Ltac select_quotes :=
  repeat (erewrite selected_cons; [|eapply made_pair; eassumption|eapply made_range; eassumption]);
  repeat match goal with |- context [if ?c then _ else _] =>
    let v := eval vm_compute in c in change c with v; cbn iota end;
  change (selected _ _ []) with (@nil Quote).

(** The order of quotes of known terms. *)
Ltac sort_quotes :=
  repeat match goal with
  | |- StronglySorted _ _ => constructor
  | |- Forall _ _ => constructor
  | |- cmp_lt _ _ _ => first
      [ eapply made_better; [eassumption..|cbn; lia]
      | eapply made_older; [eassumption..|cbn; lia|set_solver] ]
  end.

(** The quotes of the book have a price. *)
Ltac quotes_priced :=
  match goal with H : holds _ _ _ |- _ =>
    let HP := fresh "HP" in pose proof (holds_priced _ _ _ H) as HP; rewrite ?Forall_cons in HP; destruct_and? HP
  end.

(** Asks for quotes, and asserts that they are the ones given. *)
Ltac query p r limit all :=
  eapply (get_quotes_returns p r limit all); [eassumption|done|sort_quotes|select_quotes; solve_Permutation|];
  apply returns_bind, returns_assert; [done|].

(** Asks for the ids of a pair, which are those of the quotes given. *)
Ltac ask_ids p :=
  eapply (get_quote_ids_returns p); [eassumption|];
  let ids := fresh "ids" in let Hids := fresh "Hids" in intros ids Hids;
  repeat (erewrite in_pair_cons in Hids; [|eassumption]);
  repeat match type of Hids with context [if ?c then _ else _] =>
    let v := eval vm_compute in c in change c with v in Hids; cbn iota in Hids end;
  cbn in Hids.

(** Removes what expires at a block, which are the quotes given. *)
Ltac expire n removed :=
  eapply (remove_tombstone_returns n removed);
    [eassumption|lia|repeat (constructor; [eapply made_near; [eassumption|lia]|]); constructor| |cbn; lia|];
  (repeat (erewrite expired_cons; [|eassumption|lia|lia]); repeat (erewrite unexpired_cons; [|eassumption|lia|lia]);
   repeat match goal with |- context [if bool_decide ?c then _ else _] =>
     let v := eval vm_compute in (bool_decide c) in change (bool_decide c) with v; cbn iota end);
  [done|];
  match goal with H : holds _ _ ?w |- _ => clear H w end;
  change (filter _ []) with (@nil Quote);
  let w := fresh "w" in let Hh := fresh "Hh" in intros w Hh; apply returns_bind, returns_assert; [done|].

(** * Every book passes *)

Section Pass.
Context `{McLib} `{!McLibLaws _, !TombstoneLaws _} {S Acc IC B QB : Type} `{!TestLib S Acc IC B, !TestLibLaws S Acc IC B}.
Context `{!QuoteBook QB, !QuoteBookLaws QB, !TotalBook QB, !StoresTests QB}.
Context (with_ledger : bool).
Local Abbreviation world := (S * QB)%type.
Implicit Types (w : world) (l : list Quote).

(** A test passes: it returns. *)
Definition passes (test : stateful world Error unit) (w : world) : Prop := returns test w (λ _ _, True).

Lemma get_quotes_filtering_passes w : holds 5 [] w → passes (get_quotes_filtering_works with_ledger) w.
Proof.
  intros Hh. unfold passes, get_quotes_filtering_works.
  eapply (offer_full_ok with_ledger test_pair 100 1000 []); [done..|]. clear w Hh. intros p1 w Hh M1.
  eapply (offer_partial_ok with_ledger test_pair2 100 1 1000 [p1]); [done..|]. clear w Hh. intros a w Hh Ma.
  eapply (offer_partial_ok with_ledger test_pair2 5 1 50 [a; p1]); [done..|]. clear w Hh. intros b w Hh Mb.
  eapply (offer_partial_ok with_ledger test_pair2 50 1 5 [b; a; p1]); [done..|]. clear w Hh. intros c w Hh Mc.
  eapply (offer_full_ok with_ledger test_pair2 50 3 [c; b; a; p1]); [done..|]. clear w Hh. intros d w Hh Md.
  quotes_priced.
  query test_pair everything 0 [p1].
  query test_pair2 everything 0 [d; c; a; b].
  query test_pair everything 2 [p1].
  query test_pair2 everything 2 [d; c; a; b].
  query test_pair (Included 10000, Unbounded) 2 (@nil Quote).
  query test_pair2 (Included 10000, Unbounded) 2 (@nil Quote).
  query test_pair2 (Included 50, Unbounded) 0 [d; c; a].
  query test_pair2 (Included 51, Unbounded) 0 [a].
  eapply (get_quotes_returns test_pair2 (Included 50, Excluded 70) 0 [d; c; a]);
    [eassumption|done|sort_quotes|select_quotes; solve_Permutation|].
  by apply returns_assert.
Qed.

Lemma get_quote_ids_passes w : holds 3 [] w → passes (get_quote_ids_works with_ledger) w.
Proof.
  intros Hh. unfold passes, get_quote_ids_works.
  eapply (offer_full_ok with_ledger test_pair 100 1000 []); [done..|]. clear w Hh. intros q1 w Hh [Hp1 _ _ _ _ _].
  eapply (offer_full_ok with_ledger test_pair 100 1000 [q1]); [done..|]. clear w Hh. intros q2 w Hh [Hp2 _ _ _ _ _].
  eapply (offer_full_ok with_ledger test_pair2 100 1000 [q2; q1]); [done..|]. clear w Hh. intros q3 w Hh [Hp3 _ _ _ _ _].
  ask_ids (@None Pair). apply returns_bind, returns_assert; [unfold ids_as_set; rewrite (list_to_set_perm_L _ _ Hids); set_solver|].
  ask_ids (Some test_pair). apply returns_bind, returns_assert; [unfold ids_as_set; rewrite (list_to_set_perm_L _ _ Hids0); set_solver|].
  ask_ids (Some test_pair2). apply returns_bind, returns_assert; [unfold ids_as_set; rewrite (list_to_set_perm_L _ _ Hids1); set_solver|].
  ask_ids (Some test_pair3). apply Permutation_nil_r in Hids2 as ->. by apply returns_assert.
Qed.

Lemma get_quote_by_id_passes w : holds 2 [] w → passes (get_quote_by_id_works with_ledger) w.
Proof.
  intros Hh. unfold passes, get_quote_by_id_works.
  eapply (offer_full_ok with_ledger test_pair 100 1000 []); [done..|]. clear w Hh. intros q1 w Hh M1.
  eapply (create_sci_ok with_ledger test_pair 100 1000 [q1]); [done..|]. clear w Hh. intros sci w Hh Hun Hon.
  destruct (full_terms _ _ _ _ _ _ _ Hon) as (ir & Hir & _ & Ho).
  apply returns_bind, returns_unwrap; eapply (returns_clock [q1]); [done|].
  intros t w' Hh' _ Ht _ _ _ _. eapply returns_lift; [by eapply quote_new_now; [apply Hon|..]|].
  eapply (get_quote_by_id_returns _ [q1]); [done|]. intros [q|] Hq; cycle 1.
  { by destruct (Hq q1 (list_elem_of_here _ _)). }
  destruct Hq as [->%list_elem_of_singleton _]. apply returns_bind, returns_assert; [done|].
  eapply (get_quote_by_id_returns _ [q1]); [done|]. intros [q|] Hq; [|by apply returns_assert].
  destruct Hq as [->%list_elem_of_singleton Hid]. by destruct (unlike_quotes _ _ _ Hun q1 (list_elem_of_here _ _)) as [_ []].
Qed.

Lemma tombstone_flow_passes quote p r c l w :
  holds 3 [] w → made p r c 2000 l quote → passes (tombstone_flow with_ledger quote) w.
Proof.
  intros Hh [_ _ _ (ir & Hir & Ht) _ _]. unfold passes, tombstone_flow.
  eapply (offer_full_ok with_ledger test_pair 10 20 []); [done..|]. clear w Hh. intros q1 w Hh M1.
  apply returns_bind, (returns_lift _ 2000); [unfold quote_tombstone; by rewrite Hir, Ht|].
  eapply (offer_tombstone_ok with_ledger test_pair 10 20 1999 [q1]); [done..|]. clear w Hh. intros q2 w Hh M2.
  eapply (offer_tombstone_ok with_ledger test_pair 10 20 0 [q2; q1]); [done..|]. clear w Hh. intros q3 w Hh M3.
  expire 1999 [q2]. expire 1999 (@nil Quote). expire 2000 [q1]. expire 2000 (@nil Quote).
  quotes_priced. eapply (get_quotes_returns test_pair everything 0 [q3]);
    [eassumption|done|sort_quotes|by select_quotes|]. by apply returns_assert.
Qed.

Lemma basic_happy_flow_passes w : holds 5 [] w → passes (basic_happy_flow with_ledger) w.
Proof.
  intros Hh. unfold passes, basic_happy_flow.
  eapply (offer_full_ok with_ledger test_pair 10 20 []); [done..|]. clear w Hh. intros q1 w Hh M1. quotes_priced.
  query test_pair everything 0 [q1].
  eapply (offer_full_ok with_ledger test_pair 10 200 [q1]); [done..|]. clear w Hh. intros q2 w Hh M2. quotes_priced.
  query test_pair everything 0 [q1; q2].
  destruct (made_unlike _ _ _ _ _ _ M2 q1 (list_elem_of_here _ _)) as [Hk Hid].
  eapply (remove_id_returns q1 [q2]).
  { destruct Hh as [? ? Hknown ?]. split; [done|by rewrite (Permutation_swap q2 q1 [])| |done].
    eapply known_sub; [|exact Hknown]. set_solver. }
  { intros x ->%list_elem_of_singleton. by apply not_eq_sym. }
  clear w Hh. intros w Hh. apply returns_bind, returns_assert; [done|].
  query test_pair everything 0 [q2].
  eapply (remove_id_missing (q_id q1) [q2]); [done|intros x ->%list_elem_of_singleton; by apply not_eq_sym|].
  clear w Hh. intros w Hh. apply returns_bind, returns_assert; [done|].
  change (sci_key_image (q_sci q1)) with (quote_key_image q1). change (sci_key_image (q_sci q2)) with (quote_key_image q2).
  eapply (remove_ki_returns (quote_key_image q1) []); [exact Hh|by rewrite filter_cons_False by congruence|cbn; lia|].
  rewrite filter_cons_True by congruence. change (filter _ []) with (@nil Quote).
  clear w Hh. intros w Hh. apply returns_bind, returns_assert; [done|].
  eapply (remove_ki_returns (quote_key_image q2) [q2]); [exact Hh|by rewrite filter_cons_True|cbn; lia|].
  rewrite filter_cons_False by congruence. change (filter _ []) with (@nil Quote).
  clear w Hh. intros w Hh. apply returns_bind, returns_assert; [done|].
  query test_pair everything 0 (@nil Quote). by eapply tombstone_flow_passes.
Qed.

Lemma cannot_add_invalid_passes w : holds 2 [] w → passes (cannot_add_invalid_sci with_ledger) w.
Proof.
  intros Hh. unfold passes, cannot_add_invalid_sci.
  apply returns_bind, returns_env. eapply returns_mono; [|apply (create_builder_returns test_pair 10 20)].
  cbn beta. intros b s1 (key & Hkey & Ht & Ho). apply returns_bind, returns_env, returns_fun.
  pose proof (account_random_trace s1) as Htr. cbn [fst snd]. destruct (account_random s1) as [acc s2]. cbn [fst snd] in *.
  destruct (add_required_ok {| amt_value := 10; amt_token_id := 3 |} acc b s2) as (b' & s3 & Hadd & Ht3 & Ho3).
  apply returns_bind, returns_env, returns_unwrap. exists b', s3. split; [exact Hadd|]. cbn [fst snd].
  rewrite Ho in Ho3. cbn in Ho3. rewrite Htr, Ht in Ht3.
  apply returns_bind, returns_env, tb_build_returns; rewrite Ho3; [by split; cbn; repeat constructor|].
  cbn [fst snd]. intros sci s4 Hon _ Ht4. rewrite Ht3 in Ht4.
  assert (holds 2 [] (s4, w.2)) as Hh4 by (destruct Hh as [? ? _ Hj]; split; [done|done| |by cbn; rewrite Ht4]; intros x Hx; by apply elem_of_nil in Hx).
  eapply (add_invalid_fails _ (UnsupportedSci "Unsupported number of required/partial outputs 2/0") []); [done| |].
  { intros t Htu. destruct Hon as [Hv _ _ _ _ _ (ir & Hir & Hlen & Hpf & _)]. cbn in Hlen, Hpf.
    unfold quote_new, default_timestamp. cbn. rewrite bool_decide_true by done. cbn. rewrite Hv, Hir. cbn.
    unfold quote_terms. rewrite Hlen. by apply Forall2_nil_inv_r in Hpf as ->. }
  clear. intros w Hh. apply returns_bind, returns_assert; [done|].
  eapply (create_sci_ok with_ledger test_pair 10 20 []); [done..|]. clear w Hh. intros sci w Hh _ Hon.
  eapply (add_invalid_fails _ (SciErr "RingSignature(LengthMismatch(22, 21))") []); [done| |].
  { intros t Htu. unfold quote_new, default_timestamp. cbn. rewrite bool_decide_true by done. cbn.
    by rewrite (pop_response_invalid _ _ Hon). }
  intros w' _. by apply returns_assert.
Qed.

Lemma sci_on_reindexed o sci i rest : sci_on o sci → tx_out_global_indices sci = i :: rest →
  sci_on o (with_global_indices (u64_add i 1 :: rest) sci).
Proof.
  intros Hon Hi. destruct (reindexed _ _ _ _ Hon Hi) as (Hv & Hk & _).
  destruct Hon as [_ [? ? ?] Hkey ? ? _ ?]. split; [done|by split|by rewrite Hk|done..].
Qed.

Lemma cannot_add_duplicate_passes w : holds 4 [] w → passes (cannot_add_duplicate_sci with_ledger) w.
Proof.
  intros Hh. unfold passes, cannot_add_duplicate_sci.
  eapply (create_sci_ok with_ledger test_pair 10 20 []); [done..|]. clear w Hh. intros sci w Hh Hun Hon.
  destruct (full_terms _ _ _ _ _ _ _ Hon) as (ir & Hir & _ & Ho). cbn in Ho.
  eapply add_sci_returns; [done..|]. clear w Hh Hun. intros t w Hh _. set (q1 := quote_on_terms sci 2 (10, 10) 20 t) in *.
  assert (∀ x, x ∈ [q1] → slot x = slot q1) as Hslot by by intros x ->%list_elem_of_singleton.
  eapply (add_duplicate_fails _ sci ir 2 (10, 10) 20 q1); [done..|left|].
  clear w Hh. intros w Hh. apply returns_bind, returns_assert; [done|].
  destruct (tx_out_global_indices sci) as [|i rest] eqn:Hi; [by destruct (on_indices _ _ Hon)|].
  apply returns_bind. eapply returns_lift; [unfold bump_first_index; by rewrite Hi|].
  destruct (reindexed _ _ _ _ Hon Hi) as (Hv & Hk & Hid). pose proof (sci_on_reindexed _ _ _ _ Hon Hi) as Hon2.
  set (sci2 := with_global_indices (u64_add i 1 :: rest) sci) in *.
  destruct (full_terms _ _ _ _ _ _ _ Hon2) as (ir2 & Hir2 & _ & Ho2). cbn in Ho2.
  eapply (add_duplicate_fails _ sci2 ir2 2 (10, 10) 20 q1); [done..| |left|].
  { intros x Hx. rewrite (Hslot x Hx), Hk. done. }
  clear w Hh. intros w Hh. apply returns_bind, returns_assert; [done|].
  apply returns_bind, returns_assert; [done|].
  apply returns_bind, returns_unwrap; eapply (returns_clock [q1]); [done|].
  intros t2 w2 _ _ Ht2 _ _ _ _. eapply returns_lift; [by eapply quote_new_now|].
  apply returns_bind, (returns_lift _ tt); [|by apply returns_assert].
  by rewrite bool_decide_true by by apply not_eq_sym.
Qed.

(** A book that is up and empty can be tested. *)
Lemma new_book_holds j w : book_up w.2 → contents w.2 = [] → ticks j (trace w.1) → holds j [] w.
Proof. intros Hup Hc Hj. split; [done|by rewrite Hc| |done]. intros x Hx. by apply elem_of_nil in Hx. Qed.

(** C13: every quote book passes the conformance tests.  On a book that is up
    and empty each test returns: none of its assertions fails and none of the
    results it unwraps is an error, in every run in which the first five
    readings of the system clock are later one than the other.  The condition is
    the tests' own: quotes of the same rate are listed by time, and the tests
    expect the order in which they were added. *)
Theorem conformance_tests_pass w :
  book_up w.2 → contents w.2 = [] → ticks 5 (trace w.1) →
  passes (basic_happy_flow with_ledger) w ∧ passes (cannot_add_invalid_sci with_ledger) w ∧
  passes (cannot_add_duplicate_sci with_ledger) w ∧ passes (get_quotes_filtering_works with_ledger) w ∧
  passes (get_quote_ids_works with_ledger) w ∧ passes (get_quote_by_id_works with_ledger) w.
Proof.
  intros Hup Hc Hj. assert (∀ j, (j ≤ 5)%nat → holds j [] w) as Hh by (intros j ?; apply new_book_holds; [done..|by eapply ticks_le]).
  split; [by apply basic_happy_flow_passes, Hh; lia|]. split; [by apply cannot_add_invalid_passes, Hh; lia|].
  split; [by apply cannot_add_duplicate_passes, Hh; lia|]. split; [by apply get_quotes_filtering_passes, Hh; lia|].
  split; [by apply get_quote_ids_passes, Hh; lia|by apply get_quote_by_id_passes, Hh; lia].
Qed.
End Pass.

(** * The books of the repository *)

Section Books.
Context `{McLib} `{!McLibLaws _, !TombstoneLaws _} {S Acc IC B : Type} `{!TestLib S Acc IC B, !TestLibLaws S Acc IC B}.

#[export] Instance InMemory_StoresTests `{!HashIter Pair (list Quote)} : StoresTests InMemoryQuoteBook.
Proof. by split. Qed.

#[export] Instance Sqlite_StoresTests `{SciCodec} `{!SciCodecLaws _} {DB QB : Type}
    `{!SqlDb DB, !SqlDbLaws DB, !WorkingDb DB, !QuoteBook QB, !QuoteBookLaws QB, !TotalBook QB, !StoresTests QB} :
  StoresTests (SqliteQuoteBook DB QB).
Proof.
  split.
  - intros o sci c r m t Hon Ht Hc. split; [by eapply stores_quote|].
    destruct (on_wf _ _ Hon) as [[_ Hb] _ Hrules]. split.
    + split; cbn; [apply digest32_length|done..].
    + apply sci_wf_tombstone, Hon.
  - intros n q Hn Hnear. split; [by apply sweeps_quote|done].
Qed.
End Books.

(** * The theorem on examples *)

Module ConformanceExamples.
Import SampleCodec SampleDb BookEquivExamples.

(** A library for the tests: the key image is the public key of the ring, the
    digest starts with the signature's number and goes on with the indices; a
    signature that lacks its response is invalid. *)
Definition check_signature (sci : SignedContingentInput) : outcome SciError unit :=
  if decide (length (sci_signature sci) < 2)%nat then Err "RingSignature(LengthMismatch(22, 21))" else Sample.validate sci.

#[export] Instance test_lib : McLib := {|
  sci_validate := check_signature;
  sci_key_image sci := default [] (txo_public_key <$> ring (tx_in sci) !! 0%nat);
  sci_digest32 _ sci := resize 32 0 (default 0 (sci_signature sci !! 0%nat) :: tx_out_global_indices sci);
  reveal_amount := Sample.reveal;
  validate_tombstone := @validate_tombstone Sample.sample_lib;
|}.

#[export] Program Instance test_lib_tombstones : TombstoneLaws test_lib := {| max_tombstone_blocks := 20160 |}.
Next Obligation. lia. Qed.
Next Obligation. exact (@validate_tombstone_spec _ Sample.sample_tombstones). Qed.

#[export] Instance test_lib_laws : McLibLaws test_lib.
Proof.
  split; cbn; unfold check_signature.
  - intros sci ir Hv Hir. case_decide; [done|]. by apply (@validate_required_amounts _ Sample.sample_laws sci).
  - intros sci p. case_decide; [done|]. apply (@validate_no_panic _ Sample.sample_laws).
  - apply (@reveal_no_panic _ Sample.sample_laws).
  - apply (@reveal_u64 _ Sample.sample_laws).
  - intros _ sci. by rewrite length_resize.
Qed.

Definition no_tx_out (key : bytes) : TxOut := {| txo_public_key := key; txo_target_key := []; txo_rest := [] |}.
Definition reveals (a : Amount) : RevealedTxOut :=
  {| rto_tx_out := no_tx_out []; rto_secret := [amt_value a; amt_token_id a] |}.

(** The SCI of an offer, with the number of its signature. *)
Definition sci_of (o : Offer) (number : Z) : SignedContingentInput := {|
  pseudo_output_amount := of_base o;
  required_output_amounts := of_required o;
  tx_in := {| ring := [no_tx_out (of_key_image o)];
              input_rules := Some {| required_outputs := (λ _, no_tx_out []) <$> of_required o;
                                     partial_fill_outputs := reveals <$> of_partial o;
                                     partial_fill_change := reveals <$> of_change o;
                                     min_partial_fill_value := of_min_fill o;
                                     max_tombstone_block := of_tombstone o |} |};
  tx_out_global_indices := [7];
  sci_signature := [number; 1];
|}.

(** The outside: what has been issued, the last reading of the clock, and the
    readings to come. *)
Record Outside := mk_outside {
  out_keys : list KeyImage; out_digests : list QuoteId; out_last : Z; out_clock : list Z }.

(** Nothing issued, and a clock that reads 1, 2, ... [n]. *)
Definition outside_at_start (n : nat) : Outside := mk_outside [] [] 0 (Z.of_nat <$> seq 1 n).

(** A number that starts no digest so far. *)
Definition new_number (s : Outside) : Z := fresh ((λ d, default 0 (head d)) <$> out_digests s).

#[export] Instance test_env : TestLib Outside unit (KeyImage * Amount) Offer := {|
  account_random s := (tt, s);
  get_input_credentials amount _ s :=
    let key := fresh (out_keys s) in ((key, amount), mk_outside (key :: out_keys s) (out_digests s) (out_last s) (out_clock s));
  ic_ring ic := [no_tx_out ic.1];
  ic_proof_indices _ := [0];
  ic_set_proof_indices _ ic := ic;
  ledger_num_txos _ := Ok 0;
  add_txos_to_ledger _ s := (Ok tt, s);
  tb_new ic := Ok (mk_offer ic.1 ic.2 [] [] None 0 0);
  tb_add_required_output a _ o s := (Ok (mk_offer (of_key_image o) (of_base o) (of_required o ++ [a]) (of_partial o)
                                           (of_change o) (of_min_fill o) (of_tombstone o)), s);
  tb_add_required_change_output a _ o s := (Ok (mk_offer (of_key_image o) (of_base o) (of_required o ++ [a])
                                                  (of_partial o) (of_change o) (of_min_fill o) (of_tombstone o)), s);
  tb_add_partial_fill_output a _ o s := (Ok (mk_offer (of_key_image o) (of_base o) (of_required o) (of_partial o ++ [a])
                                               (of_change o) (of_min_fill o) (of_tombstone o)), s);
  tb_add_partial_fill_change_output a _ o s := (Ok (mk_offer (of_key_image o) (of_base o) (of_required o) (of_partial o)
                                                      (Some a) (of_min_fill o) (of_tombstone o)), s);
  tb_set_tombstone_block n o := mk_offer (of_key_image o) (of_base o) (of_required o) (of_partial o) (of_change o)
                                  (of_min_fill o) n;
  tb_set_min_partial_fill_value n o := mk_offer (of_key_image o) (of_base o) (of_required o) (of_partial o)
                                         (of_change o) n (of_tombstone o);
  tb_build o s :=
    let sci := sci_of o (new_number s) in
    (Ok sci, mk_outside (out_keys s) (quote_id_from_sci sci :: out_digests s) (out_last s) (out_clock s));
  pop_response sci := {| pseudo_output_amount := pseudo_output_amount sci;
                         required_output_amounts := required_output_amounts sci; tx_in := tx_in sci;
                         tx_out_global_indices := tx_out_global_indices sci;
                         sci_signature := take 1 (sci_signature sci) |};
  system_time s :=
    match out_clock s with
    | t :: readings => (Some t, mk_outside (out_keys s) (out_digests s) t readings)
    | [] => (None, s)
    end;
|}.

Lemma new_number_fresh s rest : resize 32 0 (new_number s :: rest) ∉ out_digests s.
Proof.
  intros Hin. apply (infinite_is_fresh ((λ d, default 0 (head d)) <$> out_digests s)).
  apply list_elem_of_fmap. eexists. by split; [|exact Hin].
Qed.

Lemma reveals_ok a : amount_wf a → Sample.reveal (reveals a) = Ok (a, []).
Proof. intros [Hv Ht]. unfold Sample.reveal. cbn. rewrite bool_decide_true by done. by destruct a. Qed.

Lemma sci_of_on o number : buildable o → sci_on o (sci_of o number).
Proof.
  intros [Hb Hr Hp Hm Hch]. split; cbn; [| |done..|].
  - unfold check_signature. rewrite decide_False by (cbn; lia). unfold Sample.validate. cbn. by rewrite decide_True by (symmetry; apply length_fmap).
  - split; cbn; [done|done|]. by intros ir [= <-].
  - eexists. split; [done|]. cbn. split; [apply length_fmap|]. split; [|done].
    clear Hch. induction Hp; cbn; constructor; [|done]. exists []. by apply reveals_ok.
Qed.

#[export] Program Instance test_env_laws : TestLibLaws Outside unit (KeyImage * Amount) Offer := {|
  trace s := mk_trace (out_keys s) (out_digests s) (out_last s) (out_clock s);
  ic_amount := snd; ic_key_image := fst; tb_offer o := o; default_tombstone := 0;
|}.
Next Obligation. done. Qed.
Next Obligation. done. Qed.
Next Obligation. intros amount [] s ic s' [= <- <-]. split; [done|]. split; [apply infinite_is_fresh|done]. Qed.
Next Obligation. done. Qed.
Next Obligation. eauto. Qed.
Next Obligation. eauto. Qed.
Next Obligation. eauto. Qed.
Next Obligation. eauto. Qed.
Next Obligation. eauto. Qed.
Next Obligation. eauto. Qed.
Next Obligation. eauto. Qed.
Next Obligation. done. Qed.
Next Obligation. done. Qed.
Next Obligation.
  intros o s Hb. eexists _, _. split; [done|]. split; [by apply sci_of_on|]. split; [apply new_number_fresh|done].
Qed.
Next Obligation.
  intros o sci Hon. cbn. unfold check_signature. cbn. rewrite decide_True; [done|]. rewrite length_take. lia.
Qed.
Next Obligation.
  intros o sci i rest Hon Hi. cbn. split; [apply Hon|]. split; [done|]. rewrite Hi. cbn. intros [= E].
  unfold u64_add, wrap64 in E. pose proof (Z.mod_pos_bound (i + 1) U64_MOD ltac:(done)).
  rewrite E in H. destruct (decide (i + 1 = U64_MOD)) as [E2|]; [rewrite E2, Z.mod_same in E by done; unfold U64_MOD in *; lia|].
  rewrite Z.mod_small in E by lia. lia.
Qed.
Next Obligation.
  intros s t readings Hc. cbn in *. rewrite Hc. by eexists.
Qed.

(** A new SQLite book over an in-memory one, and the outside. *)
Definition new_world : Outside * SqliteQuoteBook Db InMemoryQuoteBook :=
  (outside_at_start 10, mk_sqlite {| db_rows := []; commit_fails := false |} im_default).

Lemma new_world_up : book_up new_world.2.
Proof.
  assert (im_up im_default) as Hup by (split; [by apply im_reachable_healthy, rtc_refl|constructor]).
  split; [|done|exact Hup|constructor]. split; [apply Hup|done|constructor].
Qed.

Lemma conformance_tests_pass_witness :
  passes (basic_happy_flow true) new_world ∧ passes (cannot_add_invalid_sci true) new_world ∧
  passes (cannot_add_duplicate_sci true) new_world ∧ passes (get_quotes_filtering_works true) new_world ∧
  passes (get_quote_ids_works true) new_world ∧ passes (get_quote_by_id_works true) new_world.
Proof. apply (conformance_tests_pass true new_world new_world_up); [done|by vm_compute]. Defined.

(** The tests can also be run, and they can fail: on a book that has a quote
    already the first query of [basic_happy_flow] finds one too many. *)
Example tests_run :
  is_ok (basic_happy_flow true new_world).1 = true ∧
  is_ok (get_quotes_filtering_works false (outside_at_start 10, im_default)).1 = true ∧
  is_panic (basic_happy_flow false (get_quote_by_id_works false (outside_at_start 10, im_default)).2).1 = true.
Proof. by vm_compute. Qed.
End ConformanceExamples.
