(* ===== verification/BookTests.v ===== *)
(** Opening a SQLite quote book (quote-book/sqlite/src/lib.rs,
    [ConnectionOptions] and [new_from_file_path]), and the unit tests of the
    in-memory and the SQLite book, which run the conformance suite on a new
    book.

    The connection pool (r2d2), the statements sent to SQLite, paths and
    temporary directories are parameters. *)

From S2P Require Import Prelude McTypes QuoteApi QuotePricing QuoteBook InMemory SqlTypes Sqlite BookEquiv TestUtils Conformance.

(** * Opening the database *)

(** [diesel::r2d2::Error] *)
Inductive R2d2Error := ConnectionError (msg : string) | QueryError (e : DieselError).

(** [std::time::Duration], in nanoseconds *)
Definition Duration : Type := Z.
Definition from_secs (n : Z) : Duration := n * 10 ^ 9.
Definition as_millis (d : Duration) : Z := d / 10 ^ 6.

Record ConnectionOptions := { enable_wal : bool; busy_timeout : option Duration }.

(** [r2d2::Builder] as far as it is set. *)
Record PoolBuilder (CONN : Type) := {
  pb_max_size : Z;
  pb_on_acquire : stateful CONN R2d2Error unit;
  pb_test_on_check_out : bool;
}.
Arguments pb_max_size {CONN}.
Arguments pb_on_acquire {CONN}.
Arguments pb_test_on_check_out {CONN}.

Class SqlitePools (DB CONN P W : Type) := {
  (** [conn.batch_execute(..)] *)
  batch_execute : string → stateful CONN DieselError unit;
  (** [builder.build(ConnectionManager::new(url))] *)
  pool_build : PoolBuilder CONN → string → stateful W string DB;
  (** [Path::to_str], [Path::join], [TempDir::new] *)
  path_to_str : P → option string;
  path_join : P → string → P;
  temp_dir : stateful W string P;
}.

Definition busy_timeout_pragma (d : Duration) : string := "PRAGMA busy_timeout = " +:+ pretty (as_millis d) +:+ ";".
Definition wal_pragmas : string := "
                    PRAGMA journal_mode = WAL;          -- better write-concurrency
                    PRAGMA synchronous = NORMAL;        -- fsync only in critical moments
                    PRAGMA wal_autocheckpoint = 1000;   -- write WAL changes back every 1000 pages, for an in average 1MB WAL file. May affect readers if number is increased
                    PRAGMA wal_checkpoint(TRUNCATE);    -- free some space by truncating possibly massive WAL files from the last run.
                    PRAGMA foreign_keys = ON;           -- enable foreign key checks
                ".

Section Open.
Context `{McLib, SciCodec} {DB CONN P W QB : Type} `{!SqlDb DB, !SqlitePools DB CONN P W, !QuoteBook QB}.

(** [ConnectionOptions::on_acquire] *)
Definition on_acquire (o : ConnectionOptions) : stateful CONN R2d2Error unit := λ conn,
  let '(r, conn') :=
    ((match busy_timeout o with Some d => batch_execute (busy_timeout_pragma d) | None => st_ret tt end) ;;;
     (if enable_wal o then batch_execute wal_pragmas else st_ret tt)) conn in
  (map_err QueryError r, conn').

(** [Builder::max_size]: "Panics if max_size is 0." *)
Definition max_size (n : Z) : outcome Error Z :=
  _ ← rust_assert (0 <? n) "max_size must be greater than zero!"; Ok n.

Definition DB_CONNECTION_OPTIONS : ConnectionOptions :=
  {| enable_wal := true; busy_timeout := Some (from_secs 30) |}.

(** An error of the pool's builder becomes one of the book. *)
Definition pool_io {A} (m : stateful W string A) : stateful W Error A := λ w,
  let '(r, w') := m w in (map_err (λ e, sql_error_into (R2d2 e)) r, w').

Definition sq_new_from_file_path (file_path : P) (db_connections : Z) (quote_book : QB) :
    stateful W Error (SqliteQuoteBook DB QB) :=
  url <-- st_lift (ok_or (path_to_str file_path) (ImplementationSpecific "Invalid file path"));;
  size <-- st_lift (max_size db_connections);;
  pool <-- pool_io (pool_build {| pb_max_size := size; pb_on_acquire := on_acquire DB_CONNECTION_OPTIONS;
                                  pb_test_on_check_out := true |} url);;
  st_lift (sq_new pool quote_book).

(** A path that is not UTF-8 is refused before the pool is built, and no
    connections at all are a panic. *)
Lemma new_from_file_path_refuses path n qb w :
  (path_to_str path = None →
     sq_new_from_file_path path n qb w = (Err (ImplementationSpecific "Invalid file path"), w)) ∧
  (∀ url, path_to_str path = Some url → n ≤ 0 →
     sq_new_from_file_path path n qb w = (Panic "max_size must be greater than zero!", w)).
Proof.
  unfold sq_new_from_file_path, st_bind, st_lift. split; [by intros ->|].
  intros url -> Hn. cbn. unfold max_size. by rewrite (proj2 (Z.ltb_ge 0 n)).
Qed.
End Open.

(** What r2d2 and SQLite promise.  A pool opens its connections with the
    customizer; it exists once that succeeds on them.  A new file is an empty
    database. *)
Class SqlitePoolsLaws (DB CONN P W : Type) `{!SqlDb DB, !SqlDbLaws DB, !WorkingDb DB, !SqlitePools DB CONN P W} := {
  (** The statements a connection has carried out. *)
  executed : CONN → list string;
  batch_logged text c c' : batch_execute text c = (Ok tt, c') → executed c' = executed c ++ [text];
  (** An open connection to a file nobody has locked carries out pragmas. *)
  conn_open : CONN → Prop;
  pragma_runs text c : conn_open c → text = wal_pragmas ∨ (∃ d, text = busy_timeout_pragma d) →
    ∃ c', batch_execute text c = (Ok tt, c') ∧ conn_open c';
  new_file : W → string → Prop;
  build_new b url w : new_file w url → 0 < pb_max_size b →
    (∀ c, conn_open c → ∃ c', pb_on_acquire b c = (Ok tt, c')) →
    ∃ db w', pool_build b url w = (Ok db, w') ∧ db_up db ∧ rows db = [];
  (** Files can be made in the temporary directory, whose name is UTF-8. *)
  temp_usable : W → Prop;
  temp_dir_new w : temp_usable w → ∃ dir w', temp_dir w = (Ok dir, w') ∧
    ∀ name, ∃ url, path_to_str (path_join dir name) = Some url ∧ new_file w' url;
  up_migrates db : db_up db → ∃ db', db_migrate db = (Ok tt, db') ∧ db_up db';
  up_counts db : db_up db → ∃ n, db_count db = Ok n;
  up_loads db : db_up db → ∃ l, db_load db = Ok l;
}.

Section Opened.
Context `{McLib, SciCodec} `{!TombstoneLaws _, !SciCodecLaws _} {DB CONN P W QB : Type} `{!SqlDb DB, !SqlDbLaws DB, !WorkingDb DB}.
Context `{!SqlitePools DB CONN P W, !SqlitePoolsLaws DB CONN P W, !QuoteBook QB, !QuoteBookLaws QB, !TotalBook QB}.

(** A connection that was customized waits for locks before it changes the
    journal, as the first statement it carried out sets the timeout. *)
Lemma on_acquire_order o c c' :
  on_acquire o c = (Ok tt, c') →
  executed c' = executed c ++ (match busy_timeout o with Some d => [busy_timeout_pragma d] | None => [] end)
                           ++ (if enable_wal o then [wal_pragmas] else []).
Proof.
  unfold on_acquire, st_bind. destruct (busy_timeout o) as [d|].
  - destruct (batch_execute (busy_timeout_pragma d) c) as [[[]|?|?] c1] eqn:H1; [|done..].
    apply batch_logged in H1. destruct (enable_wal o).
    + destruct (batch_execute wal_pragmas c1) as [[[]|?|?] c2] eqn:H2; cbn; [|done..]. intros [= <-].
      by rewrite (batch_logged _ _ _ H2), H1, <-app_assoc.
    + by intros [= <-].
  - unfold st_ret. destruct (enable_wal o); [|intros [= <-]; by rewrite app_nil_r].
    destruct (batch_execute wal_pragmas c) as [[[]|?|?] c2] eqn:H2; cbn; [|done..]. intros [= <-].
    by apply batch_logged in H2.
Qed.

Lemma on_acquire_runs o c : conn_open c → ∃ c', on_acquire o c = (Ok tt, c').
Proof.
  intros Hc. unfold on_acquire, st_bind. destruct (busy_timeout o) as [d|].
  - destruct (pragma_runs (busy_timeout_pragma d) c Hc) as (c1 & -> & Hc1); [eauto|].
    destruct (enable_wal o); [|by exists c1]. destruct (pragma_runs wal_pragmas c1 Hc1) as (c2 & -> & _); [eauto|by exists c2].
  - unfold st_ret. destruct (enable_wal o); [|by exists c].
    destruct (pragma_runs wal_pragmas c Hc) as (c2 & -> & _); [eauto|by exists c2].
Qed.

(** A book on a new file is up and empty. *)
Lemma new_from_new_file path url n (qb : QB) w :
  path_to_str path = Some url → new_file w url → 0 < n → book_up qb → contents qb = [] →
  returns (sq_new_from_file_path path n qb) w (λ b _, book_up b ∧ contents b = []).
Proof.
  intros Hp Hnew Hn Hup Hc. unfold sq_new_from_file_path.
  apply returns_bind. eapply returns_lift; [by rewrite Hp|]. apply returns_bind. eapply (returns_lift _ n).
  { unfold max_size. by rewrite (proj2 (Z.ltb_lt 0 n)). }
  apply returns_bind. set (b := Build_PoolBuilder CONN _ _ _).
  destruct (build_new b url w Hnew Hn) as (db & w' & Hb & Hdb & Hrows); [intros c; apply on_acquire_runs|].
  exists db, w'. split; [unfold pool_io; by rewrite Hb|].
  destruct (up_migrates db Hdb) as (db' & Hm & Hdb'). pose proof (migrate_rows _ _ _ Hm) as Hr.
  destruct (up_counts db' Hdb') as [k Hk]. destruct (up_loads db' Hdb') as [l Hl].
  eapply (returns_lift _ (mk_sqlite db' qb)).
  - unfold sq_new. rewrite (db_up_conn _ Hdb), Hm. cbn. rewrite Hk. cbn. rewrite Hl. cbn.
    apply load_ok in Hl. rewrite Hr, Hrows in Hl. apply Permutation_nil_r in Hl as ->. done.
  - split; [|done]. split; cbn; [|done..|by rewrite Hc].
    split; cbn; [by apply up_inv|by rewrite Hr, Hrows, Hc|rewrite Hc; constructor].
Qed.
End Opened.

(** * The unit tests *)

Section Tests.
Context `{McLib, SciCodec} {S Acc IC B DB CONN P W : Type} `{!HashIter Pair (list Quote)}.
Context `{!TestLib S Acc IC B, !SqlDb DB, !SqlitePools DB CONN P W}.
Local Abbreviation sqlite := (SqliteQuoteBook DB InMemoryQuoteBook).

(** A test of the suite on a book of its own. *)
Definition with_book {QB} (quote_book : QB) (test : stateful (S * QB) Error unit) : stateful S Error unit := λ s,
  let '(r, (s', _)) := test (s, quote_book) in (r, s').

(** ** quote-book/in-memory *)
Definition im_basic_happy_flow : stateful S Error unit := with_book im_default (basic_happy_flow false).
Definition im_cannot_add_invalid_sci : stateful S Error unit := with_book im_default (cannot_add_invalid_sci false).
Definition im_get_quotes_filtering_works : stateful S Error unit :=
  with_book im_default (get_quotes_filtering_works false).
Definition im_get_quote_ids_works : stateful S Error unit := with_book im_default (get_quote_ids_works false).
Definition im_get_quote_by_id_works : stateful S Error unit := with_book im_default (get_quote_by_id_works false).

(** ** quote-book/sqlite: the files, and the generator and clock of the suite *)
Local Abbreviation world := (W * S)%type.

Definition with_files {A} (m : stateful W Error A) : stateful world Error A := λ w,
  let '(r, f) := m w.1 in (r, (f, w.2)).
Definition with_suite {A} (m : stateful S Error A) : stateful world Error A := λ w,
  let '(r, s) := m w.2 in (r, (w.1, s)).

Definition create_quote_book (dir : P) : stateful W Error sqlite :=
  unwrap (sq_new_from_file_path (path_join dir "quotes.db") 10 im_default).

Definition on_new_sqlite (test : stateful (S * sqlite) Error unit) : stateful world Error unit :=
  dir <-- with_files (unwrap (pool_io temp_dir));;
  quote_book <-- with_files (create_quote_book dir);;
  with_suite (with_book quote_book test).

Definition sq_basic_happy_flow : stateful world Error unit := on_new_sqlite (basic_happy_flow false).
Definition sq_cannot_add_duplicate_sci : stateful world Error unit := on_new_sqlite (cannot_add_duplicate_sci false).
Definition sq_cannot_add_invalid_sci : stateful world Error unit := on_new_sqlite (cannot_add_invalid_sci false).
Definition sq_get_quotes_filtering_works : stateful world Error unit := on_new_sqlite (get_quotes_filtering_works false).
Definition sq_get_quote_ids_works : stateful world Error unit := on_new_sqlite (get_quote_ids_works false).
Definition sq_get_quote_by_id_works : stateful world Error unit := on_new_sqlite (get_quote_by_id_works false).
End Tests.

Section Pass.
Context `{McLib, SciCodec} `{!McLibLaws _, !TombstoneLaws _, !SciCodecLaws _} {S Acc IC B DB CONN P W : Type}.
Context `{!HashIter Pair (list Quote), !TestLib S Acc IC B, !TestLibLaws S Acc IC B}.
Context `{!SqlDb DB, !SqlDbLaws DB, !WorkingDb DB, !SqlitePools DB CONN P W, !SqlitePoolsLaws DB CONN P W}.

Lemma im_default_up : im_up im_default.
Proof. split; [by apply im_reachable_healthy, rtc_refl|constructor]. Qed.

Lemma with_book_returns {QB} (qb : QB) (test : stateful (S * QB) Error unit) s :
  returns test (s, qb) (λ _ _, True) → returns (with_book qb test) s (λ _ _, True).
Proof. intros ([] & [s' b] & Ht & _). exists tt, s'. unfold with_book. by rewrite Ht. Qed.

(** The tests of the in-memory book pass. *)
Lemma in_memory_tests_pass (s : S) :
  ticks 5 (trace s) →
  Forall (λ test, returns test s (λ _ _, True))
    [im_basic_happy_flow; im_cannot_add_invalid_sci; im_get_quotes_filtering_works;
     im_get_quote_ids_works; im_get_quote_by_id_works].
Proof.
  intros Hj. assert (∀ j, (j ≤ 5)%nat → holds j [] (s, im_default)) as Hh.
  { intros j Hle. by apply new_book_holds; [apply im_default_up|done|cbn; eapply ticks_le]. }
  repeat (apply Forall_cons_2; [apply with_book_returns|]); [| | | | |apply Forall_nil_2].
  - by apply basic_happy_flow_passes, Hh; lia.
  - by apply cannot_add_invalid_passes, Hh; lia.
  - by apply get_quotes_filtering_passes, Hh; lia.
  - by apply get_quote_ids_passes, Hh; lia.
  - by apply get_quote_by_id_passes, Hh; lia.
Qed.

Lemma on_new_sqlite_returns (test : stateful (S * SqliteQuoteBook DB InMemoryQuoteBook) Error unit) f (s : S) :
  temp_usable f → (∀ b : SqliteQuoteBook DB InMemoryQuoteBook, book_up b → contents b = [] → returns test (s, b) (λ _ _, True)) →
  returns (on_new_sqlite test) (f, s) (λ _ _, True).
Proof.
  intros Hf Ht. unfold on_new_sqlite. destruct (temp_dir_new f Hf) as (dir & f1 & Hd & Hnew).
  destruct (Hnew "quotes.db") as (url & Hurl & Hfile).
  apply returns_bind. exists dir, (f1, s). split; [unfold with_files, unwrap, pool_io; cbn; by rewrite Hd|].
  destruct (new_from_new_file (QB:=InMemoryQuoteBook) _ url 10 im_default f1 Hurl Hfile ltac:(done) im_default_up eq_refl)
    as (b & f2 & Hb & Hup & Hc).
  apply returns_bind. exists b, (f2, s). split; [unfold with_files, create_quote_book, unwrap; cbn [fst snd]; by rewrite Hb|].
  destruct (with_book_returns b test s (Ht b Hup Hc)) as ([] & s' & Hs & _). exists tt, (f2, s').
  split; [unfold with_suite; cbn; by rewrite Hs|done].
Qed.

(** The tests of the SQLite book pass, each on a book in a new file. *)
Lemma sqlite_tests_pass f (s : S) :
  temp_usable f → ticks 5 (trace s) →
  Forall (λ test, returns test (f, s) (λ _ _, True))
    [sq_basic_happy_flow; sq_cannot_add_duplicate_sci; sq_cannot_add_invalid_sci;
     sq_get_quotes_filtering_works; sq_get_quote_ids_works; sq_get_quote_by_id_works].
Proof.
  intros Hf Hj. assert (∀ (b : SqliteQuoteBook DB InMemoryQuoteBook) j, book_up b → contents b = [] → (j ≤ 5)%nat →
    holds j [] (s, b)) as Hh by (intros b j ???; apply new_book_holds; [done..|by eapply ticks_le]).
  repeat (apply Forall_cons_2; [apply on_new_sqlite_returns; [done|intros b Hup Hc]|]); [| | | | | |apply Forall_nil_2].
  - by apply basic_happy_flow_passes, Hh; [..|lia].
  - by apply cannot_add_duplicate_passes, Hh; [..|lia].
  - by apply cannot_add_invalid_passes, Hh; [..|lia].
  - by apply get_quotes_filtering_passes, Hh; [..|lia].
  - by apply get_quote_ids_passes, Hh; [..|lia].
  - by apply get_quote_by_id_passes, Hh; [..|lia].
Qed.
End Pass.

(** * Examples *)

Module BookTestsExamples.
Import SampleCodec SampleDb BookEquivExamples ConformanceExamples.

(** Files are numbered; a connection is the list of what it carried out. *)
#[export] Instance sample_pools : SqlitePools Db (list string) string nat := {|
  batch_execute text c := (Ok tt, c ++ [text]);
  pool_build b url w :=
    match pb_on_acquire b [] with
    | (Ok _, _) => (Ok {| db_rows := []; commit_fails := false |}, w)
    | (_, _) => (Err "timed out waiting for connection", w)
    end;
  path_to_str p := Some p;
  path_join p name := p +:+ "/" +:+ name;
  temp_dir n := (Ok ("/tmp/" +:+ pretty n), Datatypes.S n);
|}.

#[export] Program Instance sample_pools_laws : SqlitePoolsLaws Db (list string) string nat :=
  {| executed c := c; conn_open _ := True; new_file _ _ := True; temp_usable _ := True |}.
Next Obligation. by intros text c c' [= <-]. Qed.
Next Obligation. cbn. eauto. Qed.
Next Obligation.
  intros b url w _ _ Hc. cbn. destruct (Hc [] I) as [c' ->]. by eexists _, _.
Qed.
Next Obligation. intros w _. cbn. eexists _, _. split; [done|]. by eexists. Qed.
Next Obligation. cbn. eauto. Qed.
Next Obligation. cbn. eauto. Qed.
Next Obligation. cbn. eauto. Qed.

Example connection_customized :
  (on_acquire (DB:=Db) (P:=string) (W:=nat) DB_CONNECTION_OPTIONS []).2 = ["PRAGMA busy_timeout = 30000;"; wal_pragmas].
Proof. by vm_compute. Qed.

Example tests_of_the_books_pass :
  Forall (λ test, returns test (0%nat, outside_at_start 10) (λ _ _, True))
    [sq_basic_happy_flow; sq_cannot_add_duplicate_sci; sq_cannot_add_invalid_sci;
     sq_get_quotes_filtering_works; sq_get_quote_ids_works; sq_get_quote_by_id_works (DB:=Db)].
Proof. apply sqlite_tests_pass; [exact I|by vm_compute]. Qed.
End BookTestsExamples.
