(* ===== verification/QuoteTests.v ===== *)
(** The unit tests of quotes (quote-book/api/src/quote.rs, [mod tests]) as
    programs over the test utilities: what they assert about the terms, the
    prices and the order of quotes holds of every SCI the builders can make. *)

From S2P Require Import Prelude McTypes QuoteApi QuotePricing QuoteBook BookEquiv TestUtils Conformance.

(** [slice::sort]: a stable sort by [Ord]. *)
Fixpoint insert_quote (q : Quote) (l : list Quote) : list Quote :=
  match l with
  | [] => [q]
  | x :: rest => match quote_cmp q x with Gt => x :: insert_quote q rest | _ => q :: x :: rest end
  end.
Definition quote_sort (l : list Quote) : list Quote := foldr insert_quote [] l.

Section Tests.
Context `{McLib} {S Acc IC B : Type} `{!TestLib S Acc IC B}.
(** [SliceRandom::shuffle] *)
Variable shuffle : list Quote → S → list Quote * S.
Local Abbreviation test := (stateful S Error).

Definition in_test {A} (m : stateful S string A) : test A := λ s,
  match m s with
  | (Ok a, s') => (Ok a, s')
  | (Err e, s') => (Panic e, s')
  | (Panic p, s') => (Panic p, s')
  end.
(** [assert!] *)
Definition assert_that (b : bool) : test unit := st_lift (rust_assert b "assertion failed").

Definition qt_create_sci (p : Pair) (base_amount counter_amount : Z) : test SignedContingentInput :=
  in_test (tu_create_sci (base_token_id p) (counter_token_id p) base_amount counter_amount false).
Definition qt_create_partial_sci (p : Pair) (base_amount_offered min_base_fill_amount required_base_change_amount
    counter_amount : Z) : test SignedContingentInput :=
  in_test (tu_create_partial_sci (base_token_id p) (counter_token_id p) base_amount_offered min_base_fill_amount
             required_base_change_amount counter_amount false).
(** [Quote::try_from(sci).unwrap()] *)
Definition try_from (sci : SignedContingentInput) : test Quote :=
  now <-- from_fun system_time;; unwrap (st_lift (quote_try_from_sci now sci)).

(** [assert_eq!(quote.counter_tokens_cost(b), Ok(c))] and
    [assert!(quote.counter_tokens_cost(b).is_err())], one after the other. *)
Fixpoint assert_costs (q : Quote) (costs : list (Z * Z)) : test unit :=
  match costs with
  | [] => st_ret tt
  | (b, c) :: rest => assert_eq (counter_tokens_cost q b) (Ok c);;; assert_costs q rest
  end.
Fixpoint assert_refused (q : Quote) (amounts : list Z) : test unit :=
  match amounts with
  | [] => st_ret tt
  | b :: rest => assert_that (is_err (counter_tokens_cost q b));;; assert_refused q rest
  end.

Definition assert_max_tokens (q : Quote) (base counter : Z) : test unit :=
  assert_eq (max_base_tokens q) base;;; assert_eq (q_max_counter_tokens q) counter.

Definition test_max_tokens : test unit :=
  sci <-- qt_create_sci test_pair 10 20;; quote <-- try_from sci;; assert_max_tokens quote 10 20;;;
  sci <-- qt_create_partial_sci test_pair 10 0 0 100;; quote <-- try_from sci;; assert_max_tokens quote 10 100;;;
  sci <-- qt_create_partial_sci test_pair 10 7 0 100;; quote <-- try_from sci;; assert_max_tokens quote 10 100;;;
  sci <-- qt_create_partial_sci test_pair 10 0 5 100;; quote <-- try_from sci;; assert_max_tokens quote 5 100;;;
  sci <-- qt_create_partial_sci test_pair 10 3 5 100;; quote <-- try_from sci;; assert_max_tokens quote 5 100.

Definition test_sorting : test unit :=
  sci <-- qt_create_sci test_pair 1 10;; quote_1_for_10 <-- try_from sci;;
  sci <-- qt_create_sci test_pair 2 10;; quote_2_for_10 <-- try_from sci;;
  sci <-- qt_create_sci test_pair 3 10;; quote_3_for_10 <-- try_from sci;;
  sci <-- qt_create_sci test_pair 1 5;; quote_1_for_5 <-- try_from sci;;
  sci <-- qt_create_sci test_pair 2 5;; quote_2_for_5 <-- try_from sci;;
  sci <-- qt_create_sci test_pair 3 5;; quote_3_for_5 <-- try_from sci;;
  sci <-- qt_create_sci test_pair 10 10;; quote_10_for_10 <-- try_from sci;;
  sci <-- qt_create_sci test_pair 20 10;; quote_20_for_10 <-- try_from sci;;
  sci <-- qt_create_sci test_pair 30 10;; quote_30_for_10 <-- try_from sci;;
  let all_quotes := [quote_1_for_10; quote_2_for_10; quote_3_for_10; quote_1_for_5; quote_2_for_5; quote_3_for_5;
                     quote_10_for_10; quote_20_for_10; quote_30_for_10] in
  let expected_quotes := [quote_30_for_10; quote_20_for_10; quote_10_for_10; quote_3_for_5; quote_2_for_5;
                          quote_3_for_10; quote_2_for_10; quote_1_for_5; quote_1_for_10] in
  assert_eq (quote_sort all_quotes) expected_quotes;;;
  assert_eq (quote_sort (reverse all_quotes)) expected_quotes;;;
  shuffled <-- from_fun (shuffle all_quotes);;
  assert_eq (quote_sort shuffled) expected_quotes.

Definition cost_non_partial : test unit :=
  sci <-- qt_create_sci test_pair 10 20;; quote <-- try_from sci;;
  assert_costs quote [(10, 20)];;; assert_refused quote [9; 11; 0; U64_MAX].

Definition cost_no_change_no_min : test unit :=
  sci <-- qt_create_partial_sci test_pair 10 0 0 100;; quote <-- try_from sci;;
  assert_costs quote [(10, 100); (5, 50); (0, 0)];;; assert_refused quote [11; U64_MAX];;;
  sci <-- qt_create_partial_sci test_pair 100 0 0 10;; quote <-- try_from sci;;
  assert_costs quote [(100, 10); (50, 5); (51, 5); (59, 5); (60, 6); (1, 0); (0, 0)];;;
  assert_refused quote [101; U64_MAX].

Definition cost_no_change_with_min : test unit :=
  sci <-- qt_create_partial_sci test_pair 10 7 0 100;; quote <-- try_from sci;;
  assert_costs quote [(10, 100); (7, 70)];;; assert_refused quote [6; 0; 11; U64_MAX];;;
  sci <-- qt_create_partial_sci test_pair 100 55 0 10;; quote <-- try_from sci;;
  assert_costs quote [(100, 10); (55, 5); (59, 5); (60, 6)];;; assert_refused quote [0; 1; 54; 101; U64_MAX].

Definition cost_with_change_no_min : test unit :=
  sci <-- qt_create_partial_sci test_pair 10 0 3 100;; quote <-- try_from sci;;
  assert_costs quote [(7, 70); (6, 60); (1, 10); (0, 0)];;; assert_refused quote [8; U64_MAX];;;
  sci <-- qt_create_partial_sci test_pair 100 0 30 10;; quote <-- try_from sci;;
  assert_costs quote [(70, 7); (60, 6); (61, 6); (69, 6); (1, 0); (0, 0)];;; assert_refused quote [71; 101; U64_MAX].

Definition cost_with_change_and_min : test unit :=
  sci <-- qt_create_partial_sci test_pair 10 5 3 100;; quote <-- try_from sci;;
  assert_costs quote [(7, 70); (6, 60); (5, 50)];;; assert_refused quote [8; 4; U64_MAX];;;
  sci <-- qt_create_partial_sci test_pair 100 50 30 10;; quote <-- try_from sci;;
  assert_costs quote [(70, 7); (50, 5); (51, 5); (59, 5)];;; assert_refused quote [71; 101; U64_MAX; 49; 1; 0].
End Tests.

(** * The sort *)

Lemma insert_quote_perm q l : insert_quote q l ≡ₚ q :: l.
Proof.
  induction l as [|x l IH]; cbn; [done|]. destruct (quote_cmp q x); [done..|]. rewrite IH. apply Permutation_swap.
Qed.

Lemma quote_sort_perm l : quote_sort l ≡ₚ l.
Proof. induction l as [|q l IH]; cbn; [done|]. by rewrite insert_quote_perm, IH. Qed.

(** Quotes of which no two are equal to [Ord]. *)
Lemma insert_quote_sorted q l :
  priced q → Forall priced l → Forall (λ x, quote_cmp q x ≠ Eq) l →
  StronglySorted (cmp_lt quote_cmp) l → StronglySorted (cmp_lt quote_cmp) (insert_quote q l).
Proof.
  intros Hq. induction l as [|x l IH]; intros Hp Hne Hs; cbn; [by repeat constructor|].
  apply Forall_cons in Hp as [Hx Hp]. apply Forall_cons in Hne as [Hqx Hne]. apply StronglySorted_inv in Hs as [Hs Hlt].
  destruct (quote_cmp q x) eqn:E; [done| |].
  - constructor; [by constructor|]. constructor; [done|]. rewrite Forall_forall in Hlt, Hp |- *. intros y Hy.
    eapply (ord_trans priced quote_cmp q x y); auto; by apply Hlt.
  - constructor; [by apply IH|]. rewrite insert_quote_perm. constructor; [|done].
    by apply (cmp_Gt_Lt priced quote_cmp q x).
Qed.

(** Sorting any arrangement of quotes of distinct rank gives them in order. *)
Lemma quote_sort_sorted l expected :
  Forall priced expected → StronglySorted (cmp_lt quote_cmp) expected → l ≡ₚ expected → quote_sort l = expected.
Proof.
  intros Hp Hs Hperm. assert (Forall priced l) as Hpl by by rewrite Hperm.
  assert (∀ i j x y, l !! i = Some x → l !! j = Some y → i ≠ j → quote_cmp x y ≠ Eq) as Hne.
  { intros i j x y Hi Hj Hij Heq.
    apply Permutation_inj in Hperm as (_ & f & Hf & Hl).
    rewrite Hl in Hi. rewrite Hl in Hj. assert (f i ≠ f j) as Hfij by (intros ?; by apply Hij, Hf).
    assert (∀ a b u v, (a < b)%nat → expected !! a = Some u → expected !! b = Some v → quote_cmp u v = Lt) as Hlt.
    { clear -Hs. induction Hs as [|u0 l Hs IH Hf]; [done|]. intros [|a] [|b] u v Hab Ha Hb; try lia; cbn in *.
      - injection Ha as ->. rewrite Forall_lookup in Hf. exact (Hf _ _ Hb).
      - eapply IH; [|done..]. lia. }
    rewrite Forall_lookup in Hp.
    destruct (decide (f i < f j)%nat) as [Hc|Hc]; [by rewrite (Hlt _ _ _ _ Hc Hi Hj) in Heq|].
    assert (quote_cmp y x = Lt) as Hyx by (eapply Hlt; [|done..]; lia).
    rewrite (ord_opp priced quote_cmp y x) in Heq by eauto. by rewrite Hyx in Heq. }
  assert (StronglySorted (cmp_lt quote_cmp) (quote_sort l)) as Hsl.
  { clear -Hpl Hne. induction l as [|q l IH]; cbn; [constructor|]. apply Forall_cons in Hpl as [Hq Hpl].
    apply insert_quote_sorted; [done|by rewrite quote_sort_perm| |].
    - rewrite quote_sort_perm. apply Forall_lookup. intros i x Hi. by apply (Hne 0%nat (Datatypes.S i)).
    - apply IH; [done|]. intros i j x y Hi Hj Hij. apply (Hne (Datatypes.S i) (Datatypes.S j)); [done..|lia]. }
  apply (StronglySorted_unique_on priced quote_cmp); [by rewrite quote_sort_perm|done|done|].
  by rewrite quote_sort_perm.
Qed.

(** * Rules *)

Section Rules.
Context `{McLib} `{!McLibLaws _} {S Acc IC B : Type} `{!TestLib S Acc IC B, !TestLibLaws S Acc IC B}.
Local Abbreviation test := (stateful S Error).
Implicit Types (s : S) (l : list Quote).

(** The quotes made so far, and the readings of the clock that advance. *)
Record made_so_far (j : nat) l s : Prop := {
  so_known : known (trace s) l;
  so_priced : Forall priced l;
  so_time : ticks j (trace s);
}.

(** What a quote charges: its share of [counter] for [offered]. *)
Definition charges (q : Quote) (offered counter : Z) : Prop :=
  ∀ b, is_u64 b → counter_tokens_cost q b =
    if range_contains (q_base_range q) b then Ok (counter * b / offered) else Err (InsufficientBaseTokens b).

Lemma returns_in_test {A} (m : stateful S string A) s (Q : A → S → Prop) :
  returns m s Q → returns (in_test m) s Q.
Proof. intros (a & s' & Hm & HQ). exists a, s'. unfold in_test. by rewrite Hm. Qed.

Lemma returns_assert_eq {A} `{EqDecision A} (a a' : A) s (Q : unit → S → Prop) :
  a = a' → Q tt s → returns (assert_eq a a') s Q.
Proof. intros -> HQ. apply (returns_lift _ tt); [|done]. by rewrite bool_decide_true. Qed.

(** The terms of a partial offer with change. *)
Lemma change_terms key base change a min_fill tombstone total sci :
  sci_on (mk_offer key base [change] [a] total min_fill tombstone) sci →
  amt_token_id change = amt_token_id base → amt_value change ≤ amt_value base →
  ∃ ir, input_rules (tx_in sci) = Some ir ∧ max_tombstone_block ir = tombstone ∧
    sci_offer sci ir (amt_token_id a) (min_fill, amt_value base - amt_value change) (amt_value a).
Proof.
  intros [_ _ _ Hb Hr _ (ir & Hir & Hlen & Hpf & Hmin & Ht)] Htok Hle. cbn in *. exists ir. split; [done|]. split; [done|].
  apply Forall2_cons_inv_r in Hpf as (pf & pfs & [bl Hrev] & Hnil & Hpf). apply Forall2_nil_inv_r in Hnil as ->.
  rewrite <-Hb, <-Hmin. apply (offer_partial_with_change sci ir pf a bl change); rewrite ?Hr, ?Hb; done.
Qed.

(** An SCI of known terms as a quote. *)
Lemma try_from_returns {A} o sci ir p c base r m {j} l s (k : Quote → test A) Q :
  made_so_far (Datatypes.S j) l s →
  (∀ x, x ∈ l → quote_key_image x ≠ sci_key_image sci ∧ q_id x ≠ quote_id_from_sci sci) →
  sci_key_image sci ∈ key_images (trace s) → quote_id_from_sci sci ∈ digests (trace s) →
  sci_on o sci → input_rules (tx_in sci) = Some ir → sci_offer sci ir c r m →
  of_base o = {| amt_value := base; amt_token_id := base_token_id p |} → c = counter_token_id p →
  is_u64 r.2 → is_u64 m → 0 < r.2 →
  (∀ q s', made_so_far j (q :: l) s' → made p r m (max_tombstone_block ir) l q → charges q base m →
     returns (k q) s' Q) →
  returns (q <-- try_from sci;; k q) s Q.
Proof.
  intros [Hk Hp Hj] Hun Hkey Hdig Hon Hir Ho Hbase -> Hr Hm Hpos HQ.
  apply returns_bind, returns_bind, returns_fun. destruct (system_time_ok s j Hj) as (t & s' & Hs & Ht & Hlt & Htk & Htd & Htt & Hj').
  rewrite Hs. cbn.
  pose proof (quote_new_now sci ir _ r m t (on_valid _ _ Hon) Hir Ho Ht) as Hq.
  set (q := quote_on_terms sci (counter_token_id p) r m t) in *.
  apply returns_unwrap, (returns_lift _ q); [done|].
  assert (pseudo_output_amount sci = {| amt_value := base; amt_token_id := base_token_id p |}) as Hpa
    by by rewrite (on_base _ _ Hon).
  apply HQ.
  - split; [|constructor; [|done]|done].
    + intros x [->|Hx]%elem_of_cons; rewrite Htk, Htd, Htt; cbn; [done|].
      destruct (Hk x Hx) as (? & ? & ?). split; [done|]. split; [done|lia].
    + split; [done|]. split; [done|]. by left.
  - split; cbn; [rewrite Hpa; by destruct p|done|done|by exists ir|exact Hun|].
    intros x Hx. destruct (Hk x Hx) as (_ & _ & ?). lia.
  - intros b Hb. rewrite (counter_tokens_cost_eq _ _ _ _ b (on_wf _ _ Hon) Hq Hb Hpos). unfold offered. cbn. by rewrite Hpa.
Qed.

(** A new SCI is unlike the ones before. *)
Lemma new_sci_unlike j l s o sci s' :
  made_so_far j l s → new_sci (trace s) o sci s' →
  made_so_far j l s' ∧ (∀ x, x ∈ l → quote_key_image x ≠ sci_key_image sci ∧ q_id x ≠ quote_id_from_sci sci) ∧
  sci_key_image sci ∈ key_images (trace s') ∧ quote_id_from_sci sci ∈ digests (trace s').
Proof.
  intros [Hk Hp Hj] (Hon & Hkey & Hd & Ht). rewrite Ht. split; [split; [rewrite Ht; by apply known_issue|done|by rewrite Ht]|].
  split; [|split; left].
  intros x Hx. destruct (Hk x Hx) as (? & ? & ?). split; intros E; by rewrite E in *.
Qed.

Lemma full_quote {A} p base counter {j} l s (k : Quote → test A) Q :
  is_u64 base → is_u64 counter → is_u64 (base_token_id p) → is_u64 (counter_token_id p) → 0 < base →
  made_so_far (Datatypes.S j) l s →
  (∀ q s', made_so_far j (q :: l) s' → made p (base, base) counter 2000 l q → charges q base counter →
     returns (k q) s' Q) →
  returns (sci <-- qt_create_sci p base counter;; q <-- try_from sci;; k q) s Q.
Proof.
  intros Hb Hc Hp1 Hp2 Hpos Hs HQ. apply returns_bind, returns_in_test.
  eapply returns_mono; [|by apply create_sci_returns]. intros sci s' Hnew.
  destruct (new_sci_unlike _ _ _ _ _ _ Hs Hnew) as (Hs' & Hun & Hkey & Hdig). destruct Hnew as [Hon _].
  destruct (full_terms _ _ _ _ _ _ _ Hon) as (ir & Hir & Ht & Ho). cbn in Ho.
  eapply try_from_returns; [done..|]. by rewrite Ht.
Qed.

Lemma partial_quote {A} p base min_fill change counter {j} l s (k : Quote → test A) Q :
  is_u64 base → is_u64 counter → is_u64 (base_token_id p) → is_u64 (counter_token_id p) → is_u64 min_fill →
  is_u64 change → change < base → made_so_far (Datatypes.S j) l s →
  (∀ q s', made_so_far j (q :: l) s' → made p (min_fill, base - change) counter default_tombstone l q →
     charges q base counter → returns (k q) s' Q) →
  returns (sci <-- qt_create_partial_sci p base min_fill change counter;; q <-- try_from sci;; k q) s Q.
Proof.
  intros Hb Hc Hp1 Hp2 Hm Hch Hlt Hs HQ. apply returns_bind, returns_in_test.
  eapply returns_mono; [|by apply create_partial_sci_returns]. intros sci s' Hnew.
  destruct (new_sci_unlike _ _ _ _ _ _ Hs Hnew) as (Hs' & Hun & Hkey & Hdig). destruct Hnew as [Hon _].
  unfold is_u64 in Hch. assert (∃ ir, input_rules (tx_in sci) = Some ir ∧ max_tombstone_block ir = default_tombstone ∧
    sci_offer sci ir (counter_token_id p) (min_fill, base - change) counter) as (ir & Hir & Ht & Ho).
  { unfold partial_offer in Hon. destruct (Z.ltb_spec 0 change).
    - apply change_terms in Hon; [exact Hon|done|cbn; lia].
    - assert (change = 0) as -> by lia. rewrite Z.sub_0_r. exact (partial_terms _ _ _ _ _ _ _ Hon). }
  eapply try_from_returns; [done..|unfold is_u64 in *; cbn; lia|done|cbn; lia|]. by rewrite Ht.
Qed.

(** ** Assertions about the costs *)

Lemma costs_hold p r m t l q base costs s (Q : unit → S → Prop) :
  made p r m t l q → charges q base m →
  Forall (λ '(b, c), is_u64 b ∧ range_contains r b = true ∧ c = m * b / base) costs →
  Q tt s → returns (assert_costs q costs) s Q.
Proof.
  intros Hmade Hch Hcosts HQ. induction Hcosts as [|[b c] costs (Hb & Hin & ->) _ IH]; cbn [assert_costs].
  - by apply returns_ret.
  - apply returns_bind, returns_assert_eq; [|done]. by rewrite (Hch b Hb), (made_range _ _ _ _ _ _ Hmade), Hin.
Qed.

Lemma refusals_hold p r m t l q base amounts s (Q : unit → S → Prop) :
  made p r m t l q → charges q base m →
  Forall (λ b, is_u64 b ∧ range_contains r b = false) amounts → Q tt s → returns (assert_refused q amounts) s Q.
Proof.
  intros Hmade Hch Ham HQ. induction Ham as [|b amounts [Hb Hout] _ IH]; cbn [assert_refused].
  - by apply returns_ret.
  - apply returns_bind, (returns_lift _ tt); [|done]. by rewrite (Hch b Hb), (made_range _ _ _ _ _ _ Hmade), Hout.
Qed.

Lemma max_tokens_hold p r m t l q base counter s (Q : unit → S → Prop) :
  made p r m t l q → r.2 = base → m = counter → Q tt s → returns (assert_max_tokens q base counter) s Q.
Proof.
  intros [_ Hr Hm _ _ _] <- <- HQ. apply returns_bind, returns_assert_eq; [unfold max_base_tokens; by rewrite Hr|].
  by apply returns_assert_eq.
Qed.
End Rules.

(** Evaluates a table of costs. *)
Ltac check_table :=
  repeat first [apply Forall_nil | apply Forall_cons; split]; split_and?; done.

Ltac check_costs := apply returns_bind; eapply costs_hold; [eassumption..|check_table|].
Ltac check_refusals := eapply refusals_hold; [eassumption..|check_table|].

Section Pass.
Context `{McLib} `{!McLibLaws _} {S Acc IC B : Type} `{!TestLib S Acc IC B, !TestLibLaws S Acc IC B}.
Variable shuffle : list Quote → S → list Quote * S.
Implicit Types (s : S).

(** The test returns: no assertion fails and no [unwrap] meets an error. *)
Definition unit_test_passes (t : stateful S Error unit) s : Prop := returns t s (λ _ _, True).

Lemma test_max_tokens_passes s : made_so_far 5 [] s → unit_test_passes test_max_tokens s.
Proof.
  intros Hs. unfold unit_test_passes, test_max_tokens.
  eapply (full_quote test_pair 10 20 []); [done..|]. clear s Hs. intros q1 s Hs M1 _.
  apply returns_bind. eapply max_tokens_hold; [done..|].
  eapply (partial_quote test_pair 10 0 0 100 [q1]); [done..|]. clear s Hs. intros q2 s Hs M2 _.
  apply returns_bind. eapply max_tokens_hold; [done..|].
  eapply (partial_quote test_pair 10 7 0 100 [q2; q1]); [done..|]. clear s Hs. intros q3 s Hs M3 _.
  apply returns_bind. eapply max_tokens_hold; [done..|].
  eapply (partial_quote test_pair 10 0 5 100 [q3; q2; q1]); [done..|]. clear s Hs. intros q4 s Hs M4 _.
  apply returns_bind. eapply max_tokens_hold; [done..|].
  eapply (partial_quote test_pair 10 3 5 100 [q4; q3; q2; q1]); [done..|]. clear s Hs. intros q5 s Hs M5 _.
  by eapply max_tokens_hold.
Qed.

Lemma cost_non_partial_passes s : made_so_far 1 [] s → unit_test_passes cost_non_partial s.
Proof.
  intros Hs. unfold unit_test_passes, cost_non_partial.
  eapply (full_quote test_pair 10 20 []); [done..|]. intros q s' Hs' M C.
  check_costs. by check_refusals.
Qed.

(** The four tests of partial fills have the same shape. *)
Lemma two_partial_passes base1 min1 change1 counter1 costs1 refused1 base2 min2 change2 counter2 costs2 refused2 s :
  Forall is_u64 [base1; min1; change1; counter1; base2; min2; change2; counter2] → change1 < base1 → change2 < base2 →
  Forall (λ '(b, c), is_u64 b ∧ range_contains (min1, base1 - change1) b = true ∧ c = counter1 * b / base1) costs1 →
  Forall (λ b, is_u64 b ∧ range_contains (min1, base1 - change1) b = false) refused1 →
  Forall (λ '(b, c), is_u64 b ∧ range_contains (min2, base2 - change2) b = true ∧ c = counter2 * b / base2) costs2 →
  Forall (λ b, is_u64 b ∧ range_contains (min2, base2 - change2) b = false) refused2 →
  made_so_far 2 [] s →
  unit_test_passes (
    sci <-- qt_create_partial_sci test_pair base1 min1 change1 counter1;; quote <-- try_from sci;;
    assert_costs quote costs1;;; assert_refused quote refused1;;;
    sci <-- qt_create_partial_sci test_pair base2 min2 change2 counter2;; quote <-- try_from sci;;
    assert_costs quote costs2;;; assert_refused quote refused2) s.
Proof.
  rewrite !Forall_cons. intros (? & ? & ? & ? & ? & ? & ? & ? & _) ? ? ? ? ? ? Hs. unfold unit_test_passes.
  eapply (partial_quote test_pair base1 min1 change1 counter1 []); [done..|]. clear s Hs. intros q1 s Hs M1 C1.
  apply returns_bind. eapply costs_hold; [done..|]. apply returns_bind. eapply refusals_hold; [done..|].
  eapply (partial_quote test_pair base2 min2 change2 counter2 [q1]); [done..|]. clear s Hs. intros q2 s Hs M2 C2.
  apply returns_bind. eapply costs_hold; [done..|]. by eapply refusals_hold.
Qed.

Lemma partial_costs_pass s :
  made_so_far 2 [] s →
  unit_test_passes cost_no_change_no_min s ∧ unit_test_passes cost_no_change_with_min s ∧
  unit_test_passes cost_with_change_no_min s ∧ unit_test_passes cost_with_change_and_min s.
Proof.
  intros Hs. split_and!; (eapply two_partial_passes; [check_table|done|done|check_table..|done]).
Qed.

Lemma test_sorting_passes s :
  (∀ l s, (shuffle l s).1 ≡ₚ l) → made_so_far 9 [] s → unit_test_passes (test_sorting shuffle) s.
Proof.
  intros Hsh Hs. unfold unit_test_passes, test_sorting.
  eapply (full_quote test_pair 1 10 []); [done..|]. clear s Hs. intros a s Hs Ma _.
  eapply (full_quote test_pair 2 10 [a]); [done..|]. clear s Hs. intros b s Hs Mb _.
  eapply (full_quote test_pair 3 10 [b; a]); [done..|]. clear s Hs. intros c s Hs Mc _.
  eapply (full_quote test_pair 1 5 [c; b; a]); [done..|]. clear s Hs. intros d s Hs Md _.
  eapply (full_quote test_pair 2 5 [d; c; b; a]); [done..|]. clear s Hs. intros e s Hs Me _.
  eapply (full_quote test_pair 3 5 [e; d; c; b; a]); [done..|]. clear s Hs. intros f s Hs Mf _.
  eapply (full_quote test_pair 10 10 [f; e; d; c; b; a]); [done..|]. clear s Hs. intros g s Hs Mg _.
  eapply (full_quote test_pair 20 10 [g; f; e; d; c; b; a]); [done..|]. clear s Hs. intros h s Hs Mh _.
  eapply (full_quote test_pair 30 10 [h; g; f; e; d; c; b; a]); [done..|]. clear s Hs. intros i s [_ HP _] Mi _.
  cbv zeta. set (expected := [i; h; g; f; e; c; b; d; a]).
  assert (Forall priced expected) as HP2 by (eapply Forall_Permutation; [done| |exact HP]; solve_Permutation).
  rewrite !Forall_cons in HP. destruct_and? HP.
  assert (StronglySorted (cmp_lt quote_cmp) expected) as Hsorted by sort_quotes.
  assert ([a; b; c; d; e; f; g; h; i] ≡ₚ expected) as Hall by (unfold expected; solve_Permutation).
  apply returns_bind, returns_assert_eq; [by apply quote_sort_sorted|].
  apply returns_bind, returns_assert_eq; [apply quote_sort_sorted; [done..|]; by rewrite reverse_Permutation|].
  apply returns_bind, returns_fun. specialize (Hsh [a; b; c; d; e; f; g; h; i] s).
  destruct (shuffle _ s) as [shuffled s']; cbn in Hsh. cbn.
  apply returns_assert_eq; [|done]. apply quote_sort_sorted; [done..|]. by rewrite Hsh.
Qed.

(** The unit tests of quotes pass for whatever SCIs the builders make. *)
Lemma quote_tests_pass s :
  (∀ l s, (shuffle l s).1 ≡ₚ l) → ticks 9 (trace s) →
  unit_test_passes test_max_tokens s ∧ unit_test_passes (test_sorting shuffle) s ∧
  unit_test_passes cost_non_partial s ∧ unit_test_passes cost_no_change_no_min s ∧
  unit_test_passes cost_no_change_with_min s ∧ unit_test_passes cost_with_change_no_min s ∧
  unit_test_passes cost_with_change_and_min s.
Proof.
  intros Hsh Hj. assert (∀ j, (j ≤ 9)%nat → made_so_far j [] s) as Hs.
  { intros j Hle. split; [|done|by eapply ticks_le]. intros x Hx. by apply elem_of_nil in Hx. }
  split; [by apply test_max_tokens_passes, Hs; lia|]. split; [by apply test_sorting_passes; [|apply Hs; lia]|].
  split; [by apply cost_non_partial_passes, Hs; lia|]. by apply partial_costs_pass, Hs; lia.
Qed.
End Pass.

Module QuoteTestsExamples.
Import ConformanceExamples.

Definition rotate_quotes (l : list Quote) (s : Outside) : list Quote * Outside := (drop 3 l ++ take 3 l, s).

Lemma quote_tests_pass_witness :
  unit_test_passes test_max_tokens (outside_at_start 10) ∧
  unit_test_passes (test_sorting rotate_quotes) (outside_at_start 10) ∧
  unit_test_passes cost_non_partial (outside_at_start 10) ∧
  unit_test_passes cost_no_change_no_min (outside_at_start 10) ∧
  unit_test_passes cost_no_change_with_min (outside_at_start 10) ∧
  unit_test_passes cost_with_change_no_min (outside_at_start 10) ∧
  unit_test_passes cost_with_change_and_min (outside_at_start 10).
Proof.
  apply (quote_tests_pass rotate_quotes); [|by vm_compute].
  intros l s. cbn. by rewrite (comm (++)), take_drop.
Defined.

(** The tests run. *)
Example sorting_runs :
  is_ok (test_sorting rotate_quotes (outside_at_start 10)).1 = true ∧
  is_ok (cost_with_change_and_min (outside_at_start 10)).1 = true.
Proof. by vm_compute. Qed.
End QuoteTestsExamples.
