(* ===== verification/Synchronized.v ===== *)
(** The synchronized quote book (quote-book/synchronized/src/lib.rs): a quote
    book that refuses stale quotes, and a background thread that follows the
    ledger and removes quotes as their inputs are spent or their tombstone
    passes.

    The ledger database is not part of the repository: the class [Ledger] has
    the calls the code makes, [LedgerLaws] what they answer about the chain of
    blocks.  Time passing between two looks at the ledger is explicit: every
    look is given the ledger it sees. *)

From S2P Require Import Prelude McTypes QuoteApi QuotePricing QuoteBook InMemory.

(** [mc_ledger_db::Error], by what the code distinguishes. *)
Inductive LedgerError := NotFound | OtherLedgerError (msg : string).
Definition ledger_error_display (e : LedgerError) : string :=
  match e with NotFound => "NotFound" | OtherLedgerError m => m end.

(** [mc_blockchain_types::BlockContents] *)
Record BlockContents := { bc_key_images : list KeyImage; bc_outputs : list TxOut }.

Class Ledger (L : Type) := {
  num_blocks : L → outcome LedgerError Z;
  contains_key_image : KeyImage → L → outcome LedgerError bool;
  get_tx_out_by_index : Z → L → outcome LedgerError TxOut;
  get_block_contents : BlockIndex → L → outcome LedgerError BlockContents;
}.

Class LedgerLaws (L : Type) `{!Ledger L} := {
  blocks : L → list BlockContents;
  num_blocks_ok l n : num_blocks l = Ok n → n = Z.of_nat (length (blocks l)) ∧ is_u64 n;
  contains_key_image_ok k l b : contains_key_image k l = Ok b →
    b = true ↔ ∃ c, c ∈ blocks l ∧ k ∈ bc_key_images c;
  get_tx_out_ok i l t : get_tx_out_by_index i l = Ok t →
    (blocks l ≫= bc_outputs) !! Z.to_nat i = Some t;
  get_block_contents_ok i l c : 0 ≤ i → get_block_contents i l = Ok c → blocks l !! Z.to_nat i = Some c;
  get_block_contents_not_found i l : 0 ≤ i → get_block_contents i l = Err NotFound →
    Z.of_nat (length (blocks l)) ≤ i;
}.
Arguments blocks {L _ _} l.

(** * The quote book *)

(** [pub struct SynchronizedQuoteBook<Q, L>] *)
Record SynchronizedQuoteBook (Q L : Type) := mk_sync {
  sync_quote_book : Q;
  sync_ledger : L;
  sync_highest_processed_block_index : Z;
}.
Arguments mk_sync {Q L} _ _ _.
Arguments sync_quote_book {Q L} _.
Arguments sync_ledger {Q L} _.
Arguments sync_highest_processed_block_index {Q L} _.

Definition ledger_error {A} (m : outcome LedgerError A) : outcome Error A :=
  map_err (λ e, ImplementationSpecific (ledger_error_display e)) m.

Section Book.
Context `{McLib} {Q L : Type} `{!QuoteBook Q, !Ledger L}.
Abbreviation book := (SynchronizedQuoteBook Q L).

(** [SynchronizedQuoteBook::new]: the thread's counter starts at zero. *)
Definition sync_new (quote_book : Q) (ledger : L) : book := mk_sync quote_book ledger 0.

Definition get_current_block_index (s : book) : Z := sync_highest_processed_block_index s.

(** The loop over indices and ring members. *)
Fixpoint check_ring (ledger : L) (members : list (Z * TxOut)) : outcome Error unit :=
  match members with
  | [] => Ok tt
  | (index, tx_out) :: rest =>
      real_tx_out ← ledger_error (get_tx_out_by_index index ledger);
      if bool_decide (real_tx_out ≠ tx_out) then Err (InvalidRing "Invalid ring member")
      else check_ring ledger rest
  end.

Definition validate_quote_ring_members (ledger : L) (quote : Quote) : outcome Error unit :=
  let indices := tx_out_global_indices (q_sci quote) in
  let ring := ring (tx_in (q_sci quote)) in
  if negb (length ring =? length indices)%nat then Err (InvalidRing "Missing index for txo")
  else check_ring ledger (zip indices ring).

(** The part of [add_quote] before the underlying book is asked. *)
Definition check_quote (ledger : L) (quote : Quote) : outcome Error unit :=
  num ← ledger_error (num_blocks ledger);
  let current_block_index := u64_sub num 1 in
  let expired :=
    match input_rules (tx_in (q_sci quote)) with
    | Some input_rules =>
        negb (max_tombstone_block input_rules =? 0) &&
        (max_tombstone_block input_rules <=? current_block_index)
    | None => false
    end in
  if expired then Err QuoteIsStale else
  spent ← ledger_error (contains_key_image (sci_key_image (q_sci quote)) ledger);
  if spent : bool then Err QuoteIsStale else
  validate_quote_ring_members ledger quote.

(** An operation of the underlying book. *)
Definition on_quote_book {A} (m : stateful Q Error A) : stateful book Error A := λ s,
  let '(r, q) := m (sync_quote_book s) in
  (r, mk_sync q (sync_ledger s) (sync_highest_processed_block_index s)).

Definition sync_add_quote (quote : Quote) : stateful book Error unit := λ s,
  (st_lift (check_quote (sync_ledger s) quote) ;;; on_quote_book (qb_add_quote quote)) s.

#[export] Instance SynchronizedQuoteBook_QuoteBook : QuoteBook book := {|
  qb_add_quote := sync_add_quote;
  qb_remove_quote_by_id i := on_quote_book (qb_remove_quote_by_id i);
  qb_remove_quotes_by_key_image k := on_quote_book (qb_remove_quotes_by_key_image k);
  qb_remove_quotes_by_tombstone_block n := on_quote_book (qb_remove_quotes_by_tombstone_block n);
  qb_get_quotes p range limit s := qb_get_quotes p range limit (sync_quote_book s);
  qb_get_quote_ids p s := qb_get_quote_ids p (sync_quote_book s);
  qb_get_quote_by_id i s := qb_get_quote_by_id i (sync_quote_book s);
  qb_num_scis s := qb_num_scis (sync_quote_book s);
|}.
End Book.

(** * The background thread *)

(** [struct SyncThread]; the thread itself is joined when its handle is taken. *)
Record SyncThread := { join_handle : bool; stop_requested : bool }.

(** [SyncThread::stop], also its [Drop]: whether the thread is joined. *)
Definition sync_thread_stop (t : SyncThread) : bool * SyncThread :=
  if join_handle t then (true, {| join_handle := false; stop_requested := true |})
  else (false, t).

(** [struct DbFetcherThread], with the calls of the callback made so far. *)
Record DbFetcherThread (Q : Type) := mk_fetcher {
  f_quotebook : Q;
  f_callbacks : list (list Quote);
  f_next_block_index : Z;
  f_highest : Z;
}.
Arguments mk_fetcher {Q} _ _ _ _.
Arguments f_quotebook {Q} _.
Arguments f_callbacks {Q} _.
Arguments f_next_block_index {Q} _.
Arguments f_highest {Q} _.

(** The thread had not finished when the given number of attempts, or of looks
    at the ledger, was used up. *)
Inductive StillRunning := still_running.

Section Fetcher.
Context `{McLib} {Q L : Type} `{!QuoteBook Q, !Ledger L}.
Abbreviation thread := (DbFetcherThread Q).

(** [while quotes.is_err() { .. }] around a removal: try until it succeeds,
    [fuel] attempts at most. *)
Fixpoint retry_removal (fuel : nat) (m : stateful Q Error (list Quote)) :
    stateful Q StillRunning (list Quote) := λ q,
  match fuel with
  | O => (Err still_running, q)
  | S fuel =>
      match m q with
      | (Ok quotes, q') => (Ok quotes, q')
      | (Err _, q') => retry_removal fuel m q'
      | (Panic p, q') => (Panic p, q')
      end
  end.

(** A removal, retried, then the callback with the removed quotes. *)
Definition remove_and_notify (fuel : nat) (m : stateful Q Error (list Quote)) :
    stateful thread StillRunning unit := λ t,
  let '(r, q) := retry_removal fuel m (f_quotebook t) in
  match r with
  | Ok quotes =>
      (Ok tt, mk_fetcher q (f_callbacks t ++ [quotes]) (f_next_block_index t) (f_highest t))
  | Err e => (Err e, mk_fetcher q (f_callbacks t) (f_next_block_index t) (f_highest t))
  | Panic p => (Panic p, mk_fetcher q (f_callbacks t) (f_next_block_index t) (f_highest t))
  end.

Fixpoint remove_key_images (fuel : nat) (key_images : list KeyImage) :
    stateful thread StillRunning unit :=
  match key_images with
  | [] => st_ret tt
  | key_image :: rest =>
      remove_and_notify fuel (qb_remove_quotes_by_key_image key_image) ;;;
      remove_key_images fuel rest
  end.

Definition set_next (n : Z) : stateful thread StillRunning unit := λ t,
  (Ok tt, mk_fetcher (f_quotebook t) (f_callbacks t) n (f_highest t)).
Definition set_highest (n : Z) : stateful thread StillRunning unit := λ t,
  (Ok tt, mk_fetcher (f_quotebook t) (f_callbacks t) (f_next_block_index t) n).

(** [DbFetcherThread::load_block_data] on the ledger [db] it sees: whether
    there may be more work. *)
Definition load_block_data (fuel : nat) (db : L) : stateful thread StillRunning bool := λ t,
  match get_block_contents (f_next_block_index t) db with
  | Err NotFound => (Ok false, t)
  | Err _ => (Ok true, t)
  | Panic p => (Panic p, t)
  | Ok block_contents =>
      (remove_key_images fuel (bc_key_images block_contents) ;;;
       set_next (u64_add (f_next_block_index t) 1) ;;;
       st_ret true) t
  end.

(** [while self.load_block_data() && !self.stop_requested.load(..) {}]; every
    element of [env] is the ledger one call sees and the flag read after it. *)
Fixpoint load_blocks (fuel : nat) (env : list (L * bool)) : stateful thread StillRunning unit :=
  match env with
  | [] => st_lift (Err still_running)
  | (db, stop_requested) :: env =>
      more <-- load_block_data fuel db ;;
      if more && negb stop_requested then load_blocks fuel env else st_ret tt
  end.

(** One round of the loop of [run]. *)
Definition run_round (fuel : nat) (env : list (L * bool)) : stateful thread StillRunning unit := λ t,
  let starting_block_index := f_next_block_index t in
  (load_blocks fuel env ;;; λ t,
   if negb (f_next_block_index t =? starting_block_index) then
     let last_processed_block_index := u64_sub (f_next_block_index t) 1 in
     (remove_and_notify fuel (qb_remove_quotes_by_tombstone_block last_processed_block_index) ;;;
      set_highest last_processed_block_index) t
   else (Ok tt, t)) t.

(** [DbFetcherThread::run]; every round begins by reading the stop flag. *)
Fixpoint run (fuel : nat) (rounds : list (bool * list (L * bool))) : stateful thread StillRunning unit :=
  match rounds with
  | [] => st_lift (Err still_running)
  | (stop_requested, env) :: rest =>
      if stop_requested : bool then st_ret tt
      else run_round fuel env ;;; run fuel rest
  end.

(** [DbFetcherThread::start] *)
Definition fetcher_start (quotebook : Q) (highest_processed_block_index : Z) : thread :=
  mk_fetcher quotebook [] highest_processed_block_index highest_processed_block_index.
End Fetcher.

(** * The synchronized book implements the interface *)

Section SyncLaws.
Context `{McLib} {Q L : Type} `{!QuoteBook Q, !QuoteBookLaws Q, !Ledger L}.
Implicit Types (s : SynchronizedQuoteBook Q L).

Lemma on_quote_book_inv {A} (m : stateful Q Error A) s r s' :
  on_quote_book m s = (r, s') → m (sync_quote_book s) = (r, sync_quote_book s').
Proof. unfold on_quote_book. destruct (m (sync_quote_book s)). intros [= <- <-]. done. Qed.

Lemma sync_add_inv q s r s' :
  sync_add_quote q s = (r, s') →
  (is_ok r = false ∧ check_quote (sync_ledger s) q = r ∧ s' = s) ∨
  (check_quote (sync_ledger s) q = Ok tt ∧
   qb_add_quote q (sync_quote_book s) = (r, sync_quote_book s')).
Proof.
  unfold sync_add_quote, st_bind, st_lift.
  destruct (check_quote (sync_ledger s) q) as [[]|e|p]; [|intros [= <- <-]; by left..].
  intros Hr%on_quote_book_inv. by right.
Qed.

Lemma check_quote_not_exists (l : L) q e : check_quote l q ≠ Err (QuoteAlreadyExists e).
Proof.
  unfold check_quote, ledger_error, validate_quote_ring_members.
  destruct (num_blocks l); cbn; [|done..]. case_match; [done|].
  destruct (contains_key_image _ _) as [[]| |]; cbn; [done| |done..].
  destruct (negb (_ =? _)%nat); [done|].
  generalize (zip (tx_out_global_indices (q_sci q)) (ring (tx_in (q_sci q)))).
  intros ms. induction ms as [|[i t] ms IH]; [done|]. cbn. unfold ledger_error.
  destruct (get_tx_out_by_index i l); cbn; [|done..]. by case_bool_decide.
Qed.

#[export] Program Instance SynchronizedQuoteBook_Laws : QuoteBookLaws (SynchronizedQuoteBook Q L) := {|
  book_inv s := book_inv (sync_quote_book s);
  contents s := contents (sync_quote_book s);
|}.
Next Obligation. intros s. apply contents_slots. Qed.
Next Obligation.
  intros q s r s' Hi Ha [(_ & _ & ->)|[_ Hr]]%sync_add_inv; [done|]. exact (add_inv _ _ _ _ Hi Ha Hr).
Qed.
Next Obligation.
  intros q s s' Hi Ha [(? & _)|[_ Hr]]%sync_add_inv; [done|]. exact (add_ok _ _ _ Hi Ha Hr).
Qed.
Next Obligation.
  intros q s r s' Hi Ha [(_ & _ & ->)|[_ Hr]]%sync_add_inv; [|exact (add_frame _ _ _ _ Hi Ha Hr)].
  split; [done|by apply submseteq_cons].
Qed.
Next Obligation.
  intros q s s' e Hi Ha [(_ & ?%check_quote_not_exists & _)|[_ Hr]]%sync_add_inv; [done|].
  exact (add_exists _ _ _ _ Hi Ha Hr).
Qed.
Next Obligation. intros i s r s' Hi Hr%on_quote_book_inv. exact (remove_id_inv _ _ _ _ Hi Hr). Qed.
Next Obligation. intros i s q s' Hi Hr%on_quote_book_inv. exact (remove_id_ok _ _ _ _ Hi Hr). Qed.
Next Obligation. intros i s r s' Hi Hr%on_quote_book_inv. exact (remove_id_frame _ _ _ _ Hi Hr). Qed.
Next Obligation. intros k s r s' Hi Hr%on_quote_book_inv. exact (remove_ki_inv _ _ _ _ Hi Hr). Qed.
Next Obligation. intros k s l s' Hi Hr%on_quote_book_inv. exact (remove_ki_ok _ _ _ _ Hi Hr). Qed.
Next Obligation. intros k s r s' Hi Hr%on_quote_book_inv. exact (remove_ki_frame _ _ _ _ Hi Hr). Qed.
Next Obligation. intros n s r s' Hi Hr%on_quote_book_inv. exact (remove_tombstone_inv _ _ _ _ Hi Hr). Qed.
Next Obligation. intros n s l s' Hi Hr%on_quote_book_inv. exact (remove_tombstone_ok _ _ _ _ Hi Hr). Qed.
Next Obligation. intros n s r s' Hi Hr%on_quote_book_inv. exact (remove_tombstone_frame _ _ _ _ Hi Hr). Qed.
Next Obligation. intros p range limit s l. exact (get_quotes_ok p range limit (sync_quote_book s) l). Qed.
Next Obligation. intros p s l. exact (get_quote_ids_ok p (sync_quote_book s) l). Qed.
Next Obligation. intros i s o. exact (get_quote_by_id_ok i (sync_quote_book s) o). Qed.
Next Obligation. intros s n. exact (num_scis_ok (sync_quote_book s) n). Qed.
End SyncLaws.

(** * What is accepted *)

Section Accepted.
Context `{McLib} {Q L : Type} `{!QuoteBook Q, !QuoteBookLaws Q, !Ledger L, !LedgerLaws L}.
Implicit Types (l : L) (q : Quote) (s : SynchronizedQuoteBook Q L).

Definition key_images (bs : list BlockContents) : list KeyImage := bs ≫= bc_key_images.

(** A quote that the ledger does not rule out: its tombstone is after the
    last block, its input is unspent, its ring consists of the ledger's
    outputs at the indices it names. *)
Record fresh l q : Prop := {
  fresh_tombstone ir : input_rules (tx_in (q_sci q)) = Some ir → max_tombstone_block ir ≠ 0 →
    Z.of_nat (length (blocks l)) - 1 < max_tombstone_block ir;
  fresh_unspent : quote_key_image q ∉ key_images (blocks l);
  fresh_ring : Forall2 (λ i t, (blocks l ≫= bc_outputs) !! Z.to_nat i = Some t)
    (tx_out_global_indices (q_sci q)) (ring (tx_in (q_sci q)));
}.

Lemma check_ring_Ok l ms :
  check_ring l ms = Ok tt → Forall (λ '(i, t), get_tx_out_by_index i l = Ok t) ms.
Proof.
  induction ms as [|[i t] ms IH]; cbn; [constructor|]. unfold ledger_error.
  destruct (get_tx_out_by_index i l) as [t'| |] eqn:E; cbn; [|done..].
  case_bool_decide; [done|]. subst. constructor; auto.
Qed.

Lemma check_quote_fresh l q : check_quote l q = Ok tt → fresh l q.
Proof.
  unfold check_quote, ledger_error, validate_quote_ring_members.
  destruct (num_blocks l) as [n| |] eqn:Hn; cbn; [|done..]. apply num_blocks_ok in Hn as [Hn Hu].
  case_match eqn:Htomb; [done|].
  destruct (contains_key_image _ _) as [[]| |] eqn:Hk; cbn; [done| |done..].
  apply contains_key_image_ok in Hk.
  destruct (Nat.eqb_spec (length (ring (tx_in (q_sci q)))) (length (tx_out_global_indices (q_sci q))))
    as [Hlen|]; cbn; [|done].
  intros HF%check_ring_Ok. split.
  - intros ir Hir Hz. rewrite Hir in Htomb. apply andb_false_iff in Htomb as [Ht|Ht].
    + by apply negb_false_iff, Z.eqb_eq in Ht.
    + apply Z.leb_gt in Ht. unfold u64_sub in Ht. destruct (decide (n = 0)) as [->|Hn0].
      * unfold wrap64 in Ht. change ((0 - 1) mod U64_MOD) with U64_MAX in Ht.
        unfold U64_MAX, U64_MOD in Ht. lia.
      * rewrite wrap64_small in Ht by (unfold is_u64 in *; lia). lia.
  - intros (c & Hkc & Hc)%list_elem_of_bind. assert (false = true); [|done]. apply Hk. by exists c.
  - apply Forall2_same_length_lookup. split; [done|]. intros i x t Hx Ht. rewrite Forall_forall in HF.
    specialize (HF (x, t)). cbn in HF. apply get_tx_out_ok, HF.
    apply list_elem_of_lookup. exists i. rewrite lookup_zip_with, Hx. cbn. by rewrite Ht.
Qed.

(** The ledger has its origin block and answers the questions [add_quote]
    asks about a quote. *)
Definition answers l q : Prop :=
  (∃ n, num_blocks l = Ok n ∧ 0 < n) ∧ (∃ b, contains_key_image (quote_key_image q) l = Ok b) ∧
  (∀ i, i ∈ tx_out_global_indices (q_sci q) → ∃ t, get_tx_out_by_index i l = Ok t).

Lemma check_ring_cases l is_ ts :
  (∀ i, i ∈ is_ → ∃ t, get_tx_out_by_index i l = Ok t) →
  check_ring l (zip is_ ts) = Ok tt ∨
  (check_ring l (zip is_ ts) = Err (InvalidRing "Invalid ring member") ∧
   ¬ Forall2 (λ i t, (blocks l ≫= bc_outputs) !! Z.to_nat i = Some t) is_ ts).
Proof.
  revert ts. induction is_ as [|i is_ IH]; intros [|t ts] Hans; [by left..|]. cbn.
  destruct (Hans i) as [t' Ht']; [apply list_elem_of_here|]. unfold ledger_error. rewrite Ht'. cbn.
  case_bool_decide as Hne.
  - right. split; [done|]. inversion_clear 1 as [|? ? ? ? Hi _]. apply get_tx_out_ok in Ht'. congruence.
  - destruct (IH ts) as [->|[-> Hn]]; [|by left|].
    + intros j Hj. apply Hans. by apply list_elem_of_further.
    + right. split; [done|]. by inversion_clear 1.
Qed.

Lemma check_quote_refused l q :
  answers l q →
  check_quote l q = Ok tt ∨
  ((check_quote l q = Err QuoteIsStale ∨ ∃ m, check_quote l q = Err (InvalidRing m)) ∧ ¬ fresh l q).
Proof.
  intros ((n & Hn & Hpos) & [b Hb] & Hts). unfold check_quote, ledger_error, validate_quote_ring_members.
  rewrite Hn. cbn. apply num_blocks_ok in Hn as [-> Hu].
  destruct (match input_rules _ with Some _ => _ | None => _ end) eqn:Htomb.
  - right. split; [by left|]. intros [Ht _ _]. destruct (input_rules (tx_in (q_sci q))) as [ir|]; [|done].
    apply andb_true_iff in Htomb as [Hz%negb_true_iff%Z.eqb_neq Hle%Z.leb_le].
    specialize (Ht ir eq_refl Hz). revert Hle. unfold u64_sub.
    rewrite wrap64_small by (unfold is_u64 in *; lia). lia.
  - fold (quote_key_image q). rewrite Hb. cbn. apply contains_key_image_ok in Hb. destruct b.
    + right. split; [by left|]. intros [_ Hk _]. apply Hk.
      destruct (proj1 Hb eq_refl) as (c & ? & ?). apply list_elem_of_bind. by exists c.
    + destruct (Nat.eqb_spec (length (ring (tx_in (q_sci q)))) (length (tx_out_global_indices (q_sci q))))
        as [Hlen|Hlen]; cbn.
      * destruct (check_ring_cases l _ (ring (tx_in (q_sci q))) Hts) as [->|[-> Hn]]; [by left|].
        right. split; [right; by eexists|]. by intros [_ _ ?].
      * right. split; [right; by eexists|]. intros [_ _ HF%Forall2_length]. congruence.
Qed.

(** C14: a quote is handed to the underlying book only if the ledger does not
    rule it out: its tombstone is after the last block, its input unspent and
    its ring made of the ledger's own outputs.  Any other answer leaves the
    book as it was, and when the ledger answers all questions it means that
    the quote is stale or its ring invalid. *)
Theorem sync_add_quote_spec q s r s' :
  sync_add_quote q s = (r, s') →
  (fresh (sync_ledger s) q ∧ qb_add_quote q (sync_quote_book s) = (r, sync_quote_book s')) ∨
  (is_ok r = false ∧ s' = s ∧
   (answers (sync_ledger s) q →
      ¬ fresh (sync_ledger s) q ∧ (r = Err QuoteIsStale ∨ ∃ m, r = Err (InvalidRing m)))).
Proof.
  intros [(Hnok & Hr & ->)|[Hc Hr]]%sync_add_inv.
  - right. do 2 (split; [done|]). intros Ha.
    destruct (check_quote_refused _ _ Ha) as [Hok|[Hcase Hn]]; rewrite Hr in *; [by rewrite Hok in Hnok|done].
  - left. split; [by apply check_quote_fresh|done].
Qed.
End Accepted.

(** * What the background thread does *)

(** A book on which, as long as [reliable] holds, removals succeed. *)
Class ReliableBook `{McLib} (Q : Type) `{!QuoteBook Q, !QuoteBookLaws Q} := {
  reliable : Q → Prop;
  reliable_inv b : reliable b → book_inv b;
  reliable_ki k b : reliable b → ∃ l b', qb_remove_quotes_by_key_image k b = (Ok l, b') ∧ reliable b';
  reliable_tombstone n b : reliable b →
    ∃ l b', qb_remove_quotes_by_tombstone_block n b = (Ok l, b') ∧ reliable b';
}.

(** The in-memory book is one until its lock is poisoned. *)
#[export] Program Instance InMemory_Reliable `{McLib} `{!HashIter Pair (list Quote)} :
    ReliableBook InMemoryQuoteBook := {| reliable := im_healthy |}.
Next Obligation. by intros ? ? b []. Qed.
Next Obligation.
  intros ? ? k b [Hm Hp]. destruct (im_remove_quotes_by_key_image k b) as [r b'] eqn:Hr.
  destruct (im_drain_cases _ b r b' Hm Hr) as [? [(_ & _ & ?)|(_ & ? & l & -> & _)]]; [congruence|].
  by exists l, b'.
Qed.
Next Obligation.
  intros ? ? n b [Hm Hp]. destruct (im_remove_quotes_by_tombstone_block n b) as [r b'] eqn:Hr.
  destruct (im_drain_cases _ b r b' Hm Hr) as [? [(_ & _ & ?)|(_ & ? & l & -> & _)]]; [congruence|].
  by exists l, b'.
Qed.

Section CatchUp.
Context `{McLib} {Q L : Type} `{!QuoteBook Q, !QuoteBookLaws Q, !ReliableBook Q, !Ledger L, !LedgerLaws L}.
Implicit Types (t : DbFetcherThread Q) (db : L).

(** The thread removed the quotes [p] holds of, told the callback about
    exactly these, and is otherwise as it was. *)
Definition swept (p : Quote → bool) t t' : Prop :=
  reliable (f_quotebook t') ∧
  contents (f_quotebook t') ≡ₚ filter (λ q, p q = false) (contents (f_quotebook t)) ∧
  (∃ cbs, f_callbacks t' = f_callbacks t ++ cbs ∧
          concat cbs ≡ₚ filter (λ q, p q = true) (contents (f_quotebook t))).

Lemma swept_none t t' p :
  reliable (f_quotebook t) → f_quotebook t' = f_quotebook t → f_callbacks t' = f_callbacks t →
  (∀ q, p q = false) → swept p t t'.
Proof.
  intros Hr Hq Hc Hp. unfold swept. rewrite Hq, Hc. split; [done|]. split.
  - by rewrite list_filter_all.
  - exists []. split; [by rewrite app_nil_r|]. rewrite list_filter_none; [done|]. intros q _. by rewrite Hp.
Qed.

Lemma swept_compose p1 p2 t t1 t2 :
  swept p1 t t1 → swept p2 t1 t2 → swept (λ q, p1 q || p2 q) t t2.
Proof.
  intros (_ & Hc1 & cb1 & Hcb1 & Hl1) (Hr2 & Hc2 & cb2 & Hcb2 & Hl2). split; [done|].
  split.
  - rewrite Hc2, Hc1, list_filter_filter. erewrite list_filter_ext; [done|].
    intros q _. cbn. rewrite orb_false_iff. tauto.
  - exists (cb1 ++ cb2). split; [by rewrite Hcb2, Hcb1, (assoc_L (++))|].
    rewrite concat_app, Hl1, Hl2, Hc1, list_filter_filter. clear.
    induction (contents (f_quotebook t)) as [|q l IH]; [done|].
    rewrite !filter_cons. destruct (p1 q), (p2 q); cbn; repeat case_decide; naive_solver (rewrite <-?Permutation_middle; auto).
Qed.

Lemma swept_ext p p' t t' : (∀ q, p q = p' q) → swept p t t' → swept p' t t'.
Proof.
  intros Hp (Hr & Hc & cbs & ? & Hl). split; [done|]. split.
  - rewrite Hc. erewrite list_filter_ext; [done|]. intros q _. cbn. by rewrite Hp.
  - exists cbs. split; [done|]. rewrite Hl. erewrite list_filter_ext; [done|]. intros q _. cbn. by rewrite Hp.
Qed.

Lemma remove_and_notify_swept fuel m (p : Quote → bool) t :
  (∃ l b', m (f_quotebook t) = (Ok l, b') ∧ reliable b' ∧
     l ≡ₚ filter (λ q, p q = true) (contents (f_quotebook t)) ∧
     contents b' ≡ₚ filter (λ q, p q = false) (contents (f_quotebook t))) →
  ∃ t', remove_and_notify (S fuel) m t = (Ok tt, t') ∧ swept p t t' ∧
        f_next_block_index t' = f_next_block_index t ∧ f_highest t' = f_highest t.
Proof.
  intros (l & b' & Hm & Hb' & Hl & Hc). unfold remove_and_notify. cbn. rewrite Hm.
  eexists. split; [done|]. repeat split; [done..|]. exists [l]. cbn. by rewrite app_nil_r.
Qed.

Lemma remove_key_images_swept fuel ks t :
  reliable (f_quotebook t) →
  ∃ t', remove_key_images (S fuel) ks t = (Ok tt, t') ∧
        swept (λ q, bool_decide (quote_key_image q ∈ ks)) t t' ∧
        f_next_block_index t' = f_next_block_index t ∧ f_highest t' = f_highest t.
Proof.
  revert t. induction ks as [|k ks IH]; intros t Ht.
  { exists t. split; [done|]. split; [|done]. by apply swept_none. }
  destruct (remove_and_notify_swept fuel (qb_remove_quotes_by_key_image k)
              (λ q, bool_decide (quote_key_image q = k)) t) as (t1 & Hn1 & Hs1 & Hx1 & Hh1).
  { destruct (reliable_ki k _ Ht) as (l & b' & Hr & Hb'). exists l, b'. split; [done|]. split; [done|].
    destruct (remove_ki_ok k _ l b' (reliable_inv _ Ht) Hr) as [-> ->].
    split; (erewrite list_filter_ext; [done|]); intros q _; cbn;
      by rewrite ?bool_decide_eq_true, ?bool_decide_eq_false. }
  destruct (IH t1) as (t2 & Hn2 & Hs2 & Hx2 & Hh2); [apply Hs1|].
  exists t2. cbn. unfold st_bind. rewrite Hn1, Hn2. split; [done|]. split; [|split; congruence].
  eapply swept_ext; [|by eapply swept_compose]. intros q. cbn.
  rewrite <-bool_decide_or. by apply bool_decide_ext; rewrite elem_of_cons.
Qed.

(** The ledger serves its blocks without errors. *)
Definition serves db : Prop :=
  ∀ i, 0 ≤ i → (∃ c, get_block_contents i db = Ok c) ∨ get_block_contents i db = Err NotFound.

(** The quotes spent in the blocks from [i] on. *)
Definition spent_from db (i : Z) (q : Quote) : bool :=
  bool_decide (quote_key_image q ∈ key_images (drop (Z.to_nat i) (blocks db))).

Lemma load_blocks_swept fuel db n t :
  serves db → Z.of_nat (length (blocks db)) < U64_MAX → reliable (f_quotebook t) →
  0 ≤ f_next_block_index t → f_next_block_index t + Z.of_nat n = Z.of_nat (length (blocks db)) →
  ∃ t', load_blocks (S fuel) (replicate (S n) (db, false)) t = (Ok tt, t') ∧
        swept (spent_from db (f_next_block_index t)) t t' ∧
        f_next_block_index t' = Z.of_nat (length (blocks db)) ∧ f_highest t' = f_highest t.
Proof.
  intros Hserve Hlen. revert t. induction n as [|n IH]; intros t Ht Hpos Hn.
  - exists t. cbn. unfold st_bind, load_block_data.
    destruct (Hserve _ Hpos) as [[c Hc]| ->].
    { apply get_block_contents_ok in Hc; [|done]. apply lookup_lt_Some in Hc. lia. }
    split; [done|]. split; [|split; [lia|done]]. apply swept_none; try done.
    intros q. apply bool_decide_eq_false. rewrite drop_ge by lia. apply not_elem_of_nil.
  - change (replicate (S (S n)) (db, false)) with ((db, false) :: replicate (S n) (db, false)).
    cbn [load_blocks]. unfold st_bind at 1, load_block_data.
    destruct (Hserve _ Hpos) as [[c Hc]|Hnf].
    2: { apply get_block_contents_not_found in Hnf; [lia|done]. }
    rewrite Hc. apply get_block_contents_ok in Hc; [|done].
    destruct (remove_key_images_swept fuel (bc_key_images c) t Ht) as (t1 & Hk & Hs1 & Hx1 & Hh1).
    unfold st_bind at 1. rewrite Hk. cbn [st_bind set_next st_ret].
    unfold st_bind, set_next, st_ret. cbn [andb negb].
    unfold u64_add. rewrite wrap64_small by (unfold is_u64, U64_MAX, U64_MOD in *; lia).
    set (t2 := mk_fetcher _ _ _ _).
    destruct (IH t2) as (t' & Hl & Hs2 & Hx2 & Hh2); cbn; [apply Hs1|lia..|].
    exists t'. split; [done|]. split; [|split; [done|by rewrite Hh2]].
    assert (swept (λ q, bool_decide (quote_key_image q ∈ bc_key_images c)) t t2) as Hs1' by done.
    eapply swept_ext; [|by eapply swept_compose]. intros q. cbn. unfold spent_from.
    rewrite <-bool_decide_or. apply bool_decide_ext. rewrite (drop_S _ _ _ Hc).
    replace (Z.to_nat (f_next_block_index t + 1)) with (S (Z.to_nat (f_next_block_index t))) by lia.
    unfold key_images at 2. cbn. by rewrite elem_of_app.
Qed.

(** A round, from any block on. *)
Lemma run_round_swept fuel db t :
  serves db → Z.of_nat (length (blocks db)) < U64_MAX → reliable (f_quotebook t) →
  0 ≤ f_next_block_index t < Z.of_nat (length (blocks db)) →
  let last := Z.of_nat (length (blocks db)) - 1 in
  let looks := Z.to_nat (last - f_next_block_index t + 2) in
  ∃ t', run_round (S fuel) (replicate looks (db, false)) t = (Ok tt, t') ∧
        swept (λ q, spent_from db (f_next_block_index t) q || tombstone_expired last q) t t' ∧
        f_next_block_index t' = last + 1 ∧ f_highest t' = last.
Proof.
  intros Hserve Hlen Ht Hpos last looks. subst looks.
  replace (Z.to_nat (last - f_next_block_index t + 2))
    with (S (Z.to_nat (last + 1 - f_next_block_index t))) by lia.
  destruct (load_blocks_swept fuel db (Z.to_nat (last + 1 - f_next_block_index t)) t)
    as (t1 & Hl & Hs1 & Hx1 & Hh1); [done..|lia|lia|].
  unfold run_round, st_bind at 1. rewrite Hl, Hx1. rewrite (proj2 (Z.eqb_neq _ _)) by lia. cbn [negb].
  unfold u64_sub. rewrite wrap64_small by (unfold is_u64, U64_MAX, U64_MOD in *; lia). fold last.
  destruct (remove_and_notify_swept fuel (qb_remove_quotes_by_tombstone_block last)
              (tombstone_expired last) t1) as (t2 & Hn2 & Hs2 & Hx2 & _).
  { destruct (reliable_tombstone last (f_quotebook t1)) as (l & b' & Hr & Hb'); [apply Hs1|].
    exists l, b'. do 2 (split; [done|]).
    exact (remove_tombstone_ok last _ l b' (reliable_inv _ (proj1 Hs1)) Hr). }
  unfold st_bind. rewrite Hn2. unfold set_highest. eexists. split; [done|]. cbn.
  split; [by eapply swept_compose|]. split; [lia|done].
Qed.

(** C15: the thread catches up.  Against a ledger that serves its blocks, a
    round from block [next] on ends after one look per new block and one
    more, with every quote removed whose input is spent in a new block or
    whose tombstone has passed at the last one, the callback told exactly
    about the removed quotes, and the last block recorded as processed. *)
Theorem run_round_catches_up fuel db t :
  serves db → Z.of_nat (length (blocks db)) < U64_MAX → reliable (f_quotebook t) →
  0 ≤ f_next_block_index t < Z.of_nat (length (blocks db)) →
  let last := Z.of_nat (length (blocks db)) - 1 in
  let looks := Z.to_nat (last - f_next_block_index t + 2) in
  ∃ t', run_round (S fuel) (replicate looks (db, false)) t = (Ok tt, t') ∧
        swept (λ q, spent_from db (f_next_block_index t) q || tombstone_expired last q) t t' ∧
        f_next_block_index t' = last + 1 ∧ f_highest t' = last.
Proof. apply run_round_swept. Qed.
End CatchUp.

(** * Clients, ledger and thread together *)

(** The book with its ledger, and where the thread is: the block it works on
    and how many key images of that block it has handled. *)
Record SyncSystem (Q L : Type) := mk_system {
  sy_book : SynchronizedQuoteBook Q L;
  sy_next : nat;
  sy_done : nat;
}.
Arguments mk_system {Q L} _ _ _.
Arguments sy_book {Q L} _.
Arguments sy_next {Q L} _.
Arguments sy_done {Q L} _.

Section Interleaving.
Context `{McLib} {Q L : Type} `{!QuoteBook Q, !QuoteBookLaws Q, !Ledger L, !LedgerLaws L}.
Implicit Types (y : SyncSystem Q L) (b : SynchronizedQuoteBook Q L).

(** The ledger grows; a client uses the book; the thread removes the next key
    image of its block, again if that failed, or goes on to the next block. *)
Inductive sync_step : SyncSystem Q L → SyncSystem Q L → Prop :=
| sync_grow b n d l' :
    blocks (sync_ledger b) `prefix_of` blocks l' →
    sync_step (mk_system b n d)
      (mk_system (mk_sync (sync_quote_book b) l' (sync_highest_processed_block_index b)) n d)
| sync_add b n d q r b' :
    addable (contents b) q → sync_add_quote q b = (r, b') →
    sync_step (mk_system b n d) (mk_system b' n d)
| sync_remove_id b n d i r b' :
    qb_remove_quote_by_id i b = (r, b') → sync_step (mk_system b n d) (mk_system b' n d)
| sync_remove_ki b n d k r b' :
    qb_remove_quotes_by_key_image k b = (r, b') → sync_step (mk_system b n d) (mk_system b' n d)
| sync_remove_tombstone b n d i r b' :
    qb_remove_quotes_by_tombstone_block i b = (r, b') → sync_step (mk_system b n d) (mk_system b' n d)
| sync_fetch_key_image b n d c k r b' :
    blocks (sync_ledger b) !! n = Some c → bc_key_images c !! d = Some k →
    qb_remove_quotes_by_key_image k b = (r, b') →
    sync_step (mk_system b n d) (mk_system b' n (if is_ok r then S d else d))
| sync_fetch_next b n d c :
    blocks (sync_ledger b) !! n = Some c → d = length (bc_key_images c) →
    sync_step (mk_system b n d) (mk_system b (S n) 0).

(** The key images the thread has handled. *)
Definition handled (bs : list BlockContents) (n d : nat) : list KeyImage :=
  key_images (take n bs) ++ default [] (take d ∘ bc_key_images <$> bs !! n).
#[local] Arguments handled : simpl never.

Record sync_inv y : Prop := {
  sy_inv : book_inv (sy_book y);
  sy_position : (sy_next y < length (blocks (sync_ledger (sy_book y))) ∨
                 sy_next y = length (blocks (sync_ledger (sy_book y))) ∧ sy_done y = 0)%nat;
  sy_unspent q : q ∈ contents (sy_book y) →
    quote_key_image q ∉ handled (blocks (sync_ledger (sy_book y))) (sy_next y) (sy_done y);
}.

Lemma handled_subseteq bs n d k : k ∈ handled bs n d → k ∈ key_images bs.
Proof.
  unfold handled, key_images. rewrite elem_of_app, !list_elem_of_bind. intros [(c & Hk & Hc)|Hk].
  - exists c. split; [done|]. by eapply elem_of_take in Hc as (i & ? & _); apply list_elem_of_lookup; exists i.
  - destruct (bs !! n) as [c|] eqn:E; cbn in Hk; [|by apply elem_of_nil in Hk].
    exists c. split; [by apply subseteq_take in Hk|by eapply list_elem_of_lookup_2].
Qed.

Lemma handled_grow bs bs' n d :
  bs `prefix_of` bs' → (n < length bs ∨ n = length bs ∧ d = 0)%nat → handled bs' n d = handled bs n d.
Proof.
  intros [ks ->] Hpos. unfold handled. rewrite take_app_le by lia. f_equal.
  destruct Hpos as [Hlt|[-> ->]]; [by rewrite lookup_app_l|].
  rewrite lookup_app_r, Nat.sub_diag, (lookup_ge_None_2 bs) by lia. by destruct ks.
Qed.

Lemma handled_step bs n d c k :
  bs !! n = Some c → bc_key_images c !! d = Some k → handled bs n (S d) = handled bs n d ++ [k].
Proof. intros Hc Hk. unfold handled. rewrite Hc. cbn. by rewrite (take_S_r _ _ _ Hk), (assoc_L (++)). Qed.

Lemma handled_next bs n c :
  bs !! n = Some c → handled bs (S n) 0 = handled bs n (length (bc_key_images c)).
Proof.
  intros Hc. unfold handled. rewrite Hc, (take_S_r _ _ _ Hc). cbn. rewrite firstn_all.
  unfold key_images. rewrite bind_app. cbn. rewrite app_nil_r.
  by destruct (bs !! S n); cbn; rewrite ?take_0, ?app_nil_r.
Qed.

Lemma on_quote_book_ledger {A} (m : stateful Q Error A) b r b' :
  on_quote_book m b = (r, b') → sync_ledger b' = sync_ledger b.
Proof. unfold on_quote_book. destruct (m _). by intros [= _ <-]. Qed.

(** A removal keeps the invariant. *)
Lemma sync_inv_shrink {A} (m : stateful Q Error A) b n d r b' :
  sync_inv (mk_system b n d) → on_quote_book m b = (r, b') → book_inv b' →
  contents b' ⊆+ contents b → sync_inv (mk_system b' n d).
Proof.
  intros [Hi Hp Hu] Hl%on_quote_book_ledger Hi' Hsub. cbn in *. split; cbn; rewrite ?Hl; [done..|].
  intros q Hq. apply Hu. by eapply elem_of_submseteq.
Qed.

Lemma sync_step_inv y y' : sync_inv y → sync_step y y' → sync_inv y'.
Proof.
  intros Hy Hstep. destruct Hstep as [b n d l' Hpre|b n d q r b' Ha Hr|b n d i r b' Hr|b n d k r b' Hr
                                     |b n d i r b' Hr|b n d c k r b' Hc Hk Hr|b n d c Hc ->].
  - destruct Hy as [Hi Hp Hu]; cbn in *. split; cbn; [done| |].
    + apply prefix_length in Hpre as Hlen. destruct Hp as [?|[-> ->]]; lia.
    + intros q Hq. rewrite (handled_grow _ _ _ _ Hpre Hp). by apply Hu.
  - pose proof Hy as [Hi Hp Hu]; cbn in Hi, Hp, Hu.
    pose proof (@add_inv _ _ _ SynchronizedQuoteBook_Laws _ _ _ _ Hi Ha Hr) as Hi'.
    destruct (@add_frame _ _ _ SynchronizedQuoteBook_Laws _ _ _ _ Hi Ha Hr) as [_ Hsub].
    destruct (sync_add_inv _ _ _ _ Hr) as [(_ & _ & ->)|[Hfresh%check_quote_fresh _]]; [done|].
    assert (sync_ledger b' = sync_ledger b) as Hl.
    { revert Hr. unfold sync_add_quote, st_bind, st_lift. case_match; [|by intros [= _ <-]..].
      apply on_quote_book_ledger. }
    split; cbn; rewrite ?Hl; [done..|]. intros x Hx.
    eapply elem_of_submseteq in Hx; [|exact Hsub]. apply elem_of_cons in Hx as [->|Hx]; [|by apply Hu].
    intros Hin%handled_subseteq. by apply (fresh_unspent _ _ Hfresh).
  - exact (sync_inv_shrink _ _ _ _ _ _ Hy Hr (remove_id_inv _ _ _ _ (sy_inv _ Hy) Hr)
             (remove_id_frame _ _ _ _ (sy_inv _ Hy) Hr)).
  - exact (sync_inv_shrink _ _ _ _ _ _ Hy Hr (remove_ki_inv _ _ _ _ (sy_inv _ Hy) Hr)
             (remove_ki_frame _ _ _ _ (sy_inv _ Hy) Hr)).
  - exact (sync_inv_shrink _ _ _ _ _ _ Hy Hr (remove_tombstone_inv _ _ _ _ (sy_inv _ Hy) Hr)
             (remove_tombstone_frame _ _ _ _ (sy_inv _ Hy) Hr)).
  - pose proof (on_quote_book_ledger _ _ _ _ Hr) as Hl.
    pose proof (sync_inv_shrink _ _ _ _ _ _ Hy Hr (remove_ki_inv _ _ _ _ (sy_inv _ Hy) Hr)
                  (remove_ki_frame _ _ _ _ (sy_inv _ Hy) Hr)) as Hy'.
    destruct r as [l|e|p]; [|done..]. destruct Hy' as [Hi' Hp' Hu']. cbn in *.
    split; cbn; [done| |].
    + left. rewrite Hl. by apply lookup_lt_Some in Hc.
    + intros q Hq. rewrite Hl in *. rewrite (handled_step _ _ _ _ _ Hc Hk), not_elem_of_app.
      split; [by apply Hu'|]. rewrite list_elem_of_singleton.
      destruct (@remove_ki_ok _ _ _ SynchronizedQuoteBook_Laws _ _ _ _ (sy_inv _ Hy) Hr) as [_ Hcont].
      cbn in Hcont. rewrite Hcont in Hq. by apply list_elem_of_filter in Hq as [? _].
  - destruct Hy as [Hi Hp Hu]; cbn in *. split; cbn; [done| |].
    + apply lookup_lt_Some in Hc. lia.
    + intros q Hq. rewrite (handled_next _ _ _ Hc). by apply Hu.
Qed.

(** C16: however the ledger's growth, the clients' calls and the steps of the
    thread interleave, with every [add_quote] one step, the book never holds
    a quote whose input is spent in a block the thread has processed. *)
Theorem sync_no_spent_quotes b y :
  book_inv b → contents b = [] → rtc sync_step (mk_system b 0 0) y →
  ∀ q, q ∈ contents (sy_book y) →
    quote_key_image q ∉ key_images (take (sy_next y) (blocks (sync_ledger (sy_book y)))).
Proof.
  intros Hi Hc Hrun q Hq.
  assert (sync_inv y) as [_ _ Hu].
  { eapply rtc_preserve; [exact sync_step_inv| |exact Hrun]. split; cbn; [done| |].
    - destruct (blocks _); cbn; lia.
    - cbn in Hc. rewrite Hc. intros x Hx. by apply elem_of_nil in Hx. }
  specialize (Hu q Hq). unfold handled in Hu. rewrite not_elem_of_app in Hu. by destruct Hu.
Qed.
End Interleaving.

(** C17: the thread cannot be stopped while the book keeps failing.  With the
    lock of the in-memory book poisoned, the first key image of a block keeps
    the thread in its retry loop for ever: whatever the stop flag says and
    however long it runs, it has not finished, so that [SyncThread::stop],
    which joins it, does not return. *)
Theorem poisoned_book_blocks_stop `{McLib} {L} `{!Ledger L} fuel (db : L) stop env rounds t c k ks :
  im_poisoned (f_quotebook t) = true →
  get_block_contents (f_next_block_index t) db = Ok c → bc_key_images c = k :: ks →
  run fuel ((false, (db, stop) :: env) :: rounds) t = (Err still_running, t).
Proof.
  intros Hp Hc Hk. cbn [run]. unfold st_bind at 1, run_round. cbn [load_blocks].
  unfold st_bind at 1 2 3, load_block_data. rewrite Hc, Hk. cbn [remove_key_images].
  unfold st_bind, remove_and_notify.
  assert (∀ b n, im_poisoned b = true →
            retry_removal n (qb_remove_quotes_by_key_image k) b = (Err still_running, b)) as Hretry.
  { intros b n Hb. induction n as [|n IH]; [done|]. cbn.
    unfold im_remove_quotes_by_key_image, with_write. rewrite Hb. exact IH. }
  rewrite (Hretry _ _ Hp). by destruct t.
Qed.

(** A concrete ledger: its blocks. *)
Module SampleLedger.
Abbreviation Chain := (list BlockContents).

#[export] Instance sample_ledger : Ledger Chain := {|
  num_blocks l :=
    if bool_decide (is_u64 (Z.of_nat (length l))) then Ok (Z.of_nat (length l))
    else Err (OtherLedgerError "CapacityExceeded");
  contains_key_image k l := Ok (bool_decide (k ∈ key_images l));
  get_tx_out_by_index i l := ok_or ((l ≫= bc_outputs) !! Z.to_nat i) NotFound;
  get_block_contents i l := ok_or (l !! Z.to_nat i) NotFound;
|}.

#[export] Program Instance sample_ledger_laws : LedgerLaws Chain := {| blocks l := l |}.
Next Obligation. intros l n. cbn. case_bool_decide; [|done]. by intros [= <-]. Qed.
Next Obligation.
  intros k l b [= <-]. rewrite bool_decide_eq_true. unfold key_images. rewrite list_elem_of_bind. naive_solver.
Qed.
Next Obligation. intros i l t Ht. cbn in Ht. by inv_ok. Qed.
Next Obligation. intros i l c _ Hc. cbn in Hc. by inv_ok. Qed.
Next Obligation.
  intros i l Hi. cbn. destruct (l !! Z.to_nat i) eqn:E; [done|]. apply lookup_ge_None in E. lia.
Qed.

Lemma chain_serves (l : Chain) : serves l.
Proof. intros i Hi. cbn. destruct (l !! Z.to_nat i); cbn; eauto. Qed.
End SampleLedger.

Module SyncExamples.
Import Sample SampleLedger InMemoryExamples.

(** The origin block with the outputs of the sample rings, and a block that
    spends [quote_a]. *)
Definition origin : BlockContents := {| bc_key_images := []; bc_outputs := tx_out <$> [0; 1; 2] |}.
Definition spending : BlockContents := {| bc_key_images := [[1]]; bc_outputs := [] |}.
Definition sync_book : SynchronizedQuoteBook InMemoryQuoteBook Chain := sync_new im_default [origin].

Lemma sync_add_quote_spec_witness :
  (sync_add_quote quote_a sync_book).1 = Ok tt ∧
  ((fresh (sync_ledger sync_book) quote_a ∧
    qb_add_quote quote_a (sync_quote_book sync_book) = (Ok tt, book_a)) ∨ False).
Proof.
  split; [by vm_compute|]. left.
  destruct (sync_add_quote_spec quote_a sync_book (Ok tt) (mk_sync book_a [origin] 0)) as [[Hf Hq]|[? _]];
    [by vm_compute|done..].
Defined.

Lemma run_round_catches_up_witness :
  let t := fetcher_start book_a 0 in
  let db := [origin; spending] in
  let last := Z.of_nat (length (blocks db)) - 1 in
  ∃ t', run_round 1 (replicate (Z.to_nat (last - 0 + 2)) (db, false)) t = (Ok tt, t') ∧
        swept (λ q, spent_from db 0 q || tombstone_expired last q) t t' ∧
        f_next_block_index t' = last + 1 ∧ f_highest t' = last.
Proof.
  apply (run_round_catches_up 0 [origin; spending] (fetcher_start book_a 0) (chain_serves _));
    [done|apply im_reachable_healthy, book_a_reachable|done].
Defined.

Lemma sync_no_spent_quotes_witness : quote_key_image quote_a ∉ key_images (take 1 [origin]).
Proof.
  assert (rtc sync_step (mk_system sync_book 0 0) (mk_system (mk_sync book_a [origin] 0) 1 0)) as Hrun.
  { eapply rtc_l; [eapply sync_fetch_next; by vm_compute|].
    eapply rtc_once, (sync_add sync_book 1 0 quote_a (Ok tt)); [|by vm_compute].
    split; [solve_decide|]. intros x Hx. by apply elem_of_nil in Hx. }
  refine (sync_no_spent_quotes sync_book (mk_system (mk_sync book_a [origin] 0) 1 0) _ eq_refl Hrun quote_a _).
  - intros p qs Hp. cbn in Hp. by rewrite lookup_empty in Hp.
  - assert (contents (mk_sync book_a [origin] 0) = [quote_a]) as E by by vm_compute.
    cbn [sy_book]. rewrite E. apply list_elem_of_here.
Defined.

Lemma poisoned_book_blocks_stop_witness :
  let t := mk_fetcher {| im_scis := ∅; im_poisoned := true |} [] 0 0 in
  run 1000 [(false, [([spending], true)]); (true, [])] t = (Err still_running, t).
Proof. by apply (poisoned_book_blocks_stop 1000 [spending] true [] [(true, [])] _ spending [1] []). Defined.
End SyncExamples.

Section Race.
Import Sample SampleLedger InMemoryExamples SyncExamples.

(** [add_quote] checks the ledger before it adds, and a block can arrive
    in between.  If the thread processes the block that spends a quote after
    the checks of [add_quote] and before the quote is in the book, the quote
    is added, and later rounds of the thread leave it there. *)
Lemma sync_add_race :
  ∃ (before after : Chain) q t b,
    before `prefix_of` after ∧ check_quote before q = Ok tt ∧
    run_round 1 [(after, false); (after, false); (after, false)] (fetcher_start im_default 0) = (Ok tt, t) ∧
    f_next_block_index t = Z.of_nat (length after) ∧
    qb_add_quote q (f_quotebook t) = (Ok tt, b) ∧
    bool_decide (quote_key_image q ∈ key_images after) = true ∧
    let t1 := mk_fetcher b (f_callbacks t) (f_next_block_index t) (f_highest t) in
    run_round 1 [(after, false)] t1 = (Ok tt, t1) ∧
    im_get_quote_by_id (q_id q) (f_quotebook t1) = Ok (Some q).
Proof.
  exists [origin], [origin; spending], quote_a,
    (run_round 1 (replicate 3 ([origin; spending], false)) (fetcher_start im_default 0)).2, book_a.
  split; [by exists [spending]|]. by vm_compute.
Qed.
End Race.
