(* ===== verification/SyncTests.v ===== *)
(** The unit tests of the synchronized quote book
    (quote-book/synchronized/src/lib.rs, [mod tests]) as programs, with the
    background thread at work: before every call on the book it has made any
    number of rounds.  The ledger of the tests is the one the book reads. *)

From S2P Require Import Prelude McTypes QuoteApi QuotePricing QuoteBook InMemory BookEquiv TestUtils Conformance Synchronized.

(** The test utilities of mc-ledger-db and mc-transaction-builder. *)
Class TestLedger (S L : Type) := {
  (** The database behind the handles of the test. *)
  test_ledger : S → L;
  add_txos_and_key_images_to_ledger : list TxOut → list KeyImage → stateful S string unit;
  (** The outputs of [get_transaction(..)] with two inputs and two outputs *)
  get_transaction : stateful S string (list TxOut);
}.

(** The outside, and the thread with the book it shares with its clients. *)
Record SyncWorld (S : Type) := mk_sync_world { sw_env : S; sw_thread : DbFetcherThread InMemoryQuoteBook }.
Arguments mk_sync_world {S} _ _.
Arguments sw_env {S} _.
Arguments sw_thread {S} _.

Section Tests.
Context `{McLib} {S Acc IC B L : Type} `{!HashIter Pair (list Quote)}.
Context `{!TestLib S Acc IC B, !TestLedger S L, !Ledger L}.
(** The rounds the thread makes before a call. *)
Variable rounds : SyncWorld S → nat.
Local Abbreviation world := (SyncWorld S).
Local Abbreviation test := (stateful world Error).

Definition in_setting {A} (m : stateful S string A) : test A := λ w,
  let '(r, s) := m (sw_env w) in
  (match r with Ok a => Ok a | Err e => Panic e | Panic p => Panic p end, mk_sync_world s (sw_thread w)).

(** [setup] *)
Definition sync_setup (s : S) : world := mk_sync_world s (fetcher_start im_default 0).

(** The book as its clients see it. *)
Definition shared_book (w : world) : SynchronizedQuoteBook InMemoryQuoteBook L :=
  mk_sync (f_quotebook (sw_thread w)) (test_ledger (sw_env w)) (f_highest (sw_thread w)).
Definition with_book (q : InMemoryQuoteBook) (w : world) : world :=
  let t := sw_thread w in mk_sync_world (sw_env w) (mk_fetcher q (f_callbacks t) (f_next_block_index t) (f_highest t)).

(** A round of the thread: a look per new block, and one more. *)
Definition thread_round : test unit := λ w,
  let t := sw_thread w in
  let db := test_ledger (sw_env w) in
  match num_blocks db with
  | Ok n =>
      let '(r, t) := run_round 1 (replicate (Datatypes.S (Z.to_nat (n - f_next_block_index t))) (db, false)) t in
      (match r with Ok _ => Ok tt | Err _ => Panic "still running" | Panic p => Panic p end, mk_sync_world (sw_env w) t)
  | _ => (Panic "still running", w)
  end.
Fixpoint thread_rounds (n : nat) : test unit :=
  match n with O => st_ret tt | Datatypes.S n => thread_round;;; thread_rounds n end.
Definition background : test unit := λ w, thread_rounds (rounds w) w.

(** A call on the book. *)
Definition on_shared {A} (m : stateful (SynchronizedQuoteBook InMemoryQuoteBook L) Error A) : test A :=
  background;;; λ w, let '(r, b) := m (shared_book w) in (r, with_book (sync_quote_book b) w).
Definition sync_add_sci (sci : SignedContingentInput) : test Quote :=
  now <-- in_setting (from_fun system_time);; on_shared (qb_add_sci now sci None).
Definition sync_get_quotes (p : Pair) : test (list Quote) :=
  unwrap (on_shared (λ b, (qb_get_quotes p everything 0 b, b))).

(** [ledger.num_blocks().unwrap()] *)
Definition ledger_num_blocks : test Z := unwrap (λ w, (ledger_error (num_blocks (test_ledger (sw_env w))), w)).

(** [while book.get_current_block_index() < ledger.num_blocks().unwrap() - 1],
    for at most [fuel] rounds of the thread. *)
Fixpoint wait_for_sync (fuel : nat) : test unit :=
  n <-- ledger_num_blocks;;
  λ w,
    if get_current_block_index (shared_book w) <? u64_sub n 1 then
      match fuel with
      | O => (Panic "still waiting", w)
      | Datatypes.S fuel => (thread_round;;; wait_for_sync fuel) w
      end
    else (Ok tt, w).

(** A block with the outputs of a transaction, that spends [ks]. *)
Definition spend (ks : list KeyImage) : test unit :=
  outputs <-- in_setting (unwrap get_transaction);;
  in_setting (unwrap (add_txos_and_key_images_to_ledger outputs ks)).
Definition add_block : test unit :=
  outputs <-- in_setting (unwrap get_transaction);;
  in_setting (unwrap (add_txos_to_ledger outputs)).

(** What the callback was told. *)
Definition assert_removed (expected : list Quote) : test unit := λ w,
  assert_eq (concat (f_callbacks (sw_thread w))) expected w.

Definition st_builder (p : Pair) (with_ledger : bool) : test B :=
  in_setting (tu_create_sci_builder (base_token_id p) (counter_token_id p) 10 20 with_ledger).
Definition st_create (p : Pair) : test SignedContingentInput :=
  in_setting (tu_create_sci (base_token_id p) (counter_token_id p) 10 20 true).
Definition st_build (b : B) : test SignedContingentInput := in_setting (unwrap (tb_build b)).
Definition expect_listed (p : Pair) (expected : list Quote) : test unit :=
  quotes <-- sync_get_quotes p;; assert_eq quotes expected.
Definition expect_refused (sci : SignedContingentInput) (e : Error) : test unit :=
  err <-- unwrap_err (sync_add_sci sci);; assert_eq err e.

Definition cannot_add_sci_with_key_image_in_ledger : test unit :=
  builder <-- st_builder test_pair true;; sci <-- st_build builder;;
  spend [sci_key_image sci];;;
  expect_refused sci QuoteIsStale;;;
  sci <-- st_create test_pair;;
  quote <-- unwrap (sync_add_sci sci);;
  expect_listed test_pair [quote].

Definition sci_that_are_added_to_ledger_are_removed_in_the_background : test unit :=
  builder <-- st_builder test_pair true;; sci <-- st_build builder;;
  quote <-- unwrap (sync_add_sci sci);;
  expect_listed test_pair [quote];;;
  spend [sci_key_image sci];;;
  wait_for_sync 1;;;
  expect_listed test_pair [];;;
  assert_removed [quote].

Definition cannot_add_sci_past_tombstone_block : test unit :=
  builder <-- st_builder test_pair true;; n <-- ledger_num_blocks;;
  sci <-- st_build (tb_set_tombstone_block (u64_sub n 2) builder);;
  expect_refused sci QuoteIsStale;;;
  builder <-- st_builder test_pair true;; sci2 <-- st_build (tb_set_tombstone_block 0 builder);;
  quote2 <-- unwrap (sync_add_sci sci2);;
  expect_listed test_pair [quote2];;;
  builder <-- st_builder test_pair true;; n <-- ledger_num_blocks;;
  sci3 <-- st_build (tb_set_tombstone_block n builder);;
  quote3 <-- unwrap (sync_add_sci sci3);;
  expect_listed test_pair [quote2; quote3];;;
  builder <-- st_builder test_pair true;; n <-- ledger_num_blocks;;
  sci4 <-- st_build (tb_set_tombstone_block (u64_sub n 1) builder);;
  expect_refused sci4 QuoteIsStale.

Definition sci_past_tombstone_block_get_removed_in_the_background : test unit :=
  starting_blocks <-- ledger_num_blocks;;
  builder <-- st_builder test_pair true;; n <-- ledger_num_blocks;;
  assert_eq n (u64_add starting_blocks 1);;;
  sci <-- st_build (tb_set_tombstone_block n builder);;
  quote <-- unwrap (sync_add_sci sci);;
  expect_listed test_pair [quote];;;
  add_block;;;
  n <-- ledger_num_blocks;;
  assert_eq n (u64_add starting_blocks 2);;;
  wait_for_sync 1;;;
  expect_listed test_pair [];;;
  assert_removed [quote].

Definition sci_with_invalid_ring_is_rejected : test unit :=
  starting_blocks <-- ledger_num_blocks;;
  builder <-- st_builder test_pair false;; n <-- ledger_num_blocks;;
  assert_eq n starting_blocks;;;
  sci <-- st_build builder;;
  expect_refused sci (InvalidRing "Invalid ring member");;;
  expect_listed test_pair [];;;
  builder <-- st_builder test_pair true;; n <-- ledger_num_blocks;;
  assert_eq n (u64_add starting_blocks 1);;;
  sci2 <-- st_build builder;;
  quote <-- unwrap (sync_add_sci sci2);;
  expect_listed test_pair [quote].
End Tests.

(** * What the test utilities promise *)

(** The outputs of a chain of blocks. *)
Definition outputs_of (bs : list BlockContents) : list TxOut := bs ≫= bc_outputs.
Definition TEST_RING_SIZE : nat := 11.

Class TestLedgerLaws `{McLib} (S Acc IC B L : Type) `{!TestLib S Acc IC B, !TestLibLaws S Acc IC B, !TestLedger S L, !Ledger L, !LedgerLaws L} := {
  (** The ring of a builder, and the indices of its members. *)
  tb_ring : B → list TxOut;
  tb_indices : B → list Z;
  (** The ledger answers, while it is small enough for its counters. *)
  ledger_num s : Z.of_nat (length (blocks (test_ledger s))) < U64_MAX →
    num_blocks (test_ledger s) = Ok (Z.of_nat (length (blocks (test_ledger s))));
  ledger_contains k s : ∃ b, contains_key_image k (test_ledger s) = Ok b;
  ledger_tx_out i s : 0 ≤ i < Z.of_nat (length (outputs_of (blocks (test_ledger s)))) →
    ∃ t, get_tx_out_by_index i (test_ledger s) = Ok t;
  ledger_serves s : serves (test_ledger s);
  (** Accounts and the clock have nothing to do with it. *)
  account_ledger s : test_ledger (account_random s).2 = test_ledger s;
  clock_ledger s : test_ledger (system_time s).2 = test_ledger s;
  (** Credentials: a ring of outputs that are not in the ledger, with proofs
      for indices below the size of a ring; the key image is unspent. *)
  credentials_ledger a acc s ic s' : get_input_credentials a acc s = (ic, s') →
    test_ledger s' = test_ledger s ∧ length (ic_ring ic) = TEST_RING_SIZE ∧ length (ic_proof_indices ic) = TEST_RING_SIZE ∧
    Forall (λ t, t ∉ outputs_of (blocks (test_ledger s))) (ic_ring ic) ∧
    Forall (λ i, 0 ≤ i < Z.of_nat TEST_RING_SIZE) (ic_proof_indices ic) ∧
    ic_key_image ic ∉ Synchronized.key_images (blocks (test_ledger s));
  set_indices l ic : ic_ring (ic_set_proof_indices l ic) = ic_ring ic ∧
    (length l = length (ic_proof_indices ic) → ic_proof_indices (ic_set_proof_indices l ic) = l);
  num_txos_ledger s n : ledger_num_txos s = Ok n → n = Z.of_nat (length (outputs_of (blocks (test_ledger s))));
  (** Blocks are appended; the key images made up for one are new. *)
  add_txos_ledger ring s s' : add_txos_to_ledger ring s = (Ok tt, s') → ∃ ks,
    blocks (test_ledger s') = blocks (test_ledger s) ++ [{| bc_key_images := ks; bc_outputs := ring |}] ∧
    ∀ k, k ∈ ks → k ∉ TestUtils.key_images (trace s);
  add_both_ledger outputs ks s : ∃ s', add_txos_and_key_images_to_ledger outputs ks s = (Ok tt, s') ∧ trace s' = trace s ∧
    blocks (test_ledger s') = blocks (test_ledger s) ++ [{| bc_key_images := ks; bc_outputs := outputs |}];
  get_transaction_ledger s : ∃ outputs s', get_transaction s = (Ok outputs, s') ∧ trace s' = trace s ∧
    test_ledger s' = test_ledger s ∧ length outputs = 2%nat;
  (** A builder signs for the ring of its credentials. *)
  tb_new_ring ic b : tb_new ic = Ok b → tb_ring b = ic_ring ic ∧ tb_indices b = ic_proof_indices ic;
  add_required_ring a acc b s b' s' : tb_add_required_output a acc b s = (Ok b', s') →
    tb_ring b' = tb_ring b ∧ tb_indices b' = tb_indices b ∧ test_ledger s' = test_ledger s;
  set_tombstone_ring n b : tb_ring (tb_set_tombstone_block n b) = tb_ring b ∧
    tb_indices (tb_set_tombstone_block n b) = tb_indices b;
  build_ring b s sci s' : tb_build b s = (Ok sci, s') →
    ring (tx_in sci) = tb_ring b ∧ tx_out_global_indices sci = tb_indices b ∧ test_ledger s' = test_ledger s;
}.

(** The tombstone of the tests' builders, block 2000, is not too far ahead of
    the first block. *)
Class TestTombstones `{McLib} `{!TombstoneLaws _} : Prop := { test_tombstones : 2000 ≤ max_tombstone_blocks }.

Lemma returns_and {W E A} (m : stateful W E A) w Q1 Q2 :
  returns m w Q1 → returns m w Q2 → returns m w (λ a w', Q1 a w' ∧ Q2 a w').
Proof. intros (a & w' & Hm & H1) (a' & w2 & Hm' & H2). exists a, w'. rewrite Hm in Hm'. by simplify_eq. Qed.

(** A pair of 64-bit tokens. *)
Class TestPair (p : Pair) : Prop := { tp_base : is_u64 (base_token_id p); tp_counter : is_u64 (counter_token_id p) }.
#[export] Instance test_pair_TestPair : TestPair test_pair.
Proof. done. Qed.

Section Rules.
Context `{McLib} `{!McLibLaws _, !TombstoneLaws _, !TestTombstones} {S Acc IC B L : Type} `{!HashIter Pair (list Quote)}.
Context `{!TestLib S Acc IC B, !TestLibLaws S Acc IC B, !TestLedger S L, !Ledger L, !LedgerLaws L, !TestLedgerLaws S Acc IC B L}.
Variable rounds : SyncWorld S → nat.
Context (p : Pair) `{!TestPair p}.
Local Abbreviation world := (SyncWorld S).
Local Abbreviation test := (stateful world Error).
Implicit Types (w : world) (l removed : list Quote) (n k : nat).

Definition chain_of (s : S) : list BlockContents := blocks (test_ledger s).

(** ** The thread *)

(** The book is up with the quotes [l], the ledger has [n] blocks, the thread
    is somewhere in it and has told the callback about [removed]; the next [k]
    readings of the clock advance and the ledger can grow [k] more times. *)
Record running k n l removed w : Prop := {
  run_up : im_up (f_quotebook (sw_thread w));
  run_contents : contents (f_quotebook (sw_thread w)) ≡ₚ l;
  run_known : known (trace (sw_env w)) l;
  run_time : ticks k (trace (sw_env w));
  run_blocks : length (chain_of (sw_env w)) = n;
  run_room : Z.of_nat n + Z.of_nat k < 2 ^ 62 < U64_MAX;
  run_outputs : Z.of_nat TEST_RING_SIZE ≤ Z.of_nat (length (outputs_of (chain_of (sw_env w)))) ≤ U64_MAX - 16 * Z.of_nat k;
  run_next : 0 ≤ f_next_block_index (sw_thread w) ≤ Z.of_nat n;
  run_highest : f_highest (sw_thread w) = f_next_block_index (sw_thread w) - 1 ∨
                f_next_block_index (sw_thread w) = 0 ∧ f_highest (sw_thread w) = 0;
  run_removed : concat (f_callbacks (sw_thread w)) ≡ₚ removed;
}.

(** The ledger rules out none of the quotes. *)
Definition alive n l w : Prop := ∀ q, q ∈ l →
  quote_key_image q ∉ Synchronized.key_images (chain_of (sw_env w)) ∧ tombstone_expired (Z.of_nat n - 1) q = false.

(** The quotes that a round removes. *)
Definition outdated n w (q : Quote) : bool :=
  spent_from (test_ledger (sw_env w)) (f_next_block_index (sw_thread w)) q || tombstone_expired (Z.of_nat n - 1) q.

Lemma round_idle (t : DbFetcherThread InMemoryQuoteBook) (db : L) :
  serves db → f_next_block_index t = Z.of_nat (length (blocks db)) →
  run_round 1 [(db, false)] t = (Ok tt, t).
Proof.
  intros Hs Hn. unfold run_round. cbn. unfold st_bind, load_block_data.
  destruct (Hs (f_next_block_index t)) as [[c Hc]| ->]; [lia| |].
  - apply get_block_contents_ok in Hc; [|lia]. apply lookup_lt_Some in Hc. lia.
  - cbn. by rewrite Z.eqb_refl.
Qed.

Lemma thread_round_sweeps k n l removed w :
  running k n l removed w → f_next_block_index (sw_thread w) < Z.of_nat n →
  ∃ w', thread_round w = (Ok tt, w') ∧ sw_env w' = sw_env w ∧ f_highest (sw_thread w') = Z.of_nat n - 1 ∧
    running k n (filter (λ q, outdated n w q = false) l) (removed ++ filter (λ q, outdated n w q = true) l) w'.
Proof.
  intros [[Hh Hids] Hc Hk Ht Hb Hroom Hout Hnext Hhigh Hrem] Hlt. unfold chain_of in *.
  destruct (run_round_swept 0 (test_ledger (sw_env w)) (sw_thread w)) as (t' & Hrun & Hsw & Hn' & Hh'); [apply ledger_serves|lia|done|lia|].
  exists (mk_sync_world (sw_env w) t'). split; [|split; [done|split; [cbn; lia|]]].
  - unfold thread_round. rewrite ledger_num by lia.
    replace (Datatypes.S (Z.to_nat (Z.of_nat (length (blocks (test_ledger (sw_env w)))) - f_next_block_index (sw_thread w))))
      with (Z.to_nat (Z.of_nat (length (blocks (test_ledger (sw_env w)))) - 1 -
      f_next_block_index (sw_thread w) + 2)) by lia.
    by rewrite Hrun.
  - destruct Hsw as (Hrel & Hc' & cbs & Hcbs & Hgone). rewrite Hb in *.
    assert (∀ v, filter (λ q, outdated n w q = v) (contents (f_quotebook (sw_thread w))) ≡ₚ filter (λ q, outdated n w q = v) l) as Hfil
      by (intros v; by rewrite Hc).
    split; cbn; [| | |done|done|done|done|lia|lia|].
    + apply (im_up_shrink (f_quotebook (sw_thread w))); [exact Hrel|done|]. rewrite Hc'. apply filter_submseteq.
    + rewrite Hc'. apply Hfil.
    + eapply known_sub; [|exact Hk]. intros q. rewrite list_elem_of_filter. tauto.
    + rewrite Hcbs, concat_app, Hrem, Hgone. by rewrite Hfil.
Qed.

Lemma alive_current n l w : alive n l w → ∀ q, q ∈ l → outdated n w q = false.
Proof.
  intros Hal q Hq. destruct (Hal q Hq) as [Hs Ht]. unfold outdated. rewrite Ht, orb_false_r. unfold spent_from.
  apply bool_decide_eq_false. intros Hin. apply Hs. unfold Synchronized.key_images in *.
  apply list_elem_of_bind in Hin as (c & Hkc & Hc). apply list_elem_of_bind. exists c. split; [done|].
  rewrite <-(take_drop (Z.to_nat (f_next_block_index (sw_thread w))) (chain_of (sw_env w))). apply elem_of_app. by right.
Qed.

(** Whatever the ledger says, the thread does its rounds. *)
Lemma thread_round_runs k n l removed w :
  running k n l removed w →
  ∃ w' l' removed', thread_round w = (Ok tt, w') ∧ sw_env w' = sw_env w ∧ running k n l' removed' w' ∧
    (alive n l w → l' = l ∧ removed' = removed).
Proof.
  intros Hr. destruct (decide (f_next_block_index (sw_thread w) = Z.of_nat n)) as [E|Hne].
  - exists w, l, removed. split; [|done]. destruct Hr as [_ _ _ _ Hb Hroom _ _ _ _]. unfold thread_round, chain_of in *.
    rewrite ledger_num, Hb, E by lia. rewrite Z.sub_diag. cbn [Z.to_nat replicate].
    rewrite round_idle; [by destruct w|apply ledger_serves|by rewrite Hb].
  - pose proof (run_next _ _ _ _ _ Hr). destruct (thread_round_sweeps k n l removed w Hr) as (w' & Hrun & He & _ & Hr'); [lia|].
    eexists w', _, _. split; [done|]. split; [done|]. split; [exact Hr'|]. intros Hal.
    rewrite list_filter_all, list_filter_none, app_nil_r; [done| |].
    + intros q Hq. rewrite (alive_current _ _ _ Hal q Hq). done.
    + intros q Hq. by apply (alive_current _ _ _ Hal).
Qed.

Lemma alive_env n l w w' : sw_env w' = sw_env w → alive n l w → alive n l w'.
Proof. unfold alive. by intros ->. Qed.

Lemma background_runs k n l removed w :
  running k n l removed w →
  ∃ w' l' removed', background rounds w = (Ok tt, w') ∧ sw_env w' = sw_env w ∧ running k n l' removed' w' ∧
    (alive n l w → l' = l ∧ removed' = removed).
Proof.
  unfold background. generalize (rounds w) as m. intros m. revert l removed w.
  induction m as [|m IH]; intros l removed w Hr; [by exists w, l, removed|]. cbn.
  destruct (thread_round_runs k n l removed w Hr) as (w1 & l1 & rem1 & H1 & E1 & Hr1 & Hal1).
  destruct (IH l1 rem1 w1 Hr1) as (w2 & l2 & rem2 & H2 & E2 & Hr2 & Hal2).
  exists w2, l2, rem2. unfold st_bind. rewrite H1, H2. split; [done|]. split; [by rewrite E2|]. split; [done|].
  intros Hal. destruct (Hal1 Hal) as [-> ->]. by apply Hal2, (alive_env _ _ w).
Qed.

Lemma background_keeps k n l removed w :
  running k n l removed w → alive n l w →
  ∃ w', background rounds w = (Ok tt, w') ∧ sw_env w' = sw_env w ∧ running k n l removed w'.
Proof.
  intros Hr Hal. destruct (background_runs k n l removed w Hr) as (w' & l' & rem' & ? & ? & ? & Hsame).
  destruct (Hsame Hal) as [-> ->]. eauto.
Qed.

(** ** Creating SCIs *)

(** The ring of a builder: appended to the ledger in a block of its own, or not
    in the ledger at all. *)
Definition in_ledger (key : KeyImage) (s s' : S) (b : B) : Prop := ∃ ks,
  chain_of s' = chain_of s ++ [{| bc_key_images := ks; bc_outputs := tb_ring b |}] ∧
  (∀ ki, ki ∈ ks → ki ≠ key ∧ ki ∉ TestUtils.key_images (trace s)) ∧
  length (tb_ring b) = TEST_RING_SIZE ∧
  tb_indices b = (λ i, Z.of_nat (length (outputs_of (chain_of s)) + i)) <$> seq 0 TEST_RING_SIZE.
Definition not_in_ledger (s s' : S) (b : B) : Prop :=
  chain_of s' = chain_of s ∧ length (tb_ring b) = TEST_RING_SIZE ∧ length (tb_indices b) = TEST_RING_SIZE ∧
  Forall (λ t, t ∉ outputs_of (chain_of s)) (tb_ring b) ∧ Forall (λ i, 0 ≤ i < Z.of_nat TEST_RING_SIZE) (tb_indices b).

Lemma imap_seq {X Y} (f : nat → Y) (l : list X) : imap (λ i _, f i) l = f <$> seq 0 (length l).
Proof.
  revert f. induction l as [|x l IH]; intros f; [done|]. cbn. f_equal.
  transitivity (imap (λ i _, f (Datatypes.S i)) l); [done|].
  by rewrite (IH (λ i, f (Datatypes.S i))), <-fmap_S_seq, <-list_fmap_compose.
Qed.

Lemma add_ring_ledger ic s :
  length (ic_ring ic) = TEST_RING_SIZE → length (ic_proof_indices ic) = TEST_RING_SIZE →
  Z.of_nat (length (outputs_of (chain_of s))) + 16 ≤ U64_MAX →
  returns (add_ring_to_ledger true ic) s (λ ic' s', ∃ ks,
    chain_of s' = chain_of s ++ [{| bc_key_images := ks; bc_outputs := ic_ring ic' |}] ∧
    (∀ ki, ki ∈ ks → ki ∉ TestUtils.key_images (trace s)) ∧ ic_ring ic' = ic_ring ic ∧ ic_key_image ic' = ic_key_image ic ∧
    ic_proof_indices ic' = (λ i, Z.of_nat (length (outputs_of (chain_of s)) + i)) <$> seq 0 TEST_RING_SIZE).
Proof.
  intros Hr Hi Hroom. unfold add_ring_to_ledger. destruct (num_txos_ok s) as [n Hn].
  apply returns_bind, returns_unwrap. exists n, s. unfold reading. rewrite Hn. split; [done|].
  apply num_txos_ledger in Hn. fold (chain_of s) in Hn.
  set (l := imap _ _). destruct (set_indices l ic) as [Hring Hidx]. destruct (set_proof_indices_keeps l ic) as [_ Hkey].
  destruct (add_txos_ok (ic_ring (ic_set_proof_indices l ic)) s) as (s' & Hs' & _).
  apply returns_bind, returns_unwrap. exists tt, s'. split; [done|]. apply returns_ret.
  destruct (add_txos_ledger _ _ _ Hs') as (ks & Hb & Hks). exists ks. split; [done|]. split; [done|]. split; [done|].
  split; [done|]. rewrite Hidx by apply length_imap. unfold l.
  rewrite (imap_seq (λ i, u64_add n (Z.of_nat i))), Hi. apply list_fmap_ext. intros j i Hij.
  apply lookup_seq in Hij as [-> Hj]. unfold u64_add, TEST_RING_SIZE in *. rewrite wrap64_small; [lia|].
  unfold is_u64, U64_MAX, U64_MOD in *. lia.
Qed.

Lemma builder_ledger base counter wl s :
  Z.of_nat (length (outputs_of (chain_of s))) + 16 ≤ U64_MAX →
  returns (tu_create_sci_builder (base_token_id p) (counter_token_id p) base counter wl) s (λ b s',
    let key := of_key_image (tb_offer b) in
    key ∉ Synchronized.key_images (chain_of s) ∧ if wl then in_ledger key s s' b else not_in_ledger s s' b).
Proof.
  intros Hroom. unfold tu_create_sci_builder, chain_of in *.
  apply returns_bind, returns_fun, returns_bind, returns_fun.
  pose proof (account_ledger s) as Hacc. pose proof (account_random_trace s) as Htr.
  destruct (account_random s) as [acc s1]. cbn in Hacc, Htr |- *.
  set (a := {| amt_value := base; amt_token_id := _ |}). destruct (get_input_credentials a acc s1) as [ic s2] eqn:Hic.
  destruct (credentials_new _ _ _ _ _ Hic) as (_ & _ & Ht2).
  destruct (credentials_ledger _ _ _ _ _ Hic) as (Hl2 & Hr & Hi & Hnew & Hrange & Hkey). rewrite Hacc in *.
  apply returns_bind.
  assert (returns (add_ring_to_ledger wl ic) s2 (λ ic' s3, ic_key_image ic' = ic_key_image ic ∧ ic_ring ic' = ic_ring ic ∧
    if wl then (∃ ks, chain_of s3 = chain_of s ++ [{| bc_key_images := ks; bc_outputs := ic_ring ic' |}] ∧
      (∀ ki, ki ∈ ks → ki ≠ ic_key_image ic ∧ ki ∉ TestUtils.key_images (trace s)) ∧
      ic_proof_indices ic' = (λ i, Z.of_nat (length (outputs_of (chain_of s)) + i)) <$> seq 0 TEST_RING_SIZE)
    else chain_of s3 = chain_of s ∧ ic_proof_indices ic' = ic_proof_indices ic)) as Hadd.
  { unfold chain_of. destruct wl; [|apply returns_ret; by rewrite Hl2]. eapply returns_mono; [|apply add_ring_ledger; unfold chain_of; by rewrite ?Hl2].
    unfold chain_of. rewrite Hl2. intros ic' s3 (ks & Hb & Hks & Hr' & Hk' & Hi'). split; [done|]. split; [done|].
    exists ks. split; [done|]. split; [|done]. intros ki Hki. specialize (Hks ki Hki). rewrite Ht2, Htr in Hks. cbn in Hks.
    apply not_elem_of_cons in Hks. done. }
  eapply returns_mono; [|exact Hadd]. cbn beta. intros ic' s3 (Hk3 & Hr3 & Hcase).
  destruct (tb_new_ok ic') as (b & Hb & Ho). destruct (tb_new_ring _ _ Hb) as [Hbr Hbi].
  apply returns_bind, returns_unwrap, (returns_lift _ b); [done|].
  set (c := {| amt_value := counter; amt_token_id := _ |}). destruct (add_required_ok c acc b s3) as (b' & s4 & Hb' & _ & Ho').
  destruct (add_required_ring _ _ _ _ _ _ Hb') as (Hbr' & Hbi' & Hl4).
  apply returns_bind, returns_unwrap. exists b', s4. split; [done|]. apply returns_ret.
  destruct (set_tombstone_ring 2000 b') as [Hbr2 Hbi2]. rewrite set_tombstone_offer, Ho', Ho, Hk3. cbn. split; [done|].
  unfold in_ledger, not_in_ledger, chain_of in *. rewrite Hbr2, Hbi2, Hbr', Hbi', Hbr, Hbi, Hl4, Hr3 in *.
  destruct wl; [destruct Hcase as (ks & ? & ? & ?)|destruct Hcase as [? Hci]]; [by exists ks|].
  rewrite Hci. done.
Qed.

(** The ring is in the ledger at the indices. *)
Definition ring_in (bs : list BlockContents) (indices : list Z) (members : list TxOut) : Prop :=
  Forall2 (λ i t, 0 ≤ i ∧ outputs_of bs !! Z.to_nat i = Some t) indices members.

Definition test_offer (key : KeyImage) (tombstone : Z) : Offer :=
  mk_offer key {| amt_value := 10; amt_token_id := base_token_id p |}
    [{| amt_value := 20; amt_token_id := counter_token_id p |}] [] None 0 tombstone.

Lemma test_buildable key t : is_u64 t → buildable (test_offer key t).
Proof.
  intros Ht. split; cbn; [split; [done|apply tp_base]|apply Forall_singleton; split; [done|apply tp_counter]|done|done|done].
Qed.

(** A key image, and a digest, that none of the quotes has. *)
Definition new_key l (key : KeyImage) (s : S) : Prop :=
  key ∈ TestUtils.key_images (trace s) ∧ ∀ x, x ∈ l → quote_key_image x ≠ key.
Definition new_digest l (d : QuoteId) (s : S) : Prop := d ∈ digests (trace s) ∧ ∀ x, x ∈ l → q_id x ≠ d.

(** A builder whose ring is in the ledger. *)
Record built l (tombstone : Z) (b : B) (s : S) : Prop := {
  built_offer : tb_offer b = test_offer (of_key_image (tb_offer b)) tombstone;
  built_key : new_key l (of_key_image (tb_offer b)) s;
  built_unspent : of_key_image (tb_offer b) ∉ Synchronized.key_images (chain_of s);
  built_ring : ring_in (chain_of s) (tb_indices b) (tb_ring b);
}.

Lemma outputs_snoc bs c : outputs_of (bs ++ [c]) = outputs_of bs ++ bc_outputs c.
Proof. unfold outputs_of. rewrite bind_app. cbn. by rewrite app_nil_r. Qed.
Lemma key_images_snoc bs c : Synchronized.key_images (bs ++ [c]) = Synchronized.key_images bs ++ bc_key_images c.
Proof. unfold Synchronized.key_images. rewrite bind_app. cbn. by rewrite app_nil_r. Qed.

Lemma ring_appended bs ks members :
  ring_in (bs ++ [{| bc_key_images := ks; bc_outputs := members |}])
    ((λ i, Z.of_nat (length (outputs_of bs) + i)) <$> seq 0 (length members)) members.
Proof.
  unfold ring_in. rewrite outputs_snoc. cbn. apply Forall2_same_length_lookup.
  split; [by rewrite length_fmap, length_seq|]. intros j i t Hi Ht. rewrite list_lookup_fmap in Hi.
  destruct (seq 0 (length members) !! j) as [j'|] eqn:Hj; [|done]. apply lookup_seq in Hj as [-> Hj]. injection Hi as <-.
  split; [lia|]. rewrite Nat2Z.id. rewrite lookup_app_r by lia. by replace (_ + _ - _)%nat with j by lia.
Qed.

(** Creating a builder with the ledger. *)
Lemma st_builder_returns {X} k n l removed w (cont : B → test X) Q :
  running (Datatypes.S k) n l removed w →
  (∀ b w', running k (Datatypes.S n) l removed w' → built l 2000 b (sw_env w') →
     (alive n l w → (∀ q, q ∈ l → tombstone_expired (Z.of_nat n) q = false) → alive (Datatypes.S n) l w') →
     returns (cont b) w' Q) →
  returns (b <-- st_builder p true;; cont b) w Q.
Proof.
  intros [Hup Hc Hk Ht Hb Hroom Hout Hnext Hhigh Hrem] HQ. apply returns_bind.
  destruct (returns_and _ _ _ _ (create_builder_returns p 10 20 true (sw_env w))
              (builder_ledger 10 20 true (sw_env w) ltac:(lia)))
    as (b & s' & Hrun & (key & Hkey & Htr & Ho) & Hun & ks & Hchain & Hks & Hlen & Hidx).
  rewrite Ho in Hun, Hks. cbn in Hun, Hks.
  exists b, (mk_sync_world s' (sw_thread w)). split; [unfold st_builder, in_setting; by rewrite Hrun|].
  assert (∀ x, x ∈ l → quote_key_image x ≠ key ∧ quote_key_image x ∉ ks) as Hl.
  { intros x Hx. destruct (Hk x Hx) as (Hx1 & _ & _). split; [congruence|]. intros Hin. by apply (Hks _ Hin). }
  apply HQ.
  - split; cbn; [done|done|rewrite Htr|rewrite Htr; apply (ticks_le (Datatypes.S k)); [exact Ht|lia]| |lia| |lia|done|done].
    + intros x Hx. destruct (Hk x Hx) as (? & ? & ?). cbn. split; [by right|done].
    + rewrite Hchain, length_app, Hb. cbn. lia.
    + rewrite Hchain, outputs_snoc, length_app. cbn. rewrite Hlen. unfold TEST_RING_SIZE in *. lia.
  - split; cbn; rewrite ?Ho; cbn; [done| | |].
    + split; [rewrite Htr; left|]. intros x Hx. by apply Hl.
    + rewrite Hchain, key_images_snoc. cbn. intros [?|Hin]%elem_of_app; [done|]. by destruct (Hks _ Hin).
    + rewrite Hchain, Hidx, <-Hlen. apply ring_appended.
  - intros Hal Hto q Hq. destruct (Hal q Hq) as [Hs _]. cbn. rewrite Hchain, key_images_snoc. cbn. split.
    + rewrite elem_of_app. intros [?|?]; [done|]. by destruct (Hl q Hq).
    + replace (Z.of_nat (Datatypes.S n) - 1) with (Z.of_nat n) by lia. by apply Hto.
Qed.

Lemma built_tombstone l t t' b s : built l t b s → built l t' (tb_set_tombstone_block t' b) s.
Proof.
  intros [Ho Hk Hu Hr]. destruct (set_tombstone_ring t' b) as [Hr1 Hr2].
  assert (tb_offer (tb_set_tombstone_block t' b) = test_offer (of_key_image (tb_offer b)) t') as Ho'
    by (rewrite set_tombstone_offer, Ho; done).
  split; rewrite ?Ho', ?Hr1, ?Hr2; cbn; done.
Qed.

(** An SCI whose ring is in the ledger. *)
Record offered l (tombstone : Z) (sci : SignedContingentInput) (s : S) : Prop := {
  od_on : sci_on (test_offer (sci_key_image sci) tombstone) sci;
  od_key : new_key l (sci_key_image sci) s;
  od_digest : new_digest l (quote_id_from_sci sci) s;
  od_unspent : sci_key_image sci ∉ Synchronized.key_images (chain_of s);
  od_ring : ring_in (chain_of s) (tx_out_global_indices sci) (ring (tx_in sci));
}.

Lemma st_build_returns {X} t b k n l removed w (cont : SignedContingentInput → test X) Q :
  running k n l removed w → built l t b (sw_env w) → is_u64 t →
  (∀ sci w', running k n l removed w' → offered l t sci (sw_env w') → (alive n l w → alive n l w') → returns (cont sci) w' Q) →
  returns (sci <-- st_build b;; cont sci) w Q.
Proof.
  intros [Hup Hc Hk Htime Hb Hroom Hout Hnext Hhigh Hrem] [Ho [Hkey Hkl] Hu Hr] Ht HQ. apply returns_bind.
  assert (buildable (tb_offer b)) as Hbd.
  { rewrite Ho. by apply test_buildable. }
  destruct (build_ok b (sw_env w) Hbd) as (sci & s' & Hrun & Hon & Hd & Htr).
  destruct (build_ring _ _ _ _ Hrun) as (Hr1 & Hr2 & Hl). rewrite Ho in Hon.
  pose proof (on_key_image _ _ Hon) as Hki. cbn in Hki. rewrite <-Hki in *.
  assert (chain_of s' = chain_of (sw_env w)) as Hch by (unfold chain_of; by rewrite Hl).
  exists sci, (mk_sync_world s' (sw_thread w)). split; [unfold st_build, in_setting, unwrap; by rewrite Hrun|].
  apply HQ.
  - split; cbn; rewrite ?Hch; [done|done|rewrite Htr|by rewrite Htr|done|done|done|done|done|done].
    intros x Hx. destruct (Hk x Hx) as (? & ? & ?). cbn. split; [done|]. split; [by right|done].
  - split; cbn; rewrite ?Hch, ?Hr1, ?Hr2; [done| | |done|done].
    + split; [by rewrite Htr|done].
    + split; [rewrite Htr; left|]. intros x Hx E. apply Hd. rewrite <-E. by apply Hk.
  - intros Hal q Hq. cbn. rewrite Hch. by apply Hal.
Qed.

(** ** Adding quotes *)

Definition test_quote (sci : SignedContingentInput) (ts : Z) : Quote := quote_on_terms sci (counter_token_id p) (10, 10) 20 ts.

Lemma test_terms key t sci : sci_on (test_offer key t) sci →
  ∃ ir, input_rules (tx_in sci) = Some ir ∧ max_tombstone_block ir = t ∧ sci_offer sci ir (counter_token_id p) (10, 10) 20.
Proof. exact (full_terms key _ _ None 0 t sci). Qed.

Lemma test_quote_new key t sci ts now : sci_on (test_offer key t) sci → is_u64 ts →
  quote_new (Some ts) sci None = Ok (test_quote sci ts) ∧ quote_new now sci (Some ts) = Ok (test_quote sci ts).
Proof.
  intros Hon Hts. destruct (test_terms _ _ _ Hon) as (ir & Hir & _ & Ho). split; [by apply (quote_new_now sci ir); [apply Hon|..]|].
  unfold quote_new, default_timestamp. cbn. rewrite (on_valid _ _ Hon), Hir. cbn. by rewrite (proj2 (quote_terms_offer _ _ _ _ _) Ho).
Qed.

Lemma test_quote_expired key t sci ts i : sci_on (test_offer key t) sci → 0 ≤ i < 2 ^ 62 → t ≤ 2000 →
  tombstone_expired i (test_quote sci ts) = negb (t =? 0) && (t <=? i).
Proof.
  intros Hon Hi Hsmall. destruct (test_terms _ _ _ Hon) as (ir & Hir & Ht & _). pose proof test_tombstones.
  unfold tombstone_expired. cbn. rewrite Hir, Ht, validate_tombstone_spec by lia.
  by rewrite (proj2 (Z.ltb_ge _ _)), orb_false_r by lia.
Qed.

(** What the check of the ledger says of it. *)
Lemma check_passes n t sci ts s key :
  length (chain_of s) = n → (0 < n)%nat → Z.of_nat n < U64_MAX → sci_on (test_offer key t) sci → t = 0 ∨ Z.of_nat n ≤ t ≤ 2000 →
  sci_key_image sci ∉ Synchronized.key_images (chain_of s) →
  ring_in (chain_of s) (tx_out_global_indices sci) (ring (tx_in sci)) →
  check_quote (test_ledger s) (test_quote sci ts) = Ok tt.
Proof.
  unfold chain_of. intros Hn Hpos Hroom Hon Ht Hu Hr. destruct (check_quote_refused (test_ledger s) (test_quote sci ts)) as [?|[_ []]]; [|done|].
  - split; [eexists; split; [apply ledger_num; lia|lia]|]. split; [apply ledger_contains|]. cbn. intros i Hi.
    apply ledger_tx_out. apply list_elem_of_lookup in Hi as [j Hj].
    destruct (Forall2_lookup_l _ _ _ _ _ Hr Hj) as (m & _ & Hi & Hm). apply lookup_lt_Some in Hm. lia.
  - destruct (test_terms _ _ _ Hon) as (ir & Hir & Hmax & _). split; cbn; [|done|].
    + intros ir' Hir' Hne. rewrite Hir in Hir'. simplify_eq. lia.
    + eapply Forall2_impl; [exact Hr|]. by intros i m [_ ?].
Qed.

Lemma check_stale n t sci ts s key :
  length (chain_of s) = n → (0 < n)%nat → Z.of_nat n < U64_MAX → sci_on (test_offer key t) sci →
  sci_key_image sci ∈ Synchronized.key_images (chain_of s) ∨ t ≠ 0 ∧ t ≤ Z.of_nat n - 1 →
  check_quote (test_ledger s) (test_quote sci ts) = Err QuoteIsStale.
Proof.
  unfold chain_of. intros Hn Hpos Hroom Hon Hst. destruct (test_terms _ _ _ Hon) as (ir & Hir & Hmax & _).
  unfold check_quote, ledger_error. rewrite ledger_num, Hn by lia. cbn. rewrite Hir, Hmax.
  unfold u64_sub. rewrite wrap64_small by (unfold is_u64, U64_MAX in *; lia).
  destruct (negb (t =? 0) && (t <=? Z.of_nat n - 1)) eqn:Hexp; [done|].
  destruct (ledger_contains (sci_key_image sci) s) as [b Hb]. rewrite Hb. cbn.
  apply contains_key_image_ok in Hb. destruct Hst as [Hin|[Ht0 Hle]].
  - apply list_elem_of_bind in Hin as (c & ? & ?). assert (b = true) as -> by (apply Hb; by exists c). done.
  - rewrite (proj2 (Z.leb_le _ _) Hle), (proj2 (Z.eqb_neq _ _) Ht0) in Hexp. done.
Qed.

Lemma shared_add k n l removed w sci t ts :
  running k n l removed w → alive n l w → offered l t sci (sw_env w) → (0 < n)%nat → t = 0 ∨ Z.of_nat n ≤ t ≤ 2000 →
  is_u64 ts → ts ≤ last_time (trace (sw_env w)) →
  ∃ b', sync_add_quote (test_quote sci ts) (shared_book (L:=L) w) = (Ok tt, b') ∧
    running k n (test_quote sci ts :: l) removed (with_book (sync_quote_book b') w) ∧
    alive n (test_quote sci ts :: l) (with_book (sync_quote_book b') w).
Proof.
  intros [Hup Hc Hk Htime Hb Hroom Hout Hnext Hhigh Hrem] Hal [Hon [Hkey Hkl] [Hdig Hdl] Hu Hr] Hpos Ht Hts Hlast.
  assert (book_inv (f_quotebook (sw_thread w))) as Hinv by apply Hup.
  set (q := test_quote sci ts).
  unfold sync_add_quote, st_bind, st_lift. cbn [sync_ledger shared_book].
  unfold q. rewrite (check_passes n t sci ts (sw_env w) (sci_key_image sci)) by (done || lia). fold q.
  unfold on_quote_book. cbn [sync_quote_book shared_book].
  destruct (qb_add_quote q (f_quotebook (sw_thread w))) as [res b'] eqn:Hadd.
  assert (offerable (contents (f_quotebook (sw_thread w))) q) as Hoff.
  { split; [split; [done|]; split; [done|]; by left|]. intros x. rewrite Hc. intros Hx Hid. by destruct (Hdl x Hx). }
  destruct (up_add q (f_quotebook (sw_thread w)) res b') as [Hup' Hres]; [done..|].
  rewrite slot_map_None in Hres; [|by apply contents_slots|].
  2: { intros x. rewrite Hc. intros Hx [= _ Hki]. by destruct (Hkl x Hx). }
  subst res. eexists. split; [done|]. cbn. split.
  - split; cbn; [done| | |done|done|done|done|done|done|done].
    + rewrite (add_ok _ _ _ Hinv (offerable_addable _ _ Hoff) Hadd). by rewrite Hc.
    + intros x [->|Hx]%elem_of_cons; [done|by apply Hk].
  - intros x [->|Hx]%elem_of_cons; [|by apply Hal]. split; [done|].
    unfold q. rewrite (test_quote_expired _ _ _ _ _ Hon) by lia. destruct Ht as [->|Ht]; [done|].
    rewrite (proj2 (Z.leb_gt t _)) by lia. by rewrite andb_false_r.
Qed.

(** ** The calls of the tests *)

Lemma returns_then_eq {X Y} `{EqDecision X} (a a' : X) w (cont : test Y) Q :
  a = a' → returns cont w Q → returns (assert_eq a a';;; cont) w Q.
Proof. intros -> Hk. apply returns_bind, (returns_lift _ tt); [|done]. by rewrite bool_decide_true. Qed.

(** What depends on the issued and on the ledger only. *)
Definition same_outside (s s' : S) : Prop :=
  chain_of s' = chain_of s ∧ TestUtils.key_images (trace s') = TestUtils.key_images (trace s) ∧ digests (trace s') = digests (trace s).

Lemma offered_same l t sci s s' : same_outside s s' → offered l t sci s → offered l t sci s'.
Proof.
  intros (E1 & E2 & E3) [Hon Hk Hd Hu Hr]. split; [done| | |by rewrite E1|by rewrite E1].
  - unfold new_key. by rewrite E2.
  - unfold new_digest. by rewrite E3.
Qed.
Lemma alive_same n l w w' : same_outside (sw_env w) (sw_env w') → alive n l w → alive n l w'.
Proof. intros (E1 & _ & _) Hal q Hq. rewrite E1. by apply Hal. Qed.

(** Reading the clock, and what the thread does before the call. *)
Lemma called_returns {X} k n l removed w (m : option Z → stateful (SynchronizedQuoteBook InMemoryQuoteBook L) Error X) :
  running (Datatypes.S k) n l removed w →
  ∃ ts w' l' removed', running k n l' removed' w' ∧ (alive n l w → l' = l ∧ removed' = removed ∧ alive n l w') ∧ same_outside (sw_env w) (sw_env w') ∧
    is_u64 ts ∧ ts ≤ last_time (trace (sw_env w')) ∧ (∀ x, x ∈ l → q_timestamp x < ts) ∧
    ((now <-- in_setting (from_fun system_time);; on_shared rounds (m now)) w =
     let '(r, b) := m (Some ts) (shared_book w') in (r, with_book (sync_quote_book b) w')).
Proof.
  intros [Hup Hc Hk Htime Hb Hroom Hout Hnext Hhigh Hrem].
  destruct (system_time_ok (sw_env w) k Htime) as (ts & s1 & Hclock & Hts & Hlt & Htk & Htd & Htt & Hj).
  pose proof (clock_ledger (sw_env w)) as Hl. rewrite Hclock in Hl. cbn in Hl.
  assert (chain_of s1 = chain_of (sw_env w)) as Hch by (unfold chain_of; by rewrite Hl).
  set (w1 := mk_sync_world s1 (sw_thread w)).
  assert (running k n l removed w1) as Hr1.
  { split; cbn; rewrite ?Hch; cbn; [done|done| |done|done|lia|lia|done|done|done].
    intros x Hx. destruct (Hk x Hx) as (? & ? & ?). rewrite Htk, Htd, Htt. split; [done|]. split; [done|lia]. }
  assert (same_outside (sw_env w) s1) as Hsame by done.
  destruct (background_runs k n l removed w1 Hr1) as (w2 & l' & rem' & Hbg & He & Hr2 & Hkeep).
  exists ts, w2, l', rem'. split; [done|]. split.
  { intros Hal. destruct Hkeep as [-> ->]; [by apply (alive_same _ _ w)|]. do 2 (split; [done|]).
    apply (alive_same _ _ w); [by rewrite He|done]. }
  rewrite He. cbn.
  split; [done|]. split; [done|]. split; [by rewrite Htt|]. split; [intros x Hx; destruct (Hk x Hx) as (_ & _ & ?); lia|].
  unfold st_bind at 1, in_setting, from_fun. rewrite Hclock. fold w1.
  unfold on_shared, st_bind. by rewrite Hbg.
Qed.

Lemma add_returns {X} t sci k n l removed w (cont : Quote → test X) Q :
  running (Datatypes.S k) n l removed w → alive n l w → offered l t sci (sw_env w) → (0 < n)%nat → t = 0 ∨ Z.of_nat n ≤ t ≤ 2000 →
  (∀ ts w', let q := test_quote sci ts in running k n (q :: l) removed w' → alive n (q :: l) w' →
     same_outside (sw_env w) (sw_env w') → (∀ x, x ∈ l → q_timestamp x < ts) → returns (cont q) w' Q) →
  returns (q <-- unwrap (sync_add_sci rounds sci);; cont q) w Q.
Proof.
  intros Hr Hal Hof Hpos Ht HQ. apply returns_bind, returns_unwrap.
  destruct (called_returns k n l removed w (λ now, qb_add_sci now sci None) Hr)
    as (ts & w' & l' & rem' & Hr' & Hkeep & Hsame & Hts & Hlast & Hnew & Hcall). destruct (Hkeep Hal) as (-> & -> & Hal').
  destruct (shared_add k n l removed w' sci t ts) as (b' & Hadd & Hr2 & Hal2);
    [done|done|by apply (offered_same _ _ _ (sw_env w))|done..|].
  exists (test_quote sci ts), (with_book (sync_quote_book b') w'). split; [|by apply (HQ ts)].
  unfold sync_add_sci. rewrite Hcall. unfold qb_add_sci, st_bind, st_lift, st_ret.
  rewrite (proj1 (test_quote_new _ _ _ ts None (od_on _ _ _ _ Hof) Hts)). cbn [qb_add_quote SynchronizedQuoteBook_QuoteBook].
  by rewrite Hadd.
Qed.

(** The ledger rules the SCI out. *)
Lemma refused_returns {X} t sci e k n l removed w (cont : test X) Q :
  running (Datatypes.S k) n l removed w → sci_on (test_offer (sci_key_image sci) t) sci →
  (∀ s ts, same_outside (sw_env w) s → check_quote (test_ledger s) (test_quote sci ts) = Err e) →
  (∀ w' l' removed', running k n l' removed' w' → (alive n l w → l' = l ∧ removed' = removed) →
     same_outside (sw_env w) (sw_env w') → returns cont w' Q) →
  returns (expect_refused rounds sci e;;; cont) w Q.
Proof.
  intros Hr Hon He HQ. apply returns_bind. unfold expect_refused.
  destruct (called_returns k n l removed w (λ now, qb_add_sci now sci None) Hr)
    as (ts & w' & l' & rem' & Hr' & Hkeep & Hsame & Hts & _ & _ & Hcall).
  apply returns_bind. exists e, w'. split.
  - unfold unwrap_err, sync_add_sci. rewrite Hcall. unfold qb_add_sci, st_bind, st_lift.
    rewrite (proj1 (test_quote_new _ _ _ ts None Hon Hts)). cbn [qb_add_quote SynchronizedQuoteBook_QuoteBook].
    unfold sync_add_quote, st_bind, st_lift. cbn [sync_ledger shared_book]. rewrite He by done. cbn. by destruct w' as [? []].
  - apply (returns_lift _ tt); [by rewrite bool_decide_true|]. apply (HQ w' l' rem'); [done| |done]. intros Hal. by destruct (Hkeep Hal) as (? & ? & _).
Qed.

Lemma listed_returns {X} all k n l removed w (cont : test X) Q :
  running k n l removed w → alive n l w → StronglySorted (cmp_lt quote_cmp) all → all ≡ₚ selected p everything l →
  (∀ w', running k n l removed w' → sw_env w' = sw_env w → returns cont w' Q) →
  returns (expect_listed rounds p all;;; cont) w Q.
Proof.
  intros Hr Hal Hs Hp HQ. destruct (background_keeps k n l removed w Hr Hal) as (w' & Hbg & He & Hr').
  pose proof (run_up _ _ _ _ _ Hr') as Him. assert (book_up (f_quotebook (sw_thread w'))) as Hup by done.
  destruct (up_get_quotes p everything 0 (f_quotebook (sw_thread w')) Hup) as [res Hres].
  assert (res = all) as ->.
  { apply (listing_unique (contents (f_quotebook (sw_thread w'))) p everything 0); [by apply (up_priced _ Hup)| |].
    - apply get_quotes_ok; [apply Him|done|done].
    - exists all. split; [done|]. split; [|done]. by rewrite Hp, (run_contents _ _ _ _ _ Hr'). }
  apply returns_bind. unfold expect_listed. apply returns_bind, returns_unwrap. exists all, w'. split.
  - unfold on_shared, st_bind. rewrite Hbg. cbn [qb_get_quotes SynchronizedQuoteBook_QuoteBook shared_book sync_quote_book].
    rewrite Hres. by destruct w' as [? []].
  - apply (returns_lift _ tt); [by rewrite bool_decide_true|]. by apply HQ.
Qed.

Lemma num_blocks_returns {X} k n l removed w (cont : Z → test X) Q :
  running k n l removed w → returns (cont (Z.of_nat n)) w Q → returns (x <-- ledger_num_blocks;; cont x) w Q.
Proof.
  intros Hr HQ. apply returns_bind, returns_unwrap. exists (Z.of_nat n), w. split; [|done].
  pose proof (run_blocks _ _ _ _ _ Hr) as Hb. pose proof (run_room _ _ _ _ _ Hr). unfold chain_of in Hb.
  unfold ledger_error. rewrite ledger_num, Hb by lia. done.
Qed.

Lemma grown_running k n l removed w s' c :
  running (Datatypes.S k) n l removed w → trace s' = trace (sw_env w) → chain_of s' = chain_of (sw_env w) ++ [c] →
  length (bc_outputs c) = 2%nat → running k (Datatypes.S n) l removed (mk_sync_world s' (sw_thread w)).
Proof.
  intros [Hup Hc Hk Htime Hb Hroom Hout Hnext Hhigh Hrem] Htr Hch Hlen.
  split; cbn; rewrite ?Htr, ?Hch; [done|done|done|apply (ticks_le (Datatypes.S k)); [done|lia]| |lia| |lia|done|done].
  - rewrite length_app. cbn. lia.
  - rewrite outputs_snoc, length_app. lia.
Qed.

Lemma spend_returns {X} ks k n l removed w (cont : test X) Q :
  running (Datatypes.S k) n l removed w →
  (∀ w' c, bc_key_images c = ks → running k (Datatypes.S n) l removed w' → trace (sw_env w') = trace (sw_env w) →
     chain_of (sw_env w') = chain_of (sw_env w) ++ [c] → sw_thread w' = sw_thread w → returns cont w' Q) →
  returns (spend ks;;; cont) w Q.
Proof.
  intros Hr HQ. destruct (get_transaction_ledger (sw_env w)) as (outs & s1 & H1 & Ht1 & Hl1 & Hlen).
  destruct (add_both_ledger outs ks s1) as (s2 & H2 & Ht2 & Hb2).
  assert (chain_of s2 = chain_of (sw_env w) ++ [{| bc_key_images := ks; bc_outputs := outs |}]) as Hch.
  { unfold chain_of. by rewrite Hb2, Hl1. }
  apply returns_bind. exists tt, (mk_sync_world s2 (sw_thread w)). split.
  - unfold spend, st_bind, in_setting, unwrap. rewrite H1. cbn. by rewrite H2.
  - eapply HQ; [|eapply grown_running; [done| |exact Hch|done]| |exact Hch|done]; cbn; congruence.
Qed.

Lemma add_block_returns {X} k n l removed w (cont : test X) Q :
  running (Datatypes.S k) n l removed w →
  (∀ w', running k (Datatypes.S n) l removed w' → sw_thread w' = sw_thread w → returns cont w' Q) →
  returns (add_block;;; cont) w Q.
Proof.
  intros Hr HQ. destruct (get_transaction_ledger (sw_env w)) as (outs & s1 & H1 & Ht1 & Hl1 & Hlen).
  destruct (add_txos_ok outs s1) as (s2 & H2 & Ht2). destruct (add_txos_ledger _ _ _ H2) as (ks & Hb2 & _).
  assert (chain_of s2 = chain_of (sw_env w) ++ [{| bc_key_images := ks; bc_outputs := outs |}]) as Hch.
  { unfold chain_of. by rewrite Hb2, Hl1. }
  apply returns_bind. exists tt, (mk_sync_world s2 (sw_thread w)). split.
  - unfold add_block, st_bind, in_setting, unwrap. rewrite H1. cbn. by rewrite H2.
  - eapply HQ; [|done]. eapply grown_running; [done| |exact Hch|done]. congruence.
Qed.

(** Waiting for the thread ends after one round. *)
Lemma wait_returns {X} k n l removed w (cont : test X) Q :
  running k n l removed w → (1 < n)%nat → f_next_block_index (sw_thread w) < Z.of_nat n →
  (∀ w', running k n (filter (λ q, outdated n w q = false) l) (removed ++ filter (λ q, outdated n w q = true) l) w' →
     returns cont w' Q) →
  returns (wait_for_sync (L:=L) 1;;; cont) w Q.
Proof.
  intros Hr Hn Hlt HQ. destruct (thread_round_sweeps k n l removed w Hr Hlt) as (w' & Hround & He & Hhigh & Hr').
  assert (∀ w1 (m : Z → test unit), sw_env w1 = sw_env w → (x <-- ledger_num_blocks;; m x) w1 = m (Z.of_nat n) w1) as Hnum.
  { intros w1 m E. pose proof (run_blocks _ _ _ _ _ Hr) as Hb. pose proof (run_room _ _ _ _ _ Hr). unfold chain_of in Hb.
    unfold st_bind, ledger_num_blocks, unwrap, ledger_error. rewrite E, ledger_num, Hb by lia. done. }
  assert (u64_sub (Z.of_nat n) 1 = Z.of_nat n - 1) as Hsub.
  { pose proof (run_room _ _ _ _ _ Hr). unfold u64_sub. apply wrap64_small. unfold is_u64, U64_MAX in *. lia. }
  apply returns_bind. exists tt, w'. split; [|by apply HQ].
  cbn [wait_for_sync]. rewrite Hnum by done. cbn [get_current_block_index shared_book sync_highest_processed_block_index].
  unfold get_current_block_index. cbn [shared_book sync_highest_processed_block_index].
  rewrite Hsub, (proj2 (Z.ltb_lt _ _)) by (pose proof (run_highest _ _ _ _ _ Hr); pose proof (run_next _ _ _ _ _ Hr); lia).
  unfold st_bind at 1. rewrite Hround. cbn [wait_for_sync]. rewrite Hnum by done.
  unfold get_current_block_index. cbn [shared_book sync_highest_processed_block_index].
  rewrite Hsub, Hhigh, Z.ltb_irrefl. done.
Qed.

Lemma returns_last (m : test unit) w : returns (m;;; st_ret tt) w (λ _ _, True) → returns m w (λ _ _, True).
Proof.
  intros (a & w' & Hr & _). unfold st_bind in Hr. destruct (m w) as [[u|e|msg] w1] eqn:E; [|done..]. by exists u, w1.
Qed.

Lemma removed_returns q k n l w :
  running k n l [q] w → returns (assert_removed [q]) w (λ _ _, True).
Proof.
  intros Hr. pose proof (run_removed _ _ _ _ _ Hr) as Hp. apply Permutation_singleton_r in Hp.
  unfold assert_removed. exists tt, w. split; [|done]. rewrite Hp. unfold assert_eq, st_lift. by rewrite bool_decide_true.
Qed.

(** [create_sci] is the builder, built. *)
Lemma create_returns_built {X} k n l removed w (cont : SignedContingentInput → test X) Q :
  running (Datatypes.S k) n l removed w →
  (∀ sci w', running k (Datatypes.S n) l removed w' → offered l 2000 sci (sw_env w') →
     (alive n l w → (∀ q, q ∈ l → tombstone_expired (Z.of_nat n) q = false) → alive (Datatypes.S n) l w') →
     returns (cont sci) w' Q) →
  returns (sci <-- st_create p;; cont sci) w Q.
Proof.
  intros Hr HQ. apply returns_bind.
  assert (returns (b <-- st_builder p true;; sci <-- st_build b;; st_ret sci) w (λ sci w',
    sci_validate sci = Ok tt ∧ returns (cont sci) w' Q)) as (sci & w' & Hrun & Hv & HQ').
  { eapply st_builder_returns; [done|]. intros b w1 Hr1 Hb1 Hal1.
    eapply st_build_returns; [done|done|done|]. intros sci w2 Hr2 Ho2 Hal2. apply returns_ret.
    split; [apply Ho2|]. apply HQ; [done|done|]. auto. }
  exists sci, w'. split; [|done]. unfold st_bind, st_ret, st_builder, st_build, in_setting, unwrap in Hrun.
  unfold st_create, in_setting, tu_create_sci, st_bind, st_ret, st_lift, unwrap.
  destruct (tu_create_sci_builder _ _ 10 20 true (sw_env w)) as [[b|e|msg] s1] eqn:Eb; [|done..]. cbn in Hrun.
  destruct (tb_build b s1) as [[sci'|e|msg] s2] eqn:Es; [|done..]. injection Hrun as -> <-. by rewrite Hv.
Qed.

Lemma selected_test t sci key ts l : sci_on (test_offer key t) sci →
  selected p everything (test_quote sci ts :: l) = test_quote sci ts :: selected p everything l.
Proof.
  intros Hon. rewrite (selected_cons _ _ _ _ p (10, 10)); [by rewrite bool_decide_true| |done].
  cbn. pose proof (on_base _ _ Hon) as Hb. cbn in Hb. rewrite Hb. cbn. by destruct p.
Qed.

Lemma sorted_one q : StronglySorted (cmp_lt quote_cmp) [q].
Proof. apply SSorted_cons; [apply SSorted_nil|done]. Qed.

Lemma alive_nil n w : alive n [] w.
Proof. by intros q ?%elem_of_nil. Qed.

(** An SCI whose ring is not in the ledger. *)
Lemma check_ring_invalid s indices members :
  Z.of_nat TEST_RING_SIZE ≤ Z.of_nat (length (outputs_of (chain_of s))) →
  length members = TEST_RING_SIZE → length indices = TEST_RING_SIZE →
  Forall (λ t, t ∉ outputs_of (chain_of s)) members → Forall (λ i, 0 ≤ i < Z.of_nat TEST_RING_SIZE) indices →
  check_ring (test_ledger s) (zip indices members) = Err (InvalidRing "Invalid ring member").
Proof.
  intros Hout Hlm Hli Hnew Hrange. destruct indices as [|i indices]; [done|]. destruct members as [|m members]; [done|].
  apply Forall_cons in Hnew as [Hm _], Hrange as [Hi _]. cbn. unfold ledger_error.
  destruct (ledger_tx_out i s) as [t Ht]; [unfold chain_of in Hout; lia|]. rewrite Ht. cbn.
  rewrite bool_decide_true; [done|]. intros ->. apply Hm. apply get_tx_out_ok in Ht.
  by apply list_elem_of_lookup_2 in Ht.
Qed.

Lemma check_invalid_ring n t sci ts s key :
  length (chain_of s) = n → (0 < n)%nat → sci_on (test_offer key t) sci → Z.of_nat n ≤ t < U64_MAX →
  sci_key_image sci ∉ Synchronized.key_images (chain_of s) →
  length (ring (tx_in sci)) = TEST_RING_SIZE → length (tx_out_global_indices sci) = TEST_RING_SIZE →
  Forall (λ t, t ∉ outputs_of (chain_of s)) (ring (tx_in sci)) →
  Forall (λ i, 0 ≤ i < Z.of_nat TEST_RING_SIZE) (tx_out_global_indices sci) →
  Z.of_nat TEST_RING_SIZE ≤ Z.of_nat (length (outputs_of (chain_of s))) →
  check_quote (test_ledger s) (test_quote sci ts) = Err (InvalidRing "Invalid ring member").
Proof.
  unfold chain_of. intros Hn Hpos Hon Ht Hu Hlr Hli Hnew Hrange Hout. destruct (test_terms _ _ _ Hon) as (ir & Hir & Hmax & _).
  unfold check_quote, ledger_error. rewrite ledger_num, Hn by lia. cbn. rewrite Hir, Hmax.
  unfold u64_sub. rewrite wrap64_small by (unfold is_u64, U64_MAX in *; lia).
  rewrite (proj2 (Z.leb_gt t _)), andb_false_r by lia.
  destruct (ledger_contains (sci_key_image sci) s) as [spent Hspent]. rewrite Hspent. cbn.
  apply contains_key_image_ok in Hspent. destruct spent.
  { destruct (proj1 Hspent eq_refl) as (c & ? & ?). destruct Hu. apply list_elem_of_bind. by exists c. }
  unfold validate_quote_ring_members. cbn. rewrite Hlr, Hli, Nat.eqb_refl. cbn. by apply check_ring_invalid.
Qed.

End Rules.

Section Passing.
Context `{McLib} `{!McLibLaws _, !TombstoneLaws _, !TestTombstones} {S Acc IC B L : Type} `{!HashIter Pair (list Quote)}.
Context `{!TestLib S Acc IC B, !TestLibLaws S Acc IC B, !TestLedger S L, !Ledger L, !LedgerLaws L, !TestLedgerLaws S Acc IC B L}.
Variable rounds : SyncWorld S → nat.
Local Abbreviation world := (SyncWorld S).
Local Abbreviation test := (stateful world Error).
Implicit Types w : world.

(** ** The tests *)

Definition sync_passing (t : test unit) w : Prop := returns t w (λ _ _, True).

Lemma key_image_in_ledger_passes w :
  running 8 3 [] [] w → sync_passing (cannot_add_sci_with_key_image_in_ledger rounds) w.
Proof.
  intros Hr. unfold sync_passing, cannot_add_sci_with_key_image_in_ledger.
  eapply (st_builder_returns test_pair); [exact Hr|]. intros b w1 Hr1 Hb1 _.
  eapply (st_build_returns test_pair); [exact Hr1|exact Hb1|done|]. intros sci w2 Hr2 Ho2 _.
  eapply spend_returns; [exact Hr2|]. intros w3 c Hks Hr3 _ Hch _.
  eapply (refused_returns rounds test_pair 2000 sci); [exact Hr3|apply Ho2| |].
  { intros s ts (E & _ & _). eapply (check_stale test_pair); [by rewrite E, (run_blocks _ _ _ _ _ Hr3)|lia|done|apply Ho2|].
    left. rewrite E, Hch, key_images_snoc, Hks. apply elem_of_app. right. left. }
  intros w4 l' rem' Hr4 [-> ->]%(λ H, H (alive_nil _ _)) _. eapply (create_returns_built test_pair); [exact Hr4|]. intros sci' w5 Hr5 Ho5 _.
  eapply (add_returns rounds test_pair); [exact Hr5|apply alive_nil|exact Ho5|lia|lia|]. intros ts w6 q Hr6 Hal6 _ _.
  apply returns_last. eapply (listed_returns rounds test_pair [q]); [exact Hr6|done|apply sorted_one| |intros; by apply returns_ret].
  unfold q. by rewrite (selected_test test_pair 2000 sci' (sci_key_image sci')) by apply Ho5.
Qed.

Lemma spent_removed_passes w :
  running 8 3 [] [] w → sync_passing (sci_that_are_added_to_ledger_are_removed_in_the_background rounds) w.
Proof.
  intros Hr. unfold sync_passing, sci_that_are_added_to_ledger_are_removed_in_the_background.
  eapply (st_builder_returns test_pair); [exact Hr|]. intros b w1 Hr1 Hb1 _.
  eapply (st_build_returns test_pair); [exact Hr1|exact Hb1|done|]. intros sci w2 Hr2 Ho2 _.
  eapply (add_returns rounds test_pair); [exact Hr2|apply alive_nil|exact Ho2|lia|lia|]. intros ts w3 q Hr3 Hal3 _ _.
  eapply (listed_returns rounds test_pair [q]); [exact Hr3|done|apply sorted_one| |].
  { unfold q. by rewrite (selected_test test_pair 2000 sci (sci_key_image sci)) by apply Ho2. }
  intros w4 Hr4 _. eapply spend_returns; [exact Hr4|]. intros w5 c Hks Hr5 _ Hch Hth.
  pose proof (run_next _ _ _ _ _ Hr4) as Hnext. pose proof (run_blocks _ _ _ _ _ Hr4) as Hlen.
  assert (outdated 5 w5 q = true) as Hgone.
  { unfold outdated, spent_from. fold (chain_of (sw_env w5)). rewrite Hth, Hch. rewrite drop_app_le by lia.
    rewrite bool_decide_true; [done|]. rewrite key_images_snoc, Hks. apply elem_of_app. right. left. }
  eapply (wait_returns rounds); [exact Hr5|lia|rewrite Hth; lia|]. intros w6 Hr6.
  rewrite !filter_cons, decide_False, decide_True in Hr6 by (rewrite Hgone; done).
  eapply (listed_returns rounds test_pair []); [exact Hr6|apply alive_nil|apply SSorted_nil|done|]. intros w7 Hr7 _.
  by eapply removed_returns.
Qed.

Lemma past_tombstone_passes w : running 8 3 [] [] w → sync_passing (cannot_add_sci_past_tombstone_block rounds) w.
Proof.
  intros Hr. unfold sync_passing, cannot_add_sci_past_tombstone_block.
  eapply (st_builder_returns test_pair); [exact Hr|]. intros b w1 Hr1 Hb1 _. eapply num_blocks_returns; [exact Hr1|].
  eapply (st_build_returns test_pair 2); [exact Hr1|by eapply built_tombstone|done|]. intros sci w2 Hr2 Ho2 _.
  eapply (refused_returns rounds test_pair 2 sci); [exact Hr2|apply Ho2| |].
  { intros s ts (E & _ & _). eapply (check_stale test_pair); [by rewrite E, (run_blocks _ _ _ _ _ Hr2)|lia|done|apply Ho2|]. right. lia. }
  intros w3 l' rem' Hr3 [-> ->]%(λ H, H (alive_nil _ _)) _. eapply (st_builder_returns test_pair); [exact Hr3|]. intros b2 w4 Hr4 Hb4 _.
  eapply (st_build_returns test_pair 0); [exact Hr4|by eapply built_tombstone|done|]. intros sci2 w5 Hr5 Ho5 _.
  eapply (add_returns rounds test_pair); [exact Hr5|apply alive_nil|exact Ho5|lia|lia|]. intros ts2 w6 q2 Hr6 Hal6 _ _.
  pose proof (od_on _ _ _ _ _ Ho5) as Hon2.
  eapply (listed_returns rounds test_pair [q2]); [exact Hr6|done|apply sorted_one|by unfold q2; rewrite (selected_test test_pair _ _ _ _ _ Hon2)|].
  intros w7 Hr7 E7. eapply (st_builder_returns test_pair); [exact Hr7|]. intros b3 w8 Hr8 Hb8 Hal8.
  eapply num_blocks_returns; [exact Hr8|].
  eapply (st_build_returns test_pair 6); [exact Hr8|by eapply built_tombstone|done|]. intros sci3 w9 Hr9 Ho9 Hal9.
  assert (alive 6 [q2] w9) as Hal9'.
  { apply Hal9, Hal8; [by apply (alive_env _ _ w6)|]. intros q ->%list_elem_of_singleton.
    unfold q2. by rewrite (test_quote_expired test_pair _ _ _ _ _ Hon2). }
  eapply (add_returns rounds test_pair); [exact Hr9|done|exact Ho9|lia|lia|]. intros ts3 w10 q3 Hr10 Hal10 _ Hnew.
  pose proof (od_on _ _ _ _ _ Ho9) as Hon3.
  eapply (listed_returns rounds test_pair [q2; q3]); [exact Hr10|done| | |].
  { apply SSorted_cons; [apply sorted_one|]. apply Forall_singleton.
    assert (∀ sci' ts', priced (test_quote test_pair sci' ts')) as HP by (intros; split; [done|]; split; [done|]; by left).
    refine (proj2 (quote_cmp_better_rate_first q2 q3 (HP _ _) (HP _ _) _) _ _); [|done|by apply Hnew; left].
    cbn. by rewrite (on_base _ _ Hon2), (on_base _ _ Hon3). }
  { unfold q3 at 2. rewrite (selected_test test_pair _ _ _ _ _ Hon3). unfold q2 at 2. rewrite (selected_test test_pair _ _ _ _ _ Hon2). cbn. solve_Permutation. }
  intros w11 Hr11 E11. eapply (st_builder_returns test_pair); [exact Hr11|]. intros b4 w12 Hr12 Hb12 _.
  eapply num_blocks_returns; [exact Hr12|].
  eapply (st_build_returns test_pair 6); [exact Hr12|by eapply built_tombstone|done|]. intros sci4 w13 Hr13 Ho13 _.
  apply returns_last. eapply (refused_returns rounds test_pair 6 sci4); [exact Hr13|apply Ho13| |intros; by apply returns_ret].
  intros s ts (E & _ & _). eapply (check_stale test_pair); [by rewrite E, (run_blocks _ _ _ _ _ Hr13)|lia|done|apply Ho13|]. right. lia.
Qed.

Lemma expired_removed_passes w :
  running 8 3 [] [] w → sync_passing (sci_past_tombstone_block_get_removed_in_the_background rounds) w.
Proof.
  intros Hr. unfold sync_passing, sci_past_tombstone_block_get_removed_in_the_background.
  eapply num_blocks_returns; [exact Hr|].
  eapply (st_builder_returns test_pair); [exact Hr|]. intros b w1 Hr1 Hb1 _. eapply num_blocks_returns; [exact Hr1|].
  apply returns_then_eq; [done|].
  eapply (st_build_returns test_pair 4); [exact Hr1|by eapply built_tombstone|done|]. intros sci w2 Hr2 Ho2 _.
  eapply (add_returns rounds test_pair); [exact Hr2|apply alive_nil|exact Ho2|lia|lia|]. intros ts w3 q Hr3 Hal3 _ _.
  pose proof (od_on _ _ _ _ _ Ho2) as Hon.
  eapply (listed_returns rounds test_pair [q]); [exact Hr3|done|apply sorted_one|by unfold q; rewrite (selected_test test_pair _ _ _ _ _ Hon)|].
  intros w4 Hr4 _. eapply add_block_returns; [exact Hr4|]. intros w5 Hr5 Hth.
  eapply num_blocks_returns; [exact Hr5|]. apply returns_then_eq; [done|].
  assert (outdated 5 w5 q = true) as Hgone.
  { unfold outdated, q. rewrite (test_quote_expired test_pair _ _ _ _ _ Hon) by lia. apply orb_true_r. }
  pose proof (run_next _ _ _ _ _ Hr4) as Hnext.
  eapply (wait_returns rounds); [exact Hr5|lia|rewrite Hth; lia|]. intros w6 Hr6.
  rewrite !filter_cons, decide_False, decide_True in Hr6 by (rewrite Hgone; done).
  eapply (listed_returns rounds test_pair []); [exact Hr6|apply alive_nil|apply SSorted_nil|done|]. intros w7 Hr7 _.
  by eapply removed_returns.
Qed.

Lemma invalid_ring_passes w : running 8 3 [] [] w → sync_passing (sci_with_invalid_ring_is_rejected rounds) w.
Proof.
  intros Hr. unfold sync_passing, sci_with_invalid_ring_is_rejected. eapply num_blocks_returns; [exact Hr|].
  pose proof Hr as [Hup Hc Hk Ht Hb Hroom Hout Hnext Hhigh Hrem]. apply returns_bind.
  assert (Z.of_nat (length (outputs_of (chain_of (sw_env w)))) + 16 ≤ U64_MAX) as Hroom2 by lia.
  destruct (returns_and _ _ _ _ (create_builder_returns test_pair 10 20 false (sw_env w))
              (builder_ledger test_pair 10 20 false (sw_env w) Hroom2))
    as (b & s1 & Hrun & (key & Hkey & Htr & Ho) & Hun & Hch & Hlr & Hli & Hnew & Hrange).
  rewrite Ho in Hun. cbn in Hun.
  exists b, (mk_sync_world s1 (sw_thread w)). split; [unfold st_builder, in_setting; by rewrite Hrun|].
  assert (running 8 3 [] [] (mk_sync_world s1 (sw_thread w))) as Hr1.
  { split; cbn; rewrite ?Hch, ?Htr; try done. by intros x ?%elem_of_nil. }
  eapply num_blocks_returns; [exact Hr1|]. apply returns_then_eq; [done|].
  destruct (build_ok b s1) as (sci & s2 & Hbuild & Hon & Hd & Htr2).
  { rewrite Ho. split; cbn; [done|by apply Forall_singleton|done|done|done]. }
  destruct (build_ring _ _ _ _ Hbuild) as (Hr1' & Hr2' & Hl).
  rewrite Ho in Hon. pose proof (on_key_image _ _ Hon) as Hki. cbn in Hki. rewrite <-Hki in Hon, Hun.
  apply returns_bind. exists sci, (mk_sync_world s2 (sw_thread w)). split; [unfold st_build, in_setting, unwrap; cbn; by rewrite Hbuild|].
  assert (chain_of s2 = chain_of (sw_env w)) as Hch2 by (unfold chain_of in *; by rewrite Hl).
  assert (running 8 3 [] [] (mk_sync_world s2 (sw_thread w))) as Hr2.
  { split; cbn; rewrite ?Hch2, ?Htr2, ?Htr; try done. by intros x ?%elem_of_nil. }
  eapply (refused_returns rounds test_pair 2000 sci); [exact Hr2|exact Hon| |].
  { cbn. intros s ts (E & _ & _). rewrite Hch2 in E. rewrite <-E in *.
    eapply (check_invalid_ring test_pair); [exact Hb|lia|exact Hon|done|done|by rewrite Hr1'|by rewrite Hr2'|by rewrite Hr1'|by rewrite Hr2'|lia]. }
  intros w3 l' rem' Hr3 [-> ->]%(λ H, H (alive_nil _ _)) _.
  eapply (listed_returns rounds test_pair []); [exact Hr3|apply alive_nil|apply SSorted_nil|done|]. intros w4 Hr4 _.
  eapply (st_builder_returns test_pair); [exact Hr4|]. intros b2 w5 Hr5 Hb5 _. eapply num_blocks_returns; [exact Hr5|].
  apply returns_then_eq; [done|]. eapply (st_build_returns test_pair); [exact Hr5|exact Hb5|done|]. intros sci2 w6 Hr6 Ho6 _.
  eapply (add_returns rounds test_pair); [exact Hr6|apply alive_nil|exact Ho6|lia|lia|]. intros ts w7 q Hr7 Hal7 _ _.
  apply returns_last. eapply (listed_returns rounds test_pair [q]); [exact Hr7|done|apply sorted_one| |intros; by apply returns_ret].
  unfold q. by rewrite (selected_test test_pair 2000 sci2 (sci_key_image sci2)) by apply Ho6.
Qed.

Lemma setup_running s :
  length (chain_of s) = 3%nat → ticks 8 (trace s) →
  Z.of_nat TEST_RING_SIZE ≤ Z.of_nat (length (outputs_of (chain_of s))) ≤ 2 ^ 32 → running 8 3 [] [] (sync_setup s).
Proof.
  intros Hb Ht Ho. split; cbn; [|done|by intros x ?%elem_of_nil|done|done|done|unfold U64_MAX, U64_MOD; lia|lia|by right|done].
  split; [by apply im_reachable_healthy, rtc_refl|constructor].
Qed.

(** C18: The unit tests of the synchronized book pass, however many rounds the
    background thread makes between the calls: an SCI whose input is spent,
    whose tombstone block has passed or whose ring is not in the ledger is
    refused with the error the test expects, one that is fresh is added and
    listed; a quote that is spent, or expires, in a new block is gone once the
    thread has caught up, which takes it one round, and the callback has been
    told about exactly this quote.  The tests are run on a ledger of three
    blocks with at least a ring of outputs, with a library whose limit for
    tombstones is at least the 2000 blocks the builders use, and while eight
    readings of the system clock are later one than the other, on which the
    listing of two quotes of the same rate depends. *)
Theorem sync_tests_pass s :
  length (chain_of s) = 3%nat → ticks 8 (trace s) →
  Z.of_nat TEST_RING_SIZE ≤ Z.of_nat (length (outputs_of (chain_of s))) ≤ 2 ^ 32 →
  sync_passing (cannot_add_sci_with_key_image_in_ledger rounds) (sync_setup s) ∧
  sync_passing (sci_that_are_added_to_ledger_are_removed_in_the_background rounds) (sync_setup s) ∧
  sync_passing (cannot_add_sci_past_tombstone_block rounds) (sync_setup s) ∧
  sync_passing (sci_past_tombstone_block_get_removed_in_the_background rounds) (sync_setup s) ∧
  sync_passing (sci_with_invalid_ring_is_rejected rounds) (sync_setup s).
Proof.
  intros Hb Ht Ho. assert (running 8 3 [] [] (sync_setup s)) as Hr by by apply setup_running.
  split_and!; [by apply key_image_in_ledger_passes|by apply spent_removed_passes|by apply past_tombstone_passes
    |by apply expired_removed_passes|by apply invalid_ring_passes].
Qed.
End Passing.

(** * The tests on an example *)

Module SyncTestsExamples.
Import SampleLedger ConformanceExamples.

(** The outside with a chain of blocks: a ring is eleven outputs with the key
    image as their public key, a block made up for outputs spends nothing. *)
Definition Setting : Type := Outside * Chain.
Definition ring_of (key : KeyImage) : list TxOut := replicate TEST_RING_SIZE (no_tx_out key).
Definition some_indices (l : list Z) : list Z := match l with [] => [7] | _ => l end.
Definition unused_key (s : Setting) : KeyImage :=
  base.fresh (out_keys s.1 ++ Synchronized.key_images s.2 ++ (txo_public_key <$> outputs_of s.2)).

Definition sci_with_ring (o : Offer) (indices : list Z) (number : Z) : SignedContingentInput :=
  let sci := sci_of o number in
  {| pseudo_output_amount := pseudo_output_amount sci; required_output_amounts := required_output_amounts sci;
     tx_in := {| ring := ring_of (of_key_image o); input_rules := input_rules (tx_in sci) |};
     tx_out_global_indices := some_indices indices; sci_signature := sci_signature sci |}.

Definition lift {A} (m : stateful Outside string A) : stateful Setting string A := λ s,
  let '(r, o) := m s.1 in (r, (o, s.2)).
Definition with_terms (f : Offer → stateful Outside string Offer) (b : Offer * list Z) : stateful Setting string (Offer * list Z) :=
  lift (o <-- f b.1;; st_ret (o, b.2)).

#[export] Instance sync_env : TestLib Setting unit (KeyImage * Amount * list Z) (Offer * list Z) := {|
  account_random s := (tt, s);
  get_input_credentials amount _ s :=
    let key := unused_key s in
    ((key, amount, Z.of_nat <$> seq 0 TEST_RING_SIZE), (mk_outside (key :: out_keys s.1) (out_digests s.1) (out_last s.1) (out_clock s.1), s.2));
  ic_ring ic := ring_of ic.1.1;
  ic_proof_indices ic := some_indices ic.2;
  ic_set_proof_indices l ic := (ic.1, l);
  ledger_num_txos s := Ok (Z.of_nat (length (outputs_of s.2)));
  add_txos_to_ledger outputs s := (Ok tt, (s.1, s.2 ++ [{| bc_key_images := []; bc_outputs := outputs |}]));
  tb_new ic := Ok (mk_offer ic.1.1 ic.1.2 [] [] None 0 0, ic.2);
  tb_add_required_output a acc := with_terms (tb_add_required_output a acc);
  tb_add_required_change_output a acc := with_terms (tb_add_required_change_output a acc);
  tb_add_partial_fill_output a acc := with_terms (tb_add_partial_fill_output a acc);
  tb_add_partial_fill_change_output a acc := with_terms (tb_add_partial_fill_change_output a acc);
  tb_set_tombstone_block n b := (tb_set_tombstone_block n b.1, b.2);
  tb_set_min_partial_fill_value n b := (tb_set_min_partial_fill_value n b.1, b.2);
  tb_build b s :=
    let sci := sci_with_ring b.1 b.2 (new_number s.1) in
    (Ok sci, (mk_outside (out_keys s.1) (quote_id_from_sci sci :: out_digests s.1) (out_last s.1) (out_clock s.1), s.2));
  pop_response sci := pop_response sci;
  system_time s := let '(t, o) := system_time s.1 in (t, (o, s.2));
|}.

#[export] Instance sync_ledger_env : TestLedger Setting Chain := {|
  test_ledger := snd;
  add_txos_and_key_images_to_ledger outputs ks s := (Ok tt, (s.1, s.2 ++ [{| bc_key_images := ks; bc_outputs := outputs |}]));
  get_transaction s := (Ok [no_tx_out []; no_tx_out []], s);
|}.

Definition genesis : BlockContents := {| bc_key_images := []; bc_outputs := replicate TEST_RING_SIZE (no_tx_out [1]) |}.
Definition later : BlockContents := {| bc_key_images := []; bc_outputs := [no_tx_out [2]] |}.
Definition start : Setting := (outside_at_start 20, [genesis; later; later]).

(** Two rounds before every call. *)
Definition twice (_ : SyncWorld Setting) : nat := 2.
Example sync_tests_run :
  is_ok (cannot_add_sci_with_key_image_in_ledger (L:=Chain) twice (sync_setup start)).1 = true ∧
  is_ok (sci_that_are_added_to_ledger_are_removed_in_the_background (L:=Chain) twice (sync_setup start)).1 = true ∧
  is_ok (cannot_add_sci_past_tombstone_block (L:=Chain) twice (sync_setup start)).1 = true ∧
  is_ok (sci_past_tombstone_block_get_removed_in_the_background (L:=Chain) twice (sync_setup start)).1 = true ∧
  is_ok (sci_with_invalid_ring_is_rejected (L:=Chain) twice (sync_setup start)).1 = true.
Proof. by vm_compute. Qed.
Lemma unused_key_new s :
  unused_key s ∉ out_keys s.1 ∧ unused_key s ∉ Synchronized.key_images s.2 ∧ unused_key s ∉ txo_public_key <$> outputs_of s.2.
Proof.
  pose proof (infinite_is_fresh (out_keys s.1 ++ Synchronized.key_images s.2 ++ (txo_public_key <$> outputs_of s.2))) as Hn.
  rewrite !not_elem_of_app in Hn. exact Hn.
Qed.

Lemma sci_with_ring_on o indices number : buildable o → sci_on o (sci_with_ring o indices number).
Proof.
  intros Hb. destruct (sci_of_on o number Hb) as [Hv [Hw1 Hw2 Hw3] Hk Hba Hr _ Hru]. split; cbn; [done|by split|done|done|done| |done].
  by destruct indices.
Qed.

#[export] Program Instance sync_env_laws : TestLibLaws Setting unit (KeyImage * Amount * list Z) (Offer * list Z) := {|
  trace s := trace s.1;
  ic_amount ic := ic.1.2; ic_key_image ic := ic.1.1; tb_offer := fst; default_tombstone := 0;
|}.
Next Obligation. done. Qed.
Next Obligation. done. Qed.
Next Obligation. intros amount [] s ic s' [= <- <-]. split; [done|]. split; [apply unused_key_new|done]. Qed.
Next Obligation. done. Qed.
Next Obligation. eauto. Qed.
Next Obligation. eauto. Qed.
Next Obligation. eauto. Qed.
Next Obligation. intros a [] b s. eexists _, _. split; [done|]. done. Qed.
Next Obligation. intros a [] b s. eexists _, _. split; [done|]. done. Qed.
Next Obligation. intros a [] b s. eexists _, _. split; [done|]. done. Qed.
Next Obligation. intros a [] b s _. eexists _, _. split; [done|]. done. Qed.
Next Obligation. done. Qed.
Next Obligation. done. Qed.
Next Obligation.
  intros b s Hb. eexists _, _. split; [done|]. split; [by apply sci_with_ring_on|]. split; [apply new_number_fresh|done].
Qed.
Next Obligation. intros o sci Hon. exact (pop_response_invalid (TestLib0:=test_env) o sci Hon). Qed.
Next Obligation. intros o sci i rest Hon Hi. exact (reindexed (TestLib0:=test_env) o sci i rest Hon Hi). Qed.
Next Obligation.
  intros s t readings Hc. destruct (system_time_reads s.1 t readings Hc) as (o & Hs & Ht).
  exists (o, s.2). cbn [system_time sync_env]. by rewrite Hs.
Qed.

#[export] Instance sync_test_tombstones : TestTombstones.
Proof. split. cbn. lia. Qed.

#[export] Program Instance sync_ledger_laws : TestLedgerLaws Setting unit (KeyImage * Amount * list Z) (Offer * list Z) Chain := {|
  tb_ring b := ring_of (of_key_image b.1); tb_indices b := some_indices b.2;
|}.
Next Obligation. intros s Hs. cbn in *. rewrite bool_decide_true; [done|]. unfold is_u64, U64_MAX in *. lia. Qed.
Next Obligation. eauto. Qed.
Next Obligation.
  intros i s [H1 H2]. cbn in *. unfold outputs_of in H2.
  destruct (lookup_lt_is_Some_2 (s.2 ≫= bc_outputs) (Z.to_nat i)) as [t Ht]; [lia|]. rewrite Ht. by exists t.
Qed.
Next Obligation. intros s. apply chain_serves. Qed.
Next Obligation. done. Qed.
Next Obligation. intros s. cbn. by destruct (out_clock s.1). Qed.
Next Obligation.
  intros a [] s ic s' [= <- <-]. destruct (unused_key_new s) as (_ & Hk & Ho). cbn.
  split; [done|]. split; [done|]. split; [done|]. split; [|split; [|done]].
  - change (Forall (λ t, t ∉ outputs_of s.2) (replicate TEST_RING_SIZE (no_tx_out (unused_key s)))).
    apply Forall_replicate. intros Hin. apply Ho. apply (list_elem_of_fmap_2 txo_public_key) in Hin. exact Hin.
  - change (Forall (λ i, 0 ≤ i < Z.of_nat TEST_RING_SIZE) (Z.of_nat <$> seq 0 TEST_RING_SIZE)).
    apply Forall_fmap, Forall_forall. intros j Hj%elem_of_seq. cbn -[TEST_RING_SIZE]. lia.
Qed.
Next Obligation.
  intros l ic. split; [done|]. cbn. intros Hl. destruct l; [|done]. by destruct ic.2.
Qed.
Next Obligation. by intros s n [= <-]. Qed.
Next Obligation. intros members s s' [= <-]. exists []. split; [done|]. by intros k ?%elem_of_nil. Qed.
Next Obligation. eauto. Qed.
Next Obligation. intros s. by eexists _, s. Qed.
Next Obligation. by intros ic b [= <-]. Qed.
Next Obligation. by intros a [] b s b' s' [= <- <-]. Qed.
Next Obligation. done. Qed.
Next Obligation. by intros b s sci s' [= <- <-]. Qed.

Lemma sync_tests_pass_witness :
  sync_passing (sci_that_are_added_to_ledger_are_removed_in_the_background (L:=Chain) twice) (sync_setup start) ∧
  sync_passing (sci_with_invalid_ring_is_rejected (L:=Chain) twice) (sync_setup start).
Proof.
  assert (length (chain_of (L:=Chain) start) = 3%nat) as H1 by done.
  assert (ticks 8 (trace start)) as H2 by by vm_compute.
  assert (Z.of_nat TEST_RING_SIZE ≤ Z.of_nat (length (outputs_of (chain_of (L:=Chain) start))) ≤ 2 ^ 32) as H3
    by (split; vm_compute; done).
  pose proof (sync_tests_pass (L:=Chain) twice start H1 H2 H3) as (_ & H5 & _ & _ & H8). exact (conj H5 H8).
Defined.
End SyncTestsExamples.
