(* ===== verification/ApiConvert.v ===== *)
(** Conversions between quotes and their protobuf messages
    (api/src/convert/pair.rs, quote_id.rs, quote.rs, quote_book_error.rs).

    The message types are generated from api/proto/deqs.proto: a message field
    that was never set reads as the default message.  The message of an SCI
    and its conversions belong to the [mc-api] crate, a parameter here. *)

From S2P Require Import Prelude McTypes QuoteApi QuotePricing SqlTypes.

(** [mc_api::external::SignedContingentInput] and its conversions. *)
Class SciApi (A : Type) := {
  sci_to_api : SignedContingentInput → A;
  sci_from_api : A → outcome string SignedContingentInput;
  api_sci_default : A;
}.
(** What the conversions rely on: an SCI sent as a message is received as it
    was, and an empty message is not an SCI. *)
Class SciApiLaws (A : Type) `{!SciApi A} : Prop := {
  sci_api_roundtrip sci : sci_from_api (sci_to_api sci) = Ok sci;
  sci_api_default_invalid : is_err (sci_from_api api_sci_default) = true;
}.

(** * The messages of deqs.proto *)

Record ApiPair := { ap_base_token_id : Z; ap_counter_token_id : Z }.
Record ApiQuoteId := { aid_data : bytes }.
Record ApiQuote (A : Type) := mk_api_quote {
  aq_sci : option A;
  aq_id : option ApiQuoteId;
  aq_pair : option ApiPair;
  aq_base_range_min : Z;
  aq_base_range_max : Z;
  aq_max_counter_tokens : Z;
  aq_timestamp : Z;
}.
Arguments mk_api_quote {A} _ _ _ _ _ _ _.
Arguments aq_sci {A} _.
Arguments aq_id {A} _.
Arguments aq_pair {A} _.
Arguments aq_base_range_min {A} _.
Arguments aq_base_range_max {A} _.
Arguments aq_max_counter_tokens {A} _.
Arguments aq_timestamp {A} _.

Definition api_pair_default : ApiPair := {| ap_base_token_id := 0; ap_counter_token_id := 0 |}.
Definition api_quote_id_default : ApiQuoteId := {| aid_data := [] |}.
Definition api_quote_default {A} : ApiQuote A := mk_api_quote None None None 0 0 0 0.

Inductive QuoteStatusCode :=
| CREATED | INVALID_SCI | UNSUPPORTED_SCI | QUOTE_ALREADY_EXISTS | QUOTE_IS_STALE | OTHER.

#[export] Instance QuoteStatusCode_eq_dec : EqDecision QuoteStatusCode.
Proof. solve_decision. Defined.

(** * The conversions *)

Definition pair_to_api (p : Pair) : ApiPair :=
  {| ap_base_token_id := base_token_id p; ap_counter_token_id := counter_token_id p |}.
Definition pair_from_api (p : ApiPair) : Pair :=
  {| base_token_id := ap_base_token_id p; counter_token_id := ap_counter_token_id p |}.

Definition quote_id_to_api (id : QuoteId) : ApiQuoteId := {| aid_data := id |}.
Definition quote_id_from_api (source : ApiQuoteId) : outcome string QuoteId :=
  map_err (λ _, "ArrayCastError") (quote_id_try_from (aid_data source)).

Section Convert.
Context {A : Type} `{!SciApi A}.

Definition quote_to_api (src : Quote) : ApiQuote A := {|
  aq_sci := Some (sci_to_api (q_sci src));
  aq_id := Some (quote_id_to_api (q_id src));
  aq_pair := Some (pair_to_api (q_pair src));
  aq_base_range_min := (q_base_range src).1;
  aq_base_range_max := (q_base_range src).2;
  aq_max_counter_tokens := q_max_counter_tokens src;
  aq_timestamp := q_timestamp src;
|}.

Definition quote_from_api (source : ApiQuote A) : outcome string Quote :=
  sci ← sci_from_api (default api_sci_default (aq_sci source));
  id ← quote_id_from_api (default api_quote_id_default (aq_id source));
  let pair_ := pair_from_api (default api_pair_default (aq_pair source)) in
  let base_range := (aq_base_range_min source, aq_base_range_max source) in
  let max_counter_tokens := aq_max_counter_tokens source in
  let timestamp := aq_timestamp source in
  Ok (quote_new_from_fields sci id pair_ base_range max_counter_tokens timestamp).
End Convert.

(** [impl From<&Error> for api::QuoteStatusCode] *)
Definition status_code (src : Error) : QuoteStatusCode :=
  match src with
  | SciErr _ => INVALID_SCI
  | UnsupportedSci _ => UNSUPPORTED_SCI
  | QuoteAlreadyExists _ => QUOTE_ALREADY_EXISTS
  | QuoteIsStale => QUOTE_IS_STALE
  | InvalidRing _ => INVALID_SCI
  | _ => OTHER
  end.

(** * Theorems *)

Section Theorems.
Context {A : Type} `{!SciApi A, !SciApiLaws A}.

Lemma quote_from_to_api q : length (q_id q) = 32%nat → quote_from_api (quote_to_api q) = Ok q.
Proof.
  intros Hid. unfold quote_from_api, quote_id_from_api, quote_id_try_from. cbn.
  rewrite sci_api_roundtrip. cbn. rewrite decide_True by done. cbn. unfold quote_new_from_fields.
  by destruct q as [? ? [] [] ? ?].
Qed.

(** A quote sent to a client is received as it was: its message converts
    back to the same quote; and the empty message that fills the place of a
    quote that could not be added converts to none. *)
Lemma api_quote_roundtrip q :
  length (q_id q) = 32%nat →
  quote_from_api (quote_to_api q) = Ok q ∧ is_err (quote_from_api (A:=A) api_quote_default) = true.
Proof.
  intros Hid. split; [by apply quote_from_to_api|]. unfold quote_from_api. cbn.
  pose proof sci_api_default_invalid. by destruct (sci_from_api api_sci_default).
Qed.
End Theorems.

(** * The theorems on examples *)

Module ApiConvertExamples.
Import Sample QuoteApiExamples SampleCodec.

(** Messages by the codec of the SQLite examples. *)
#[export] Instance sample_api : SciApi (list Z) := {|
  sci_to_api := sci_encode; sci_from_api := sci_decode; api_sci_default := [];
|}.
#[export] Instance sample_api_laws : SciApiLaws (list Z).
Proof. split; [apply decode_encode|done]. Qed.

Lemma api_quote_roundtrip_witness :
  quote_from_api (quote_to_api partial_quote) = Ok partial_quote ∧
  is_err (quote_from_api (A:=list Z) api_quote_default) = true.
Proof. by apply (api_quote_roundtrip partial_quote). Defined.
End ApiConvertExamples.
