(* ===== verification/ClientService.v ===== *)
(** The client service of the server (server/src/client_service.rs), the SCI
    validator of server/src/grpc_server.rs, the message bus of
    server/src/msg.rs and the callback of server/src/server.rs that reports
    removed quotes on it.

    The state of the service is the quote book and the messages sent on the
    bus so far; whether a message found a receiver only changes what is
    logged. *)

From S2P Require Import Prelude McTypes QuoteApi QuotePricing QuoteBook InMemory SqlTypes ApiConvert.

Definition MAX_SIMULTANEOUS_QUOTES : Z := 30.

(** [enum Msg] *)
Inductive Msg := SciQuoteAdded (quote : Quote) | SciQuoteRemoved (quote : Quote).

(** [RpcStatus], as made by [rpc_invalid_arg_error] and [rpc_internal_error],
    or with another code. *)
Inductive RpcStatus := InvalidArgument (msg : string) | Internal (msg : string) | Status (code : Z) (msg : string).

(** [struct ClientService]; the validator is an argument of its operations. *)
Record ClientService (OB : Type) := mk_service { cs_msg_bus : list Msg; cs_quote_book : OB }.
Arguments mk_service {OB} _ _.
Arguments cs_msg_bus {OB} _.
Arguments cs_quote_book {OB} _.

Record SubmitQuotesResponse (A : Type) := mk_submit_response {
  sr_status_codes : list QuoteStatusCode;
  sr_error_messages : list string;
  sr_quotes : list (ApiQuote A);
}.
Arguments mk_submit_response {A} _ _ _.
Arguments sr_status_codes {A} _.
Arguments sr_error_messages {A} _.
Arguments sr_quotes {A} _.

Record GetQuotesRequest := {
  gq_pair : option ApiPair;
  gq_base_range_min : Z;
  gq_base_range_max : Z;
  gq_limit : Z;
}.

(** [LiveUpdate], a oneof. *)
Inductive LiveUpdate (A : Type) :=
| QuoteAdded (quote : ApiQuote A)
| QuoteRemoved (id : ApiQuoteId).
Arguments QuoteAdded {A} quote.
Arguments QuoteRemoved {A} id.

(** The [SciValidator] built by [start_client_rpc_server] from the map of
    minimum amounts. *)
Definition sci_validator (quote_minimum_map : gmap Z Z) (sci : SignedContingentInput) : outcome Error unit :=
  let base_token_id := amt_token_id (pseudo_output_amount sci) in
  let base_amount := amt_value (pseudo_output_amount sci) in
  let minimum_for_token_id := default 0 (quote_minimum_map !! base_token_id) in
  if base_amount <? minimum_for_token_id then
    Err (UnsupportedSci ("Quote volume is too small for deqs. Quotes with base_token: "
                           +:+ pretty base_token_id +:+ " require a minimum of: "
                           +:+ pretty minimum_for_token_id))
  else Ok tt.

(** [parse_key_val] of config.rs, with the parsers of the two types. *)
Definition parse_key_val {T U} (parse_key : string → outcome string T) (parse_val : string → outcome string U)
    (s : string) : outcome string (T * U) :=
  pos ← ok_or (String.index 0 "=" s) ("invalid KEY=value: no `=` found in `" +:+ s +:+ "`");
  key ← parse_key (String.substring 0 pos s);
  val ← parse_val (String.substring (pos + 1) (String.length s - (pos + 1)) s);
  Ok (key, val).

(** [get_remove_quote_callback_function]: one message per removed quote; it
    panics when the bus has no receiver left. *)
Fixpoint remove_quote_callback (receivers : bool) (quotes : list Quote) : stateful (list Msg) Error unit :=
  match quotes with
  | [] => st_ret tt
  | quote :: rest =>
      (λ bus, if receivers then (Ok tt, bus ++ [SciQuoteRemoved quote])
              else (Panic ("Failed to send SCI quote " +:+ quote_id_display (q_id quote)
                             +:+ " removed message to
        message bus"), bus)) ;;;
      remove_quote_callback receivers rest
  end.

Section Service.
Context `{McLib} {A OB : Type} `{!SciApi A, !QuoteBook OB}.
Abbreviation service := (ClientService OB).

(** One closure of the parallel iterator. *)
Definition submit_one (validator : SignedContingentInput → outcome Error unit) (timestamp : Z)
    (sci : SignedContingentInput) : stateful OB Error Quote :=
  st_lift (validator sci) ;;;
  qb_add_sci None sci (Some timestamp).

(** [into_par_iter().map(..).collect()]: the closures run in the order
    [schedule] says, every result goes to the place of its SCI. *)
Fixpoint submit_all (validator : SignedContingentInput → outcome Error unit) (timestamp : Z)
    (scis : list SignedContingentInput) (schedule : list nat) (results : gmap nat (outcome Error Quote))
    (book : OB) : gmap nat (outcome Error Quote) * OB :=
  match schedule with
  | [] => (results, book)
  | i :: schedule =>
      match scis !! i with
      | Some sci =>
          let '(r, book) := submit_one validator timestamp sci book in
          submit_all validator timestamp scis schedule (<[i := r]> results) book
      | None => submit_all validator timestamp scis schedule results book
      end
  end.

(** The loop over the results, which fills the three vectors and the bus; a
    closure that panicked makes the whole call panic. *)
Fixpoint collect_response (results : list (outcome Error Quote)) (resp : SubmitQuotesResponse A)
    (bus : list Msg) : outcome RpcStatus (SubmitQuotesResponse A * list Msg) :=
  match results with
  | [] => Ok (resp, bus)
  | Ok quote :: rest =>
      collect_response rest
        (mk_submit_response (sr_status_codes resp ++ [CREATED]) (sr_error_messages resp ++ [""])
           (sr_quotes resp ++ [quote_to_api quote]))
        (bus ++ [SciQuoteAdded quote])
  | Err ((QuoteAlreadyExists existing_quote) as err) :: rest =>
      collect_response rest
        (mk_submit_response (sr_status_codes resp ++ [status_code err])
           (sr_error_messages resp ++ [error_display err])
           (sr_quotes resp ++ [quote_to_api existing_quote])) bus
  | Err err :: rest =>
      collect_response rest
        (mk_submit_response (sr_status_codes resp ++ [status_code err])
           (sr_error_messages resp ++ [error_display err])
           (sr_quotes resp ++ [api_quote_default])) bus
  | Panic p :: _ => Panic p
  end.

(** The time stamp of the request: the system clock, which may be before the
    epoch, in nanoseconds, which may not fit in 64 bits. *)
Definition request_timestamp (now : option Z) : outcome RpcStatus Z :=
  match now with
  | None => Err (Internal "submit_quotes")
  | Some nanos => if bool_decide (is_u64 nanos) then Ok nanos else Err (Internal "submit_quotes")
  end.

Definition submit_quotes_impl (validator : SignedContingentInput → outcome Error unit) (now : option Z)
    (schedule : list nat) (req : list A) : stateful service RpcStatus (SubmitQuotesResponse A) := λ s,
  if MAX_SIMULTANEOUS_QUOTES <=? Z.of_nat (length req) then (Err (InvalidArgument "Too many quotes"), s) else
  match request_timestamp now with
  | Err e => (Err e, s)
  | Panic p => (Panic p, s)
  | Ok timestamp =>
      match collect_results sci_from_api req with
      | Err e => (Err (InvalidArgument "quotes"), s)
      | Panic p => (Panic p, s)
      | Ok scis =>
          let '(results, book) := submit_all validator timestamp scis schedule ∅ (cs_quote_book s) in
          match collect_response (omap (λ i, results !! i) (seq 0 (length scis)))
                  (mk_submit_response [] [] []) (cs_msg_bus s) with
          | Ok (resp, bus) => (Ok resp, mk_service bus book)
          | Err e => (Err e, mk_service (cs_msg_bus s) book)
          | Panic p => (Panic p, mk_service (cs_msg_bus s) book)
          end
      end
  end.

Definition get_quotes_impl (req : GetQuotesRequest) (s : service) : outcome RpcStatus (list (ApiQuote A)) :=
  let base_range_max :=
    if (gq_base_range_min req =? 0) && (gq_base_range_max req =? 0) then U64_MAX
    else gq_base_range_max req in
  quotes ← map_err (λ _, Internal "get_quotes")
    (qb_get_quotes (pair_from_api (default api_pair_default (gq_pair req)))
       (Included (gq_base_range_min req), Included base_range_max) (gq_limit req) (cs_quote_book s));
  Ok (quote_to_api <$> (quotes : list Quote)).

(** The update a message becomes for a subscriber of [filter_for_pair]. *)
Definition live_update (filter_for_pair : option Pair) (msg : Msg) : option (LiveUpdate A) :=
  let wanted quote :=
    match filter_for_pair with Some p => bool_decide (q_pair quote = p) | None => true end in
  match msg with
  | SciQuoteAdded quote => if wanted quote then Some (QuoteAdded (quote_to_api quote)) else None
  | SciQuoteRemoved quote => if wanted quote then Some (QuoteRemoved (quote_id_to_api (q_id quote))) else None
  end.

(** The loop of [live_updates_impl] over the messages received until the bus
    is closed; [send_fails] says which send fails, which ends the stream. *)
Fixpoint live_updates_loop (filter_for_pair : option Pair) (send_fails : nat → bool) (msgs : list Msg)
    (sent : list (LiveUpdate A)) : outcome string (list (LiveUpdate A)) * list (LiveUpdate A) :=
  match msgs with
  | [] => (Ok sent, sent)
  | msg :: rest =>
      match live_update filter_for_pair msg with
      | None => live_updates_loop filter_for_pair send_fails rest sent
      | Some u =>
          if send_fails (length sent) then (Err "send", sent)
          else live_updates_loop filter_for_pair send_fails rest (sent ++ [u])
      end
  end.

Definition live_updates_impl (req_pair : option ApiPair) (send_fails : nat → bool) (msgs : list Msg) :
    outcome string (list (LiveUpdate A)) * list (LiveUpdate A) :=
  let p := pair_from_api (default api_pair_default req_pair) in
  let filter_for_pair :=
    if (base_token_id p =? 0) && (counter_token_id p =? 0) then None else Some p in
  live_updates_loop filter_for_pair send_fails msgs [].
End Service.

(** * What a submission does *)

(** The entries of the response for one result. *)
Definition result_quote (r : outcome Error Quote) : option Quote :=
  match r with Ok q => Some q | _ => None end.
Definition result_code (r : outcome Error Quote) : QuoteStatusCode :=
  match r with Ok _ => CREATED | Err e => status_code e | Panic _ => OTHER end.
Definition result_message (r : outcome Error Quote) : string :=
  match r with Ok _ => "" | Err e => error_display e | Panic p => p end.
Definition result_entry {A} `{!SciApi A} (r : outcome Error Quote) : ApiQuote A :=
  match r with
  | Ok q => quote_to_api q
  | Err (QuoteAlreadyExists e) => quote_to_api e
  | _ => api_quote_default
  end.

Lemma result_code_CREATED r : result_code r = CREATED ↔ ∃ q, r = Ok q.
Proof.
  split; [|by intros [q ->]]. destruct r as [q|e|p]; [by exists q| |done]. by destruct e.
Qed.

Lemma collect_response_spec {A} `{!SciApi A} rs (resp : SubmitQuotesResponse A) bus resp' bus' :
  collect_response rs resp bus = Ok (resp', bus') →
  sr_status_codes resp' = sr_status_codes resp ++ (result_code <$> rs) ∧
  sr_error_messages resp' = sr_error_messages resp ++ (result_message <$> rs) ∧
  sr_quotes resp' = sr_quotes resp ++ (result_entry <$> rs) ∧
  bus' = bus ++ (SciQuoteAdded <$> omap result_quote rs).
Proof.
  revert resp bus. induction rs as [|r rs IH]; intros resp bus; cbn.
  { intros [= <- <-]. by rewrite !app_nil_r. }
  destruct r as [q|e|p]; [| |done].
  - intros (-> & -> & -> & ->)%IH. cbn. by rewrite <-!(assoc_L (++)).
  - destruct e; intros (-> & -> & -> & ->)%IH; cbn; by rewrite <-!(assoc_L (++)).
Qed.

Lemma collect_response_outcome {A} `{!SciApi A} rs (resp : SubmitQuotesResponse A) bus :
  match collect_response rs resp bus with
  | Ok _ => Forall (λ r, is_panic r = false) rs
  | Err _ => False
  | Panic p => Panic p ∈ rs
  end.
Proof.
  revert resp bus. induction rs as [|r rs IH]; intros resp bus; cbn; [constructor|].
  destruct r as [q|e|p]; [|destruct e|by left];
    match goal with |- context [collect_response rs ?resp ?bus] => specialize (IH resp bus) end;
    destruct (collect_response rs _ _); first [by constructor|done|by right].
Qed.

(** The entries of a map below a bound, in the order of their keys. *)
Lemma omap_seq_entries {V} (m : gmap nat V) n :
  (∀ i, is_Some (m !! i) → (i < n)%nat) → omap (λ i, m !! i) (seq 0 n) ≡ₚ (map_to_list m).*2.
Proof.
  intros Hdom.
  assert (omap (λ i, m !! i) (seq 0 n) = (omap (λ i, (i,.) <$> m !! i) (seq 0 n)).*2) as ->.
  { induction (seq 0 n) as [|i l IH]; [done|]. cbn. destruct (m !! i); cbn; by rewrite IH. }
  apply fmap_Permutation, NoDup_Permutation; [|apply NoDup_map_to_list|].
  - apply (NoDup_fmap_1 fst).
    replace (omap (λ i, (i,.) <$> m !! i) (seq 0 n)).*1 with (filter (λ i, is_Some (m !! i)) (seq 0 n)).
    + apply NoDup_filter, NoDup_seq.
    + induction (seq 0 n) as [|i l IH]; [done|]. rewrite filter_cons. cbn.
      destruct (m !! i); case_decide as Hs; cbn; first [by rewrite IH|by destruct Hs].
  - intros [i v]. rewrite elem_of_map_to_list, list_elem_of_omap. split.
    + intros (j & _ & Hj). destruct (m !! j) eqn:E; cbn in Hj; by simplify_eq.
    + intros Hi. exists i. split; [|by rewrite Hi]. apply elem_of_seq. split; [lia|]. apply Hdom. eauto.
Qed.

(** They are all there when every key below the bound is, and no other. *)
Lemma omap_seq_total {V} (m : gmap nat V) k n :
  (∀ i, (k ≤ i < k + n)%nat → is_Some (m !! i)) →
  length (omap (λ i, m !! i) (seq k n)) = n ∧
  ∀ i, (i < n)%nat → omap (λ i, m !! i) (seq k n) !! i = m !! (k + i)%nat.
Proof.
  revert k. induction n as [|n IH]; intros k Hk; cbn; [split; [done|lia]|].
  destruct (Hk k) as [v Hv]; [lia|]. rewrite Hv. cbn.
  destruct (IH (S k)) as [Hl Hi]; [intros; apply Hk; lia|].
  split; [by rewrite Hl|]. intros [|i] Hlt; cbn; [by rewrite Nat.add_0_r, Hv|].
  rewrite Hi by lia. f_equal. lia.
Qed.

Section Submission.
Context `{McLib} {OB : Type} `{!QuoteBook OB, !QuoteBookLaws OB}.
Implicit Types (b : OB) (m : gmap nat (outcome Error Quote)).

(** The quotes a submission may add. *)
Definition attempted (ts : Z) (scis : list SignedContingentInput) : list Quote :=
  omap (λ sci, result_quote (quote_new None sci (Some ts))) scis.

(** Quotes that may be added together: each has a price, and equal ids mean
    equal key images. *)
Definition admissible b (l : list Quote) : Prop :=
  Forall priced l ∧
  ∀ x y, x ∈ l ++ contents b → y ∈ l ++ contents b → q_id x = q_id y → quote_key_image x = quote_key_image y.

(** Failed additions leave the contents of the book. *)
Definition failed_adds_keep : Prop := ∀ q b r b',
  book_inv b → addable (contents b) q → qb_add_quote q b = (r, b') → is_ok r = false →
  contents b' ≡ₚ contents b.

Definition created m : list Quote := omap result_quote (map_to_list m).*2.

(** The result for one SCI of a request that takes the book from [b0] to [b]:
    the error of the validator; the error of [Quote::new]; the quote it makes;
    or the error with which a book with at least the quotes of [b0] and at most
    those of [b] refuses this quote. *)
Definition result_for (validator : SignedContingentInput → outcome Error unit) ts b0 b sci (r : outcome Error Quote) : Prop :=
  match validator sci, quote_new None sci (Some ts) with
  | Err e, _ => r = Err e
  | Ok _, Err e => r = Err e
  | Ok _, Ok q => r = Ok q ∨ ∃ b1 e b2, contents b0 ⊆+ contents b1 ∧ contents b1 ⊆+ contents b ∧
                    qb_add_quote q b1 = (Err e, b2) ∧ r = Err e
  | _, _ => False
  end.

(** It is what the closure answers on such a book. *)
Lemma submit_one_result validator ts sci b0 b1 b r b2 :
  submit_one validator ts sci b1 = (r, b2) → is_panic r = false →
  contents b0 ⊆+ contents b1 → contents b1 ⊆+ contents b → result_for validator ts b0 b sci r.
Proof.
  unfold submit_one, qb_add_sci, st_bind, st_lift, st_ret, result_for. intros Hr Hp H0 H1.
  destruct (validator sci) as [[]|e|p]; [|by injection Hr as <- _..].
  - destruct (quote_new None sci (Some ts)) as [q|e|p]; [|by injection Hr as <- _..].
    destruct (qb_add_quote q b1) as [[[]|e|p] b'] eqn:Hq; injection Hr as <- <-; [by left| |done].
    right. by exists b1, e, b'.
Qed.

Lemma created_insert m i r :
  m !! i = None → created (<[i := r]> m) ≡ₚ option_list (result_quote r) ++ created m.
Proof.
  intros Hi. unfold created. rewrite (map_to_list_insert m i r Hi). cbn. by destruct (result_quote r).
Qed.

(** What holds after some of the closures have run. *)
Record submitted (validator : SignedContingentInput → outcome Error unit) ts scis b0 m b : Prop := {
  sub_inv : book_inv b;
  sub_lower : created m ++ contents b0 ⊆+ contents b;
  sub_upper x : x ∈ contents b → x ∈ attempted ts scis ++ contents b0;
  sub_exact : failed_adds_keep → contents b ≡ₚ created m ++ contents b0;
  sub_results i r : m !! i = Some r → ∃ sci b1 b2, scis !! i = Some sci ∧
    submit_one validator ts sci b1 = (r, b2) ∧ contents b0 ⊆+ contents b1 ∧ contents b1 ⊆+ contents b;
}.

Lemma add_sci_failed now sci ts b r b' :
  failed_adds_keep → book_inv b → (∀ q, quote_new now sci ts = Ok q → addable (contents b) q) →
  qb_add_sci now sci ts b = (r, b') → is_ok r = false → contents b' ≡ₚ contents b.
Proof.
  intros Hk Hi Hadd. unfold qb_add_sci, st_lift, st_ret, st_bind.
  destruct (quote_new now sci ts) as [q|e|p]; [|by intros [= <- <-]..].
  destruct (qb_add_quote q b) as [[[]|e|p] b1] eqn:Hq; intros [= <- <-] Hok; [done|..].
  - apply (Hk q b (Err e) b1); auto.
  - apply (Hk q b (Panic p) b1); auto.
Qed.

Lemma submit_one_step validator ts scis b0 i sci m b r b' :
  admissible b0 (attempted ts scis) → scis !! i = Some sci → m !! i = None →
  submitted validator ts scis b0 m b → submit_one validator ts sci b = (r, b') →
  submitted validator ts scis b0 (<[i := r]> m) b'.
Proof.
  intros [Hpr Hid] Hsci Hfresh [Hi Hlow Hup Hex Hres] Hr.
  assert (∀ q, quote_new None sci (Some ts) = Ok q → q ∈ attempted ts scis) as Hatt.
  { intros q Hq. apply list_elem_of_omap. exists sci. split; [by eapply list_elem_of_lookup_2|]. by rewrite Hq. }
  assert (∀ q, quote_new None sci (Some ts) = Ok q → addable (contents b) q) as Hadd.
  { intros q Hq. split; [rewrite Forall_forall in Hpr; auto|]. intros x Hx. apply Hid; [auto|].
    apply elem_of_app. auto. }
  assert (contents b0 ⊆+ contents b) as Hb0.
  { transitivity (created m ++ contents b0); [by apply submseteq_inserts_l|done]. }
  assert (contents b ⊆+ contents b' → ∀ i' r', <[i:=r]> m !! i' = Some r' → ∃ sci b1 b2, scis !! i' = Some sci ∧
            submit_one validator ts sci b1 = (r', b2) ∧ contents b0 ⊆+ contents b1 ∧ contents b1 ⊆+ contents b') as Hres'.
  { intros Hsub i' r' [[<- <-]|[_ Hm]]%lookup_insert_Some; [by exists sci, b, b'|].
    destruct (Hres i' r' Hm) as (sci' & b1 & b2 & ? & ? & ? & ?). exists sci', b1, b2.
    do 3 (split; [done|]). by transitivity (contents b). }
  (* A closure that did not create a quote. *)
  assert (is_ok r = false → book_inv b' → contents b ⊆+ contents b' →
          (∀ x, x ∈ contents b' → x ∈ attempted ts scis ++ contents b0) →
          (failed_adds_keep → contents b' ≡ₚ contents b) →
          submitted validator ts scis b0 (<[i := r]> m) b') as Hfailed.
  { intros Hok Hi' Hsub Hup' Hex'.
    assert (created (<[i := r]> m) ≡ₚ created m) as Hcr by (rewrite created_insert by done; by destruct r).
    split; [done|rewrite Hcr; by transitivity (contents b)|done|intros Hk; rewrite Hcr, (Hex' Hk); auto|].
    by apply Hres'. }
  clear Hres. revert Hr Hres'. unfold submit_one, st_bind, st_lift.
  destruct (validator sci) as [[]|e|p] eqn:Hv; [|intros [= <- <-] Hres'; by apply Hfailed..].
  intros Hr Hres'. destruct (add_sci_frame _ _ _ _ _ _ Hi Hadd Hr) as (Hi' & Hsub & Hcase).
  destruct (is_ok r) eqn:Hok.
  - destruct r as [q|e|p]; [|done..].
    destruct (add_sci_ok _ _ _ _ _ _ Hi Hadd Hr) as (Hq & _ & Hc). split; [done|..].
    + rewrite created_insert by done. cbn. rewrite Hc. by apply submseteq_skip.
    + intros x. rewrite Hc, elem_of_cons. intros [->|Hx]; [apply elem_of_app; auto|auto].
    + intros Hk. rewrite created_insert by done. cbn. by rewrite Hc, (Hex Hk).
    + by apply Hres'.
  - apply Hfailed; try done; [|intros Hk; by eapply add_sci_failed].
    intros x Hx. destruct Hcase as [Hle|(q & Hq & Hle)]; eapply elem_of_submseteq in Hx; try exact Hle; [auto|].
    apply elem_of_cons in Hx as [->|Hx]; [apply elem_of_app; auto|auto].
Qed.

Lemma submit_all_spec validator ts scis b0 schedule m b m' b' :
  admissible b0 (attempted ts scis) → NoDup schedule → (∀ i, i ∈ schedule → m !! i = None) →
  submitted validator ts scis b0 m b →
  submit_all validator ts scis schedule m b = (m', b') →
  submitted validator ts scis b0 m' b' ∧
  ∀ i, is_Some (m' !! i) ↔ is_Some (m !! i) ∨ i ∈ schedule ∧ is_Some (scis !! i).
Proof.
  intros Had. revert m b. induction schedule as [|i schedule IH]; intros m b Hnd Hm Hs; cbn [submit_all].
  { intros [= <- <-]. split; [done|]. intros i. rewrite elem_of_nil. tauto. }
  apply NoDup_cons in Hnd as [Hi Hnd]. destruct (scis !! i) as [sci|] eqn:Hsci.
  - destruct (submit_one validator ts sci b) as [r b1] eqn:Hr. intros Hall.
    destruct (IH (<[i := r]> m) b1 Hnd) as [Hs' Hdom]; [| |exact Hall|].
    + intros j Hj. rewrite lookup_insert_ne by (intros ->; done). apply Hm. by apply list_elem_of_further.
    + apply (submit_one_step validator ts scis b0 i sci m b r b1); auto. apply Hm. by apply list_elem_of_here.
    + split; [done|]. intros j. rewrite Hdom, lookup_insert_is_Some, elem_of_cons.
      destruct (decide (i = j)) as [->|]; [rewrite Hsci|]; naive_solver.
  - intros Hall. destruct (IH m b Hnd) as [Hs' Hdom]; [|done|exact Hall|].
    + intros j Hj. apply Hm. by apply list_elem_of_further.
    + split; [done|]. intros j. rewrite Hdom, elem_of_cons.
      destruct (decide (i = j)) as [->|]; [rewrite Hsci|]; naive_solver.
Qed.
End Submission.

Section Theorems.
Context `{McLib} {A OB : Type} `{!SciApi A, !QuoteBook OB, !QuoteBookLaws OB}.
Implicit Types (s : ClientService OB).

Lemma submitted_start validator ts scis (b : OB) : book_inv b → submitted validator ts scis b ∅ b.
Proof.
  intros Hb. split; try done; unfold created; rewrite ?map_to_list_empty; try done.
  intros x Hx. apply elem_of_app. by right.
Qed.

(** What the closures of a request leave: one result per SCI, each what
    [submit_one] answers on a book the request went through. *)
Lemma submit_all_results validator ts scis schedule (b m_b : OB) m :
  book_inv b → schedule ≡ₚ seq 0 (length scis) → admissible b (attempted ts scis) →
  submit_all validator ts scis schedule ∅ b = (m, m_b) →
  let results := omap (λ i, m !! i) (seq 0 (length scis)) in
  book_inv m_b ∧ omap result_quote results ++ contents b ⊆+ contents m_b ∧
  (failed_adds_keep → contents m_b ≡ₚ omap result_quote results ++ contents b) ∧
  Forall2 (λ sci r, ∃ b1 b2, submit_one validator ts sci b1 = (r, b2) ∧
                      contents b ⊆+ contents b1 ∧ contents b1 ⊆+ contents m_b) scis results.
Proof.
  intros Hi Hsched Had Hall.
  destruct (submit_all_spec validator ts scis b schedule ∅ b m m_b Had)
    as [[Hi' Hlow _ Hex Hres] Hdom]; [by rewrite Hsched; apply NoDup_seq|done|by apply submitted_start|done|].
  assert (∀ i, is_Some (m !! i) ↔ (i < length scis)%nat) as Hdom'.
  { intros i. rewrite Hdom, lookup_empty, Hsched, elem_of_seq, lookup_lt_is_Some. split; [|intros; right; lia].
    intros [[? ?]|?]; [done|lia]. }
  destruct (omap_seq_total m 0 (length scis)) as [Hlr Hlk]; [intros i Hb; apply Hdom'; lia|].
  set (results := omap (λ i, m !! i) (seq 0 (length scis))) in *. intros results'. subst results'.
  assert (omap result_quote results ≡ₚ created m) as Hcr.
  { unfold created, results. rewrite omap_seq_entries; [done|]. intros i. by rewrite Hdom'. }
  split; [done|]. split; [by rewrite Hcr|]. split; [intros Hk; by rewrite Hcr, (Hex Hk)|].
  apply Forall2_same_length_lookup. split; [done|]. intros i sci r Hsci Hr.
  rewrite (Hlk i) in Hr by by apply lookup_lt_Some in Hsci.
  destruct (Hres i r Hr) as (sci' & b1 & b2 & Hsci' & Hrest). rewrite Hsci in Hsci'. simplify_eq. by exists b1, b2.
Qed.

(** The response to a request, given its results. *)
Record response_for (results : list (outcome Error Quote)) (resp : SubmitQuotesResponse A) : Prop := {
  rf_codes : sr_status_codes resp = result_code <$> results;
  rf_messages : sr_error_messages resp = result_message <$> results;
  rf_quotes : sr_quotes resp = result_entry <$> results;
}.

(** What a submission that is answered does. *)
Lemma submit_quotes_effect validator now schedule (req : list A) s resp s' :
  book_inv (cs_quote_book s) → schedule ≡ₚ seq 0 (length req) →
  (∀ ts scis, request_timestamp now = Ok ts → collect_results sci_from_api req = Ok scis →
     admissible (cs_quote_book s) (attempted ts scis)) →
  submit_quotes_impl validator now schedule req s = (Ok resp, s') →
  book_inv (cs_quote_book s') ∧ ∃ ts scis results,
    request_timestamp now = Ok ts ∧ Forall2 (λ a sci, sci_from_api a = Ok sci) req scis ∧
    Forall2 (result_for validator ts (cs_quote_book s) (cs_quote_book s')) scis results ∧
    response_for results resp ∧
    cs_msg_bus s' = cs_msg_bus s ++ (SciQuoteAdded <$> omap result_quote results) ∧
    omap result_quote results ++ contents (cs_quote_book s) ⊆+ contents (cs_quote_book s') ∧
    (failed_adds_keep →
       contents (cs_quote_book s') ≡ₚ omap result_quote results ++ contents (cs_quote_book s)).
Proof.
  intros Hi Hsched Had. unfold submit_quotes_impl. destruct (_ <=? _); [done|].
  destruct (request_timestamp now) as [ts|e|p] eqn:Hts; [|done..].
  destruct (collect_results sci_from_api req) as [scis|e|p] eqn:Hscis; [|done..].
  specialize (Had ts scis eq_refl eq_refl). apply collect_results_Ok in Hscis.
  rewrite (Forall2_length _ _ _ Hscis) in Hsched.
  destruct (submit_all validator ts scis schedule ∅ (cs_quote_book s)) as [m b'] eqn:Hall.
  destruct (submit_all_results _ _ _ _ _ _ _ Hi Hsched Had Hall) as (Hi' & Hlow & Hex & Hres).
  set (results := omap (λ i, m !! i) (seq 0 (length scis))) in *.
  pose proof (collect_response_outcome results (mk_submit_response (A:=A) [] [] []) (cs_msg_bus s)) as Hout.
  destruct (collect_response _ _ _) as [[resp' bus']|e|p] eqn:Hresp; [|done..]. intros [= -> <-].
  apply collect_response_spec in Hresp as (Hc & Hmsg & Hq & ->). cbn [cs_quote_book cs_msg_bus].
  split; [done|]. exists ts, scis, results. do 2 (split; [done|]).
  split; [|split; [by split|done]]. rewrite Forall_lookup in Hout.
  apply Forall2_same_length_lookup. rewrite Forall2_same_length_lookup in Hres. destruct Hres as [Hl Hres].
  split; [done|]. intros i sci r Hsci Hr. destruct (Hres i sci r Hsci Hr) as (b1 & b2 & Hone & ? & ?).
  by eapply submit_one_result; [exact Hone|apply (Hout i)|..].
Qed.

(** C19: a submission, on every branch.  A request of fewer than 30 SCIs that can
    be decoded, at a time that fits 64 bits, is answered unless one of its
    closures panics.  Whatever order the SCIs are processed in, the response then
    has one entry per SCI, in the order of the request: the error of the
    validator if it refuses the SCI; otherwise the error of [Quote::new] if it
    makes no quote of the SCI with the time stamp of the request; otherwise this
    quote, marked [CREATED], unless the book refuses to add it at a moment of
    the request, and then the error it gives.  The created quotes, in that
    order, are announced on the message bus; all of them are in the book
    afterwards, with everything that was there before, and, when failed
    additions leave a book unchanged, nothing else.  Every other request is
    refused and changes nothing.  This holds of requests whose quotes have a
    price and whose ids, digests, belong to one key image each. *)
Theorem submit_quotes_spec validator now schedule (req : list A) s r s' :
  book_inv (cs_quote_book s) → schedule ≡ₚ seq 0 (length req) →
  (∀ ts scis, request_timestamp now = Ok ts → collect_results sci_from_api req = Ok scis →
     admissible (cs_quote_book s) (attempted ts scis)) →
  submit_quotes_impl validator now schedule req s = (r, s') →
  match r with
  | Ok resp => ∃ ts scis results,
      request_timestamp now = Ok ts ∧ Forall2 (λ a sci, sci_from_api a = Ok sci) req scis ∧
      Forall2 (result_for validator ts (cs_quote_book s) (cs_quote_book s')) scis results ∧
      response_for results resp ∧
      cs_msg_bus s' = cs_msg_bus s ++ (SciQuoteAdded <$> omap result_quote results) ∧
      omap result_quote results ++ contents (cs_quote_book s) ⊆+ contents (cs_quote_book s') ∧
      (failed_adds_keep →
         contents (cs_quote_book s') ≡ₚ omap result_quote results ++ contents (cs_quote_book s))
  | Err e => s' = s ∧
      (e = InvalidArgument "Too many quotes" ∧ (30 ≤ length req)%nat ∨ request_timestamp now = Err e ∨
       e = InvalidArgument "quotes" ∧ ∃ a err, a ∈ req ∧ sci_from_api a = Err err)
  | Panic p =>
      (∃ a, a ∈ req ∧ sci_from_api a = Panic p) ∨
      (∃ ts a sci b1 b2, request_timestamp now = Ok ts ∧ a ∈ req ∧ sci_from_api a = Ok sci ∧
         submit_one validator ts sci b1 = (Panic p, b2))
  end.
Proof.
  intros Hi Hsched Had Hr. destruct r as [resp|e|p].
  { by destruct (submit_quotes_effect _ _ _ _ _ _ _ Hi Hsched Had Hr) as [_ H']. }
  all: revert Hr; unfold submit_quotes_impl, MAX_SIMULTANEOUS_QUOTES; destruct (Z.leb_spec 30 (Z.of_nat (length req)));
    [first [done|intros [= <- <-]; split; [done|]; left; split; [done|lia]]|].
  all: destruct (request_timestamp now) as [ts|e'|p'] eqn:Hts;
    [|first [done|intros [= <- <-]; auto]|unfold request_timestamp in Hts; by repeat case_match].
  all: destruct (collect_results sci_from_api req) as [scis|e'|p'] eqn:Hscis; try done;
    [|intros [= <- <-]; destruct (collect_results_fails _ _ _ Hscis eq_refl) as (a & Ha & Hf); eauto 8].
  all: specialize (Had ts scis eq_refl eq_refl); apply collect_results_Ok in Hscis;
    rewrite (Forall2_length _ _ _ Hscis) in Hsched;
    destruct (submit_all validator ts scis schedule ∅ (cs_quote_book s)) as [m b'] eqn:Hall;
    destruct (submit_all_results _ _ _ _ _ _ _ Hi Hsched Had Hall) as (_ & _ & _ & Hres);
    set (results := omap (λ i, m !! i) (seq 0 (length scis))) in *;
    pose proof (collect_response_outcome results (mk_submit_response (A:=A) [] [] []) (cs_msg_bus s)) as Hout;
    destruct (collect_response _ _ _) as [[resp' bus']|e'|p'] eqn:Hresp; try done.
  intros [= <- _]. apply list_elem_of_lookup in Hout as [i Hip].
  destruct (Forall2_lookup_r _ _ _ _ _ Hres Hip) as (sci & Hsci & b1 & b2 & Hone & _).
  destruct (Forall2_lookup_r _ _ _ _ _ Hscis Hsci) as (a & Ha & Hfrom).
  right. exists ts, a, sci, b1, b2. split; [done|]. split; [by eapply list_elem_of_lookup_2|done].
Qed.

(** A query.  The response to [get_quotes] is, as messages, the listing of
    the pair for the requested range, up to the limit, best rate first; a
    request with no range asks for all quotes of the pair; a limit of zero is
    no limit; a failing book is an internal error. *)
Lemma get_quotes_spec req s :
  book_inv (cs_quote_book s) → 0 ≤ gq_limit req →
  let p := pair_from_api (default api_pair_default (gq_pair req)) in
  let whole := (gq_base_range_min req =? 0) && (gq_base_range_max req =? 0) in
  let range := (Included (gq_base_range_min req),
                Included (if whole then U64_MAX else gq_base_range_max req)) in
  match get_quotes_impl (A:=A) req s with
  | Ok resp => ∃ l, listing (contents (cs_quote_book s)) p range (gq_limit req) l ∧ resp = quote_to_api <$> l
  | Err e => e = Internal "get_quotes" ∧ is_err (qb_get_quotes p range (gq_limit req) (cs_quote_book s)) = true
  | Panic m => qb_get_quotes p range (gq_limit req) (cs_quote_book s) = Panic m
  end.
Proof.
  intros Hi Hlim p whole range. unfold get_quotes_impl. fold p whole range.
  destruct (qb_get_quotes p range (gq_limit req) (cs_quote_book s)) as [l|e|m] eqn:Hq; cbn; [|done..].
  exists l. split; [|done]. by apply get_quotes_ok.
Qed.

Lemma live_updates_loop_spec f fails msgs (sent : list (LiveUpdate A)) :
  let updates := omap (live_update f) msgs in
  (∃ n, (n < length updates)%nat ∧ fails (length sent + n)%nat = true ∧
        live_updates_loop f fails msgs sent = (Err "send", sent ++ take n updates)) ∨
  ((∀ n, (n < length updates)%nat → fails (length sent + n)%nat = false) ∧
   live_updates_loop f fails msgs sent = (Ok (sent ++ updates), sent ++ updates)).
Proof.
  revert sent. induction msgs as [|m msgs IH]; intros sent; cbn.
  { right. rewrite app_nil_r. split; [lia|done]. }
  destruct (live_update f m) as [u|]; cbn; [|apply IH].
  destruct (fails (length sent)) eqn:Hf.
  { left. exists 0%nat. rewrite Nat.add_0_r, app_nil_r. split; [lia|done]. }
  destruct (IH (sent ++ [u])) as [(n & Hn & Hfn & ->)|[Hok ->]]; rewrite length_app in *; cbn in *;
    rewrite <-?(assoc_L (++)) in *.
  - left. exists (S n). split; [lia|]. rewrite <-Nat.add_assoc in Hfn. split; [done|]. done.
  - right. split; [|done]. intros [|n] Hn; [by rewrite Nat.add_0_r|].
    specialize (Hok n ltac:(lia)). by rewrite <-Nat.add_assoc in Hok.
Qed.

(** A subscriber sees the bus.  As long as sending works the stream has
    exactly one update per message of the pair asked for, or of any pair when
    both token ids are zero, in the order of the bus; a send that fails ends
    it after the updates before it. *)
Lemma live_updates_spec req_pair fails msgs :
  let p := pair_from_api (default api_pair_default req_pair) in
  let f := if (base_token_id p =? 0) && (counter_token_id p =? 0) then None else Some p in
  let updates := omap (live_update (A:=A) f) msgs in
  (∃ n, (n < length updates)%nat ∧ fails n = true ∧
        live_updates_impl req_pair fails msgs = (Err "send", take n updates)) ∨
  ((∀ n, (n < length updates)%nat → fails n = false) ∧
   live_updates_impl req_pair fails msgs = (Ok updates, updates)).
Proof. exact (live_updates_loop_spec _ fails msgs []). Qed.
End Theorems.

(** * The theorems on examples *)

Module ClientServiceExamples.
Import Sample SampleCodec ApiConvertExamples InMemoryExamples.

Definition service_a : ClientService InMemoryQuoteBook := mk_service [] book_a.
(** A new quote, and one that is there already; the second is added first. *)
Definition request : list (list Z) := [sci_to_api (sci_partial 2 2 0); sci_to_api (sci_full 1 1)].
Definition submission := submit_quotes_impl (sci_validator {[ 1 := 5 ]}) (Some 6) [1; 0]%nat request service_a.

Lemma request_admissible ts scis :
  request_timestamp (Some 6) = Ok ts → collect_results sci_from_api request = Ok scis →
  admissible (cs_quote_book service_a) (attempted ts scis).
Proof.
  intros [= <-] Hscis.
  assert (collect_results sci_from_api request = Ok [sci_partial 2 2 0; sci_full 1 1]) as E by by vm_compute.
  rewrite E in Hscis. injection Hscis as <-.
  unfold admissible. cbn [cs_quote_book service_a]. rewrite contents_book_a. split; [by repeat (constructor; [solve_decide|])|].
  assert (∀ x, x ∈ attempted 6 [sci_partial 2 2 0; sci_full 1 1] ++ [quote_a] →
            q_id x = resize 32 0 [2] ∧ quote_key_image x = [2] ∨ q_id x = resize 32 0 [1] ∧ quote_key_image x = [1]) as Hcase.
  { intros x.
    assert (attempted 6 [sci_partial 2 2 0; sci_full 1 1] ++ [quote_a] =
            [quote_b; quote_on_terms (sci_full 1 1) 2 (10, 10) 20 6; quote_a]) as -> by by vm_compute.
    intros Hx. rewrite !elem_of_cons, elem_of_nil in Hx.
    destruct Hx as [->|[->|[->|[]]]]; vm_compute; auto. }
  intros x y Hx%Hcase Hy%Hcase Hxy. destruct Hx as [[Hx ->]|[Hx ->]], Hy as [[Hy ->]|[Hy ->]]; try done;
    rewrite Hx, Hy in Hxy; by vm_compute in Hxy.
Qed.

(** The partial quote is created; the other one is refused, and the answer
    names the quote that is there. *)
Lemma submit_quotes_spec_witness :
  ∃ results,
    Forall2 (result_for (sci_validator {[ 1 := 5 ]}) 6 book_a (cs_quote_book submission.2))
      [sci_partial 2 2 0; sci_full 1 1] results ∧
    cs_msg_bus submission.2 = [] ++ (SciQuoteAdded <$> omap result_quote results).
Proof.
  destruct (submission) as [[resp|e|p] s'] eqn:Hs; [|by vm_compute in Hs..].
  destruct (submit_quotes_spec (sci_validator {[ 1 := 5 ]}) (Some 6) [1; 0]%nat request service_a (Ok resp) s')
    as (ts & scis & results & Hts & Hscis & Hres & _ & Hbus & _).
  - apply (im_reachable_healthy _ book_a_reachable).
  - by apply Permutation_swap.
  - apply request_admissible.
  - exact Hs.
  - injection Hts as <-. exists results. split; [|exact Hbus].
    apply collect_results_Ok in Hscis. vm_compute in Hscis. injection Hscis as <-. exact Hres.
Defined.

Lemma get_quotes_spec_witness :
  match get_quotes_impl (A:=list Z) {| gq_pair := Some (pair_to_api (q_pair quote_a)); gq_base_range_min := 0;
                                       gq_base_range_max := 0; gq_limit := 5 |} service_a with
  | Ok resp => ∃ l, listing (contents book_a) (q_pair quote_a) (Included 0, Included U64_MAX) 5 l ∧ resp = quote_to_api <$> l
  | _ => False
  end.
Proof.
  exact (get_quotes_spec {| gq_pair := Some (pair_to_api (q_pair quote_a)); gq_base_range_min := 0;
                            gq_base_range_max := 0; gq_limit := 5 |} service_a
           (proj1 (im_reachable_healthy _ book_a_reachable)) ltac:(done)).
Defined.
End ClientServiceExamples.
