(* ===== verification/ServiceRules.v ===== *)
(** A client of the server: the calls of the generated [DeqsClientApiClient]
    as the command line client and the tests of the service make them, with
    SCIs from mc-test-utils, and what a request does to a server whose book is
    up. *)

From S2P Require Import Prelude McTypes QuoteApi QuotePricing QuoteBook InMemory SqlTypes Sqlite BookEquiv TestUtils Conformance ApiConvert ClientService.

(** * Calls *)

Section Calls.
Context `{McLib} {S Acc IC B A OB : Type} `{!TestLib S Acc IC B, !SciApi A, !QuoteBook OB}.
(** The random generator, the ledger and the clock, and the server. *)
Local Abbreviation served := (S * ClientService OB)%type.

(** A function of mc-test-utils; it panics on errors. *)
Definition make {X} (m : stateful S string X) : stateful served string X := λ w,
  let '(r, s) := m w.1 in (match r with Ok x => Ok x | Err e => Panic e | Panic p => Panic p end, (s, w.2)).

(** [(0..n).map(|_| ..).collect()] *)
Fixpoint make_many (n : nat) (create : stateful S string SignedContingentInput) :
    stateful served string (list SignedContingentInput) :=
  match n with
  | O => st_ret []
  | Datatypes.S n => sci <-- make create;; rest <-- make_many n create;; st_ret (sci :: rest)
  end.

(** The calls; a handler that panics fails the call. *)
Definition call_get_quotes (req : GetQuotesRequest) : stateful served string (list (ApiQuote A)) := λ w,
  (match get_quotes_impl req w.2 with Ok quotes => Ok quotes | Err _ => Err "RpcFailure" | Panic p => Err p end, w).
Definition call_submit_quotes (validator : SignedContingentInput → outcome Error unit) (schedule : nat → list nat)
    (scis : list SignedContingentInput) : stateful served string (SubmitQuotesResponse A) := λ w,
  let '(now, s) := system_time w.1 in
  let req := sci_to_api <$> scis in
  let '(r, service) := submit_quotes_impl validator now (schedule (length req)) req w.2 in
  (match r with Ok resp => Ok resp | Err _ => Err "RpcFailure" | Panic p => Err p end, (s, service)).
End Calls.

(** [Result::expect] *)
Definition expect_ok {W X} (msg : string) (m : stateful W string X) : stateful W string X := λ w,
  match m w with (Err _, w') => (Panic msg, w') | r => r end.

Lemma returns_expect {W X} msg (m : stateful W string X) w Q : returns m w Q → returns (expect_ok msg m) w Q.
Proof. intros (a & w' & Hm & HQ). exists a, w'. unfold expect_ok. by rewrite Hm. Qed.

(** * A request on a book that is up *)

Section Answers.
Context `{McLib} {OB : Type} `{!QuoteBook OB, !QuoteBookLaws OB, !TotalBook OB}.
Implicit Types (b : OB) (qs : list Quote) (rs : list (outcome Error Quote)).

(** The SCI passes the validator and gives this quote, which can be stored. *)
Definition gives (v : SignedContingentInput → outcome Error unit) ts sci q : Prop :=
  v sci = Ok tt ∧ quote_new None sci (Some ts) = Ok q ∧ storable (B:=OB) q ∧ priced q.

(** What becomes of an SCI sent to a server with book [b]: the validator
    refuses it, its quote is there already, or it is new. *)
Inductive becomes (v : SignedContingentInput → outcome Error unit) (ts : Z) b (sci : SignedContingentInput) :
    outcome Error Quote → Prop :=
| becomes_refused e : v sci = Err e → becomes v ts b sci (Err e)
| becomes_existing q e : gives v ts sci q → e ∈ contents b → slot e = slot q → q_id e = q_id q →
    becomes v ts b sci (Err (QuoteAlreadyExists e))
| becomes_new q : gives v ts sci q → becomes v ts b sci (Ok q).

(** Quotes unlike each other and unlike those of the book. *)
Definition all_new qs b : Prop :=
  NoDup (quote_key_image <$> qs) ∧ NoDup (q_id <$> qs) ∧
  ∀ x, x ∈ contents b → quote_key_image x ∉ quote_key_image <$> qs ∧ q_id x ∉ q_id <$> qs.

Lemma all_new_unlike qs b made q rest x :
  all_new qs b → made ++ q :: rest ⊆+ qs → x ∈ made ++ contents b →
  quote_key_image x ≠ quote_key_image q ∧ q_id x ≠ q_id q.
Proof.
  intros (Hk & Hi & Hold) Hsub [Hx|Hx]%elem_of_app.
  - rewrite <-Permutation_middle in Hsub.
    assert (NoDup (quote_key_image <$> q :: (made ++ rest))) as Hn1 by (eapply NoDup_submseteq_inv; [by apply fmap_submseteq|done]).
    assert (NoDup (q_id <$> q :: (made ++ rest))) as Hn2 by (eapply NoDup_submseteq_inv; [by apply fmap_submseteq|done]).
    cbn in Hn1, Hn2. apply NoDup_cons in Hn1 as [Hn1 _], Hn2 as [Hn2 _].
    split; intros E; [apply Hn1|apply Hn2]; rewrite <-E; apply list_elem_of_fmap_2, elem_of_app; by left.
  - assert (q ∈ qs) as Hq by (eapply elem_of_submseteq; [|exact Hsub]; apply elem_of_app; right; left).
    destruct (Hold x Hx) as [H1 H2]. split; intros E; [apply H1|apply H2]; rewrite E; by apply list_elem_of_fmap_2.
Qed.

(** One closure, after the quotes [made] were added to [b0]. *)
Lemma submit_one_becomes v ts sci r qs b0 b made rest :
  becomes v ts b0 sci r → all_new qs b0 → made ++ option_list (result_quote r) ++ rest ⊆+ qs →
  book_up b0 → book_up b → contents b ≡ₚ made ++ contents b0 →
  ∃ b', submit_one v ts sci b = (r, b') ∧ book_up b' ∧
        contents b' ≡ₚ (made ++ option_list (result_quote r)) ++ contents b0.
Proof.
  intros Hr Hnew Hsub Hup0 Hup Hc. destruct Hr as [e He|q e (Hv & Hq & Hst & Hp) He Hslot Hid|q (Hv & Hq & Hst & Hp)];
    unfold submit_one, qb_add_sci, st_bind, st_lift, st_ret.
  - rewrite He. exists b. cbn. by rewrite app_nil_r.
  - rewrite Hv, Hq. cbn in Hsub |- *. rewrite app_nil_r.
    assert (offerable (contents b) q) as Hoff.
    { split; [done|]. intros x. rewrite Hc. intros [Hx|Hx]%elem_of_app Hxq.
      - destruct Hnew as (_ & _ & Hold). destruct (Hold e He) as [_ Hn]. destruct Hn. rewrite Hid, <-Hxq.
        apply list_elem_of_fmap_2. eapply elem_of_submseteq; [|exact Hsub]. apply elem_of_app. by left.
      - rewrite <-Hslot. f_equal. eapply NoDup_fmap_inj_on; [exact (up_ids _ Hup0)|done|done|congruence]. }
    destruct (qb_add_quote q b) as [r b'] eqn:Hadd. destruct (up_add _ _ _ _ Hup Hst Hoff Hadd) as [Hup' Hr].
    assert (slot_map (contents b) !! slot q = Some e) as E.
    { apply slot_map_lookup; [by apply contents_slots, up_inv|]. split; [|done]. rewrite Hc. apply elem_of_app. by right. }
    rewrite E in Hr. destruct Hr as [-> Hsame]. exists b'. split; [done|]. split; [done|]. by rewrite Hsame.
  - rewrite Hv, Hq. cbn in Hsub |- *.
    assert (∀ x, x ∈ contents b → quote_key_image x ≠ quote_key_image q ∧ q_id x ≠ q_id q) as Hun.
    { intros x. rewrite Hc. by eapply all_new_unlike. }
    assert (offerable (contents b) q) as Hoff by (split; [done|]; intros x Hx Hid; by destruct (Hun x Hx)).
    destruct (qb_add_quote q b) as [r b'] eqn:Hadd. destruct (up_add _ _ _ _ Hup Hst Hoff Hadd) as [Hup' Hr].
    rewrite slot_map_None in Hr; [|by apply contents_slots, up_inv|].
    + subst r. exists b'. split; [done|]. split; [done|].
      rewrite (add_ok _ _ _ (up_inv _ Hup) (offerable_addable _ _ Hoff) Hadd), Hc.
      by rewrite <-(assoc_L (++)), Permutation_middle.
    + intros x Hx. destruct (Hun x Hx) as [Hk _]. unfold slot. congruence.
Qed.

(** The closures with the given indices, in any order. *)
Lemma submit_all_becomes v ts scis rs qs sched m b0 b made :
  Forall2 (becomes v ts b0) scis rs → all_new qs b0 → NoDup sched → (∀ i, i ∈ sched → (i < length scis)%nat) →
  book_up b0 → book_up b → contents b ≡ₚ made ++ contents b0 →
  made ++ omap (λ i, rs !! i ≫= result_quote) sched ⊆+ qs →
  ∃ m' b', submit_all v ts scis sched m b = (m', b') ∧ book_up b' ∧
    contents b' ≡ₚ (made ++ omap (λ i, rs !! i ≫= result_quote) sched) ++ contents b0 ∧
    ∀ i, m' !! i = if decide (i ∈ sched) then rs !! i else m !! i.
Proof.
  intros Hg Hnew Hnd Hlt Hup0. revert m b made Hnd Hlt.
  induction sched as [|i sched IH]; intros m b made Hnd Hlt Hup Hc Hsub; cbn [submit_all].
  { exists m, b. split; [done|]. split; [done|]. cbn. rewrite app_nil_r. split; [done|].
    intros i. by rewrite decide_False by apply not_elem_of_nil. }
  apply NoDup_cons in Hnd as [Hi Hnd].
  destruct (lookup_lt_is_Some_2 scis i) as [sci Hsci]; [apply Hlt; left|]. rewrite Hsci.
  destruct (Forall2_lookup_l _ _ _ _ _ Hg Hsci) as (r & Hr & Hbr).
  assert (omap (λ i, rs !! i ≫= result_quote) (i :: sched) =
          option_list (result_quote r) ++ omap (λ i, rs !! i ≫= result_quote) sched) as Ho.
  { cbn. rewrite Hr. cbn. by destruct (result_quote r). }
  rewrite Ho in *.
  destruct (submit_one_becomes v ts sci r qs b0 b made _ Hbr Hnew Hsub Hup0 Hup Hc) as (b1 & Hone & Hup1 & Hc1).
  rewrite Hone. destruct (IH (<[i := r]> m) b1 (made ++ option_list (result_quote r))) as (m' & b' & Hrun & Hup' & Hc' & Hm');
    [done| |done|done|by rewrite <-(assoc_L (++))|].
  - intros j Hj. apply Hlt. by right.
  - exists m', b'. split; [done|]. split; [done|]. split; [by rewrite Hc', <-!(assoc_L (++))|].
    intros j. rewrite Hm'. destruct (decide (i = j)) as [<-|Hne].
    + rewrite decide_False by done. rewrite decide_True by left. by rewrite lookup_insert_eq.
    + rewrite lookup_insert_ne by done.
      destruct (decide (j ∈ sched)); [rewrite decide_True by by right|rewrite decide_False by set_solver]; done.
Qed.
End Answers.

Lemma omap_lookup_seq {X} (l : list X) : omap (λ i, l !! i) (seq 0 (length l)) = l.
Proof.
  induction l as [|x l IH] using rev_ind; [done|]. rewrite length_app, Nat.add_1_r, seq_S, omap_app. cbn.
  rewrite list_lookup_middle by done. f_equal. etrans; [|exact IH]. clear IH.
  assert (∀ n, (n ≤ length l)%nat → omap (λ i, (l ++ [x]) !! i) (seq 0 n) = omap (λ i, l !! i) (seq 0 n)) as Hgen; [|by apply Hgen].
  induction n as [|n IH]; intros Hn; [done|]. rewrite seq_S, !omap_app, IH by lia. cbn. by rewrite lookup_app_l by lia.
Qed.

Lemma omap_omap {X Y V} (f : X → option Y) (g : Y → option V) (l : list X) : omap (λ x, f x ≫= g) l = omap g (omap f l).
Proof. induction l as [|x l IH]; [done|]. cbn. destruct (f x) as [y|]; cbn; [by destruct (g y); rewrite IH|done]. Qed.

Lemma sci_api_list {A} `{!SciApi A, !SciApiLaws A} scis : collect_results sci_from_api (sci_to_api (A:=A) <$> scis) = Ok scis.
Proof. induction scis as [|sci scis IH]; cbn; [done|]. rewrite sci_api_roundtrip. cbn. by rewrite IH. Qed.

Lemma collect_response_total {A} `{!SciApi A} rs (resp : SubmitQuotesResponse A) bus :
  Forall (λ r, is_panic r = false) rs → ∃ resp' bus', collect_response rs resp bus = Ok (resp', bus').
Proof.
  intros Hrs. revert resp bus. induction Hrs as [|r rs Hr _ IH]; intros resp bus; cbn; [by eexists _, _|].
  destruct r as [q|e|p]; [apply IH| |done]. destruct e; apply IH.
Qed.

Section Response.
Context `{McLib} {A OB : Type} `{!SciApi A, !SciApiLaws A, !QuoteBook OB, !QuoteBookLaws OB, !TotalBook OB}.

(** The response the results of a request give. *)
Definition response_of (rs : list (outcome Error Quote)) : SubmitQuotesResponse A :=
  mk_submit_response (result_code <$> rs) (result_message <$> rs) (result_entry <$> rs).

(** A request is answered, SCI by SCI, in whatever order they are handled. *)
Lemma submit_quotes_answers v schedule scis rs (s : ClientService OB) ts :
  Forall2 (becomes v ts (cs_quote_book s)) scis rs → all_new (omap result_quote rs) (cs_quote_book s) →
  is_u64 ts → (length scis < 30)%nat → schedule ≡ₚ seq 0 (length scis) → book_up (cs_quote_book s) →
  ∃ b', submit_quotes_impl v (Some ts) schedule (sci_to_api (A:=A) <$> scis) s =
      (Ok (response_of rs), mk_service (cs_msg_bus s ++ (SciQuoteAdded <$> omap result_quote rs)) b') ∧
    book_up b' ∧ contents b' ≡ₚ omap result_quote rs ++ contents (cs_quote_book s).
Proof.
  intros Hg Hnew Hts Hn Hsched Hup. pose proof (Forall2_length _ _ _ Hg) as Hlen.
  assert (omap (λ i, rs !! i ≫= result_quote) schedule ≡ₚ omap result_quote rs) as Hqs.
  { rewrite Hsched, Hlen, (omap_omap (λ i, rs !! i)). by rewrite omap_lookup_seq. }
  destruct (submit_all_becomes v ts scis rs (omap result_quote rs) schedule ∅ (cs_quote_book s) (cs_quote_book s) [])
    as (m' & b' & Hrun & Hup' & Hc & Hm'); [done|done|by rewrite Hsched; apply NoDup_seq| |done|done|done|by cbn; rewrite Hqs|].
  { intros i. rewrite Hsched, elem_of_seq. lia. }
  exists b'. split; [|split; [done|by rewrite Hc; cbn; rewrite Hqs]].
  unfold submit_quotes_impl, MAX_SIMULTANEOUS_QUOTES. rewrite length_fmap.
  rewrite (proj2 (Z.leb_gt _ _)) by lia. cbn [request_timestamp]. rewrite bool_decide_true by done.
  rewrite sci_api_list, Hrun.
  assert (omap (λ i, m' !! i) (seq 0 (length scis)) = rs) as ->.
  { rewrite Hlen. transitivity (omap (λ i, rs !! i) (seq 0 (length rs))); [|apply omap_lookup_seq].
    apply list_omap_ext. apply Forall2_same_length_lookup. split; [done|]. intros k i i' Hi1 Hi2. simplify_eq.
    rewrite Hm', decide_True; [done|]. rewrite Hsched. apply list_elem_of_lookup. exists k. by rewrite Hlen. }
  destruct (collect_response_total rs (mk_submit_response (A:=A) [] [] []) (cs_msg_bus s)) as (resp & bus & Hresp).
  { apply Forall_forall. intros r (i & Hr)%list_elem_of_lookup.
    destruct (Forall2_lookup_r _ _ _ _ _ Hg Hr) as (sci & _ & Hb). by destruct Hb. }
  rewrite Hresp. apply collect_response_spec in Hresp as (Hcodes & Hmsgs & Hquotes & ->). cbn in *.
  destruct resp as [c m q]. cbn in *. by subst.
Qed.

(** A request for too many is refused. *)
Lemma submit_too_many v now schedule (req : list A) (s : ClientService OB) :
  (30 ≤ length req)%nat → submit_quotes_impl v now schedule req s = (Err (InvalidArgument "Too many quotes"), s).
Proof.
  intros Hn. unfold submit_quotes_impl. by rewrite (proj2 (Z.leb_le _ _)) by (unfold MAX_SIMULTANEOUS_QUOTES; lia).
Qed.

Lemma response_of_created (qs : list Quote) :
  response_of (Ok <$> qs) = mk_submit_response (replicate (length qs) CREATED) (replicate (length qs) "") (quote_to_api <$> qs).
Proof.
  unfold response_of. assert (∀ X (f : outcome Error Quote → X) x, (∀ q, f (Ok q) = x) → f <$> (Ok <$> qs) = replicate (length qs) x) as Hf.
  { intros X f x Hx. induction qs as [|q qs IH]; cbn; [done|]. by rewrite Hx, IH. }
  rewrite (Hf _ result_code CREATED), (Hf _ result_message "") by done. f_equal. by rewrite <-list_fmap_compose.
Qed.
End Response.

(** * The SCIs of a client *)

Section Creating.
Context `{McLib} `{!McLibLaws _} {S Acc IC B OB : Type} `{!TestLib S Acc IC B, !TestLibLaws S Acc IC B}.
Implicit Types (w : S * ClientService OB) (p : Pair).

(** An SCI that offers up to [r.2] for [counter]: what it becomes. *)
Record sells p (r : Z * Z) (counter : Z) (sci : SignedContingentInput) : Prop := {
  sells_on : ∃ o, sci_on o sci;
  sells_amount : pseudo_output_amount sci = {| amt_value := r.2; amt_token_id := base_token_id p |};
  sells_quote ts : quote_new None sci (Some ts) = Ok (quote_on_terms sci (counter_token_id p) r counter ts);
}.

Lemma quote_new_at sci ir c r m ts :
  sci_validate sci = Ok tt → input_rules (tx_in sci) = Some ir → sci_offer sci ir c r m →
  quote_new None sci (Some ts) = Ok (quote_on_terms sci c r m ts).
Proof.
  intros Hv Hir Ho%quote_terms_offer. unfold quote_new, default_timestamp. cbn. rewrite Hv, Hir. cbn. by rewrite Ho.
Qed.

(** New SCIs, of which nothing was issued at [tr] and everything is at [tr']. *)
Record new_scis (tr tr' : Trace) (scis : list SignedContingentInput) : Prop := {
  ns_keys : NoDup (sci_key_image <$> scis);
  ns_ids : NoDup (quote_id_from_sci <$> scis);
  ns_old sci : sci ∈ scis → sci_key_image sci ∉ key_images tr ∧ quote_id_from_sci sci ∉ digests tr;
  ns_issued sci : sci ∈ scis → sci_key_image sci ∈ key_images tr' ∧ quote_id_from_sci sci ∈ digests tr';
  ns_grows : key_images tr ⊆ key_images tr' ∧ digests tr ⊆ digests tr';
  ns_clock : last_time tr' = last_time tr ∧ clock tr' = clock tr;
}.

Lemma new_scis_nil tr : new_scis tr tr [].
Proof. split; [constructor|constructor|by intros sci ?%elem_of_nil|by intros sci ?%elem_of_nil|done|done]. Qed.

Lemma new_scis_cons tr o sci s' tr2 scis :
  new_sci tr o sci s' → new_scis (trace s') tr2 scis → new_scis tr tr2 (sci :: scis).
Proof.
  intros (_ & Hk & Hd & Ht) [Hnk Hni Hold Hiss [Hgk Hgd] [Hl Hj]]. rewrite Ht in *. cbn in *. split; cbn.
  - apply NoDup_cons. split; [|done]. intros (x & E & Hx)%list_elem_of_fmap.
    destruct (Hold x Hx) as [Hnew _]. apply Hnew. rewrite E. left.
  - apply NoDup_cons. split; [|done]. intros (x & E & Hx)%list_elem_of_fmap.
    destruct (Hold x Hx) as [_ Hnew]. apply Hnew. rewrite E. left.
  - intros x [->|Hx]%elem_of_cons; [done|]. destruct (Hold x Hx). set_solver.
  - intros x [->|Hx]%elem_of_cons; [split; set_solver|auto].
  - split; set_solver.
  - done.
Qed.

Lemma create_full_returns p base counter with_ledger s :
  is_u64 base → is_u64 counter → is_u64 (base_token_id p) → is_u64 (counter_token_id p) →
  returns (tu_create_sci (base_token_id p) (counter_token_id p) base counter with_ledger) s (λ sci s',
    sells p (base, base) counter sci ∧ ∃ o, new_sci (trace s) o sci s').
Proof.
  intros Hb Hc Ht1 Ht2. eapply returns_mono; [|by apply create_sci_returns]. intros sci s' Hnew. split; [|by eexists].
  destruct Hnew as [Hon _]. unfold full_offer in Hon.
  destruct (full_terms _ _ _ _ _ _ _ Hon) as (ir & Hir & _ & Ho). cbn in Ho.
  split; [by eexists|by rewrite (on_base _ _ Hon)|]. intros ts. by apply (quote_new_at sci ir); [apply Hon|..].
Qed.

Lemma create_partial_returns p base counter with_ledger s :
  is_u64 base → is_u64 counter → is_u64 (base_token_id p) → is_u64 (counter_token_id p) →
  returns (tu_create_partial_sci (base_token_id p) (counter_token_id p) base 0 0 counter with_ledger) s (λ sci s',
    sells p (0, base) counter sci ∧ ∃ o, new_sci (trace s) o sci s').
Proof.
  intros Hb Hc Ht1 Ht2. eapply returns_mono; [|by apply create_partial_sci_returns]. intros sci s' Hnew. split; [|by eexists].
  destruct Hnew as [Hon _]. unfold partial_offer in Hon. cbn in Hon.
  destruct (partial_terms _ _ _ _ _ _ _ Hon) as (ir & Hir & _ & Ho). cbn in Ho.
  split; [by eexists|by rewrite (on_base _ _ Hon)|]. intros ts. by apply (quote_new_at sci ir); [apply Hon|..].
Qed.

Lemma make_returns {X} (m : stateful S string X) w (Q : X → S * ClientService OB → Prop) :
  returns m w.1 (λ x s', Q x (s', w.2)) → returns (make m) w Q.
Proof. intros (x & s' & Hm & HQ). exists x, (s', w.2). unfold make. by rewrite Hm. Qed.

Lemma make_many_returns n p r counter create w :
  (∀ s, returns create s (λ sci s', sells p r counter sci ∧ ∃ o, new_sci (trace s) o sci s')) →
  returns (make_many n create) w (λ scis w',
    length scis = n ∧ Forall (sells p r counter) scis ∧ w'.2 = w.2 ∧ new_scis (trace w.1) (trace w'.1) scis).
Proof.
  intros Hcr. revert w. induction n as [|n IH]; intros w; cbn [make_many].
  { apply returns_ret. do 3 (split; [done|]). apply new_scis_nil. }
  apply returns_bind, make_returns. eapply returns_mono; [|apply Hcr]. intros sci s1 (Hsell & o & Hnew).
  apply returns_bind. eapply returns_mono; [|apply IH]. intros scis w2 (Hlen & Hall & Hsv & Hns).
  apply returns_ret. split; [by cbn; rewrite Hlen|]. split; [by constructor|]. split; [done|]. by eapply new_scis_cons.
Qed.
End Creating.

(** * The quotes of the SCIs *)

Section Quotes.
Context `{McLib} `{!McLibLaws _, !TombstoneLaws _} {S Acc IC B OB : Type} `{!TestLib S Acc IC B, !TestLibLaws S Acc IC B}.
Context `{!QuoteBook OB, !QuoteBookLaws OB, !TotalBook OB, !StoresTests OB}.
Variable validator : SignedContingentInput → outcome Error unit.

(** On the terms asked for. *)
Definition on_terms (p : Pair) (r : Z * Z) (counter : Z) (q : Quote) : Prop :=
  q_pair q = p ∧ q_base_range q = r ∧ q_max_counter_tokens q = counter ∧ length (q_id q) = 32%nat.

(** What can be traded: at least one token for a number of others. *)
Definition tradable (p : Pair) (r : Z * Z) (counter : Z) : Prop :=
  is_u64 r.2 ∧ is_u64 counter ∧ is_u64 (counter_token_id p) ∧ 0 < r.2.

Lemma sold_quote p r counter sci ts :
  sells p r counter sci → tradable p r counter → is_u64 ts → validator sci = Ok tt →
  ∃ q, gives (OB:=OB) validator ts sci q ∧ q_sci q = sci ∧ q_id q = quote_id_from_sci sci ∧ q_timestamp q = ts ∧
    on_terms p r counter q.
Proof.
  intros [[o Hon] Ham Hq] (Hb & Hc & Htok & Hpos) Hts Hv.
  exists (quote_on_terms sci (counter_token_id p) r counter ts). split; [|do 3 (split; [done|])].
  - split; [done|]. split; [done|]. split; [by eapply stores_quote|]. split; [done|]. split; [done|]. by left.
  - split; cbn; [rewrite Ham; by destruct p|]. split; [done|]. split; [done|]. apply digest32_length.
Qed.

Lemma sold_quotes p r counter scis ts :
  Forall (sells p r counter) scis → tradable p r counter → is_u64 ts →
  (∀ sci, pseudo_output_amount sci = {| amt_value := r.2; amt_token_id := base_token_id p |} → validator sci = Ok tt) →
  ∃ qs, Forall2 (gives (OB:=OB) validator ts) scis qs ∧
    quote_key_image <$> qs = sci_key_image <$> scis ∧ q_id <$> qs = quote_id_from_sci <$> scis ∧
    Forall (on_terms p r counter) qs.
Proof.
  intros Hall Htr Hts Hv. induction Hall as [|sci scis Hs _ (qs & Hg & Hk & Hi & Hf)].
  { exists []. repeat split; constructor. }
  destruct (sold_quote p r counter sci ts Hs Htr Hts) as (q & Hq & Hsci & Hid & _ & Ht); [apply Hv, Hs|].
  exists (q :: qs). split; [by constructor|]. cbn. unfold quote_key_image at 1. rewrite Hsci, Hid, Hk, Hi.
  split; [done|]. split; [done|]. by constructor.
Qed.

(** The quotes of new SCIs are new to the book. *)
Lemma sold_all_new (b : OB) tr tr' scis qs :
  known tr (contents b) → new_scis tr tr' scis →
  quote_key_image <$> qs = sci_key_image <$> scis → q_id <$> qs = quote_id_from_sci <$> scis → all_new qs b.
Proof.
  intros Hk [Hnk Hni Hold _ _ _] Ek Ei. split; [by rewrite Ek|]. split; [by rewrite Ei|]. rewrite Ek, Ei. intros x Hx.
  destruct (Hk x Hx) as (? & ? & _).
  split; intros (sci & E & Hs)%list_elem_of_fmap; destruct (Hold sci Hs); by rewrite E in *.
Qed.

Lemma gives_becomes (b : OB) ts scis qs :
  Forall2 (gives (OB:=OB) validator ts) scis qs → Forall2 (becomes validator ts b) scis (Ok <$> qs).
Proof. intros Hg. apply Forall2_fmap_r. eapply Forall2_impl; [exact Hg|]. intros sci q Hq. by apply becomes_new. Qed.

Lemma created_of (qs : list Quote) : omap result_quote (Ok <$> qs) = qs.
Proof. induction qs as [|q qs IH]; [done|]. cbn. by rewrite IH. Qed.
End Quotes.
