(* ===== verification/ServiceTests.v ===== *)
(** The unit tests of the client service (server/src/client_service.rs, [mod
    tests]) as programs: what they assert holds for every order in which the
    server handles the quotes of a request, and for every SCI the builders can
    make.  The book under test is any book that works; the thread that reads
    the live updates has subscribed when [subscribe] returns. *)

From S2P Require Import Prelude McTypes QuoteApi QuotePricing QuoteBook InMemory SqlTypes Sqlite BookEquiv TestUtils Conformance QuoteTests ApiConvert ClientService ServiceRules.

#[export] Instance ApiPair_eq_dec : EqDecision ApiPair.
Proof. solve_decision. Defined.
#[export] Instance ApiQuoteId_eq_dec : EqDecision ApiQuoteId.
Proof. solve_decision. Defined.
#[export] Instance ApiQuote_eq_dec `{EqDecision A} : EqDecision (ApiQuote A).
Proof. solve_decision. Defined.

(** The validator of [create_test_client_and_server]. *)
Definition test_sci_validator (sci : SignedContingentInput) : outcome Error unit :=
  let base_value := amt_value (pseudo_output_amount sci) in
  if base_value <? 3 then Err (UnsupportedSci "Quote is too small for deqs") else Ok tt.

(** [GetQuotesRequest::default()] with fields set. *)
Definition quotes_request (p : Pair) (base_range_min base_range_max limit : Z) : GetQuotesRequest := {|
  gq_pair := Some (pair_to_api p); gq_base_range_min := base_range_min; gq_base_range_max := base_range_max; gq_limit := limit;
|}.

Section Tests.
Context `{McLib} {S Acc IC B A OB : Type} `{!TestLib S Acc IC B, !SciApi A, !EqDecision A, !QuoteBook OB}.
(** The order in which the server handles the quotes of a request. *)
Variable schedule : nat → list nat.
Local Abbreviation test := (stateful (S * ClientService OB) string).

Definition assert_same {X} `{EqDecision X} (left right : X) : test unit :=
  st_lift (rust_assert (bool_decide (left = right)) "assertion failed: `(left == right)`").

Definition client_submit (scis : list SignedContingentInput) : test (SubmitQuotesResponse A) :=
  expect_ok "submit quote failed" (call_submit_quotes test_sci_validator schedule scis).
Definition client_get (req : GetQuotesRequest) : test (list (ApiQuote A)) :=
  expect_ok "get quotes failed" (call_get_quotes req).
(** [Result::expect_err] *)
Definition expect_err {X} (msg : string) (m : test X) : test unit := λ w,
  match m w with (Ok _, w') => (Panic msg, w') | (Err _, w') => (Ok tt, w') | (Panic p, w') => (Panic p, w') end.

Definition st_create_sci (p : Pair) (base counter : Z) : stateful S string SignedContingentInput :=
  tu_create_sci (base_token_id p) (counter_token_id p) base counter false.

(** [Quote::try_from(o).unwrap()] *)
Definition received_quote (o : ApiQuote A) : test Quote := unwrap (st_lift (quote_from_api o)).
Definition received_quotes (os : list (ApiQuote A)) : test (list Quote) :=
  unwrap (st_lift (collect_results quote_from_api os)).
(** [SignedContingentInput::try_from(quote.get_sci()).unwrap()] of each *)
Definition received_scis (os : list (ApiQuote A)) : test (list SignedContingentInput) :=
  unwrap (st_lift (collect_results (λ o, sci_from_api (default api_sci_default (aq_sci o))) os)).
(** [quote_book.get_quotes(&pair, .., 0).unwrap()] *)
Definition quotes_in_book (p : Pair) : test (list Quote) :=
  unwrap (λ w, (map_err error_display (qb_get_quotes p everything 0 (cs_quote_book w.2)), w)).
(** [resp.quotes[i]] *)
Definition nth_quote (i : nat) (resp : SubmitQuotesResponse A) : test (ApiQuote A) :=
  st_lift (match sr_quotes resp !! i with Some o => Ok o | None => Panic "index out of bounds" end).

(** A request of [n] new SCIs that must all be created. *)
Definition submit_new (n : nat) : test (SubmitQuotesResponse A) :=
  scis <-- make_many n (st_create_sci test_pair 10 20);;
  resp <-- client_submit scis;;
  assert_same (sr_status_codes resp) (replicate (length (scis : list SignedContingentInput)) CREATED);;;
  assert_same (sr_error_messages resp) (replicate (length (scis : list SignedContingentInput)) "");;;
  st_ret resp.

(** ... and are then in the book. *)
Definition submit_and_compare (n : nat) : test unit :=
  resp <-- submit_new n;;
  quotes <-- received_quotes (sr_quotes resp);;
  listed <-- quotes_in_book test_pair;;
  let quotes2 := reverse (listed : list Quote) in
  assert_same (quote_sort quotes2) (quote_sort quotes).

Definition submit_quotes_add_quotes : test unit := submit_and_compare 10.

Definition submit_quotes_rejects_quotes_above_max_simultaneous_quotes : test unit :=
  submit_and_compare (Z.to_nat MAX_SIMULTANEOUS_QUOTES - 1);;;
  too_many_scis_at_once <-- make_many (Z.to_nat MAX_SIMULTANEOUS_QUOTES) (st_create_sci test_pair 10 20);;
  expect_err "Submitting too many requests should fail"
    (call_submit_quotes (A:=A) test_sci_validator schedule too_many_scis_at_once).

Definition submit_quotes_refuses_dust : test unit :=
  scis <-- make_many 10 (st_create_sci test_pair 1 20);;
  resp <-- client_submit scis;;
  assert_same (sr_status_codes resp) (replicate (length (scis : list SignedContingentInput)) UNSUPPORTED_SCI);;;
  assert_same (sr_error_messages resp)
    (replicate (length (scis : list SignedContingentInput)) "Unsupported SCI: Quote is too small for deqs");;;
  submit_new 10;;;
  st_ret tt.

Definition submit_quotes_refuses_identical_duplicate_request : test unit :=
  sci <-- make (st_create_sci test_pair 10 20);;
  resp <-- client_submit [sci];;
  assert_same (sr_status_codes resp) [CREATED];;;
  o <-- nth_quote 0 resp;; quote <-- received_quote o;;
  resp <-- client_submit [sci];;
  assert_same (sr_status_codes resp) [QUOTE_ALREADY_EXISTS];;;
  o <-- nth_quote 0 resp;; quote2 <-- received_quote o;;
  assert_same quote quote2.

Definition submit_quotes_doesnt_add_duplicate_quotes : test unit :=
  sci1 <-- make (st_create_sci test_pair 10 20);;
  sci2 <-- make (st_create_sci test_pair 10 20);;
  sci3 <-- make (st_create_sci test_pair 10 20);;
  resp <-- client_submit [sci1; sci2];;
  assert_same (sr_status_codes resp) [CREATED; CREATED];;;
  o <-- nth_quote 0 resp;; quote1 <-- received_quote o;;
  o <-- nth_quote 1 resp;; quote2 <-- received_quote o;;
  resp <-- client_submit [sci1; sci3; sci2];;
  assert_same (sr_status_codes resp) [QUOTE_ALREADY_EXISTS; CREATED; QUOTE_ALREADY_EXISTS];;;
  o <-- nth_quote 0 resp;; again1 <-- received_quote o;; assert_same quote1 again1;;;
  o <-- nth_quote 2 resp;; again2 <-- received_quote o;; assert_same quote2 again2.

Definition other_pair : Pair := {| base_token_id := 3; counter_token_id := 4 |}.
(** The SCIs a query gets are these. *)
Definition expect_scis (req : GetQuotesRequest) (expected : list SignedContingentInput) : test unit :=
  resp <-- client_get req;;
  scis <-- received_scis resp;;
  assert_same scis expected.

Definition get_quotes_filter_correctly : test unit :=
  sci1 <-- make (st_create_sci test_pair 10 20);;
  sci2 <-- make (st_create_sci test_pair 10 50);;
  sci3 <-- make (st_create_sci other_pair 10 20);;
  sci4 <-- make (st_create_sci other_pair 12 50);;
  client_submit [sci1; sci2; sci3; sci4];;;
  expect_scis (quotes_request other_pair 0 0 0) [sci3; sci4];;;
  expect_scis (quotes_request other_pair 0 0 1) [sci3];;;
  expect_scis (quotes_request other_pair 0 10 U64_MAX) [sci3];;;
  expect_scis (quotes_request other_pair 11 12 U64_MAX) [sci4];;;
  expect_scis (quotes_request other_pair 10 12 U64_MAX) [sci3; sci4].

(** A subscription: where on the bus it began, and the pair it filters for. *)
Definition subscribe (p : option ApiPair) : test (nat * option ApiPair) := λ w, (Ok (length (cs_msg_bus w.2), p), w).
Definition updates_of (sub : nat * option ApiPair) (w : S * ClientService OB) : list (LiveUpdate A) :=
  (live_updates_impl sub.2 (λ _, false) (drop sub.1 (cs_msg_bus w.2))).2.
(** [rx.recv()], the [n]th time; it would block while there is none. *)
Definition recv (sub : nat * option ApiPair) (n : nat) : test (LiveUpdate A) := λ w,
  (match updates_of sub w !! n with Some u => Ok u | None => Panic "blocked" end, w).
(** [assert!(rx.try_recv().is_err())] after [n] updates *)
Definition assert_no_more (sub : nat * option ApiPair) (n : nat) : test unit := λ w,
  (rust_assert (length (updates_of sub w) <=? n)%nat "assertion failed", w).
(** [resp.get_quote_added()], [get_quote_removed()]: the default message when
    the update is the other one. *)
Definition get_quote_added (u : LiveUpdate A) : ApiQuote A := match u with QuoteAdded q => q | _ => api_quote_default end.
Definition get_quote_removed (u : LiveUpdate A) : ApiQuoteId := match u with QuoteRemoved i => i | _ => api_quote_id_default end.
(** [msg_bus_tx.blocking_send(msg)] *)
Definition bus_send (msg : Msg) : test unit := λ w, (Ok tt, (w.1, mk_service (cs_msg_bus w.2 ++ [msg]) (cs_quote_book w.2))).

Definition zero_one_pair : Pair := {| base_token_id := 0; counter_token_id := 1 |}.

Definition streaming_works_without_filtering : test unit :=
  live_updates <-- subscribe None;;
  assert_no_more live_updates 0;;;
  sci <-- make (st_create_sci zero_one_pair 10 20);;
  resp <-- client_submit [sci];;
  assert_same (sr_status_codes resp) [CREATED];;;
  quotes <-- quotes_in_book zero_one_pair;;
  assert_same (length (quotes : list Quote)) 1%nat;;;
  added_quote <-- nth_quote 0 resp;;
  u <-- recv live_updates 0;;
  assert_same (get_quote_added u) added_quote;;;
  assert_no_more live_updates 1;;;
  quote <-- received_quote added_quote;;
  bus_send (SciQuoteRemoved quote);;;
  u <-- recv live_updates 1;;
  assert_same (get_quote_removed u) (default api_quote_id_default (aq_id (added_quote : ApiQuote A))).

Definition one_three_pair : Pair := {| base_token_id := 1; counter_token_id := 3 |}.
(** [assert_eq!(resp.get_quote_added().get_pair(), ..)] *)
Definition expect_pair (sub : nat * option ApiPair) (n : nat) (p : Pair) : test unit :=
  u <-- recv sub n;;
  assert_same (default api_pair_default (aq_pair (get_quote_added u))) (pair_to_api p).

Definition streaming_works_and_filters_correctly : test unit :=
  rx1 <-- subscribe (Some (pair_to_api test_pair));;
  rx2 <-- subscribe (Some (pair_to_api one_three_pair));;
  assert_no_more rx1 0;;;
  assert_no_more rx2 0;;;
  pair1_sci1 <-- make (st_create_sci test_pair 10 20);;
  pair1_sci2 <-- make (st_create_sci test_pair 10 20);;
  pair2_sci1 <-- make (st_create_sci one_three_pair 10 20);;
  pair2_sci2 <-- make (st_create_sci one_three_pair 10 20);;
  resp <-- client_submit [pair1_sci1; pair1_sci2; pair2_sci1; pair2_sci2];;
  assert_same (sr_status_codes resp) [CREATED; CREATED; CREATED; CREATED];;;
  expect_pair rx1 0 test_pair;;;
  expect_pair rx1 1 test_pair;;;
  expect_pair rx2 0 one_three_pair;;;
  expect_pair rx2 1 one_three_pair.
End Tests.

(** * The tests pass *)

Section Rules.
Context `{McLib} `{!McLibLaws _, !TombstoneLaws _} {S Acc IC B A OB : Type} `{!TestLib S Acc IC B, !TestLibLaws S Acc IC B}.
Context `{!SciApi A, !SciApiLaws A, !EqDecision A, !QuoteBook OB, !QuoteBookLaws OB, !TotalBook OB, !StoresTests OB}.
Variable schedule : nat → list nat.
Hypothesis scheduled : ∀ n, schedule n ≡ₚ seq 0 n.
Local Abbreviation world := (S * ClientService OB)%type.
Local Abbreviation test := (stateful world string).
Implicit Types (w : world) (l : list Quote) (scis : list SignedContingentInput) (p : Pair) (r : Z * Z).

(** The server's book is up with the quotes [l], the client has the SCIs
    [scis] that it has not submitted, and the next [j] readings of the clock
    advance. *)
Record serving (j : nat) l scis w : Prop := {
  serving_up : book_up (cs_quote_book w.2);
  serving_contents : contents (cs_quote_book w.2) ≡ₚ l;
  serving_known : known (trace w.1) l;
  serving_keys : NoDup (sci_key_image <$> scis);
  serving_ids : NoDup (quote_id_from_sci <$> scis);
  serving_issued sci : sci ∈ scis → sci_key_image sci ∈ key_images (trace w.1) ∧ quote_id_from_sci sci ∈ digests (trace w.1);
  serving_unlike sci x : sci ∈ scis → x ∈ l → quote_key_image x ≠ sci_key_image sci ∧ q_id x ≠ quote_id_from_sci sci;
  serving_time : ticks j (trace w.1);
}.

Lemma returns_same {X Y} `{EqDecision X} (a a' : X) w (k : test Y) Q :
  a = a' → returns k w Q → returns (assert_same a a';;; k) w Q.
Proof. intros -> Hk. apply returns_bind, (returns_lift _ tt); [|done]. by rewrite bool_decide_true. Qed.

Lemma same_returns {X} `{EqDecision X} (a a' : X) w (Q : unit → world → Prop) :
  a = a' → Q tt w → returns (assert_same a a') w Q.
Proof. intros -> HQ. apply (returns_lift _ tt); [|done]. by rewrite bool_decide_true. Qed.

(** ** Creating SCIs *)

Lemma serving_more j l scis w new s' :
  serving j l scis w → new_scis (trace w.1) (trace s') new → serving j l (new ++ scis) (s', w.2).
Proof.
  intros [Hup Hc Hk Hnk Hni Hiss Hun Hj] [Mk Mi Mold Miss [Mgk Mgd] [Ml Mj]]. split; cbn; [done|done| | | | | |].
  - intros x Hx. destruct (Hk x Hx) as (? & ? & ?). rewrite Ml. auto.
  - rewrite fmap_app. apply NoDup_app. split; [done|]. split; [|done].
    intros k (x & -> & Hx)%list_elem_of_fmap (y & E & Hy)%list_elem_of_fmap.
    apply (proj1 (Mold x Hx)). rewrite E. by apply Hiss.
  - rewrite fmap_app. apply NoDup_app. split; [done|]. split; [|done].
    intros k (x & -> & Hx)%list_elem_of_fmap (y & E & Hy)%list_elem_of_fmap.
    apply (proj2 (Mold x Hx)). rewrite E. by apply Hiss.
  - intros sci [Hs|Hs]%elem_of_app; [by apply Miss|]. destruct (Hiss sci Hs). auto.
  - intros sci x [Hs|Hs]%elem_of_app Hx; [|by apply Hun]. destruct (Hk x Hx) as (? & ? & _), (Mold sci Hs).
    split; congruence.
  - by apply (ticks_same j (trace w.1)).
Qed.

(** SCIs that will not be submitted. *)
Lemma serving_drop j l scis w : serving j l scis w → serving j l [] w.
Proof.
  intros [Hup Hc Hk _ _ _ _ Hj]. split; [done|done|done|apply NoDup_nil_2|apply NoDup_nil_2| | |done]; [by intros sci ?%elem_of_nil|by intros sci x ?%elem_of_nil].
Qed.

Lemma create_returns {X} p base counter {j} l scis w (k : SignedContingentInput → test X) Q :
  serving j l scis w → is_u64 base → is_u64 counter → is_u64 (base_token_id p) → is_u64 (counter_token_id p) →
  (∀ sci s', sells p (base, base) counter sci → serving j l (sci :: scis) (s', w.2) → returns (k sci) (s', w.2) Q) →
  returns (sci <-- make (st_create_sci p base counter);; k sci) w Q.
Proof.
  intros Hsv Hb Hc H1 H2 HQ. apply returns_bind, make_returns. eapply returns_mono; [|by apply create_full_returns].
  intros sci s' (Hsell & o & Hnew). apply HQ; [done|].
  apply (serving_more j l scis w [sci] s'); [done|]. eapply new_scis_cons; [done|apply new_scis_nil].
Qed.

Lemma create_many_returns {X} n p base counter {j} l w (k : list SignedContingentInput → test X) Q :
  serving j l [] w → is_u64 base → is_u64 counter → is_u64 (base_token_id p) → is_u64 (counter_token_id p) →
  (∀ scis s', length scis = n → Forall (sells p (base, base) counter) scis → serving j l scis (s', w.2) →
     returns (k scis) (s', w.2) Q) →
  returns (scis <-- make_many n (st_create_sci p base counter);; k scis) w Q.
Proof.
  intros Hsv Hb Hc H1 H2 HQ. apply returns_bind. eapply returns_mono; [|eapply make_many_returns; intros s; by apply create_full_returns].
  intros scis [s' sv'] (Hlen & Hall & Hw & Hnew). cbn in Hw. subst sv'. apply HQ; [done|done|].
  rewrite <-(app_nil_r scis). by apply serving_more.
Qed.

(** ** A request *)

(** An SCI of a request: dust, one whose quote [e] is in the book, or a new one. *)
Inductive Item :=
| Dust (sci : SignedContingentInput)
| Old (sci : SignedContingentInput) (e : Quote)
| New (sci : SignedContingentInput) (p : Pair) (r : Z * Z) (counter : Z).

Definition item_sci (i : Item) : SignedContingentInput := match i with Dust sci | Old sci _ | New sci _ _ _ => sci end.
Definition new_sci_of (i : Item) : option SignedContingentInput := match i with New sci _ _ _ => Some sci | _ => None end.

(** What an item says of its SCI, with the quotes [l] in the book. *)
Definition item_ok l (i : Item) : Prop :=
  match i with
  | Dust sci => ∃ p r counter, sells p r counter sci ∧ r.2 < 3
  | Old sci e => ∃ p r counter, sells p r counter sci ∧ tradable p r counter ∧ 3 ≤ r.2 ∧
      e ∈ l ∧ q_pair e = p ∧ q_sci e = sci ∧ q_id e = quote_id_from_sci sci
  | New sci p r counter => sells p r counter sci ∧ tradable p r counter ∧ 3 ≤ r.2
  end.

(** The result for it. *)
Definition answered (ts : Z) (i : Item) (res : outcome Error Quote) : Prop :=
  match i with
  | Dust _ => res = Err (UnsupportedSci "Quote is too small for deqs")
  | Old _ e => res = Err (QuoteAlreadyExists e)
  | New sci p r counter => ∃ q, res = Ok q ∧ q_sci q = sci ∧ q_id q = quote_id_from_sci sci ∧ q_timestamp q = ts ∧
      on_terms p r counter q
  end.

Lemma not_dust p r counter sci : sells p r counter sci → test_sci_validator sci = if r.2 <? 3 then Err (UnsupportedSci "Quote is too small for deqs") else Ok tt.
Proof. intros [_ Ham _]. unfold test_sci_validator. by rewrite Ham. Qed.

Lemma item_becomes b l ts i :
  contents b ≡ₚ l → item_ok l i → is_u64 ts →
  ∃ res, becomes (OB:=OB) test_sci_validator ts b (item_sci i) res ∧ answered ts i res.
Proof.
  intros Hc Hi Hts. destruct i as [sci|sci e|sci p r counter]; cbn in *.
  - destruct Hi as (p & r & counter & Hs & Hr). eexists. split; [|done]. apply becomes_refused.
    by rewrite (not_dust _ _ _ _ Hs), (proj2 (Z.ltb_lt _ _)).
  - destruct Hi as (p & r & counter & Hs & Htr & Hr & Hin & Hp & Hsci & Hid). eexists. split; [|done].
    destruct (sold_quote (OB:=OB) test_sci_validator p r counter sci ts Hs Htr Hts) as (q & Hq & Hqs & Hqi & _ & Hqp & _).
    { by rewrite (not_dust _ _ _ _ Hs), (proj2 (Z.ltb_ge _ _)). }
    eapply becomes_existing; [exact Hq|by rewrite Hc| |by rewrite Hid].
    unfold slot, quote_key_image. by rewrite Hsci, Hqs, Hqp, Hp.
  - destruct Hi as (Hs & Htr & Hr).
    destruct (sold_quote (OB:=OB) test_sci_validator p r counter sci ts Hs Htr Hts) as (q & Hq & Hqs & Hqi & Hqt & Hqp).
    { by rewrite (not_dust _ _ _ _ Hs), (proj2 (Z.ltb_ge _ _)). }
    exists (Ok q). split; [by apply becomes_new|]. exists q. by split_and!.
Qed.

Lemma items_become b l ts items :
  contents b ≡ₚ l → Forall (item_ok l) items → is_u64 ts →
  ∃ rs, Forall2 (becomes (OB:=OB) test_sci_validator ts b) (item_sci <$> items) rs ∧ Forall2 (answered ts) items rs.
Proof.
  intros Hc Hall Hts. induction Hall as [|i items Hi _ (rs & Hb & Ha)]; [exists []; by repeat constructor|].
  destruct (item_becomes b l ts i Hc Hi Hts) as (res & Hb1 & Ha1). exists (res :: rs). split; by constructor.
Qed.

(** The quotes that are created are those of the new SCIs. *)
Lemma created_quotes ts items rs : Forall2 (answered ts) items rs →
  q_sci <$> omap result_quote rs = omap new_sci_of items ∧
  q_id <$> omap result_quote rs = quote_id_from_sci <$> omap new_sci_of items ∧
  Forall (λ q, q_timestamp q = ts) (omap result_quote rs).
Proof.
  induction 1 as [|i res items rs Hi _ (IH1 & IH2 & IH3)]; [done|].
  destruct i as [sci|sci e|sci p r counter]; cbn in Hi; [by subst res|by subst res|].
  destruct Hi as (q & -> & Hs & Hd & Ht & _). cbn. by rewrite Hs, Hd, IH1, IH2, Forall_cons.
Qed.

Lemma created_keys qs scis : q_sci <$> qs = scis → quote_key_image <$> qs = sci_key_image <$> scis.
Proof. intros <-. unfold quote_key_image. by rewrite <-list_fmap_compose. Qed.

Lemma submit_returns {X} items rest {j} l scis w (k : SubmitQuotesResponse A → test X) Q :
  serving (Datatypes.S j) l scis w → Forall (item_ok l) items → scis ≡ₚ omap new_sci_of items ++ rest →
  (length items < 30)%nat →
  (∀ ts rs s' b', Forall2 (answered ts) items rs →
     let w' := (s', mk_service (cs_msg_bus w.2 ++ (SciQuoteAdded <$> omap result_quote rs)) b') in
     serving j (omap result_quote rs ++ l) rest w' → returns (k (response_of rs)) w' Q) →
  returns (resp <-- client_submit schedule (item_sci <$> items);; k resp) w Q.
Proof.
  intros [Hup Hc Hk Hnk Hni Hiss Hun Hj] Hok Hscis Hlen HQ.
  destruct (system_time_ok w.1 j Hj) as (ts & s' & Hclock & Hts & Hlt & Htk & Htd & Htt & Hj').
  destruct (items_become _ l ts items Hc Hok Hts) as (rs & Hb & Ha).
  destruct (created_quotes ts items rs Ha) as (Hqs & Hqi & Hqt). pose proof (created_keys _ _ Hqs) as Hqk.
  rewrite Hscis in Hnk, Hni. rewrite fmap_app in Hnk, Hni.
  apply NoDup_app in Hnk as (Hnk1 & Hnk2 & Hnk3), Hni as (Hni1 & Hni2 & Hni3).
  assert (∀ sci, sci ∈ omap new_sci_of items → sci ∈ scis) as Hin1 by (intros sci; rewrite Hscis, elem_of_app; auto).
  assert (∀ sci, sci ∈ rest → sci ∈ scis) as Hin2 by (intros sci; rewrite Hscis, elem_of_app; auto).
  destruct (submit_quotes_answers (A:=A) test_sci_validator (schedule (length items)) (item_sci <$> items) rs w.2 ts)
    as (b' & Hrun & Hup' & Hc'); [done| |done|by rewrite length_fmap|by rewrite length_fmap|done|].
  { split; [by rewrite Hqk|]. split; [by rewrite Hqi|]. rewrite Hqk, Hqi. intros x. rewrite Hc. intros Hx.
    split; intros (sci & E & Hs)%list_elem_of_fmap; destruct (Hun sci x (Hin1 sci Hs) Hx); done. }
  apply returns_bind, returns_expect. eexists _, _. unfold call_submit_quotes. rewrite Hclock, !length_fmap, Hrun.
  split; [done|]. apply (HQ ts rs s' b' Ha).
  assert (∀ q, q ∈ omap result_quote rs → quote_key_image q ∈ sci_key_image <$> omap new_sci_of items ∧
            q_id q ∈ quote_id_from_sci <$> omap new_sci_of items ∧ q_timestamp q = ts) as Hq.
  { intros q Hq. rewrite <-Hqk, <-Hqi. split; [by apply list_elem_of_fmap_2|]. split; [by apply list_elem_of_fmap_2|].
    rewrite Forall_forall in Hqt. by apply Hqt. }
  split; cbn; [done|by rewrite Hc', Hc| |done|done| | |].
  - intros x [Hx|Hx]%elem_of_app; rewrite Htk, Htd, Htt.
    + destruct (Hq x Hx) as ((y & -> & Hy)%list_elem_of_fmap & (z & -> & Hz)%list_elem_of_fmap & ->).
      split; [by apply Hiss, Hin1|]. split; [by apply Hiss, Hin1|]. done.
    + destruct (Hk x Hx) as (? & ? & ?). split; [done|]. split; [done|]. lia.
  - rewrite Htk, Htd. intros sci Hs. by apply Hiss, Hin2.
  - intros sci x Hs [Hx|Hx]%elem_of_app; [|by apply Hun; [apply Hin2|]].
    destruct (Hq x Hx) as (Hx1 & Hx2 & _).
    split; intros E; rewrite E in *; [by apply (Hnk2 _ Hx1), list_elem_of_fmap_2|by apply (Hni2 _ Hx2), list_elem_of_fmap_2].
  - done.
Qed.

(** A request of new SCIs on the same terms. *)
Lemma submit_same_returns {X} p r counter {j} l scis w (k : SubmitQuotesResponse A → test X) Q :
  serving (Datatypes.S j) l scis w → Forall (sells p r counter) scis → tradable p r counter → 3 ≤ r.2 →
  (length scis < 30)%nat →
  (∀ qs w', length qs = length scis → Forall (on_terms p r counter) qs → serving j (qs ++ l) [] w' →
     returns (k (response_of (Ok <$> qs))) w' Q) →
  returns (resp <-- client_submit schedule scis;; k resp) w Q.
Proof.
  intros Hsv Hs Htr Hr Hlen HQ. set (items := (λ sci, New sci p r counter) <$> scis).
  assert (scis = item_sci <$> items) as E1 by (unfold items; by rewrite <-list_fmap_compose, list_fmap_id).
  assert (omap new_sci_of items = scis) as E2.
  { unfold items. clear. induction scis as [|sci scis IH]; [done|]. cbn. by rewrite IH. }
  rewrite E1. eapply (submit_returns items []); [done| |by rewrite E2, app_nil_r|by unfold items; rewrite length_fmap|].
  { apply Forall_fmap. eapply Forall_impl; [exact Hs|]. done. }
  intros ts rs s' b' Ha w' Hsv'.
  assert (∃ qs, rs = Ok <$> qs ∧ length qs = length scis ∧ Forall (on_terms p r counter) qs) as (qs & -> & Hqs & Ht).
  { clear -Ha. revert rs Ha. unfold items. induction scis as [|sci scis IH]; intros rs Ha; cbn in Ha.
    - apply Forall2_nil_inv_l in Ha as ->. by exists [].
    - apply Forall2_cons_inv_l in Ha as (res & rs' & (q & -> & _ & _ & _ & Ht) & Ha & ->).
      destruct (IH rs' Ha) as (qs & -> & Hlen & Hts). exists (q :: qs). cbn. rewrite Hlen. split; [done|]. split; [done|]. by constructor. }
  rewrite created_of in Hsv'. by apply HQ.
Qed.

Lemma submit_new_returns {X} n {j} l w (k : SubmitQuotesResponse A → test X) Q :
  serving (Datatypes.S j) l [] w → (n < 30)%nat →
  (∀ qs w', length qs = n → Forall (on_terms test_pair (10, 10) 20) qs → serving j (qs ++ l) [] w' →
     returns (k (response_of (Ok <$> qs))) w' Q) →
  returns (resp <-- submit_new schedule n;; k resp) w Q.
Proof.
  intros Hsv Hn HQ. apply returns_bind. unfold submit_new.
  eapply create_many_returns; [exact Hsv|done..|]. intros scis s' Hlen Hs Hsv'.
  eapply (submit_same_returns test_pair (10, 10) 20); [exact Hsv'|done|done|done|lia|]. intros qs w' Hlq Ht Hsv''.
  rewrite response_of_created. rewrite <-Hlq.
  apply returns_same; [done|]. apply returns_same; [done|]. apply returns_ret.
  rewrite <-response_of_created. apply HQ; [lia|done|done].
Qed.

(** ** Reading *)

Lemma received_quotes_returns {X} qs w (k : list Quote → test X) Q :
  Forall (λ q, length (q_id q) = 32%nat) qs → returns (k qs) w Q →
  returns (quotes <-- received_quotes (A:=A) (quote_to_api <$> qs);; k quotes) w Q.
Proof.
  intros Hq HQ. apply returns_bind, returns_unwrap, (returns_lift _ qs); [clear HQ|done].
  induction Hq as [|q qs Hq _ IH]; [done|]. cbn [fmap list_fmap collect_results]. rewrite quote_from_to_api by done. cbn.
  by rewrite IH.
Qed.

Lemma received_quote_returns {X} q w (k : Quote → test X) Q :
  length (q_id q) = 32%nat → returns (k q) w Q →
  returns (quote <-- received_quote (A:=A) (quote_to_api q);; k quote) w Q.
Proof. intros Hq HQ. apply returns_bind, returns_unwrap, (returns_lift _ q); [by apply quote_from_to_api|done]. Qed.

Lemma quotes_in_book_returns {X} p {j} l scis w (k : list Quote → test X) Q :
  serving j l scis w →
  (∀ all, StronglySorted (cmp_lt quote_cmp) all → all ≡ₚ selected p everything l → Forall priced all → returns (k all) w Q) →
  returns (quotes <-- quotes_in_book p;; k quotes) w Q.
Proof.
  intros [Hup Hc _ _ _ _ _ _] HQ. destruct (up_get_quotes p everything 0 _ Hup) as [all Hall].
  destruct (get_quotes_ok _ _ _ _ _ (up_inv _ Hup) (Z.le_refl 0) Hall) as (all' & Hs & Hp & E). cbn in E. subst all'.
  apply returns_bind, returns_unwrap. exists all, w. rewrite Hall. split; [done|]. apply HQ; [done|by rewrite Hp, Hc|].
  rewrite Hp. apply Forall_forall. intros x [_ Hx]%list_elem_of_filter.
  pose proof (up_priced _ Hup) as HP. rewrite Forall_forall in HP. by apply HP.
Qed.

Lemma selected_all p r counter qs l :
  Forall (on_terms p r counter) qs → overlaps everything r = true → selected p everything (qs ++ l) = qs ++ selected p everything l.
Proof.
  intros Hq Hr. induction Hq as [|q qs (Hp & Hqr & _) _ IH]; [done|]. cbn [app].
  by rewrite (selected_cons p everything q (qs ++ l) p r), bool_decide_true, Hr, IH.
Qed.

Lemma submit_and_compare_returns {X} n {j} w (k : test X) Q :
  serving (Datatypes.S j) [] [] w → (n < 30)%nat →
  (∀ qs w', serving j qs [] w' → returns k w' Q) → returns (submit_and_compare schedule n;;; k) w Q.
Proof.
  intros Hsv Hn HQ. apply returns_bind. unfold submit_and_compare.
  eapply submit_new_returns; [exact Hsv|done|]. intros qs w' Hlq Ht Hsv'. rewrite app_nil_r in Hsv'.
  rewrite response_of_created. cbn [sr_quotes].
  eapply received_quotes_returns; [eapply Forall_impl; [exact Ht|]; by intros q (_ & _ & _ & ?)|].
  eapply (quotes_in_book_returns test_pair); [exact Hsv'|]. intros all Hs Hall Hp.
  rewrite <-(app_nil_r qs), (selected_all test_pair (10, 10) 20), app_nil_r in Hall by done.
  apply same_returns; [|by eapply HQ].
  by rewrite !(quote_sort_sorted _ all) by (rewrite ?reverse_Permutation; done).
Qed.

(** ** The tests *)

Definition passing (t : test unit) w : Prop := returns t w (λ _ _, True).

Lemma add_quotes_passes w : serving 1 [] [] w → passing (submit_quotes_add_quotes schedule) w.
Proof.
  intros Hsv. unfold passing, submit_quotes_add_quotes.
  destruct (submit_and_compare_returns 10 w (st_ret tt) (λ _ _, True) Hsv) as (a & w' & Hr & _);
    [lia|intros; by apply returns_ret|].
  unfold st_bind in Hr. destruct (submit_and_compare schedule 10 w) as [[u|e|m] w1] eqn:E; [|done..]. by exists u, w1.
Qed.

Lemma above_max_passes w :
  serving 2 [] [] w → passing (submit_quotes_rejects_quotes_above_max_simultaneous_quotes schedule) w.
Proof.
  intros Hsv. unfold passing, submit_quotes_rejects_quotes_above_max_simultaneous_quotes.
  apply (submit_and_compare_returns _ w _ _ Hsv); [unfold MAX_SIMULTANEOUS_QUOTES; lia|]. intros qs w' Hsv'.
  eapply create_many_returns; [exact Hsv'|done..|]. intros scis s' Hlen _ _.
  destruct (system_time s') as [now s''] eqn:Hclock. eexists tt, _. split; [|done].
  unfold expect_err, call_submit_quotes. cbn [fst snd]. rewrite Hclock, submit_too_many; [done|].
  rewrite length_fmap, Hlen. unfold MAX_SIMULTANEOUS_QUOTES. lia.
Qed.

Lemma dust_passes w : serving 2 [] [] w → passing (submit_quotes_refuses_dust schedule) w.
Proof.
  intros Hsv. unfold passing, submit_quotes_refuses_dust.
  eapply create_many_returns; [exact Hsv|done..|]. intros scis s' Hlen Hs Hsv'.
  assert (scis = item_sci <$> (Dust <$> scis)) as E by by rewrite <-list_fmap_compose, list_fmap_id.
  rewrite E at 1. eapply (submit_returns (Dust <$> scis) scis); [exact Hsv'| | |by rewrite length_fmap, Hlen; lia|].
  { apply Forall_fmap. eapply Forall_impl; [exact Hs|]. intros sci Hsci. by eexists _, _, _. }
  { assert (omap new_sci_of (Dust <$> scis) = []) as ->; [|done]. clear. by induction scis. }
  intros ts rs s'' b' Ha w' Hsv''.
  assert (rs = replicate (length scis) (Err (UnsupportedSci "Quote is too small for deqs"))) as ->.
  { clear -Ha. revert rs Ha. induction scis as [|sci scis IH]; intros rs Ha; cbn in Ha.
    - by apply Forall2_nil_inv_l in Ha.
    - apply Forall2_cons_inv_l in Ha as (res & rs' & -> & Ha & ->). cbn. by rewrite <-(IH rs' Ha). }
  rewrite Hlen in *. apply returns_same; [done|]. apply returns_same; [done|].
  change (omap result_quote (replicate 10 _) ++ []) with (@nil Quote) in Hsv''.
  eapply submit_new_returns; [by eapply serving_drop|lia|]. intros qs w2 _ _ _. by apply returns_ret.
Qed.

Lemma nth_quote_returns {X} i rs res w (k : ApiQuote A → test X) Q :
  rs !! i = Some res → returns (k (result_entry res)) w Q →
  returns (o <-- nth_quote (A:=A) i (response_of rs);; k o) w Q.
Proof.
  intros Hi HQ. apply returns_bind, (returns_lift _ (result_entry res)); [|done]. cbn.
  by rewrite list_lookup_fmap, Hi.
Qed.

Lemma answered_new ts sci p r counter rest rs : Forall2 (answered ts) (New sci p r counter :: rest) rs →
  ∃ q rs', rs = Ok q :: rs' ∧ q_sci q = sci ∧ q_id q = quote_id_from_sci sci ∧ on_terms p r counter q ∧ Forall2 (answered ts) rest rs'.
Proof. intros (res & rs' & (q & -> & ? & ? & _ & ?) & ? & ->)%Forall2_cons_inv_l. exists q, rs'. by split_and!. Qed.
Lemma answered_old ts sci e rest rs : Forall2 (answered ts) (Old sci e :: rest) rs →
  ∃ rs', rs = Err (QuoteAlreadyExists e) :: rs' ∧ Forall2 (answered ts) rest rs'.
Proof. intros (res & rs' & -> & ? & ->)%Forall2_cons_inv_l. by exists rs'. Qed.

Lemma identical_duplicate_passes w :
  serving 2 [] [] w → passing (submit_quotes_refuses_identical_duplicate_request schedule) w.
Proof.
  intros Hsv. unfold passing, submit_quotes_refuses_identical_duplicate_request.
  eapply create_returns; [exact Hsv|done..|]. intros sci s1 Hs Hsv1.
  eapply (submit_returns [New sci test_pair (10, 10) 20] []); [exact Hsv1|by apply Forall_singleton|done|cbn; lia|].
  intros ts rs s2 b2 (q & rs' & -> & Hsci & Hid & Ht & ->%Forall2_nil_inv_l)%answered_new w2 Hsv2.
  apply returns_same; [done|]. eapply nth_quote_returns; [done|]. apply received_quote_returns; [apply Ht|].
  eapply (submit_returns [Old sci q] []); [exact Hsv2| |done|cbn; lia|].
  { apply Forall_singleton. exists test_pair, (10, 10), 20. destruct Ht as (Hp & _). split_and!; try done. left. }
  intros ts' rs s3 b3 (rs' & -> & ->%Forall2_nil_inv_l)%answered_old w3 _.
  apply returns_same; [done|]. eapply nth_quote_returns; [done|]. apply received_quote_returns; [apply Ht|].
  by apply same_returns.
Qed.

Lemma duplicates_pass w : serving 2 [] [] w → passing (submit_quotes_doesnt_add_duplicate_quotes schedule) w.
Proof.
  intros Hsv. unfold passing, submit_quotes_doesnt_add_duplicate_quotes.
  eapply create_returns; [exact Hsv|done..|]. intros sci1 s1 Hs1 Hsv1.
  eapply create_returns; [exact Hsv1|done..|]. intros sci2 s2 Hs2 Hsv2.
  eapply create_returns; [exact Hsv2|done..|]. intros sci3 s3 Hs3 Hsv3.
  eapply (submit_returns [New sci1 test_pair (10, 10) 20; New sci2 test_pair (10, 10) 20] [sci3]);
    [exact Hsv3|by rewrite Forall_cons, Forall_singleton|cbn; solve_Permutation|cbn; lia|].
  intros ts rs s4 b4 (q1 & rs' & -> & Hsci1 & Hid1 & Ht1 & Ha)%answered_new w4 Hsv4.
  apply answered_new in Ha as (q2 & rs & -> & Hsci2 & Hid2 & Ht2 & ->%Forall2_nil_inv_l).
  apply returns_same; [done|].
  eapply nth_quote_returns; [done|]. apply received_quote_returns; [apply Ht1|].
  eapply nth_quote_returns; [done|]. apply received_quote_returns; [apply Ht2|].
  eapply (submit_returns [Old sci1 q1; New sci3 test_pair (10, 10) 20; Old sci2 q2] []); [exact Hsv4| |done|cbn; lia|].
  { rewrite !Forall_cons. destruct Ht1 as (Hp1 & _), Ht2 as (Hp2 & _).
    split; [|split; [done|split; [|done]]]; exists test_pair, (10, 10), 20; split_and!; try done; set_solver. }
  intros ts' rs s5 b5 (rs1 & -> & Ha)%answered_old w5 _.
  apply answered_new in Ha as (q3 & rs2 & -> & _ & _ & _ & (rs & -> & ->%Forall2_nil_inv_l)%answered_old).
  apply returns_same; [done|].
  eapply nth_quote_returns; [done|]. apply received_quote_returns; [apply Ht1|]. apply returns_same; [done|].
  eapply nth_quote_returns; [done|]. apply received_quote_returns; [apply Ht2|]. by apply same_returns.
Qed.

(** ** Queries *)

Lemma received_scis_ok (qs : list Quote) :
  collect_results (λ o, sci_from_api (default api_sci_default (aq_sci o))) (quote_to_api (A:=A) <$> qs) = Ok (q_sci <$> qs).
Proof. induction qs as [|q qs IH]; [done|]. cbn. rewrite sci_api_roundtrip. cbn. by rewrite IH. Qed.

Lemma all_shown (limit : Z) (all : list Quote) :
  limit = 0 ∨ Z.of_nat (length all) ≤ limit → all = if limit =? 0 then all else take (Z.to_nat limit) all.
Proof. intros Hl. destruct (Z.eqb_spec limit 0); [done|]. rewrite take_ge; [done|lia]. Qed.

Lemma expect_scis_returns p lo hi limit all shown {j} l scis w (Q : unit → world → Prop) :
  serving j l scis w → 0 ≤ limit → StronglySorted (cmp_lt quote_cmp) all →
  all ≡ₚ selected p (Included lo, Included (if (lo =? 0) && (hi =? 0) then U64_MAX else hi)) l →
  shown = (if limit =? 0 then all else take (Z.to_nat limit) all) → Q tt w →
  returns (expect_scis (A:=A) (quotes_request p lo hi limit) (q_sci <$> shown)) w Q.
Proof.
  intros [Hup Hc _ _ _ _ _ _] Hlim Hs Hp -> HQ. set (range := (Included lo, _)) in Hp.
  destruct (up_get_quotes p range limit _ Hup) as [res Hres].
  assert (res = if limit =? 0 then all else take (Z.to_nat limit) all) as <-.
  { apply (listing_unique (contents (cs_quote_book w.2)) p range limit); [by apply up_priced|by apply get_quotes_ok; [apply up_inv|..]|].
    exists all. split; [done|]. split; [by rewrite Hp, Hc|done]. }
  unfold expect_scis. apply returns_bind, returns_expect. exists (quote_to_api <$> res), w. split.
  { unfold call_get_quotes, get_quotes_impl, quotes_request. destruct p as [b c].
    cbn [gq_pair gq_base_range_min gq_base_range_max gq_limit default pair_to_api pair_from_api
         base_token_id counter_token_id ap_base_token_id ap_counter_token_id].
    unfold pair_from_api, pair_to_api. cbn [from_option ap_base_token_id ap_counter_token_id base_token_id counter_token_id id].
    fold range. by rewrite Hres. }
  apply returns_bind, returns_unwrap, (returns_lift _ (q_sci <$> res)); [apply received_scis_ok|]. by apply same_returns.
Qed.

Lemma singleton_sorted q : StronglySorted (cmp_lt quote_cmp) [q].
Proof. apply SSorted_cons; [apply SSorted_nil|done]. Qed.

Lemma filter_passes w : serving 1 [] [] w → passing (get_quotes_filter_correctly schedule) w.
Proof.
  intros Hsv. unfold passing, get_quotes_filter_correctly.
  eapply create_returns; [exact Hsv|done..|]. intros sci1 s1 Hs1 Hsv1.
  eapply create_returns; [exact Hsv1|done..|]. intros sci2 s2 Hs2 Hsv2.
  eapply create_returns; [exact Hsv2|done..|]. intros sci3 s3 Hs3 Hsv3.
  eapply create_returns; [exact Hsv3|done..|]. intros sci4 s4 Hs4 Hsv4.
  eapply (submit_returns [New sci1 test_pair (10, 10) 20; New sci2 test_pair (10, 10) 50;
                          New sci3 other_pair (10, 10) 20; New sci4 other_pair (12, 12) 50] []);
    [exact Hsv4|by rewrite !Forall_cons|cbn; solve_Permutation|cbn; lia|].
  intros ts rs s5 b5 (q1 & rs1 & -> & Hsci1 & _ & (Hp1 & Hr1 & _) & Ha)%answered_new w5 Hsv5.
  apply answered_new in Ha as (q2 & rs2 & -> & Hsci2 & _ & (Hp2 & Hr2 & _) & Ha).
  apply answered_new in Ha as (q3 & rs3 & -> & <- & _ & (Hp3 & Hr3 & Hc3 & _) & Ha).
  apply answered_new in Ha as (q4 & rs4 & -> & <- & _ & (Hp4 & Hr4 & Hc4 & _) & ->%Forall2_nil_inv_l).
  change (omap result_quote _ ++ []) with [q1; q2; q3; q4] in Hsv5.
  pose proof (up_priced _ (serving_up _ _ _ _ Hsv5)) as HP. rewrite (serving_contents _ _ _ _ Hsv5), !Forall_cons in HP.
  destruct HP as (_ & _ & HP3 & HP4 & _).
  assert (∀ range, selected other_pair range [q1; q2; q3; q4] =
    if overlaps range (10, 10) then if overlaps range (12, 12) then [q3; q4] else [q3]
    else if overlaps range (12, 12) then [q4] else []) as Hsel.
  { intros range. rewrite (selected_cons _ _ q1 _ _ _ Hp1 Hr1), (selected_cons _ _ q2 _ _ _ Hp2 Hr2),
      (selected_cons _ _ q3 _ _ _ Hp3 Hr3), (selected_cons _ _ q4 _ _ _ Hp4 Hr4).
    by destruct (overlaps range (10, 10)), (overlaps range (12, 12)). }
  assert (StronglySorted (cmp_lt quote_cmp) [q3; q4]) as H34.
  { apply SSorted_cons; [apply singleton_sorted|]. apply Forall_singleton.
    refine (proj1 (quote_cmp_better_rate_first q3 q4 HP3 HP4 _) _); [by rewrite Hp3, Hp4|].
    unfold max_base_tokens. rewrite Hr3, Hr4, Hc3, Hc4. cbn. lia. }
  apply returns_bind, (expect_scis_returns _ _ _ _ [q3; q4] [q3; q4] _ _ _ _ Hsv5); [done|done|by rewrite Hsel|by apply all_shown; left|].
  apply returns_bind, (expect_scis_returns _ _ _ _ [q3; q4] [q3] _ _ _ _ Hsv5); [done|done|by rewrite Hsel|done|].
  apply returns_bind, (expect_scis_returns _ _ _ _ [q3] [q3] _ _ _ _ Hsv5); [done|apply singleton_sorted|by rewrite Hsel|by apply all_shown; right|].
  apply returns_bind, (expect_scis_returns _ _ _ _ [q4] [q4] _ _ _ _ Hsv5); [done|apply singleton_sorted|by rewrite Hsel|by apply all_shown; right|].
  apply (expect_scis_returns _ _ _ _ [q3; q4] [q3; q4] _ _ _ _ Hsv5); [done|done|by rewrite Hsel|by apply all_shown; right|done].
Qed.

(** ** Live updates *)

Lemma updates_of_spec req_pair n w :
  let p := pair_from_api (default api_pair_default req_pair) in
  updates_of (A:=A) (n, req_pair) w =
  omap (live_update (if (base_token_id p =? 0) && (counter_token_id p =? 0) then None else Some p)) (drop n (cs_msg_bus w.2)).
Proof.
  intros p. unfold updates_of. cbn [fst snd].
  destruct (live_updates_spec (A:=A) req_pair (λ _, false) (drop n (cs_msg_bus w.2))) as [(m & _ & ? & _)|[_ ->]]; [done|]. done.
Qed.

Lemma recv_returns {X} sub n u w (k : LiveUpdate A → test X) Q :
  updates_of sub w !! n = Some u → returns (k u) w Q → returns (u <-- recv sub n;; k u) w Q.
Proof. intros Hu HQ. apply returns_bind. exists u, w. unfold recv. by rewrite Hu. Qed.

Lemma no_more_returns {X} sub n w (k : test X) Q :
  (length (updates_of (A:=A) sub w) ≤ n)%nat → returns k w Q → returns (assert_no_more (A:=A) sub n;;; k) w Q.
Proof.
  intros Hn HQ. apply returns_bind. exists tt, w. unfold assert_no_more. by rewrite (proj2 (Nat.leb_le _ _) Hn).
Qed.

Lemma streaming_passes w : serving 1 [] [] w → passing (streaming_works_without_filtering (A:=A) schedule) w.
Proof.
  intros Hsv. unfold passing, streaming_works_without_filtering.
  apply returns_bind. eexists _, _. split; [done|].
  apply no_more_returns; [by rewrite updates_of_spec, drop_all|].
  eapply create_returns; [exact Hsv|done..|]. intros sci s1 Hs Hsv1.
  eapply (submit_returns [New sci zero_one_pair (10, 10) 20] []); [exact Hsv1|by apply Forall_singleton|done|cbn; lia|].
  intros ts rs s2 b2 (q & rs' & -> & Hsci & Hid & (Hp & Hr & _ & Hlen) & ->%Forall2_nil_inv_l)%answered_new w2 Hsv2.
  change (omap result_quote _ ++ []) with [q] in Hsv2.
  apply returns_same; [done|].
  eapply (quotes_in_book_returns zero_one_pair); [exact Hsv2|]. intros all _ Hall _.
  rewrite (selected_cons _ _ q _ _ _ Hp Hr) in Hall. apply Permutation_singleton_r in Hall as ->.
  apply returns_same; [done|]. eapply nth_quote_returns; [done|].
  eapply recv_returns; [by rewrite updates_of_spec; cbn [w2 snd cs_msg_bus]; rewrite drop_app_length|].
  apply returns_same; [done|].
  apply no_more_returns; [by rewrite updates_of_spec; cbn [w2 snd cs_msg_bus]; rewrite drop_app_length|].
  apply received_quote_returns; [done|].
  apply returns_bind. eexists tt, _. split; [done|].
  eapply recv_returns; [by rewrite updates_of_spec; cbn [w2 snd cs_msg_bus]; rewrite <-(assoc_L (++)), drop_app_length|].
  by apply same_returns.
Qed.

Lemma filtered_streaming_passes w :
  serving 1 [] [] w → passing (streaming_works_and_filters_correctly (A:=A) schedule) w.
Proof.
  intros Hsv. unfold passing, streaming_works_and_filters_correctly.
  apply returns_bind. eexists _, _. split; [done|]. apply returns_bind. eexists _, _. split; [done|].
  apply no_more_returns; [by rewrite updates_of_spec, drop_all|].
  apply no_more_returns; [by rewrite updates_of_spec, drop_all|].
  eapply create_returns; [exact Hsv|done..|]. intros sci1 s1 Hs1 Hsv1.
  eapply create_returns; [exact Hsv1|done..|]. intros sci2 s2 Hs2 Hsv2.
  eapply create_returns; [exact Hsv2|done..|]. intros sci3 s3 Hs3 Hsv3.
  eapply create_returns; [exact Hsv3|done..|]. intros sci4 s4 Hs4 Hsv4.
  eapply (submit_returns [New sci1 test_pair (10, 10) 20; New sci2 test_pair (10, 10) 20;
                          New sci3 one_three_pair (10, 10) 20; New sci4 one_three_pair (10, 10) 20] []);
    [exact Hsv4|by rewrite !Forall_cons|cbn; solve_Permutation|cbn; lia|].
  intros ts rs s5 b5 (q1 & rs1 & -> & _ & _ & (Hp1 & _) & Ha)%answered_new w5 Hsv5.
  apply answered_new in Ha as (q2 & rs2 & -> & _ & _ & (Hp2 & _) & Ha).
  apply answered_new in Ha as (q3 & rs3 & -> & _ & _ & (Hp3 & _) & Ha).
  apply answered_new in Ha as (q4 & rs4 & -> & _ & _ & (Hp4 & _) & ->%Forall2_nil_inv_l).
  apply returns_same; [done|].
  set (qs := [q1; q2; q3; q4]).
  assert (∀ p, updates_of (A:=A) (length (cs_msg_bus w.2), Some (pair_to_api p)) w5 =
    omap (live_update (if (base_token_id p =? 0) && (counter_token_id p =? 0) then None else Some p)) (SciQuoteAdded <$> qs)) as Hup.
  { intros [b c]. rewrite updates_of_spec. cbn [w5 snd cs_msg_bus]. by rewrite drop_app_length. }
  assert (updates_of (A:=A) (length (cs_msg_bus w.2), Some (pair_to_api test_pair)) w5 =
          [QuoteAdded (quote_to_api q1); QuoteAdded (quote_to_api q2)]) as Hup1.
  { rewrite Hup. unfold live_update. cbn. by rewrite Hp1, Hp2, Hp3, Hp4. }
  assert (updates_of (A:=A) (length (cs_msg_bus w.2), Some (pair_to_api one_three_pair)) w5 =
          [QuoteAdded (quote_to_api q3); QuoteAdded (quote_to_api q4)]) as Hup2.
  { rewrite Hup. unfold live_update. cbn. by rewrite Hp1, Hp2, Hp3, Hp4. }
  apply returns_bind. eapply recv_returns; [by rewrite Hup1|]. apply same_returns; [by cbn; rewrite Hp1|].
  apply returns_bind. eapply recv_returns; [by rewrite Hup1|]. apply same_returns; [by cbn; rewrite Hp2|].
  apply returns_bind. eapply recv_returns; [by rewrite Hup2|]. apply same_returns; [by cbn; rewrite Hp3|].
  eapply recv_returns; [by rewrite Hup2|]. apply same_returns; [by cbn; rewrite Hp4|done].
Qed.

(** C20: The unit tests of the client service pass, whatever book that works the
    service runs on and in whatever order the quotes of a request are handled:
    ten quotes and 29 quotes are created and listed, 30 are refused, dust is
    refused with its message and does not get in the way of later requests, a
    request sent twice and a request with known quotes are answered with the
    quotes of the first time, queries are filtered by pair, range and limit,
    and subscribers get the updates of their pair in order.  The tests are run
    while two readings of the system clock are later one than the other. *)
Theorem service_tests_pass w :
  book_up (cs_quote_book w.2) → contents (cs_quote_book w.2) = [] → ticks 2 (trace w.1) →
  passing (submit_quotes_add_quotes schedule) w ∧
  passing (submit_quotes_rejects_quotes_above_max_simultaneous_quotes schedule) w ∧
  passing (submit_quotes_refuses_dust schedule) w ∧
  passing (submit_quotes_refuses_identical_duplicate_request schedule) w ∧
  passing (submit_quotes_doesnt_add_duplicate_quotes schedule) w ∧
  passing (get_quotes_filter_correctly schedule) w ∧
  passing (streaming_works_without_filtering (A:=A) schedule) w ∧
  passing (streaming_works_and_filters_correctly (A:=A) schedule) w.
Proof.
  intros Hup Hc Hj.
  assert (∀ j, (j ≤ 2)%nat → serving j [] [] w) as Hsv.
  { intros j Hle. split; [done|by rewrite Hc|by intros x ?%elem_of_nil|apply NoDup_nil_2|apply NoDup_nil_2| | |by eapply ticks_le];
      [by intros sci ?%elem_of_nil|by intros sci x ?%elem_of_nil]. }
  split_and!; [apply add_quotes_passes|apply above_max_passes|apply dust_passes|apply identical_duplicate_passes
    |apply duplicates_pass|apply filter_passes|apply streaming_passes|apply filtered_streaming_passes]; apply Hsv; lia.
Qed.
End Rules.

(** The tests run. *)
Module ServiceTestsExamples.
Import SampleCodec SampleDb BookEquivExamples ConformanceExamples ApiConvertExamples.
Definition served : Outside * ClientService InMemoryQuoteBook := (outside_at_start 10, mk_service [] im_default).
Definition backwards (n : nat) : list nat := reverse (seq 0 n).
Example service_tests_run :
  is_ok (submit_quotes_add_quotes (A:=list Z) backwards served).1 = true ∧
  is_ok (submit_quotes_rejects_quotes_above_max_simultaneous_quotes (A:=list Z) backwards served).1 = true ∧
  is_ok (submit_quotes_refuses_dust (A:=list Z) backwards served).1 = true ∧
  is_ok (submit_quotes_refuses_identical_duplicate_request (A:=list Z) backwards served).1 = true ∧
  is_ok (submit_quotes_doesnt_add_duplicate_quotes (A:=list Z) backwards served).1 = true ∧
  is_ok (get_quotes_filter_correctly (A:=list Z) backwards served).1 = true ∧
  is_ok (streaming_works_without_filtering (A:=list Z) backwards served).1 = true ∧
  is_ok (streaming_works_and_filters_correctly (A:=list Z) backwards served).1 = true.
Proof. by vm_compute. Qed.

(** On a book in a database, the quotes handled last to first. *)
Definition on_sqlite : Outside * ClientService (SqliteQuoteBook Db InMemoryQuoteBook) := (outside_at_start 10, mk_service [] new_world.2).

Lemma service_tests_pass_witness :
  (∀ n, backwards n ≡ₚ seq 0 n) ∧ passing (submit_quotes_add_quotes (A:=list Z) backwards) on_sqlite ∧
  passing (get_quotes_filter_correctly (A:=list Z) backwards) on_sqlite.
Proof.
  assert (∀ n, backwards n ≡ₚ seq 0 n) as Hb by (intros n; apply reverse_Permutation). split; [exact Hb|].
  assert (ticks 2 (trace on_sqlite.1)) as Ht by by vm_compute.
  pose proof (service_tests_pass (A:=list Z) backwards Hb on_sqlite new_world_up eq_refl Ht)
    as (H1 & _ & _ & _ & _ & H6 & _). exact (conj H1 H6).
Defined.
End ServiceTestsExamples.
