(* ===== verification/ServiceSync.v ===== *)
(** The test of the client service with a synchronized book
    (server/src/client_service.rs,
    [submitting_expired_quotes_produces_quote_is_stale_error]): a quote that was
    accepted is gone once its input is spent, and refused from then on. *)

From S2P Require Import Prelude McTypes QuoteApi QuotePricing QuoteBook InMemory SqlTypes Sqlite BookEquiv TestUtils Conformance QuoteTests Synchronized SyncTests ApiConvert ClientService ServiceRules ServiceTests.

Section Test.
Context `{McLib} {S Acc IC B A L : Type} `{!HashIter Pair (list Quote), !SciApi A}.
Context `{!TestLib S Acc IC B, !TestLedger S L, !Ledger L}.
Variable rounds : SyncWorld S → nat.
(** The world of the book, and the bus of the server. *)
Local Abbreviation world := (SyncWorld S * list Msg)%type.
Local Abbreviation test := (stateful world Error).

Definition in_sync {X} (m : stateful (SyncWorld S) Error X) : test X := λ w, let '(r, y) := m w.1 in (r, (y, w.2)).

(** The server on the shared book. *)
Definition sync_service (w : world) : ClientService (SynchronizedQuoteBook InMemoryQuoteBook L) :=
  mk_service w.2 (shared_book w.1).

Definition sync_submit (sci : SignedContingentInput) : test (SubmitQuotesResponse A) :=
  now <-- in_sync (in_setting (from_fun system_time));;
  in_sync (background (L:=L) rounds);;;
  λ w,
    let '(r, service) := submit_quotes_impl test_sci_validator now [0%nat] [sci_to_api sci] (sync_service w) in
    (match r with Ok resp => Ok resp | Err _ => Panic "submit quote failed" | Panic p => Panic p end,
     (with_book (sync_quote_book (cs_quote_book service)) w.1, cs_msg_bus service)).

Definition sync_expect_scis (p : Pair) (expected : list SignedContingentInput) : test unit :=
  in_sync (background (L:=L) rounds);;;
  λ w,
    (match get_quotes_impl (A:=A) (quotes_request p 0 0 0) (sync_service w) with
     | Ok quotes =>
         match collect_results (λ o, sci_from_api (default api_sci_default (aq_sci o))) quotes with
         | Ok scis => rust_assert (bool_decide (scis = expected)) "assertion failed: `(left == right)`"
         | Err _ => Panic "called `Result::unwrap()` on an `Err` value"
         | Panic p => Panic p
         end
     | Err _ => Panic "get quotes failed"
     | Panic p => Panic p
     end, w).

(** [while quote_book.get_current_block_index() + 1 < ledger.num_blocks().unwrap()]
    with [tries] tries; the thread makes a round while the test sleeps. *)
Fixpoint catch_up (tries : nat) : stateful (SyncWorld S) Error unit :=
  n <-- ledger_num_blocks;;
  λ w,
    if u64_add (get_current_block_index (shared_book (L:=L) w)) 1 <? n then
      (thread_round;;;
       match tries with
       | O => st_lift (Panic "attempt to subtract with overflow")
       | 1%nat => st_lift (Panic "Quote book failed to catch up in time")
       | Datatypes.S tries => catch_up tries
       end) w
    else (Ok tt, w).

Definition submitting_expired_quotes_produces_quote_is_stale_error : test unit :=
  starting_blocks <-- in_sync ledger_num_blocks;;
  sci <-- in_sync (st_create zero_one_pair);;
  n <-- in_sync ledger_num_blocks;;
  assert_eq n (u64_add starting_blocks 1);;;
  resp <-- sync_submit sci;;
  assert_eq (sr_status_codes resp) [CREATED];;;
  sync_expect_scis zero_one_pair [sci];;;
  in_sync (spend [sci_key_image sci]);;;
  n <-- in_sync ledger_num_blocks;;
  assert_eq n (u64_add starting_blocks 2);;;
  in_sync (catch_up 500);;;
  sync_expect_scis zero_one_pair [];;;
  resp <-- sync_submit sci;;
  assert_eq (sr_status_codes resp) [QUOTE_IS_STALE];;;
  sync_expect_scis zero_one_pair [].
End Test.

(** * The test passes *)

(** A request with one SCI. *)
Lemma submit_single `{McLib} {A OB} `{!SciApi A, !SciApiLaws A, !QuoteBook OB} v ts sci (s : ClientService OB) r b' :
  is_u64 ts → submit_one v ts sci (cs_quote_book s) = (r, b') → is_panic r = false →
  submit_quotes_impl v (Some ts) [0%nat] [sci_to_api (A:=A) sci] s =
  (Ok (response_of [r]), mk_service (cs_msg_bus s ++ (SciQuoteAdded <$> option_list (result_quote r))) b').
Proof.
  intros Hts Hone Hr. unfold submit_quotes_impl, request_timestamp. cbn [length]. rewrite bool_decide_true by done.
  cbn [collect_results]. rewrite sci_api_roundtrip. cbn -[submit_one]. rewrite Hone. cbn.
  destruct r as [q|e|msg]; [done| |done]. rewrite app_nil_r. by destruct e.
Qed.

#[export] Instance zero_one_TestPair : TestPair zero_one_pair.
Proof. done. Qed.

Section Passing.
Context `{McLib} `{!McLibLaws _, !TombstoneLaws _, !TestTombstones} {S Acc IC B A L : Type} `{!HashIter Pair (list Quote), !SciApi A, !SciApiLaws A}.
Context `{!TestLib S Acc IC B, !TestLibLaws S Acc IC B, !TestLedger S L, !Ledger L, !LedgerLaws L, !TestLedgerLaws S Acc IC B L}.
Variable rounds : SyncWorld S → nat.
Local Abbreviation world := (SyncWorld S * list Msg)%type.
Local Abbreviation test := (stateful world Error).
Implicit Types (w : world) (l removed : list Quote) (p : Pair).

Lemma returns_in_sync {X Y} (m : stateful (SyncWorld S) Error X) w (cont : X → test Y) Q :
  returns (x <-- m;; st_ret x) w.1 (λ x y, returns (cont x) (y, w.2) Q) → returns (x <-- in_sync m;; cont x) w Q.
Proof.
  intros (x & y & Hm & HQ). apply returns_bind. exists x, (y, w.2). split; [|done]. unfold st_bind, st_ret in Hm.
  unfold in_sync. destruct (m w.1) as [[x'|e|msg] y'] eqn:E; [|done..]. by simplify_eq.
Qed.

Lemma returns_in_sync_unit {Y} (m : stateful (SyncWorld S) Error unit) w (cont : test Y) Q :
  returns (m;;; st_ret tt) w.1 (λ _ y, returns cont (y, w.2) Q) → returns (in_sync m;;; cont) w Q.
Proof.
  intros (x & y & Hm & HQ). apply returns_in_sync. exists x, y. split; [|done]. unfold st_bind, st_ret in *.
  destruct (m w.1) as [[[]|e|msg] y'] eqn:E; [|done..]. by simplify_eq.
Qed.

Lemma returns_same_as {X Y} `{EqDecision X} (a a' : X) w (cont : test Y) Q :
  a = a' → returns cont w Q → returns (assert_eq a a';;; cont) w Q.
Proof. intros -> Hk. apply returns_bind, (returns_lift _ tt); [|done]. by rewrite bool_decide_true. Qed.

(** The handler as a call on the shared book. *)
Definition submit_on (bus : list Msg) (sci : SignedContingentInput) (now : option Z) :
    stateful (SynchronizedQuoteBook InMemoryQuoteBook L) Error (outcome RpcStatus (SubmitQuotesResponse A) * list Msg) := λ b,
  let '(r, service) := submit_quotes_impl test_sci_validator now [0%nat] [sci_to_api sci] (mk_service bus b) in
  (Ok (r, cs_msg_bus service), cs_quote_book service).

Lemma sync_submit_as sci w :
  sync_submit rounds sci w =
  match (now <-- in_setting (from_fun system_time);; on_shared rounds (submit_on w.2 sci now)) w.1 with
  | (Ok (r, bus), y) => (match r with Ok resp => Ok resp | Err _ => Panic "submit quote failed" | Panic msg => Panic msg end, (y, bus))
  | (Err e, y) => (Err e, (y, w.2))
  | (Panic msg, y) => (Panic msg, (y, w.2))
  end.
Proof.
  unfold sync_submit, st_bind, in_sync, on_shared, submit_on, sync_service.
  destruct (in_setting _ w.1) as [[now|e|msg] y1]; [|done..]. cbn.
  unfold st_bind. destruct (background rounds y1) as [[u|e|msg] y2]; [|done..]. cbn.
  by destruct (submit_quotes_impl _ _ _ _ _) as [r service].
Qed.

Lemma submit_one_test p t sci ts (b : SynchronizedQuoteBook InMemoryQuoteBook L) :
  sci_on (test_offer p (sci_key_image sci) t) sci → is_u64 ts →
  submit_one test_sci_validator ts sci b =
  match sync_add_quote (test_quote p sci ts) b with
  | (Ok _, b') => (Ok (test_quote p sci ts), b')
  | (Err e, b') => (Err e, b')
  | (Panic msg, b') => (Panic msg, b')
  end.
Proof.
  intros Hon Hts. assert (test_sci_validator sci = Ok tt) as Hv by (unfold test_sci_validator; by rewrite (on_base _ _ Hon)).
  unfold submit_one, qb_add_sci, st_bind, st_lift, st_ret. rewrite Hv, (proj2 (test_quote_new p _ _ _ ts None Hon Hts)).
  cbn [qb_add_quote SynchronizedQuoteBook_QuoteBook]. by destruct (sync_add_quote _ b) as [[]].
Qed.

Lemma submitted_returns {X} p `{!TestPair p} t sci k n l removed w (cont : SubmitQuotesResponse A → test X) Q :
  running (Datatypes.S k) n l removed w.1 → alive n l w.1 → offered p l t sci (sw_env w.1) → (0 < n)%nat → t = 0 ∨ Z.of_nat n ≤ t ≤ 2000 →
  (∀ ts w', let q := test_quote p sci ts in running k n (q :: l) removed w'.1 → alive n (q :: l) w'.1 →
     returns (cont (response_of [Ok q])) w' Q) →
  returns (resp <-- sync_submit rounds sci;; cont resp) w Q.
Proof.
  intros Hr Hal Hof Hpos Ht HQ. apply returns_bind.
  destruct (called_returns rounds k n l removed w.1 (submit_on w.2 sci) Hr)
    as (ts & y & l' & rem' & Hr' & Hkeep & Hsame & Hts & Hlast & _ & Hcall). destruct (Hkeep Hal) as (-> & -> & Hal').
  destruct (shared_add p k n l removed y sci t ts) as (b' & Hadd & Hr2 & Hal2);
    [done|done|by apply (offered_same p _ _ _ (sw_env w.1))|done..|].
  unfold returns. rewrite sync_submit_as, Hcall. unfold submit_on.
  erewrite submit_single; [|done|rewrite (submit_one_test p t) by (done || apply Hof); cbn [cs_quote_book]; by rewrite Hadd|done].
  eexists _, _. split; [done|]. by apply (HQ ts (_, _)).
Qed.

Lemma stale_returns {X} p `{!TestPair p} t sci k n l removed w (cont : SubmitQuotesResponse A → test X) Q :
  running (Datatypes.S k) n l removed w.1 → alive n l w.1 → sci_on (test_offer p (sci_key_image sci) t) sci → (0 < n)%nat →
  sci_key_image sci ∈ Synchronized.key_images (chain_of (sw_env w.1)) →
  (∀ w', running k n l removed w'.1 → alive n l w'.1 → returns (cont (response_of [Err QuoteIsStale])) w' Q) →
  returns (resp <-- sync_submit rounds sci;; cont resp) w Q.
Proof.
  intros Hr Hal Hon Hpos Hin HQ. apply returns_bind.
  destruct (called_returns rounds k n l removed w.1 (submit_on w.2 sci) Hr)
    as (ts & y & l' & rem' & Hr' & Hkeep & (Hch & _ & _) & Hts & _ & _ & Hcall). destruct (Hkeep Hal) as (-> & -> & Hal').
  assert (sync_add_quote (test_quote p sci ts) (shared_book (L:=L) y) = (Err QuoteIsStale, shared_book y)) as Hadd.
  { unfold sync_add_quote, st_bind, st_lift. cbn [sync_ledger shared_book]. destruct Hr' as [_ _ _ _ Hb Hroom _ _ _ _].
    rewrite (check_stale p n t sci ts (sw_env y) (sci_key_image sci)); [done|done|done|lia|done|]. left. by rewrite Hch. }
  unfold returns. rewrite sync_submit_as, Hcall. unfold submit_on.
  erewrite submit_single; [|done|rewrite (submit_one_test p t) by done; cbn [cs_quote_book]; by rewrite Hadd|done].
  eexists _, _. split; [done|]. apply (HQ (_, _)); cbn; by destruct y as [? []].
Qed.

Lemma expected_returns {X} p `{!TestPair p} all k n l removed w (cont : test X) Q :
  running k n l removed w.1 → alive n l w.1 → StronglySorted (cmp_lt quote_cmp) all → all ≡ₚ selected p everything l →
  (∀ y, running k n l removed y → sw_env y = sw_env w.1 → returns cont (y, w.2) Q) →
  returns (sync_expect_scis (A:=A) rounds p (q_sci <$> all);;; cont) w Q.
Proof.
  intros Hr Hal Hs Hp HQ. destruct (background_keeps rounds k n l removed w.1 Hr Hal) as (y & Hbg & He & Hr').
  pose proof (run_up _ _ _ _ _ Hr') as Him. assert (book_up (f_quotebook (sw_thread y))) as Hup by done.
  set (range := (Included 0, Included U64_MAX)).
  destruct (up_get_quotes p range 0 (f_quotebook (sw_thread y)) Hup) as [res Hres].
  assert (res = all) as ->.
  { apply (listing_unique (contents (f_quotebook (sw_thread y))) p range 0); [by apply (up_priced _ Hup)| |].
    - apply get_quotes_ok; [apply Him|done|done].
    - exists all. split; [done|]. split; [|done]. rewrite Hp. rewrite (run_contents _ _ _ _ _ Hr'). done. }
  apply returns_bind. exists tt, (y, w.2). split; [|by apply HQ].
  unfold sync_expect_scis, st_bind, in_sync. rewrite Hbg. unfold get_quotes_impl, sync_service, quotes_request.
  cbn [gq_pair gq_base_range_min gq_base_range_max gq_limit fst snd cs_quote_book qb_get_quotes SynchronizedQuoteBook_QuoteBook
       shared_book sync_quote_book Z.eqb andb].
  replace (pair_from_api _) with p by (by destruct p). fold range. rewrite Hres. cbn.
  rewrite received_scis_ok. cbn. by rewrite bool_decide_true.
Qed.

Lemma catch_up_returns {X} tries k n l removed w (cont : test X) Q :
  running k n l removed w.1 → (1 < n)%nat → f_next_block_index (sw_thread w.1) < Z.of_nat n →
  (∀ y, running k n (filter (λ q, outdated n w.1 q = false) l) (removed ++ filter (λ q, outdated n w.1 q = true) l) y →
     sw_env y = sw_env w.1 → returns cont (y, w.2) Q) →
  returns (in_sync (catch_up (L:=L) (Datatypes.S (Datatypes.S tries)));;; cont) w Q.
Proof.
  intros Hr Hn Hlt HQ. destruct (thread_round_sweeps rounds k n l removed w.1 Hr Hlt) as (y & Hround & He & Hhigh & Hr').
  assert (∀ y1 (m : Z → stateful (SyncWorld S) Error unit), sw_env y1 = sw_env w.1 → (x <-- ledger_num_blocks;; m x) y1 = m (Z.of_nat n) y1) as Hnum.
  { intros y1 m E. pose proof (run_blocks _ _ _ _ _ Hr) as Hb. pose proof (run_room _ _ _ _ _ Hr). unfold chain_of in Hb.
    unfold st_bind, ledger_num_blocks, unwrap, ledger_error. rewrite E, ledger_num, Hb by lia. done. }
  assert (∀ i, -1 ≤ i < Z.of_nat n → u64_add i 1 = i + 1) as Hadd.
  { intros i Hi. pose proof (run_room _ _ _ _ _ Hr). unfold u64_add. apply wrap64_small. unfold is_u64, U64_MAX in *. lia. }
  apply returns_bind. exists tt, (y, w.2). split; [|by apply HQ]. unfold in_sync.
  enough (catch_up (L:=L) (Datatypes.S (Datatypes.S tries)) w.1 = (Ok tt, y)) as -> by done.
  pose proof (run_highest _ _ _ _ _ Hr) as Hh. pose proof (run_next _ _ _ _ _ Hr) as Hx.
  cbn [catch_up]. rewrite Hnum by done. unfold get_current_block_index. cbn [shared_book sync_highest_processed_block_index].
  rewrite Hadd, (proj2 (Z.ltb_lt _ _)) by lia. unfold st_bind at 1. rewrite Hround. destruct tries as [|tries]; cbn [catch_up];
    rewrite Hnum by done; unfold get_current_block_index; cbn [shared_book sync_highest_processed_block_index];
    by rewrite Hadd, Hhigh, (proj2 (Z.ltb_ge _ _)) by lia.
Qed.

(** A quote on a server with a synchronized book, from submission to
    staleness: the unit test passes however many rounds the thread makes
    between the calls.  The quote is created and listed; when a block spends
    its input the thread catches up in one of the 500 tries, the quote is no
    longer listed, and submitting it again is answered with
    [QUOTE_IS_STALE]. *)
Lemma stale_test_passes s bus :
  length (chain_of s) = 3%nat → ticks 8 (trace s) →
  Z.of_nat TEST_RING_SIZE ≤ Z.of_nat (length (outputs_of (chain_of s))) ≤ 2 ^ 32 →
  returns (submitting_expired_quotes_produces_quote_is_stale_error (A:=A) rounds) (sync_setup s, bus) (λ _ _, True).
Proof.
  intros Hb Ht Ho. assert (running 8 3 [] [] (sync_setup s)) as Hr by by apply setup_running.
  unfold submitting_expired_quotes_produces_quote_is_stale_error.
  apply returns_in_sync. eapply num_blocks_returns; [exact Hr|]. apply returns_ret.
  apply returns_in_sync. eapply (create_returns_built zero_one_pair); [exact Hr|]. intros sci w1 Hr1 Ho1 _. apply returns_ret.
  apply returns_in_sync. eapply num_blocks_returns; [exact Hr1|]. apply returns_ret. apply returns_same_as; [done|].
  eapply (submitted_returns zero_one_pair); [exact Hr1|apply alive_nil|exact Ho1|lia|lia|]. intros ts w2 q Hr2 Hal2.
  apply returns_same_as; [done|]. pose proof (od_on _ _ _ _ _ Ho1) as Hon.
  eapply (expected_returns zero_one_pair [q]); [exact Hr2|done|apply sorted_one|by unfold q; rewrite (selected_test zero_one_pair _ _ _ _ _ Hon)|].
  intros y3 Hr3 _. apply returns_in_sync_unit. eapply spend_returns; [exact Hr3|]. intros y4 c Hks Hr4 _ Hch Hth. cbn [fst snd] in Hch, Hth. apply returns_ret.
  apply returns_in_sync. eapply num_blocks_returns; [exact Hr4|]. apply returns_ret. apply returns_same_as; [done|].
  pose proof (run_next _ _ _ _ _ Hr3) as Hnext. pose proof (run_blocks _ _ _ _ _ Hr3) as Hlen.
  assert (sci_key_image sci ∈ Synchronized.key_images (chain_of (sw_env y4))) as Hspent.
  { rewrite Hch, key_images_snoc, Hks. apply elem_of_app. right. left. }
  assert (outdated 5 y4 q = true) as Hgone.
  { unfold outdated, spent_from. fold (chain_of (sw_env y4)). rewrite Hth, Hch. rewrite drop_app_le by lia.
    rewrite bool_decide_true; [done|]. rewrite key_images_snoc, Hks. apply elem_of_app. right. left. }
  eapply catch_up_returns; [exact Hr4|lia|cbn; rewrite Hth; lia|]. intros y5 Hr5 He5. cbn [fst] in Hr5, He5.
  rewrite !filter_cons, decide_False, decide_True in Hr5 by (rewrite Hgone; done).
  eapply (expected_returns zero_one_pair []); [exact Hr5|apply alive_nil|apply SSorted_nil|done|]. intros y6 Hr6 He6. cbn [fst] in He6.
  eapply (stale_returns zero_one_pair 2000); [exact Hr6|apply alive_nil|exact Hon|lia|by cbn; rewrite He6, He5|].
  intros w7 Hr7 _. apply returns_same_as; [done|].
  destruct (expected_returns zero_one_pair [] _ _ _ _ w7 (st_ret tt) (λ _ _, True) Hr7) as (a & w8 & Hrun & _);
    [apply alive_nil|apply SSorted_nil|done|intros; by apply returns_ret|].
  unfold st_bind in Hrun. cbn in Hrun. unfold returns.
  destruct (sync_expect_scis rounds zero_one_pair [] w7) as [[u|e|msg] w9] eqn:E; [|done..]. by exists u, w9.
Qed.
End Passing.

(** * The test on an example *)

Module ServiceSyncExamples.
Import SampleCodec SampleLedger ConformanceExamples SyncTestsExamples ApiConvertExamples.

Example stale_test_runs :
  is_ok (submitting_expired_quotes_produces_quote_is_stale_error (A:=list Z) (L:=Chain) twice (sync_setup start, [])).1 = true.
Proof. by vm_compute. Qed.

Lemma stale_test_passes_witness :
  returns (submitting_expired_quotes_produces_quote_is_stale_error (A:=list Z) (L:=Chain) twice) (sync_setup start, []) (λ _ _, True).
Proof.
  assert (length (chain_of (L:=Chain) start) = 3%nat) as H1 by done.
  assert (ticks 8 (trace start)) as H2 by by vm_compute.
  assert (Z.of_nat TEST_RING_SIZE ≤ Z.of_nat (length (outputs_of (chain_of (L:=Chain) start))) ≤ 2 ^ 32) as H3
    by (split; vm_compute; done).
  exact (stale_test_passes (A:=list Z) (L:=Chain) twice start [] H1 H2 H3).
Defined.
End ServiceSyncExamples.
