(* ===== verification/ServerP2P.v ===== *)
(** The server's side of the peer-to-peer network (server/src/p2p/mod.rs,
    rpc.rs, rpc_error.rs, metrics.rs), its errors (server/src/error.rs) and its
    event loop (server/src/server.rs).

    The network client is a parameter: [send] is what a peer answers to a
    request, [publish] what becomes of a published message.  The background
    tasks that add the quotes of different replies run concurrently: every
    theorem holds for every interleaving of their additions. *)

From S2P Require Import Prelude McTypes QuoteApi QuotePricing QuoteBook InMemory SqlTypes ApiConvert ClientService.

Definition MSG_BUS_TOPIC : string := "mc/deqs/server/msg-bus".
Definition MAX_QUOTES_PER_REQUEST : nat := 100.

(** * rpc_error.rs *)

Inductive RpcQuoteBookError :=
| RpcSci (e : SciError)
| RpcUnsupportedSci (msg : string)
| RpcQuoteAlreadyExists
| RpcQuoteNotFound
| RpcQuoteIsStale
| RpcOther (msg : string).

Inductive RpcError :=
| RpcQuoteBook (e : RpcQuoteBookError)
| UnexpectedResponse
| TooManyQuotesRequested.

(** [impl From<QuoteBookError> for RpcQuoteBookError] and [for RpcError] *)
Definition rpc_quote_book_error (err : Error) : RpcQuoteBookError :=
  match err with
  | SciErr err => RpcSci err
  | UnsupportedSci err => RpcUnsupportedSci err
  | QuoteAlreadyExists _ => RpcQuoteAlreadyExists
  | QuoteNotFound => RpcQuoteNotFound
  | QuoteIsStale => RpcQuoteIsStale
  | err => RpcOther (error_display err)
  end.
Definition rpc_error (err : Error) : RpcError := RpcQuoteBook (rpc_quote_book_error err).

(** * error.rs of the server; errors of other crates by their text *)

Inductive ServerError :=
| GrpcError (e : string)
| DecodeError (e : string)
| EncodeError (e : string)
| P2PClientError (e : string)
| P2PError (e : string)
| P2PRpcError (e : RpcError)
| QuoteBookError (e : Error)
| TaskJoinError.

(** * rpc.rs *)

Inductive Request := GetAllQuoteIds | GetQuotesById (ids : list QuoteId).
Inductive Response :=
| AllQuoteIds (ids : list QuoteId)
| MaybeQuotes (quotes : list (outcome RpcError (option Quote)))
| ResponseError (e : RpcError).

Definition metrics_method_name (r : Request) : string :=
  match r with GetAllQuoteIds => "get_all_quote_ids" | GetQuotesById _ => "get_quotes_by_id" end.

Section RpcClient.
(** What the peer answers to a request, through [retrying_rpc_request]. *)
Context (send : Request → outcome string Response).

Definition get_all_quote_ids : outcome ServerError (list QuoteId) :=
  match send GetAllQuoteIds with
  | Ok (AllQuoteIds quote_ids) => Ok quote_ids
  | Ok (ResponseError err) => Err (P2PRpcError err)
  | Ok _ => Err (P2PRpcError UnexpectedResponse)
  | Err err => Err (P2PClientError err)
  | Panic p => Panic p
  end.

Definition get_quotes_by_id (quote_ids : list QuoteId) :
    outcome ServerError (list (outcome RpcError (option Quote))) :=
  match send (GetQuotesById quote_ids) with
  | Ok (MaybeQuotes quotes) =>
      if (length quote_ids =? length quotes)%nat then Ok quotes
      else Err (P2PRpcError UnexpectedResponse)
  | Ok (ResponseError err) => Err (P2PRpcError err)
  | Ok _ => Err (P2PRpcError UnexpectedResponse)
  | Err err => Err (P2PClientError err)
  | Panic p => Panic p
  end.
End RpcClient.

(** * metrics.rs: the counters by method *)

Record P2PRpcMetrics := {
  num_req : gmap string Z;
  num_success : gmap string Z;
  num_error : gmap string Z;
}.
Definition inc (m : gmap string Z) (k : string) : gmap string Z := <[k := default 0 (m !! k) + 1]> m.

Definition metrics_req (m : P2PRpcMetrics) (req : Request) : P2PRpcMetrics * string :=
  let method_name := metrics_method_name req in
  ({| num_req := inc (num_req m) method_name; num_success := num_success m; num_error := num_error m |},
   method_name).

Definition metrics_resp (m : P2PRpcMetrics) (method_name : string) (resp : Response) : P2PRpcMetrics :=
  match resp with
  | ResponseError _ =>
      {| num_req := num_req m; num_success := num_success m; num_error := inc (num_error m) method_name |}
  | _ =>
      {| num_req := num_req m; num_success := inc (num_success m) method_name; num_error := num_error m |}
  end.

(** * mod.rs *)

Inductive GossipMsgBusData := GossipSciQuoteAdded (quote : Quote).

(** [mc_util_serial::{serialize, deserialize}] of gossip messages. *)
Class GossipCodec := {
  gossip_serialize : GossipMsgBusData → outcome string bytes;
  gossip_deserialize : bytes → outcome string GossipMsgBusData;
}.

(** The events of the network the server handles. *)
Inductive NetworkEvent :=
| ConnectionEstablished (peer_id : bytes)
| GossipMessage (topic : string) (data : bytes)
| RpcRequest (peer : bytes) (request : Request)
| OtherEvent.

(** [struct P2P]: the quote book and the metrics, with what was sent: the
    published messages, the responses, and the peers a task was started for. *)
Record P2P (QB : Type) := mk_p2p {
  p2p_quote_book : QB;
  p2p_metrics : P2PRpcMetrics;
  p2p_published : list (string * bytes);
  p2p_responses : list Response;
  p2p_syncs : list bytes;
}.
Arguments mk_p2p {QB} _ _ _ _ _.
Arguments p2p_quote_book {QB} _.
Arguments p2p_metrics {QB} _.
Arguments p2p_published {QB} _.
Arguments p2p_responses {QB} _.
Arguments p2p_syncs {QB} _.

Section Handlers.
Context `{McLib, GossipCodec} {QB : Type} `{!QuoteBook QB}.
(** What becomes of a published message, and of a response that is sent. *)
Context (publish : string → bytes → outcome string unit) (respond : Response → outcome string unit).
Abbreviation state := (P2P QB).

Definition set_book (s : state) (b : QB) : state :=
  mk_p2p b (p2p_metrics s) (p2p_published s) (p2p_responses s) (p2p_syncs s).

Definition broadcast_sci_quote_added (quote : Quote) : stateful state ServerError unit := λ s,
  match gossip_serialize (GossipSciQuoteAdded quote) with
  | Ok data =>
      let s' := mk_p2p (p2p_quote_book s) (p2p_metrics s) (p2p_published s ++ [(MSG_BUS_TOPIC, data)])
                  (p2p_responses s) (p2p_syncs s) in
      (map_err P2PClientError (publish MSG_BUS_TOPIC data), s')
  | Err e => (Err (EncodeError e), s)
  | Panic p => (Panic p, s)
  end.

(** Spawns [sync_quotes_from_peer] for the peer. *)
Definition handle_connection_established (peer_id : bytes) : stateful state ServerError unit := λ s,
  (Ok tt, mk_p2p (p2p_quote_book s) (p2p_metrics s) (p2p_published s) (p2p_responses s)
            (p2p_syncs s ++ [peer_id])).

(** One quote of the answer to [GetQuotesById]. *)
Definition lookup_quote (b : QB) (quote_id : QuoteId) : outcome RpcError (option Quote) :=
  map_err rpc_error (qb_get_quote_by_id quote_id b).

(** The response [handle_rpc_request] computes; a lookup that panics makes it
    panic. *)
Definition rpc_response (b : QB) (request : Request) : outcome ServerError Response :=
  match request with
  | GetAllQuoteIds =>
      match qb_get_quote_ids None b with
      | Ok ids => Ok (AllQuoteIds ids)
      | Err err => Ok (ResponseError (RpcQuoteBook (rpc_quote_book_error err)))
      | Panic p => Panic p
      end
  | GetQuotesById quote_ids =>
      if (length quote_ids <=? MAX_QUOTES_PER_REQUEST)%nat then
        match list_find (λ r, is_panic r = true) (lookup_quote b <$> quote_ids) with
        | Some (_, Panic p) => Panic p
        | _ => Ok (MaybeQuotes (lookup_quote b <$> quote_ids))
        end
      else Ok (ResponseError TooManyQuotesRequested)
  end.

Definition handle_rpc_request (request : Request) : stateful state ServerError unit := λ s,
  let '(metrics, method_name) := metrics_req (p2p_metrics s) request in
  let s := mk_p2p (p2p_quote_book s) metrics (p2p_published s) (p2p_responses s) (p2p_syncs s) in
  match rpc_response (p2p_quote_book s) request with
  | Ok response =>
      let s := mk_p2p (p2p_quote_book s) (metrics_resp metrics method_name response)
                 (p2p_published s) (p2p_responses s ++ [response]) (p2p_syncs s) in
      (map_err P2PClientError (respond response), s)
  | Err e => (Err e, s)
  | Panic p => (Panic p, s)
  end.

(** [handle_sci_quote_added]: the sanity check only decides what is logged. *)
Definition handle_sci_quote_added (remote_quote : Quote) : stateful state ServerError unit := λ s,
  let '(r, b) := qb_add_sci None (q_sci remote_quote) (Some (q_timestamp remote_quote)) (p2p_quote_book s) in
  (local_quote ← map_err QuoteBookError r; Ok tt, set_book s b).

Definition handle_msg_bus_message (msg : GossipMsgBusData) : stateful state ServerError unit :=
  match msg with GossipSciQuoteAdded quote => handle_sci_quote_added quote end.

Definition handle_gossip_message (topic : string) (data : bytes) : stateful state ServerError unit :=
  if bool_decide (topic = MSG_BUS_TOPIC) then
    msg <-- st_lift (map_err DecodeError (gossip_deserialize data)) ;;
    handle_msg_bus_message msg
  else st_ret tt.

(** [handle_network_event]: errors are logged. *)
Definition handle_network_event (event : NetworkEvent) (s : state) : state :=
  match event with
  | ConnectionEstablished peer_id => (handle_connection_established peer_id s).2
  | GossipMessage topic data => (handle_gossip_message topic data s).2
  | RpcRequest _ request => (handle_rpc_request request s).2
  | OtherEvent => s
  end.
End Handlers.

(** * [sync_quotes_from_peer] *)

(** [BTreeSet::from_iter] *)
Definition id_set (ids : list QuoteId) : list QuoteId :=
  fold_left (λ acc i, (bset_insert bytes_cmp i acc).2) ids [].

(** [slice::chunks(n)] *)
Fixpoint chunks_fuel {A} (fuel n : nat) (l : list A) : list (list A) :=
  match fuel, l with
  | S fuel, _ :: _ => take n l :: chunks_fuel fuel n (drop n l)
  | _, _ => []
  end.
Definition chunks {A} (n : nat) (l : list A) : list (list A) := chunks_fuel (length l) n l.

(** A spawned task: the answers still to be handled and the results so far. *)
Record SyncTask := mk_task {
  t_todo : list (outcome RpcError (option Quote));
  t_results : list (outcome ServerError unit);
}.

Section Sync.
Context `{McLib} {QB : Type} `{!QuoteBook QB}.

(** The closure that handles the answer for one quote. *)
Definition sync_one (maybe_quote : outcome RpcError (option Quote)) : stateful QB ServerError unit :=
  match maybe_quote with
  | Ok (Some quote) => λ b,
      let '(r, b) := qb_add_sci None (q_sci quote) (Some (q_timestamp quote)) b in
      (_ ← map_err QuoteBookError r; Ok tt, b)
  | Ok None => st_lift (Err (QuoteBookError QuoteNotFound))
  | Err err => st_lift (Err (P2PRpcError err))
  | Panic p => st_lift (Panic p)
  end.

(** One step of a task; after a panic it is over. *)
Definition task_step (t : SyncTask) (b : QB) : SyncTask * QB :=
  match t_todo t with
  | [] => (t, b)
  | maybe_quote :: rest =>
      let '(r, b) := sync_one maybe_quote b in
      (mk_task (if is_panic r then [] else rest) (t_results t ++ [r]), b)
  end.

(** The tasks take steps in the order the schedule says. *)
Fixpoint run_tasks (schedule : list nat) (tasks : list SyncTask) (b : QB) : list SyncTask * QB :=
  match schedule with
  | [] => (tasks, b)
  | k :: schedule =>
      match tasks !! k with
      | Some t => let '(t, b) := task_step t b in run_tasks schedule (<[k := t]> tasks) b
      | None => run_tasks schedule tasks b
      end
  end.

(** The counts the function logs. *)
Record SyncCounts := { num_added : Z; num_duplicate : Z; num_missing : Z; num_errors : Z }.
Definition count_result (c : SyncCounts) (r : outcome ServerError unit) : SyncCounts :=
  match r with
  | Ok _ => {| num_added := num_added c + 1; num_duplicate := num_duplicate c;
               num_missing := num_missing c; num_errors := num_errors c |}
  | Err (QuoteBookError (QuoteAlreadyExists _)) =>
      {| num_added := num_added c; num_duplicate := num_duplicate c + 1;
         num_missing := num_missing c; num_errors := num_errors c |}
  | Err (QuoteBookError QuoteNotFound) =>
      {| num_added := num_added c; num_duplicate := num_duplicate c;
         num_missing := num_missing c + 1; num_errors := num_errors c |}
  | _ => {| num_added := num_added c; num_duplicate := num_duplicate c;
            num_missing := num_missing c; num_errors := num_errors c + 1 |}
  end.

(** The results of a task that did not panic. *)
Definition task_results (t : SyncTask) : list (outcome ServerError unit) :=
  if existsb is_panic (t_results t) then [] else t_results t.

(** The ids that are missing here, in order. *)
Definition missing_ids (remote local : list QuoteId) : list QuoteId :=
  filter (λ i, i ∉ local) (id_set remote).

(** Requests that fail leave their task without answers, and their error is
    dropped by [flatten]. *)
Definition sync_tasks (send : Request → outcome string Response) (missing : list QuoteId) : list SyncTask :=
  (λ quote_ids,
     mk_task (match get_quotes_by_id send quote_ids with Ok quotes => quotes | _ => [] end) [])
    <$> chunks MAX_QUOTES_PER_REQUEST missing.

Definition sync_quotes_from_peer (send : Request → outcome string Response) (schedule : list nat) :
    stateful QB ServerError SyncCounts := λ b,
  match get_all_quote_ids send with
  | Err e => (Err e, b)
  | Panic p => (Panic p, b)
  | Ok remote =>
      match qb_get_quote_ids None b with
      | Err e => (Err (QuoteBookError e), b)
      | Panic p => (Panic p, b)
      | Ok local =>
          let '(tasks, b) := run_tasks schedule (sync_tasks send (missing_ids remote local)) b in
          (Ok (fold_left count_result (tasks ≫= task_results)
                 {| num_added := 0; num_duplicate := 0; num_missing := 0; num_errors := 0 |}), b)
      end
  end.
End Sync.

(** * server.rs: the event loop *)

(** What [select!] wakes up for. *)
Inductive LoopEvent :=
| BusMessage (msg : option Msg)
| P2PEvent (event : option NetworkEvent)
| ShutdownRequested
| MetricsTick.

(** The loop's state: the p2p object and the gauges of metrics.rs. *)
Record ServerLoop (QB : Type) := mk_loop {
  sl_p2p : P2P QB;
  sl_sci_count : Z;
  sl_num_connected_peers : Z;
}.
Arguments mk_loop {QB} _ _ _.
Arguments sl_p2p {QB} _.
Arguments sl_sci_count {QB} _.
Arguments sl_num_connected_peers {QB} _.

Section Loop.
Context `{McLib, GossipCodec} {QB : Type} `{!QuoteBook QB}.
Context (publish : string → bytes → outcome string unit) (respond : Response → outcome string unit).
Context (connected_peers : outcome string (list bytes)).

(** [update_periodic_metrics] *)
Definition update_periodic_metrics (s : ServerLoop QB) : outcome ServerError unit * ServerLoop QB :=
  match qb_num_scis (p2p_quote_book (sl_p2p s)) with
  | Err e => (Err (QuoteBookError e), s)
  | Panic p => (Panic p, s)
  | Ok n =>
      let s := mk_loop (sl_p2p s) (as_i64 n) (sl_num_connected_peers s) in
      match connected_peers with
      | Err e => (Err (P2PClientError e), s)
      | Panic p => (Panic p, s)
      | Ok peers => (Ok tt, mk_loop (sl_p2p s) (sl_sci_count s) (as_i64 (Z.of_nat (length peers))))
      end
  end.

(** One turn of the loop: the next state, or [None] when it breaks. *)
Definition loop_step (event : LoopEvent) (s : ServerLoop QB) : option (ServerLoop QB) :=
  let with_p2p p := mk_loop p (sl_sci_count s) (sl_num_connected_peers s) in
  match event with
  | BusMessage (Some (SciQuoteAdded quote)) =>
      Some (with_p2p (broadcast_sci_quote_added publish quote (sl_p2p s)).2)
  | BusMessage (Some (SciQuoteRemoved _)) => Some s
  | BusMessage None => None
  | P2PEvent (Some event) => Some (with_p2p (handle_network_event respond event (sl_p2p s)))
  | P2PEvent None => None
  | ShutdownRequested => None
  | MetricsTick => Some (update_periodic_metrics s).2
  end.

(** The loop over the events that happen: whether it has ended, and its state. *)
Fixpoint event_loop (events : list LoopEvent) (s : ServerLoop QB) : bool * ServerLoop QB :=
  match events with
  | [] => (false, s)
  | event :: rest =>
      match loop_step event s with
      | Some s => event_loop rest s
      | None => (true, s)
      end
  end.
End Loop.

(** * Theorems *)

(** ** The ids a server asks for *)

#[export] Instance bytes_cmp_ord : OrdOn (λ _ : list Z, True) bytes_cmp.
Proof.
  split; intros.
  - apply bytes_cmp_refl.
  - apply bytes_cmp_opp.
  - by eapply bytes_cmp_trans.
Qed.

Lemma id_set_spec ids :
  StronglySorted (cmp_lt bytes_cmp) (id_set ids) ∧ ∀ i, i ∈ id_set ids ↔ i ∈ ids.
Proof.
  unfold id_set. assert (∀ acc, StronglySorted (cmp_lt bytes_cmp) acc →
    StronglySorted (cmp_lt bytes_cmp) (fold_left (λ acc i, (bset_insert bytes_cmp i acc).2) ids acc) ∧
    ∀ i, i ∈ fold_left (λ acc i, (bset_insert bytes_cmp i acc).2) ids acc ↔ i ∈ acc ∨ i ∈ ids) as Hgen.
  { induction ids as [|x ids IH]; intros acc HS; cbn; [split; [done|]; intros; rewrite elem_of_nil; tauto|].
    destruct (bset_insert bytes_cmp x acc) as [ins acc'] eqn:E.
    destruct (bset_insert_spec (λ _, True) bytes_cmp x acc ins acc') as (HS' & _ & Hp); try done;
      [by apply Forall_true|]. destruct (IH acc' HS') as [HS2 Hin]. split; [done|]. intros i.
    cbn. rewrite Hin, elem_of_cons. destruct ins; [rewrite Hp, elem_of_cons; tauto|].
    destruct Hp as [-> (y & Hy & ->%bytes_cmp_Eq)%Exists_exists]. naive_solver. }
  destruct (Hgen [] (SSorted_nil _)) as [? Hin]. split; [done|]. intros i. rewrite Hin, elem_of_nil. tauto.
Qed.

Lemma sorted_ids_NoDup (l : list QuoteId) : StronglySorted (cmp_lt bytes_cmp) l → NoDup l.
Proof.
  induction 1 as [|x l HS IH Hx]; [constructor|]. constructor; [|done].
  intros Hin. rewrite Forall_forall in Hx. specialize (Hx x Hin). unfold cmp_lt in Hx.
  by rewrite bytes_cmp_refl in Hx.
Qed.

Lemma missing_ids_spec remote local :
  NoDup (missing_ids remote local) ∧ ∀ i, i ∈ missing_ids remote local ↔ i ∈ remote ∧ i ∉ local.
Proof.
  destruct (id_set_spec remote) as [HS Hin]. unfold missing_ids. split.
  - by apply NoDup_filter, sorted_ids_NoDup.
  - intros i. rewrite list_elem_of_filter, Hin. tauto.
Qed.

Lemma chunks_spec {A} n (l : list A) :
  (0 < n)%nat → concat (chunks n l) = l ∧ Forall (λ c, (length c ≤ n)%nat) (chunks n l).
Proof.
  intros Hn. unfold chunks. assert (∀ fuel (l : list A), (length l ≤ fuel)%nat →
    concat (chunks_fuel fuel n l) = l ∧ Forall (λ c, (length c ≤ n)%nat) (chunks_fuel fuel n l)) as Hgen.
  { induction fuel as [|fuel IH]; intros [|x k] Hk; cbn [chunks_fuel] in *; cbn in Hk; try (split; [done|constructor]); [lia|].
    destruct (IH (drop n (x :: k))) as [Hc Hl]; [rewrite length_drop; cbn; lia|].
    split; [cbn [concat]; rewrite Hc; apply take_drop|]. constructor; [rewrite length_take; lia|done]. }
  by apply Hgen.
Qed.

(** ** Between two honest servers *)

(** What a server that is not failing answers to the requests of a peer. *)
Definition peer_send `{McLib} {QB} `{!QuoteBook QB} (peer : QB) (request : Request) : outcome string Response :=
  match rpc_response peer request with Ok r => Ok r | Err _ => Err "rpc" | Panic p => Err p end.

(** Its queries succeed. *)
Definition queries_ok {QB} `{!QuoteBook QB} (b : QB) : Prop :=
  (∃ ids, qb_get_quote_ids None b = Ok ids) ∧ ∀ i, ∃ o, qb_get_quote_by_id i b = Ok o.

Section Honest.
Context `{McLib} {QB : Type} `{!QuoteBook QB, !QuoteBookLaws QB}.
Implicit Types (peer : QB).

Lemma lookup_quotes_ok peer ids :
  queries_ok peer → list_find (λ r, is_panic r = true) (lookup_quote peer <$> ids) = None.
Proof.
  intros [_ Hq]. apply list_find_None, Forall_forall. intros r (i & -> & _)%list_elem_of_fmap.
  unfold lookup_quote. by destruct (Hq i) as [o ->].
Qed.

Lemma peer_answers peer ids :
  queries_ok peer → (length ids ≤ MAX_QUOTES_PER_REQUEST)%nat →
  get_quotes_by_id (peer_send peer) ids = Ok (lookup_quote peer <$> ids).
Proof.
  intros Hq Hlen. unfold get_quotes_by_id, peer_send, rpc_response.
  rewrite (proj2 (Nat.leb_le _ _) Hlen), lookup_quotes_ok by done. by rewrite length_fmap, Nat.eqb_refl.
Qed.

(** The two sides of the protocol fit.  A request for at most
    [MAX_QUOTES_PER_REQUEST] ids to a server whose queries work is answered,
    and accepted by the client, with one entry per id: the quote with that id,
    or none exactly when the server has no such quote; a request for more is
    refused as such.  Splitting any list of ids as the client does gives only
    requests that are not refused. *)
Lemma rpc_protocol_fits peer ids :
  book_inv peer → queries_ok peer →
  (if decide (length ids ≤ MAX_QUOTES_PER_REQUEST)%nat then
     ∃ quotes, get_quotes_by_id (peer_send peer) ids = Ok quotes ∧
       Forall2 (λ i r, ∃ o, r = Ok o ∧
                  match o with
                  | Some q => q ∈ contents peer ∧ q_id q = i
                  | None => ∀ q, q ∈ contents peer → q_id q ≠ i
                  end) ids quotes
   else get_quotes_by_id (peer_send peer) ids = Err (P2PRpcError TooManyQuotesRequested)) ∧
  concat (chunks MAX_QUOTES_PER_REQUEST ids) = ids ∧
  Forall (λ c, (length c ≤ MAX_QUOTES_PER_REQUEST)%nat) (chunks MAX_QUOTES_PER_REQUEST ids).
Proof.
  intros Hi Hq. split; [|by apply chunks_spec; unfold MAX_QUOTES_PER_REQUEST; lia]. case_decide as Hlen.
  - exists (lookup_quote peer <$> ids). split; [by apply peer_answers|].
    apply Forall2_fmap_r, Forall2_same_length_lookup. split; [done|]. intros k i i' Hk Hk'. simplify_eq.
    destruct (proj2 Hq i) as [o Ho]. exists o. unfold lookup_quote. rewrite Ho. split; [done|].
    by apply get_quote_by_id_ok.
  - unfold get_quotes_by_id, peer_send, rpc_response. by rewrite (proj2 (Nat.leb_gt _ _)) by lia.
Qed.

(** The quotes for the missing ids. *)
Lemma missing_quotes peer local remote :
  book_inv peer → queries_ok peer → NoDup (q_id <$> contents peer) →
  qb_get_quote_ids None peer = Ok remote →
  omap (λ i, match lookup_quote peer i with Ok o => o | _ => None end) (missing_ids remote local)
  ≡ₚ filter (λ q, q_id q ∉ local) (contents peer).
Proof.
  intros Hi [_ Hq] Hids Hremote%get_quote_ids_ok; [|done]. cbn in Hremote.
  rewrite list_filter_all in Hremote by done. destruct (missing_ids_spec remote local) as [Hnd Hin].
  set (f := λ i, match lookup_quote peer i with Ok o => o | _ => None end).
  assert (∀ i q, f i = Some q ↔ q ∈ contents peer ∧ q_id q = i) as Hf.
  { intros i q. unfold f, lookup_quote. destruct (Hq i) as [o Ho]. rewrite Ho. cbn.
    pose proof (get_quote_by_id_ok i peer o Hi Ho) as Hspec. destruct o as [q'|].
    - split; [by intros [= ->]|]. intros [Hin1 Hid1]. destruct Hspec as [Hin2 Hid2]. f_equal.
      eapply NoDup_fmap_inj_on; [exact Hids|done|done|congruence].
    - split; [done|]. intros [Hin1 Hid1]. by destruct (Hspec q). }
  apply NoDup_Permutation.
  - apply (NoDup_fmap_1 q_id).
    replace (q_id <$> omap f (missing_ids remote local))
      with (filter (λ i, is_Some (f i)) (missing_ids remote local)); [by apply NoDup_filter|].
    clear Hnd Hin. induction (missing_ids remote local) as [|i l IH]; [done|]. rewrite filter_cons. cbn.
    destruct (f i) as [q|] eqn:E; case_decide as Hs; cbn; rewrite ?IH; [|by destruct Hs|by destruct Hs|done].
    apply Hf in E as [_ <-]. done.
  - apply NoDup_filter. by eapply NoDup_fmap_1.
  - intros q. rewrite list_elem_of_omap, list_elem_of_filter. setoid_rewrite Hf. setoid_rewrite Hin. split.
    + intros (i & [_ Hl] & Hq' & <-). done.
    + intros [Hl Hq']. exists (q_id q). rewrite Hremote. split; [|done]. split; [|done].
      by apply list_elem_of_fmap_2.
Qed.
End Honest.

(** A quote that [Quote::new] makes of its own SCI and time stamp. *)
Definition genuine `{McLib} (q : Quote) : Prop := quote_new None (q_sci q) (Some (q_timestamp q)) = Ok q.

Lemma quote_new_genuine `{McLib} sci ts q : quote_new None sci (Some ts) = Ok q → genuine q.
Proof.
  intros Hq. pose proof Hq as (_ & ir & c & r & m & t & _ & _ & Ht & ->)%quote_new_inv.
  specialize (Ht ts eq_refl) as ->. exact Hq.
Qed.

(** ** The quotes still to come *)

Definition todo_quotes (t : SyncTask) : list Quote :=
  omap (λ r, match r with Ok o => o | _ => None end) (t_todo t).

Lemma bind_insert {A B} (f : A → list B) (l : list A) k x y z :
  l !! k = Some x → f x = z ++ f y → l ≫= f ≡ₚ z ++ (<[k := y]> l ≫= f).
Proof.
  intros Hk Hf. rewrite <-(take_drop_middle l k x Hk) at 1.
  rewrite insert_take_drop by by eapply lookup_lt_Some. rewrite !bind_app. cbn. rewrite Hf.
  rewrite <-!(assoc_L (++)), !(assoc_L (++)). by rewrite (Permutation_app_comm z).
Qed.

Section Converge.
Context `{McLib} `{!HashIter Pair (list Quote)}.
Implicit Types (b : InMemoryQuoteBook) (tasks : list SyncTask).

(** Tasks whose answers are in order, with quotes that all fit into the book. *)
Record fitting tasks b : Prop := {
  fit_healthy : im_healthy b;
  fit_answers : Forall (λ t, Forall (λ r, ∃ o, r = Ok o) (t_todo t)) tasks;
  fit_quotes : Forall (λ q, genuine q ∧ priced q) (tasks ≫= todo_quotes);
  fit_slots : NoDup (slot <$> (tasks ≫= todo_quotes) ++ contents b);
  fit_ids : NoDup (q_id <$> (tasks ≫= todo_quotes) ++ contents b);
}.

Lemma task_step_fitting tasks b k t t' b' :
  fitting tasks b → tasks !! k = Some t → task_step t b = (t', b') →
  fitting (<[k := t']> tasks) b' ∧ t_todo t' = drop 1 (t_todo t) ∧
  (<[k := t']> tasks ≫= todo_quotes) ++ contents b' ≡ₚ (tasks ≫= todo_quotes) ++ contents b.
Proof.
  intros [Hh Hans Hq Hslots Hids] Hk. unfold task_step.
  assert (Forall (λ r, ∃ o, r = Ok o) (t_todo t)) as Ht by by eapply Forall_lookup_1 in Hans.
  destruct (t_todo t) as [|r rest] eqn:Htodo.
  { intros [= <- <-]. rewrite Htodo, list_insert_id by done. by split. }
  apply Forall_cons in Ht as [[o ->] Hrest]. destruct o as [q|].
  - assert (tasks ≫= todo_quotes ≡ₚ [q] ++ (<[k := mk_task rest (t_results t ++ [Ok tt])]> tasks ≫= todo_quotes)) as Hp.
    { eapply bind_insert; [done|]. unfold todo_quotes. rewrite Htodo. done. }
    rewrite Hp in Hq, Hslots, Hids. apply Forall_cons in Hq as [[Hgen Hpr] Hq].
    apply NoDup_fmap_fresh in Hslots as (Hslot & Hslot' & Hslots), Hids as (Hid & Hid' & Hids).
    destruct (im_add_fresh q b) as (b1 & Hadd & Hb1 & Hc1); [done..|].
    unfold sync_one, qb_add_sci, st_bind, st_lift, st_ret. rewrite Hgen.
    cbn [qb_add_quote InMemoryQuoteBook_QuoteBook]. rewrite Hadd. cbn. intros [= <- <-].
    set (tasks' := <[k := _]> tasks) in *.
    assert ((tasks' ≫= todo_quotes) ++ contents b1 ≡ₚ q :: (tasks' ≫= todo_quotes) ++ contents b) as Hp'
      by by rewrite Hc1, Permutation_middle.
    split; [|split; [done|by rewrite Hp', Hp]].
    split; [done|by apply Forall_insert|done|..]; rewrite Hp'; by apply NoDup_cons.
  - cbn. intros [= <- <-]. set (tasks' := <[k := _]> tasks).
    assert (tasks ≫= todo_quotes ≡ₚ [] ++ (tasks' ≫= todo_quotes)) as Hp.
    { eapply bind_insert; [done|]. unfold todo_quotes. rewrite Htodo. done. }
    cbn in Hp. rewrite Hp in *. split; [|done]. split; auto. by apply Forall_insert.
Qed.

Lemma run_tasks_fitting schedule tasks b tasks' b' :
  fitting tasks b → run_tasks schedule tasks b = (tasks', b') →
  fitting tasks' b' ∧
  (tasks' ≫= todo_quotes) ++ contents b' ≡ₚ (tasks ≫= todo_quotes) ++ contents b ∧
  ∀ k, t_todo <$> tasks' !! k = drop (length (filter (λ j, j = k) schedule)) ∘ t_todo <$> tasks !! k.
Proof.
  revert tasks b. induction schedule as [|k schedule IH]; intros tasks b Hfit; cbn [run_tasks].
  { intros [= <- <-]. split; [done|]. split; [done|]. intros k. cbn. by destruct (tasks !! k). }
  destruct (tasks !! k) as [t|] eqn:Hk.
  - destruct (task_step t b) as [t1 b1] eqn:Hstep.
    destruct (task_step_fitting _ _ _ _ _ _ Hfit Hk Hstep) as (Hfit1 & Htodo & Hp1).
    intros Hrun. destruct (IH _ _ Hfit1 Hrun) as (Hfit' & Hp & Hdrop). split; [done|]. split; [by rewrite Hp|].
    intros j. rewrite Hdrop, filter_cons. destruct (decide (k = j)) as [->|Hne].
    + rewrite list_lookup_insert_eq by by eapply lookup_lt_Some. rewrite Hk. cbn. f_equal.
      by rewrite Htodo, drop_drop.
    + by rewrite list_lookup_insert_ne.
  - intros Hrun. destruct (IH _ _ Hfit Hrun) as (Hfit' & Hp & Hdrop). split; [done|]. split; [done|].
    intros j. rewrite Hdrop, filter_cons. case_decide as Hj; [|done]. subst. by rewrite Hk.
Qed.
End Converge.

Lemma length_chunks {A} n (l : list A) : (length (chunks n l) ≤ length l)%nat.
Proof.
  unfold chunks. assert (∀ fuel (l : list A), (length (chunks_fuel fuel n l) ≤ fuel)%nat) as Hgen; [|done].
  induction fuel as [|fuel IH]; intros [|x k]; cbn; try lia. specialize (IH (drop n (x :: k))). lia.
Qed.

Lemma omap_of_fmap {A B C} (f : B → option C) (g : A → B) (l : list A) :
  omap f (g <$> l) = omap (λ x, f (g x)) l.
Proof. induction l as [|x l IH]; [done|]. cbn. by destruct (f (g x)); rewrite IH. Qed.

Lemma no_todo (tasks : list SyncTask) :
  (∀ k t, tasks !! k = Some t → t_todo t = []) → tasks ≫= todo_quotes = [].
Proof.
  induction tasks as [|t tasks IH]; intros Hall; [done|]. cbn.
  rewrite (IH (λ k, Hall (S k))). unfold todo_quotes. by rewrite (Hall 0%nat t eq_refl).
Qed.

Section SyncTheorem.
Context `{McLib} `{!HashIter Pair (list Quote)} {QB : Type} `{!QuoteBook QB, !QuoteBookLaws QB}.
Implicit Types (b : InMemoryQuoteBook) (peer : QB).

Lemma honest_tasks peer missing :
  queries_ok peer →
  sync_tasks (peer_send peer) missing =
    (λ c, mk_task (lookup_quote peer <$> c) []) <$> chunks MAX_QUOTES_PER_REQUEST missing.
Proof.
  intros Hq. unfold sync_tasks. apply list_fmap_ext. intros i c Hc.
  rewrite peer_answers; [done..|].
  destruct (chunks_spec MAX_QUOTES_PER_REQUEST missing) as [_ HF]; [unfold MAX_QUOTES_PER_REQUEST; lia|].
  by eapply Forall_lookup_1 in HF.
Qed.

Lemma honest_todo peer missing :
  queries_ok peer →
  sync_tasks (peer_send peer) missing ≫= todo_quotes =
    omap (λ i, match lookup_quote peer i with Ok o => o | _ => None end) missing.
Proof.
  intros Hq. rewrite honest_tasks by done.
  destruct (chunks_spec MAX_QUOTES_PER_REQUEST missing) as [Hc _]; [unfold MAX_QUOTES_PER_REQUEST; lia|].
  rewrite <-Hc at 2. clear Hc. induction (chunks _ missing) as [|c cs IH]; [done|]. cbn. rewrite IH, omap_app. f_equal.
  apply omap_of_fmap.
Qed.

Lemma honest_answers peer missing :
  queries_ok peer →
  Forall (λ t, Forall (λ r, ∃ o, r = Ok o) (t_todo t)) (sync_tasks (peer_send peer) missing).
Proof.
  intros Hq. rewrite honest_tasks by done. apply Forall_fmap, Forall_forall. intros c _. cbn.
  apply Forall_fmap, Forall_forall. intros i _. cbn. unfold lookup_quote. destruct (proj2 Hq i) as [o ->].
  by exists o.
Qed.

Lemma missing_length peer remote local :
  book_inv peer → qb_get_quote_ids None peer = Ok remote →
  (length (missing_ids remote local) ≤ length (contents peer))%nat.
Proof.
  intros Hi Hremote%get_quote_ids_ok; [|done]. cbn in Hremote. rewrite list_filter_all in Hremote by done.
  rewrite <-(length_fmap q_id (contents peer)), <-Hremote. apply submseteq_length, NoDup_submseteq.
  - apply missing_ids_spec.
  - intros i [? _]%missing_ids_spec. done.
Qed.

(** C22: synchronizing converges.  When a server connects to one whose queries
    work, and the peer's quotes that it does not have are genuine and fit in
    its book, then, whatever the order in which the tasks are served, as long
    as each gets its turns, it ends up with exactly these quotes and its own. *)
Theorem sync_converges peer b schedule :
  book_inv peer → queries_ok peer → NoDup (q_id <$> contents peer) → im_healthy b →
  let new := filter (λ q, q_id q ∉ q_id <$> contents b) (contents peer) in
  Forall (λ q, genuine q ∧ priced q) new →
  NoDup (slot <$> new ++ contents b) → NoDup (q_id <$> new ++ contents b) →
  (∀ k, (k < length (contents peer))%nat →
     (MAX_QUOTES_PER_REQUEST ≤ length (filter (λ j, j = k) schedule))%nat) →
  ∃ counts b', sync_quotes_from_peer (peer_send peer) schedule b = (Ok counts, b') ∧
    im_healthy b' ∧ contents b' ≡ₚ new ++ contents b.
Proof.
  intros Hi Hq Hids Hb new Hgen Hslots Hidsb Hsched. pose proof Hq as [[remote Hremote] _].
  unfold sync_quotes_from_peer, get_all_quote_ids. unfold peer_send at 1. cbn [rpc_response]. rewrite Hremote.
  destruct Hb as [Hm Hp].
  destruct (qb_get_quote_ids None b) as [local|e|p] eqn:Hlocal;
    [|cbn in Hlocal; unfold im_get_quote_ids, with_read in Hlocal; by rewrite Hp in Hlocal..].
  pose proof (get_quote_ids_ok None b local Hm Hlocal) as Hlp. cbn in Hlp. rewrite list_filter_all in Hlp by done.
  destruct (run_tasks schedule _ b) as [tasks' b'] eqn:Hrun.
  set (missing := missing_ids remote local) in *.
  assert (sync_tasks (peer_send peer) missing ≫= todo_quotes ≡ₚ new) as Htodo.
  { rewrite honest_todo by done. unfold missing. rewrite missing_quotes by done. unfold new.
    erewrite list_filter_ext; [done|]. intros q _. cbn. by rewrite Hlp. }
  destruct (run_tasks_fitting schedule (sync_tasks (peer_send peer) missing) b tasks' b') as (Hfit & Hperm & Hdrop); [|done|].
  { split; [done|by apply honest_answers|by rewrite Htodo|by rewrite Htodo|by rewrite Htodo]. }
  eexists _, b'. split; [done|]. split; [apply Hfit|].
  assert (tasks' ≫= todo_quotes = []) as Hempty.
  { apply no_todo. intros k t Hk. specialize (Hdrop k). rewrite Hk in Hdrop.
    rewrite honest_tasks in Hdrop by done. rewrite list_lookup_fmap in Hdrop.
    destruct (chunks MAX_QUOTES_PER_REQUEST missing !! k) as [c|] eqn:Hc; [|done].
    cbn in Hdrop. injection Hdrop as ->. apply drop_ge. rewrite length_fmap. etrans; [|apply Hsched].
    - destruct (chunks_spec MAX_QUOTES_PER_REQUEST missing) as [_ HF]; [unfold MAX_QUOTES_PER_REQUEST; lia|].
      by eapply Forall_lookup_1 in HF.
    - eapply Nat.lt_le_trans; [exact (lookup_lt_Some _ _ _ Hc)|]. etrans; [apply length_chunks|].
      by eapply missing_length. }
  rewrite Hempty in Hperm. cbn in Hperm. by rewrite Hperm, Htodo.
Qed.
End SyncTheorem.

(** ** Any peer *)

(** A book that an addition changes by at most the quote that is added,
    whatever the quote. *)
Class SoundAdds `{McLib} (QB : Type) `{!QuoteBook QB, !QuoteBookLaws QB} : Prop :=
  add_only q (b : QB) r b' : qb_add_quote q b = (r, b') → contents b' ⊆+ q :: contents b.

#[export] Instance InMemory_SoundAdds `{McLib} `{!HashIter Pair (list Quote)} : SoundAdds InMemoryQuoteBook.
Proof.
  intros q b r b'. cbn. unfold im_add_quote, with_write.
  destruct (im_poisoned b); [intros [= <- <-]; by apply submseteq_cons|].
  pose proof (map_contents_lookup (im_scis b) (q_pair q)) as Hlk.
  set (qs := default [] (im_scis b !! q_pair q)) in *. destruct (list_find _ qs) as [[i e]|].
  - intros [= <- <-]. cbn. rewrite map_contents_insert, <-Hlk. by apply submseteq_cons.
  - destruct (bset_insert quote_cmp q qs) as [ins qs'] eqn:Hins. intros [= <- <-]. cbn.
    rewrite map_contents_insert, Hlk. apply bset_insert_perm in Hins.
    destruct ins; [by rewrite Hins|subst; by apply submseteq_cons].
Qed.

Section AnyPeer.
Context `{McLib, GossipCodec} {QB : Type} `{!QuoteBook QB, !QuoteBookLaws QB, !SoundAdds QB}.
Implicit Types (b : QB).

Lemma add_sci_genuine sci ts b r b' :
  Forall genuine (contents b) → qb_add_sci None sci (Some ts) b = (r, b') → Forall genuine (contents b').
Proof.
  intros Hb. unfold qb_add_sci, st_bind, st_lift, st_ret.
  destruct (quote_new None sci (Some ts)) as [q|e|p] eqn:Hq; [|by intros [= _ <-]..].
  destruct (qb_add_quote q b) as [r1 b1] eqn:Hadd. intros Hr. assert (b' = b1) as -> by by destruct r1; simplify_eq.
  eapply Forall_submseteq; [by eapply add_only|]. constructor; [by eapply quote_new_genuine|done].
Qed.

Lemma sync_one_genuine maybe_quote b r b' :
  Forall genuine (contents b) → sync_one maybe_quote b = (r, b') → Forall genuine (contents b').
Proof.
  intros Hb. unfold sync_one, st_lift. destruct maybe_quote as [[quote|]| |]; [|by intros [= _ <-]..].
  destruct (qb_add_sci None (q_sci quote) (Some (q_timestamp quote)) b) as [r1 b1] eqn:Hadd. intros [= _ <-].
  by eapply add_sci_genuine.
Qed.

Lemma run_tasks_genuine schedule tasks b tasks' b' :
  Forall genuine (contents b) → run_tasks schedule tasks b = (tasks', b') → Forall genuine (contents b').
Proof.
  revert tasks b. induction schedule as [|k schedule IH]; intros tasks b Hb; cbn [run_tasks]; [by intros [= _ <-]|].
  destruct (tasks !! k) as [t|]; [|by apply IH]. unfold task_step. destruct (t_todo t) as [|r rest]; [by apply IH|].
  destruct (sync_one r b) as [r1 b1] eqn:Hone. apply IH. by eapply sync_one_genuine.
Qed.

(** C23: what a server learns from its peers is genuine.  Whatever events
    arrive from the network, and whatever a peer answers while the server
    synchronizes with it, every quote the book then holds has the terms that
    [Quote::new] reads from its own SCI. *)
Theorem p2p_only_genuine_quotes respond (s : P2P QB) :
  Forall genuine (contents (p2p_quote_book s)) →
  (∀ event, Forall genuine (contents (p2p_quote_book (handle_network_event respond event s)))) ∧
  (∀ send schedule r b',
     sync_quotes_from_peer send schedule (p2p_quote_book s) = (r, b') → Forall genuine (contents b')).
Proof.
  intros Hs. split.
  - intros [peer|topic data|peer request|]; cbn; [done| | |done].
    + unfold handle_gossip_message. case_bool_decide; [|done]. unfold st_bind, st_lift.
      destruct (gossip_deserialize data) as [[quote]| |]; cbn; [|done..].
      unfold handle_sci_quote_added.
      destruct (qb_add_sci _ _ _ _) as [r b'] eqn:Hadd. cbn. by eapply add_sci_genuine.
    + unfold handle_rpc_request. cbn.
      by destruct (rpc_response _ request).
  - intros send schedule r b'. unfold sync_quotes_from_peer.
    destruct (get_all_quote_ids send); [|by intros [= _ <-]..].
    destruct (qb_get_quote_ids None (p2p_quote_book s)); [|by intros [= _ <-]..].
    destruct (run_tasks _ _ _) as [tasks b1] eqn:Hrun. intros [= _ <-]. by eapply run_tasks_genuine.
Qed.

(** ** The event loop *)

(** The events that end the loop, those before the first of them, and what an
    event announces to the network. *)
Definition ends (e : LoopEvent) : bool :=
  match e with BusMessage None | P2PEvent None | ShutdownRequested => true | _ => false end.
Fixpoint before_end (events : list LoopEvent) : list LoopEvent :=
  match events with [] => [] | e :: rest => if ends e then [] else e :: before_end rest end.
Definition announced (e : LoopEvent) : option (string * bytes) :=
  match e with
  | BusMessage (Some (SciQuoteAdded quote)) =>
      match gossip_serialize (GossipSciQuoteAdded quote) with
      | Ok data => Some (MSG_BUS_TOPIC, data)
      | _ => None
      end
  | _ => None
  end.

Lemma loop_step_published publish respond peers e (s s' : ServerLoop QB) :
  loop_step publish respond peers e s = Some s' →
  p2p_published (sl_p2p s') = p2p_published (sl_p2p s) ++ option_list (announced e).
Proof.
  destruct e as [[[q|q]|]|[e|]| |]; cbn; try done.
  - intros [= <-]. cbn. unfold broadcast_sci_quote_added.
    destruct (gossip_serialize _); cbn; by rewrite ?app_nil_r.
  - intros [= <-]. by rewrite app_nil_r.
  - intros [= <-]. cbn. rewrite app_nil_r. destruct e as [peer|topic data|peer request|]; cbn; try done.
    + unfold handle_gossip_message. case_bool_decide; [|done]. unfold st_bind, st_lift.
      destruct (gossip_deserialize data) as [[quote]| |]; cbn; [|done..].
      unfold handle_sci_quote_added. by destruct (qb_add_sci _ _ _ _).
    + unfold handle_rpc_request. cbn. by destruct (rpc_response _ _).
  - intros [= <-]. rewrite app_nil_r. unfold update_periodic_metrics.
    destruct (qb_num_scis _); cbn; [|done..]. by destruct peers.
Qed.

(** The event loop ends exactly at the first request to shut down or
    closed stream, and until then announces to the network exactly the quotes
    added through this server, once each and in the order of the message bus:
    quotes learned from peers are not announced again, removals not at all. *)
Lemma event_loop_announces publish respond peers events (s : ServerLoop QB) :
  ∃ s', event_loop publish respond peers events s = (existsb ends events, s') ∧
        p2p_published (sl_p2p s') = p2p_published (sl_p2p s) ++ omap announced (before_end events).
Proof.
  revert s. induction events as [|e events IH]; intros s; cbn; [exists s; by rewrite app_nil_r|].
  destruct (loop_step publish respond peers e s) as [s1|] eqn:Hstep.
  - assert (ends e = false) as -> by by destruct e as [[[]|]|[]| |].
    destruct (IH s1) as (s' & -> & Hpub). exists s'. split; [done|].
    rewrite Hpub, (loop_step_published _ _ _ _ _ _ Hstep). cbn.
    destruct (announced e); cbn; by rewrite <-(assoc_L (++)).
  - assert (ends e = true) as -> by by destruct e as [[[]|]|[]| |].
    exists s. split; [done|]. by rewrite app_nil_r.
Qed.
End AnyPeer.

(** * The theorems on examples *)

Module ServerP2PExamples.
Import Sample SampleCodec ApiConvertExamples InMemoryExamples.

Lemma book_a_queries : queries_ok book_a.
Proof. split; [eexists; by vm_compute|]. intros i. eexists. done. Qed.

Lemma rpc_protocol_fits_witness :
  ∃ quotes, get_quotes_by_id (peer_send book_a) [q_id quote_a; q_id quote_b] = Ok quotes ∧
    Forall2 (λ i r, ∃ o, r = Ok o ∧
               match o with
               | Some q => q ∈ contents book_a ∧ q_id q = i
               | None => ∀ q, q ∈ contents book_a → q_id q ≠ i
               end) [q_id quote_a; q_id quote_b] quotes.
Proof.
  exact (proj1 (rpc_protocol_fits book_a [q_id quote_a; q_id quote_b]
                  (proj1 (im_reachable_healthy _ book_a_reachable)) book_a_queries)).
Defined.

(** An empty server connects to one with [quote_a]. *)
Lemma sync_converges_witness :
  ∃ counts b', sync_quotes_from_peer (peer_send book_a) (replicate 100 0%nat) im_default = (Ok counts, b') ∧
    im_healthy b' ∧
    contents b' ≡ₚ filter (λ q, q_id q ∉ q_id <$> contents im_default) (contents book_a) ++ contents im_default.
Proof.
  assert (filter (λ q, q_id q ∉ q_id <$> contents im_default) (contents book_a) = [quote_a]) as Hnew by by vm_compute.
  apply (sync_converges book_a im_default (replicate 100 0%nat)).
  - apply (im_reachable_healthy _ book_a_reachable).
  - apply book_a_queries.
  - rewrite contents_book_a. apply NoDup_singleton.
  - apply im_reachable_healthy. by apply rtc_refl.
  - rewrite Hnew. apply Forall_singleton. split; [by vm_compute|solve_decide].
  - rewrite Hnew. apply NoDup_singleton.
  - rewrite Hnew. apply NoDup_singleton.
  - rewrite contents_book_a. intros [|k] Hk; [by vm_compute; lia|cbn in Hk; lia].
Defined.

#[export] Instance sample_gossip : GossipCodec := {|
  gossip_serialize m := match m with GossipSciQuoteAdded q => Ok (q_timestamp q :: sci_encode (q_sci q)) end;
  gossip_deserialize b :=
    match b with
    | ts :: b => map_err (λ _, "gossip") (sci ← map_err id (sci_decode b);
                   GossipSciQuoteAdded <$> map_err error_display (quote_new None sci (Some ts)))
    | [] => Err "gossip"
    end;
|}.

Lemma p2p_only_genuine_quotes_witness :
  let s := mk_p2p book_a (Build_P2PRpcMetrics ∅ ∅ ∅) [] [] [] in
  Forall genuine (contents (p2p_quote_book
    (handle_network_event (λ _, Ok tt) (GossipMessage MSG_BUS_TOPIC (7 :: sci_encode (sci_partial 2 2 0))) s))).
Proof.
  apply (proj1 (p2p_only_genuine_quotes (λ _, Ok tt) (mk_p2p book_a (Build_P2PRpcMetrics ∅ ∅ ∅) [] [] [])
                  ltac:(cbn [p2p_quote_book]; rewrite contents_book_a; apply Forall_singleton; by vm_compute))).
Defined.
End ServerP2PExamples.
