(* ===== verification/Cluster.v ===== *)
(** A network of servers, as the end-to-end tests run it
    (server/tests/e2e.rs).

    A node is a server with its synchronized book: its clients' requests, its
    message bus and event loop, the gossip and the answers of peers, and the
    background thread that follows the node's copy of the ledger.  The steps
    of the nodes, the delivery and the loss of messages interleave freely; a
    step is one addition, one removal, or one turn of an event loop. *)

From S2P Require Import Prelude McTypes QuoteApi QuotePricing QuoteBook InMemory BookEquiv Synchronized SqlTypes ApiConvert ClientService ServerP2P.

(** * Nodes *)

(** A running server: its event loop with the book, where the thread of the
    book is, and what is on its way inside of the server: quotes that were
    created but not sent on the message bus yet, messages on the bus, answers
    of peers whose quotes are not added yet. *)
Record Node (Q L : Type) := mk_node {
  nd_loop : ServerLoop (SynchronizedQuoteBook Q L);
  nd_next : nat;
  nd_done : nat;
  nd_created : list Quote;
  nd_bus : list Msg;
  nd_answers : list (outcome RpcError (option Quote));
}.
Arguments mk_node {Q L} _ _ _ _ _ _.
Arguments nd_loop {Q L} _.
Arguments nd_next {Q L} _.
Arguments nd_done {Q L} _.
Arguments nd_created {Q L} _.
Arguments nd_bus {Q L} _.
Arguments nd_answers {Q L} _.

(** What a node does by itself. *)
Inductive NodeAction (L : Type) :=
| LedgerGrows (ledger : L)
| Submit (timestamp : Z) (sci : SignedContingentInput)
| Announce (k : nat)
| BusTurn
| NetworkTurn (event : NetworkEvent)
| MetricsTurn
| AddAnswer (k : nat)
| FetchKeyImage
| FetchNext
| SweepTombstones.
Arguments LedgerGrows {L} ledger.
Arguments Submit {L} timestamp sci.
Arguments Announce {L} k.
Arguments BusTurn {L}.
Arguments NetworkTurn {L} event.
Arguments MetricsTurn {L}.
Arguments AddAnswer {L} k.
Arguments FetchKeyImage {L}.
Arguments FetchNext {L}.
Arguments SweepTombstones {L}.

Section NodeSteps.
Context `{McLib, GossipCodec} {Q L : Type} `{!QuoteBook Q, !Ledger L, !LedgerLaws L}.
Abbreviation book := (SynchronizedQuoteBook Q L).
Abbreviation node := (Node Q L).
Implicit Types (nd : node) (b : book).

Definition node_p2p nd : P2P book := sl_p2p (nd_loop nd).
Definition node_book nd : book := p2p_quote_book (node_p2p nd).
Definition node_ledger nd : L := sync_ledger (node_book nd).

Definition with_loop (loop : ServerLoop book) nd : node :=
  mk_node loop (nd_next nd) (nd_done nd) (nd_created nd) (nd_bus nd) (nd_answers nd).
Definition with_book b nd : node :=
  with_loop (mk_loop (set_book (node_p2p nd) b) (sl_sci_count (nd_loop nd)) (sl_num_connected_peers (nd_loop nd))) nd.
Definition with_bus (bus : list Msg) nd : node :=
  mk_node (nd_loop nd) (nd_next nd) (nd_done nd) (nd_created nd) bus (nd_answers nd).
Definition with_thread (next done : nat) nd : node :=
  mk_node (nd_loop nd) next done (nd_created nd) (nd_bus nd) (nd_answers nd).
Definition with_created (created : list Quote) nd : node :=
  mk_node (nd_loop nd) (nd_next nd) (nd_done nd) created (nd_bus nd) (nd_answers nd).
Definition with_answers (answers : list (outcome RpcError (option Quote))) nd : node :=
  mk_node (nd_loop nd) (nd_next nd) (nd_done nd) (nd_created nd) (nd_bus nd) answers.

(** A turn of the event loop; publishing, responding and counting peers
    succeed.  The loop of a running server does not end. *)
Definition loop_turn (event : LoopEvent) nd : option node :=
  loop ← loop_step (λ _ _, Ok tt) (λ _, Ok tt) (Ok []) event (nd_loop nd);
  Some (with_loop loop nd).

(** A removal of the thread: when it succeeds the callback reports the
    removed quotes on the bus, otherwise it is tried again later. *)
Definition thread_removal (m : stateful book Error (list Quote)) (next done : nat) nd : node :=
  match m (node_book nd) with
  | (Ok quotes, b) =>
      with_thread next done (with_bus (remove_quote_callback true quotes (nd_bus nd)).2 (with_book b nd))
  | (_, b) => with_book b nd
  end.

Definition node_step (validator : SignedContingentInput → outcome Error unit) (a : NodeAction L) nd :
    option node :=
  match a with
  | LedgerGrows ledger =>
      Some (with_book (mk_sync (sync_quote_book (node_book nd)) ledger
                         (sync_highest_processed_block_index (node_book nd))) nd)
  | Submit timestamp sci =>
      let '(r, b) := submit_one validator timestamp sci (node_book nd) in
      Some (with_created (nd_created nd ++ option_list (result_quote r)) (with_book b nd))
  | Announce k =>
      quote ← nd_created nd !! k;
      Some (with_bus (nd_bus nd ++ [SciQuoteAdded quote]) (with_created (delete k (nd_created nd)) nd))
  | BusTurn =>
      msg ← head (nd_bus nd);
      loop_turn (BusMessage (Some msg)) (with_bus (tail (nd_bus nd)) nd)
  | NetworkTurn event => loop_turn (P2PEvent (Some event)) nd
  | MetricsTurn => loop_turn MetricsTick nd
  | AddAnswer k =>
      answer ← nd_answers nd !! k;
      Some (with_answers (delete k (nd_answers nd)) (with_book (sync_one answer (node_book nd)).2 nd))
  | FetchKeyImage =>
      c ← blocks (node_ledger nd) !! nd_next nd;
      key_image ← bc_key_images c !! nd_done nd;
      Some (thread_removal (qb_remove_quotes_by_key_image key_image) (nd_next nd) (S (nd_done nd)) nd)
  | FetchNext =>
      c ← blocks (node_ledger nd) !! nd_next nd;
      if (nd_done nd =? length (bc_key_images c))%nat then Some (with_thread (S (nd_next nd)) 0 nd) else None
  | SweepTombstones =>
      if ((0 <? nd_next nd) && (nd_done nd =? 0))%nat then
        Some (thread_removal (qb_remove_quotes_by_tombstone_block (Z.of_nat (nd_next nd) - 1))
                (nd_next nd) (nd_done nd) nd)
      else None
  end.
End NodeSteps.

(** * The network *)

(** The nodes; the messages on their way to a node and those that were lost;
    and, of the past, which quote a client of which node created. *)
Record Cluster (Q L : Type) := mk_cluster {
  c_nodes : list (Node Q L);
  c_wire : list (nat * (string * bytes));
  c_lost : list (nat * (string * bytes));
  c_log : list (nat * Quote);
}.
Arguments mk_cluster {Q L} _ _ _ _.
Arguments c_nodes {Q L} _.
Arguments c_wire {Q L} _.
Arguments c_lost {Q L} _.
Arguments c_log {Q L} _.

(** A node acts by itself; a gossip message arrives, or does not; node [i]
    asks node [j] for quotes. *)
Inductive ClusterAction (L : Type) :=
| At (i : nat) (a : NodeAction L)
| Deliver (k : nat)
| Lose (k : nat)
| Ask (i j : nat) (ids : list QuoteId).
Arguments At {L} i a.
Arguments Deliver {L} k.
Arguments Lose {L} k.
Arguments Ask {L} i j ids.

(** What node [i] of [n] publishes is on its way to all the others. *)
Definition flood (i n : nat) (msgs : list (string * bytes)) : list (nat * (string * bytes)) :=
  msgs ≫= λ m, (λ j, (j, m)) <$> filter (λ j, j ≠ i) (seq 0 n).

Section ClusterSteps.
Context `{McLib, GossipCodec} {Q L : Type} `{!QuoteBook Q, !Ledger L, !LedgerLaws L}.
Abbreviation cluster := (Cluster Q L).
Variable validators : nat → SignedContingentInput → outcome Error unit.
Implicit Types (c : cluster) (nd : Node Q L).

Definition set_node (i : nat) nd c : cluster :=
  mk_cluster (<[i := nd]> (c_nodes c)) (c_wire c) (c_lost c) (c_log c).
Definition set_wire (wire lost : list (nat * (string * bytes))) c : cluster :=
  mk_cluster (c_nodes c) wire lost (c_log c).

(** What a step published and responded, and which quotes it created. *)
Definition newly_published nd nd' : list (string * bytes) :=
  drop (length (p2p_published (node_p2p nd))) (p2p_published (node_p2p nd')).
Definition newly_responded nd nd' : list Response :=
  drop (length (p2p_responses (node_p2p nd))) (p2p_responses (node_p2p nd')).
Definition newly_created nd nd' : list Quote := drop (length (nd_created nd)) (nd_created nd').

(** A step of node [i], and what it published and created. *)
Definition step_at (i : nat) (a : NodeAction L) c : option cluster :=
  nd ← c_nodes c !! i;
  nd' ← node_step (validators i) a nd;
  Some (mk_cluster (<[i := nd']> (c_nodes c))
          (c_wire c ++ flood i (length (c_nodes c)) (newly_published nd nd')) (c_lost c)
          (c_log c ++ ((i,.) <$> newly_created nd nd'))).

Definition cluster_step (a : ClusterAction L) c : option cluster :=
  match a with
  | At i a => step_at i a c
  | Deliver k =>
      m ← c_wire c !! k;
      let '(j, (topic, data)) := m in
      step_at j (NetworkTurn (GossipMessage topic data)) (set_wire (delete k (c_wire c)) (c_lost c) c)
  | Lose k =>
      m ← c_wire c !! k;
      Some (set_wire (delete k (c_wire c)) (m :: c_lost c) c)
  | Ask i j ids =>
      peer ← c_nodes c !! j;
      c' ← step_at j (NetworkTurn (RpcRequest [] (GetQuotesById ids))) c;
      peer' ← c_nodes c' !! j;
      nd ← c_nodes c' !! i;
      match newly_responded peer peer' with
      | response :: _ =>
          match get_quotes_by_id (λ _, Ok response) ids with
          | Ok quotes => Some (set_node i (with_answers (nd_answers nd ++ quotes) nd) c')
          | _ => Some c'
          end
      | [] => Some c'
      end
  end.

Fixpoint cluster_run (actions : list (ClusterAction L)) c : option cluster :=
  match actions with
  | [] => Some c
  | a :: rest => c' ← cluster_step a c; cluster_run rest c'
  end.
End ClusterSteps.

(** * What holds of a node *)

(** [mc_util_serial] reads what it has written. *)
Class GossipCodecLaws `{GossipCodec} : Prop :=
  gossip_roundtrip m data : gossip_serialize m = Ok data → gossip_deserialize data = Ok m.

Section NodeFacts.
Context `{McLib, GossipCodec} {Q L : Type}.
Context `{!QuoteBook Q, !QuoteBookLaws Q, !TotalBook Q, !Ledger L, !LedgerLaws L, !GossipCodecLaws}.
Implicit Types (nd : Node Q L) (b : SynchronizedQuoteBook Q L) (q e : Quote) (src : Quote → Prop).
(** The SCIs clients submit, and the states of the ledgers considered. *)
Variable submitted_scis : SignedContingentInput → Prop.
Variable ledger_state : L → Prop.

(** A quote [Quote::new] made of one of them. *)
Definition from_client q : Prop := submitted_scis (q_sci q) ∧ genuine q.

(** The digests of the SCIs do not collide, and their quotes have a price and
    can be stored. *)
Record good_scis : Prop := {
  scis_ids sci sci' : submitted_scis sci → submitted_scis sci' →
    quote_id_from_sci sci = quote_id_from_sci sci' → sci = sci';
  scis_quotes q : from_client q → priced q ∧ storable (B:=Q) q;
}.
Hypothesis Hscis : good_scis.

Lemma from_client_same_id q e : from_client q → from_client e → q_id q = q_id e → slot q = slot e.
Proof.
  intros [Hq (_ & ir & c & r & m & t & Hir & Ho & _ & Eq)%quote_new_inv]
         [He (_ & ir' & c' & r' & m' & t' & Hir' & Ho' & _ & Ee)%quote_new_inv] Hid.
  assert (q_sci q = q_sci e) as Hsci.
  { apply (scis_ids Hscis); [done..|]. revert Hid. rewrite Eq, Ee. done. }
  rewrite <-Hsci in *. rewrite Hir in Hir'. injection Hir' as <-.
  apply quote_terms_offer in Ho, Ho'. rewrite Ho in Ho'. injection Ho' as <- <- <-.
  unfold slot, quote_key_image. rewrite Hsci. f_equal. by rewrite Eq, Ee.
Qed.

Lemma from_client_offerable l q : Forall from_client l → from_client q → offerable l q.
Proof.
  intros Hl Hq. split; [by apply (scis_quotes Hscis)|]. intros x Hx Hid. rewrite Forall_forall in Hl.
  apply from_client_same_id; auto.
Qed.

(** ** Additions *)

(** A quote is in a book, or was ruled out by the ledger: spent, or past its
    tombstone. *)
Definition past_tombstone (n : nat) e : Prop :=
  tombstone_expired (Z.of_nat n) e = true ∨
  ∃ ir, input_rules (tx_in (q_sci e)) = Some ir ∧ max_tombstone_block ir ≠ 0 ∧ max_tombstone_block ir ≤ Z.of_nat n.
Definition ruled_out (bs : list BlockContents) e : Prop :=
  quote_key_image e ∈ key_images bs ∨ ∃ n, (n < length bs)%nat ∧ past_tombstone n e.

(** The slot of a quote is taken, or was until the ledger ruled the quote in
    it out; or the ledger refused the quote when it arrived. *)
Definition settled b q : Prop :=
  (∃ e, slot e = slot q ∧ (e ∈ contents b ∨ ruled_out (blocks (sync_ledger b)) e)) ∨
  (∃ l : L, ledger_state l ∧ blocks l `prefix_of` blocks (sync_ledger b) ∧ is_ok (check_quote l q) = false).

(** One of the known quotes is added. *)
Record one_added q b b' : Prop := {
  oa_up : book_up (sync_quote_book b');
  oa_ledger : sync_ledger b' = sync_ledger b;
  oa_contents : contents b' ≡ₚ contents b ∨ contents b' ≡ₚ q :: contents b;
  oa_settled : settled b' q;
}.

Lemma add_quote_one_added q b r b' :
  book_up (sync_quote_book b) → ledger_state (sync_ledger b) → Forall from_client (contents b) → from_client q →
  qb_add_quote q b = (r, b') → one_added q b b' ∧ (is_ok r = false → contents b' ≡ₚ contents b).
Proof.
  intros Hup Hst Hall Hq. change (qb_add_quote q b) with (sync_add_quote q b).
  pose proof (from_client_offerable _ _ Hall Hq) as Hoff.
  unfold sync_add_quote, st_bind, st_lift.
  destruct (check_quote (sync_ledger b) q) as [[]|err|p] eqn:Hcheck.
  2,3: intros [= <- <-]; split; [|done]; split; [done|done|by left|right; exists (sync_ledger b); by rewrite Hcheck].
  unfold on_quote_book. destruct (qb_add_quote q (sync_quote_book b)) as [r1 b1] eqn:Hadd. intros [= <- <-].
  destruct (up_add _ _ _ _ Hup (proj2 (scis_quotes Hscis q Hq)) Hoff Hadd) as [Hup1 Hcase].
  destruct (slot_map (contents (sync_quote_book b)) !! slot q) as [e|] eqn:Hslot.
  - destruct Hcase as [-> Hsame]. split; [|done]. split; cbn; [done|done|by left|].
    apply slot_map_lookup in Hslot as [He Hs]; [|by apply contents_slots, up_inv].
    left. exists e. split; [done|]. left. cbn. by rewrite Hsame.
  - subst r1. pose proof (add_ok _ _ _ (up_inv _ Hup) (offerable_addable _ _ Hoff) Hadd) as Hc.
    split; [|done]. split; cbn; [done|done|by right|]. left. exists q. split; [done|]. left. cbn. rewrite Hc.
    apply list_elem_of_here.
Qed.

Lemma genuine_add_sci q b :
  genuine q → (qb_add_sci None (q_sci q) (Some (q_timestamp q)) b).2 = (qb_add_quote q b).2.
Proof.
  intros Hg. unfold qb_add_sci, st_bind, st_lift, st_ret. rewrite Hg. by destruct (qb_add_quote q b) as [[]].
Qed.

(** ** Steps of a node *)

Definition node_system nd : SyncSystem Q L := mk_system (node_book nd) (nd_next nd) (nd_done nd).

(** Everything a node holds is known. *)
Record node_ok src nd : Prop := {
  ok_up : book_up (sync_quote_book (node_book nd));
  ok_ledger : ledger_state (node_ledger nd);
  ok_sync : sync_inv (node_system nd);
  ok_contents : Forall src (contents (node_book nd));
  ok_created : Forall src (nd_created nd);
  ok_bus q : SciQuoteAdded q ∈ nd_bus nd → src q;
  ok_answers q : Ok (Some q) ∈ nd_answers nd → src q;
}.

Lemma settled_added q q' b b' : one_added q b b' → settled b q' → settled b' q'.
Proof.
  intros [_ Hl Hc _] [(e & Hs & He)|Hr]; [|right; by rewrite Hl].
  left. exists e. split; [done|]. rewrite Hl. destruct He as [He|He]; [left|by right].
  destruct Hc as [-> | ->]; [done|by right].
Qed.

Lemma ruled_out_grow bs bs' e : bs `prefix_of` bs' → ruled_out bs e → ruled_out bs' e.
Proof.
  intros [ks ->] [Hk|(n & Hn & Ht)]; [left|right].
  - unfold key_images in *. rewrite bind_app. apply elem_of_app. by left.
  - exists n. rewrite length_app. split; [lia|done].
Qed.

(** What a step does to the book of a node and to its thread. *)
Record book_moves src nd nd' : Prop := {
  bm_up : book_up (sync_quote_book (node_book nd'));
  bm_ledger : ledger_state (node_ledger nd');
  bm_sync : rtc sync_step (node_system nd) (node_system nd');
  bm_contents : Forall src (contents (node_book nd'));
  bm_settled q : settled (node_book nd) q → settled (node_book nd') q;
}.

Lemma moves_same src nd nd' : node_ok src nd → node_system nd' = node_system nd → book_moves src nd nd'.
Proof.
  intros [Hup Hst Hs Hc _ _ _] E. assert (node_book nd' = node_book nd) as Eb by by injection E.
  split; unfold node_ledger; rewrite ?Eb, ?E; done.
Qed.

Lemma moves_next src nd nd' c :
  node_ok src nd → blocks (node_ledger nd) !! nd_next nd = Some c → nd_done nd = length (bc_key_images c) →
  node_system nd' = mk_system (node_book nd) (S (nd_next nd)) 0 → book_moves src nd nd'.
Proof.
  intros [Hup Hst Hs Hc _ _ _] Hblock Hdone E. assert (node_book nd' = node_book nd) as Eb by by injection E.
  split; unfold node_ledger; rewrite ?Eb; [done|done| |done|done]. rewrite E. eapply rtc_once, sync_fetch_next; done.
Qed.

Lemma moves_grow src nd nd' l :
  node_ok src nd → blocks (node_ledger nd) `prefix_of` blocks l → ledger_state l →
  node_system nd' = mk_system (mk_sync (sync_quote_book (node_book nd)) l
    (sync_highest_processed_block_index (node_book nd))) (nd_next nd) (nd_done nd) →
  book_moves src nd nd'.
Proof.
  intros [Hup Hst Hs Hc _ _ _] Hpre Hl E. assert (node_book nd' = mk_sync (sync_quote_book (node_book nd)) l
    (sync_highest_processed_block_index (node_book nd))) as Eb by by injection E.
  split; unfold node_ledger; rewrite ?Eb; [done|done|rewrite E; by apply rtc_once, sync_grow|done|].
  intros q [(e & Hsl & He)|(l0 & Hst0 & Hl0 & Hck)].
  - left. exists e. split; [done|]. destruct He as [He|He]; [by left|right]. by eapply ruled_out_grow.
  - right. exists l0. split; [done|]. split; [|done]. cbn. by etrans.
Qed.

Lemma moves_added src nd nd' q :
  node_ok src nd → (∀ x, src x → from_client x) → from_client q →
  (is_ok (qb_add_quote q (node_book nd)).1 = true → src q) →
  node_system nd' = mk_system (qb_add_quote q (node_book nd)).2 (nd_next nd) (nd_done nd) →
  book_moves src nd nd' ∧ settled (node_book nd') q.
Proof.
  intros [Hup Hst Hs Hc _ _ _] Hsrc Hq Hsq E. destruct (qb_add_quote q (node_book nd)) as [r b'] eqn:Hadd.
  assert (node_book nd' = b') as Eb by by injection E.
  assert (Forall from_client (contents (node_book nd))) as Hall by by eapply Forall_impl.
  destruct (add_quote_one_added q (node_book nd) r b' Hup Hst Hall Hq Hadd) as [Hone Hsame].
  rewrite Eb. split; [|apply Hone]. split; unfold node_ledger; rewrite ?Eb; [apply Hone|by rewrite (oa_ledger _ _ _ Hone)| | |].
  - rewrite E. eapply rtc_once, sync_add; [|exact Hadd]. apply offerable_addable, from_client_offerable; auto.
  - destruct (is_ok r) eqn:Hr; [|by rewrite (Hsame eq_refl)].
    destruct (oa_contents _ _ _ Hone) as [-> | ->]; [done|]. constructor; [by apply Hsq|done].
  - intros x Hx. by eapply settled_added.
Qed.

(** A removal of quotes that the ledger rules out. *)
Lemma moves_removed src nd nd' b' :
  node_ok src nd → book_up (sync_quote_book b') → sync_ledger b' = node_ledger nd →
  contents b' ⊆+ contents (node_book nd) →
  (∀ e, e ∈ contents (node_book nd) → e ∈ contents b' ∨ ruled_out (blocks (node_ledger nd)) e) →
  node_book nd' = b' → rtc sync_step (node_system nd) (node_system nd') → book_moves src nd nd'.
Proof.
  intros [Hup Hst Hs Hc _ _ _] Hup' Hl Hsub Hgone Eb Hrun.
  split; unfold node_ledger; rewrite ?Eb; [done|by rewrite Hl|done|by eapply Forall_submseteq|].
  intros q [(e & Hsl & He)|Hr]; [left|right; by rewrite Hl].
  exists e. split; [done|]. rewrite Hl. destruct He as [He|He]; [by apply Hgone|by right].
Qed.

Lemma moves_key_image src nd next done' c k :
  node_ok src nd → blocks (node_ledger nd) !! nd_next nd = Some c → bc_key_images c !! nd_done nd = Some k →
  next = nd_next nd → done' = S (nd_done nd) →
  book_moves src nd (thread_removal (qb_remove_quotes_by_key_image k) next done' nd).
Proof.
  intros Hok Hblock Hk -> ->. pose proof (ok_up _ _ Hok) as Hup.
  destruct (qb_remove_quotes_by_key_image k (node_book nd)) as [r b'] eqn:Hr.
  pose proof (on_quote_book_inv _ _ _ _ Hr) as Hr1.
  destruct (up_remove_ki _ _ _ _ Hup Hr1) as [Hup' [l ->]].
  unfold thread_removal. rewrite Hr. eapply (moves_removed _ _ _ b'); [done|done| | | |done|].
  - exact (on_quote_book_ledger _ _ _ _ Hr).
  - exact (remove_ki_frame _ _ _ _ (up_inv _ Hup) Hr1).
  - intros e He. destruct (remove_ki_ok _ _ _ _ (up_inv _ Hup) Hr1) as [_ Hc].
    destruct (decide (quote_key_image e = k)) as [Hek|Hek].
    + right. left. unfold key_images. apply list_elem_of_bind. exists c. rewrite Hek.
      split; by eapply list_elem_of_lookup_2.
    + left. cbn. rewrite Hc. by apply list_elem_of_filter.
  - eapply rtc_once. exact (sync_fetch_key_image (node_book nd) (nd_next nd) (nd_done nd) c k (Ok l) b' Hblock Hk Hr).
Qed.

Lemma moves_tombstone src nd :
  node_ok src nd → (0 < nd_next nd)%nat →
  (∀ q, q ∈ contents (node_book nd) → sweepable (B:=Q) (Z.of_nat (nd_next nd) - 1) q) →
  book_moves src nd
    (thread_removal (qb_remove_quotes_by_tombstone_block (Z.of_nat (nd_next nd) - 1)) (nd_next nd) (nd_done nd) nd).
Proof.
  intros Hok Hpos Hblock. pose proof (ok_up _ _ Hok) as Hup. set (n := Z.of_nat (nd_next nd) - 1) in *.
  destruct (qb_remove_quotes_by_tombstone_block n (node_book nd)) as [r b'] eqn:Hr.
  pose proof (on_quote_book_inv _ _ _ _ Hr) as Hr1.
  destruct (up_remove_tombstone _ _ _ _ Hup Hblock Hr1) as [Hup' [l ->]].
  unfold thread_removal. rewrite Hr. eapply (moves_removed _ _ _ b'); [done|done| | | |done|].
  - exact (on_quote_book_ledger _ _ _ _ Hr).
  - exact (remove_tombstone_frame _ _ _ _ (up_inv _ Hup) Hr1).
  - intros e He. destruct (remove_tombstone_ok _ _ _ _ (up_inv _ Hup) Hr1) as [_ Hc].
    destruct (tombstone_expired n e) eqn:Ht.
    + right. right. exists (nd_next nd - 1)%nat. split; [|left; replace (Z.of_nat (nd_next nd - 1)) with n by lia; done]. pose proof (sy_position _ (ok_sync _ _ Hok)) as Hp. unfold node_ledger.
      unfold node_system in Hp. cbn [sy_next sy_done sy_book] in Hp. lia.
    + left. cbn. rewrite Hc. by apply list_elem_of_filter.
  - eapply rtc_once. exact (sync_remove_tombstone (node_book nd) (nd_next nd) (nd_done nd) n (Ok l) b' Hr).
Qed.

(** ** The queues of a node *)

(** What can happen to a node of whose world only [src] is known. *)
Definition node_allowed src (a : NodeAction L) nd : Prop :=
  match a with
  | LedgerGrows l => blocks (node_ledger nd) `prefix_of` blocks l ∧ ledger_state l
  | Submit _ sci => submitted_scis sci
  | NetworkTurn (GossipMessage topic data) =>
      topic = MSG_BUS_TOPIC ∧ ∃ q, src q ∧ gossip_serialize (GossipSciQuoteAdded q) = Ok data
  | SweepTombstones => ∀ q, q ∈ contents (node_book nd) → sweepable (B:=Q) (Z.of_nat (nd_next nd) - 1) q
  | _ => True
  end.

(** A quote does not get lost on its way to the network, and nothing unknown
    is sent. *)
Record queues src nd nd' : Prop := {
  qs_created q : q ∈ nd_created nd → q ∈ nd_created nd' ∨ SciQuoteAdded q ∈ nd_bus nd';
  qs_bus q : SciQuoteAdded q ∈ nd_bus nd → SciQuoteAdded q ∈ nd_bus nd' ∨
    is_ok (gossip_serialize (GossipSciQuoteAdded q)) = false ∨
    ∃ data, gossip_serialize (GossipSciQuoteAdded q) = Ok data ∧ (MSG_BUS_TOPIC, data) ∈ newly_published nd nd';
  qs_published m : m ∈ newly_published nd nd' →
    ∃ q data, src q ∧ gossip_serialize (GossipSciQuoteAdded q) = Ok data ∧ m = (MSG_BUS_TOPIC, data);
  qs_created_src q : q ∈ nd_created nd' → src q;
  qs_bus_src q : SciQuoteAdded q ∈ nd_bus nd' → src q;
  qs_answers_src q : Ok (Some q) ∈ nd_answers nd' → src q;
}.

Lemma queues_same src nd nd' :
  node_ok src nd → nd_created nd' = nd_created nd →
  (∀ q, SciQuoteAdded q ∈ nd_bus nd' ↔ SciQuoteAdded q ∈ nd_bus nd) →
  nd_answers nd' ⊆ nd_answers nd → p2p_published (node_p2p nd') = p2p_published (node_p2p nd) →
  queues src nd nd'.
Proof.
  intros [_ _ _ _ Hcr Hbus Hans] Ec Hb Ha Ep. unfold newly_published. rewrite Forall_forall in Hcr.
  split; rewrite ?Ec; try (intros q; rewrite ?Hb; by auto).
  - intros m. unfold newly_published. rewrite Ep, drop_all. by intros ?%elem_of_nil.
Qed.

Lemma node_ok_step src nd nd' : sync_inv (node_system nd) → book_moves src nd nd' → queues src nd nd' → node_ok src nd'.
Proof.
  intros Hs [Hup Hst Hrun Hc _] [_ _ _ Hcr Hbus Hans]. split; [done|done| |done|by apply Forall_forall|done|done].
  eapply rtc_preserve; [exact sync_step_inv|exact Hs|exact Hrun].
Qed.

Lemma node_ok_mono src src' nd : (∀ q, src q → src' q) → node_ok src nd → node_ok src' nd.
Proof. intros Himp [Hup Hst Hs Hc Hcr Hbus Hans]. split; eauto using Forall_impl. Qed.

(** Turns of the event loop that leave the book. *)
Lemma gossip_turn nd q data :
  gossip_serialize (GossipSciQuoteAdded q) = Ok data → genuine q →
  loop_turn (P2PEvent (Some (GossipMessage MSG_BUS_TOPIC data))) nd =
    Some (with_book (qb_add_quote q (node_book nd)).2 nd).
Proof.
  intros Hser Hg. unfold loop_turn. cbn -[with_book qb_add_quote]. unfold handle_gossip_message.
  rewrite bool_decide_true by done. unfold st_bind, st_lift. rewrite (gossip_roundtrip _ _ Hser).
  cbn -[with_book qb_add_quote]. unfold handle_sci_quote_added.
  pose proof (genuine_add_sci q (node_book nd) Hg) as E. fold (node_p2p nd). fold (node_book nd).
  destruct (qb_add_sci _ _ _ _) as [r b]. cbn [snd] in E. by rewrite <-E.
Qed.

Lemma other_turn nd nd' event :
  (∀ topic data, event ≠ GossipMessage topic data) →
  loop_turn (P2PEvent (Some event)) nd = Some nd' →
  node_system nd' = node_system nd ∧ nd_created nd' = nd_created nd ∧ nd_bus nd' = nd_bus nd ∧
  nd_answers nd' = nd_answers nd ∧ p2p_published (node_p2p nd') = p2p_published (node_p2p nd).
Proof.
  intros Hne. unfold loop_turn. cbn. intros [= <-]. destruct event as [p|t d|p r|]; try done.
  - by destruct (Hne t d).
  - unfold node_system, node_book, node_p2p. cbn. unfold handle_rpc_request. cbn. by destruct (rpc_response _ r).
Qed.

Lemma metrics_turn nd nd' :
  loop_turn MetricsTick nd = Some nd' →
  node_system nd' = node_system nd ∧ nd_created nd' = nd_created nd ∧ nd_bus nd' = nd_bus nd ∧
  nd_answers nd' = nd_answers nd ∧ p2p_published (node_p2p nd') = p2p_published (node_p2p nd).
Proof.
  unfold loop_turn. cbn -[qb_num_scis]. intros [= <-]. unfold node_system, node_book, node_p2p. cbn -[qb_num_scis].
  unfold update_periodic_metrics. by destruct (qb_num_scis _).
Qed.

Lemma bus_turn nd nd' msg :
  loop_turn (BusMessage (Some msg)) nd = Some nd' →
  node_system nd' = node_system nd ∧ nd_created nd' = nd_created nd ∧ nd_bus nd' = nd_bus nd ∧
  nd_answers nd' = nd_answers nd ∧
  p2p_published (node_p2p nd') = p2p_published (node_p2p nd) ++ option_list (announced (BusMessage (Some msg))).
Proof.
  unfold loop_turn. intros Hturn. destruct (loop_step _ _ _ _ _) as [loop|] eqn:Hstep; [|done].
  injection Hturn as <-. split; [|do 3 (split; [done|]); by apply (loop_step_published _ _ _ _ _ _ Hstep)].
  destruct msg as [q|q]; injection Hstep as <-; unfold node_system, node_book, node_p2p; [|done]. cbn.
  unfold broadcast_sci_quote_added. by destruct (gossip_serialize _).
Qed.

(** ** One step *)

Definition is_submit (a : NodeAction L) : bool := match a with Submit _ _ => true | _ => false end.

Lemma callback_bus quotes bus q :
  SciQuoteAdded q ∈ (remove_quote_callback true quotes bus).2 ↔ SciQuoteAdded q ∈ bus.
Proof.
  revert bus. induction quotes as [|x quotes IH]; intros bus; [done|]. cbn. unfold st_bind. rewrite IH.
  rewrite elem_of_app, list_elem_of_singleton. naive_solver.
Qed.

Lemma removal_queues src nd m next done' : node_ok src nd → queues src nd (thread_removal m next done' nd).
Proof.
  intros Hok. unfold thread_removal. destruct (m (node_book nd)) as [[l|e|p] b]; apply queues_same; try done.
  intros q. apply callback_bus.
Qed.

Lemma announce_queues src nd k q :
  node_ok src nd → nd_created nd !! k = Some q →
  queues src nd (with_bus (nd_bus nd ++ [SciQuoteAdded q]) (with_created (delete k (nd_created nd)) nd)).
Proof.
  intros [_ _ _ _ Hcr Hbus Hans] Hk. rewrite Forall_forall in Hcr.
  assert (∀ x, x ∈ nd_created nd ↔ x = q ∨ x ∈ delete k (nd_created nd)) as Hdel.
  { intros x. rewrite (delete_Permutation _ _ _ Hk) at 1. apply elem_of_cons. }
  split; cbn.
  - intros x [->|?]%Hdel; [right; set_solver|by left].
  - intros x Hx. left. set_solver.
  - intros m. unfold newly_published. cbn. rewrite drop_all. by intros ?%elem_of_nil.
  - intros x Hx. apply Hcr, Hdel. by right.
  - intros x [Hx|[= ->]%list_elem_of_singleton]%elem_of_app; [by apply Hbus|]. apply Hcr. by eapply list_elem_of_lookup_2.
  - done.
Qed.

Lemma bus_queues src nd nd' msg :
  node_ok src nd → head (nd_bus nd) = Some msg →
  loop_turn (BusMessage (Some msg)) (with_bus (tail (nd_bus nd)) nd) = Some nd' → queues src nd nd'.
Proof.
  intros [_ _ _ _ Hcr Hbus Hans] Hhead (_ & Ec & Eb & Ea & Ep)%bus_turn. cbn in Ec, Eb, Ea, Ep.
  change (node_p2p (with_bus (tail (nd_bus nd)) nd)) with (node_p2p nd) in Ep.
  assert (newly_published nd nd' = option_list (announced (BusMessage (Some msg)))) as En.
  { unfold newly_published. by rewrite Ep, drop_app_length. }
  destruct (nd_bus nd) as [|x rest] eqn:Hb; [done|]. injection Hhead as ->. cbn in Eb.
  rewrite Forall_forall in Hcr. split; rewrite ?Ec, ?Eb, ?Ea, ?En, ?Hb; [by auto| | |by auto| |by auto].
  - intros q [<-|Hq]%elem_of_cons; [right|by left]. cbn.
    destruct (gossip_serialize _) as [data|e|p]; [right|by left..]. exists data. split; [done|apply list_elem_of_here].
  - intros m. destruct msg as [q|q]; cbn; [|by intros ?%elem_of_nil].
    destruct (gossip_serialize _) as [data|e|p] eqn:Hser; cbn; [|by intros ?%elem_of_nil..].
    intros ->%list_elem_of_singleton. exists q, data. split; [|done]. apply Hbus. apply list_elem_of_here.
  - intros q Hq. apply Hbus. by apply list_elem_of_further.
Qed.

Lemma turn_quiet src nd nd' :
  node_ok src nd →
  node_system nd' = node_system nd ∧ nd_created nd' = nd_created nd ∧ nd_bus nd' = nd_bus nd ∧
  nd_answers nd' = nd_answers nd ∧ p2p_published (node_p2p nd') = p2p_published (node_p2p nd) →
  book_moves src nd nd' ∧ queues src nd nd'.
Proof.
  intros Hok (E & Ec & Eb & Ea & Ep). split; [by apply moves_same|]. apply queues_same; try done.
  - intros q. by rewrite Eb.
  - by rewrite Ea.
Qed.

(** An answer that is added. *)
Lemma answer_quiet src nd k answer :
  node_ok src nd → (∀ q, src q → from_client q) → nd_answers nd !! k = Some answer →
  let nd' := with_answers (delete k (nd_answers nd)) (with_book (sync_one answer (node_book nd)).2 nd) in
  book_moves src nd nd' ∧ queues src nd nd'.
Proof.
  intros Hok Hsrc Hk nd'. split.
  - destruct answer as [[q|]|e|p]; [|by apply moves_same..].
    assert (src q) as Hq by (apply (ok_answers _ _ Hok); by eapply list_elem_of_lookup_2).
    apply (moves_added src nd nd' q Hok Hsrc (Hsrc q Hq) (λ _, Hq)). unfold nd', node_system. cbn -[qb_add_quote qb_add_sci].
    rewrite <-(genuine_add_sci q (node_book nd) (proj2 (Hsrc q Hq))).
    unfold sync_one. by destruct (qb_add_sci _ _ _ _).
  - apply queues_same; try done. cbn. intros x Hx. rewrite (delete_Permutation _ _ _ Hk). by right.
Qed.

Lemma node_step_quiet src v a nd nd' :
  (∀ q, src q → from_client q) → node_ok src nd → node_allowed src a nd → is_submit a = false →
  node_step v a nd = Some nd' → book_moves src nd nd' ∧ queues src nd nd'.
Proof.
  intros Hsrc Hok Hall Hns.
  destruct a as [l|ts sci|k| |event| |k| | |]; cbn [node_step]; try done.
  - intros [= <-]. split; [by destruct Hall; apply (moves_grow _ _ _ l)|by apply queues_same].
  - intros (q & Hk & [= <-])%bind_Some. split; [by apply moves_same|by apply announce_queues].
  - intros (msg & Hhead & Hturn)%bind_Some. split; [|by eapply bus_queues].
    apply moves_same; [done|]. by destruct (bus_turn _ _ _ Hturn) as [-> _].
  - destruct event as [p|topic data|p r|].
    + intros Hturn%other_turn; [by apply turn_quiet|done].
    + destruct Hall as (-> & q & Hq & Hser). rewrite (gossip_turn _ _ _ Hser (proj2 (Hsrc q Hq))). intros [= <-].
      split; [by apply (moves_added src nd _ q Hok Hsrc (Hsrc q Hq) (λ _, Hq))|by apply queues_same].
    + intros Hturn%other_turn; [by apply turn_quiet|done].
    + intros Hturn%other_turn; [by apply turn_quiet|done].
  - intros Hturn%metrics_turn. by apply turn_quiet.
  - intros (answer & Hk & [= <-])%bind_Some. by apply answer_quiet.
  - intros (c & Hc & (key & Hkey & [= <-])%bind_Some)%bind_Some. split; [by eapply moves_key_image|by apply removal_queues].
  - intros (c & Hc & Hif)%bind_Some. destruct (Nat.eqb_spec (nd_done nd) (length (bc_key_images c))); [|done].
    injection Hif as <-. split; [by eapply moves_next|by apply queues_same].
  - destruct (Nat.ltb_spec 0 (nd_next nd)); [|done]. destruct (nd_done nd =? 0)%nat; [|done]. cbn. intros [= <-].
    split; [by apply moves_tombstone|by apply removal_queues].
Qed.

Lemma submit_one_cases v ts sci b r b' :
  submit_one v ts sci b = (r, b') →
  (result_quote r = None ∧ b' = b) ∨
  ∃ q r1, v sci = Ok tt ∧ quote_new None sci (Some ts) = Ok q ∧ qb_add_quote q b = (r1, b') ∧
          result_quote r = if is_ok r1 then Some q else None.
Proof.
  unfold submit_one, qb_add_sci, st_bind, st_lift, st_ret.
  destruct (v sci) as [[]|e|p]; [|intros [= <- <-]; by left..].
  destruct (quote_new None sci (Some ts)) as [q|e|p]; [|intros [= <- <-]; by left..].
  destruct (qb_add_quote q b) as [r1 b1] eqn:Hadd. intros Hr. right. exists q, r1. do 2 (split; [done|]).
  by destruct r1; injection Hr as <- <-.
Qed.

Lemma node_step_submit src v ts sci nd nd' :
  (∀ q, src q → from_client q) → node_ok src nd → submitted_scis sci →
  node_step v (Submit ts sci) nd = Some nd' →
  let src' q := src q ∨ q ∈ newly_created nd nd' in
  book_moves src' nd nd' ∧ queues src' nd nd' ∧
  ∀ q, q ∈ newly_created nd nd' →
    from_client q ∧ v (q_sci q) = Ok tt ∧ settled (node_book nd') q ∧ q ∈ nd_created nd'.
Proof.
  intros Hsrc Hok Hsub Hstep src'. cbn [node_step] in Hstep.
  destruct (submit_one v ts sci (node_book nd)) as [r b'] eqn:Hr. injection Hstep as Hnd.
  assert (newly_created nd nd' = option_list (result_quote r)) as En by (rewrite <-Hnd; apply drop_app_length).
  assert (node_ok src' nd) as Hok' by (eapply node_ok_mono; [|exact Hok]; by left).
  assert (queues src' nd nd') as Hqs.
  { destruct Hok as [_ _ _ _ Hcr Hbus Hans]. rewrite Forall_forall in Hcr. split.
    - intros q Hq. left. rewrite <-Hnd. apply elem_of_app. by left.
    - intros q. rewrite <-Hnd. by left.
    - intros m. unfold newly_published. rewrite <-Hnd. cbn. rewrite drop_all. by intros ?%elem_of_nil.
    - intros q. rewrite <-Hnd. intros [Hq|Hq]%elem_of_app; [left; auto|right; by rewrite En].
    - intros q. rewrite <-Hnd. left. auto.
    - intros q. rewrite <-Hnd. left. auto. }
  destruct (submit_one_cases _ _ _ _ _ _ Hr) as [[Hnone ->]|(q & r1 & Hv & Hnew & Hadd & Hres)].
  { split; [apply moves_same; [done|by rewrite <-Hnd]|]. split; [done|]. rewrite En, Hnone. by intros q ?%elem_of_nil. }
  assert (q_sci q = sci) as Hsci by (by apply quote_new_inv in Hnew as (_ & ir & c & rg & m & t & _ & _ & _ & ->)).
  assert (from_client q) as Hq by (split; [by rewrite Hsci|by eapply quote_new_genuine]).
  assert (∀ x, x ∈ newly_created nd nd' → x = q ∧ is_ok r1 = true) as Hx.
  { intros x. rewrite En, Hres. destruct (is_ok r1); cbn; [by intros ->%list_elem_of_singleton|by intros ?%elem_of_nil]. }
  destruct (moves_added src' nd nd' q Hok') as [Hmoves Hset]; [|done| |unfold node_system; rewrite <-Hnd; cbn -[qb_add_quote]; by rewrite Hadd|].
  { intros x [?|[-> _]%Hx]; auto. }
  { rewrite Hadd. cbn. intros Hr1. right. rewrite En, Hres, Hr1. apply list_elem_of_here. }
  split; [done|]. split; [done|]. intros x Hin. destruct (Hx x Hin) as [-> _]. rewrite Hsci.
  split; [done|]. split; [done|]. split; [done|]. rewrite En in Hin. rewrite <-Hnd. apply elem_of_app. by right.
Qed.

(** Only clients create quotes. *)
Lemma node_step_created v a nd nd' :
  is_submit a = false → node_step v a nd = Some nd' → newly_created nd nd' = [].
Proof.
  intros Hns Hstep. unfold newly_created. apply drop_ge.
  assert (∀ m next done', nd_created (thread_removal m next done' nd) = nd_created nd) as Hrem.
  { intros. unfold thread_removal. by destruct (m (node_book nd)) as [[] ?]. }
  assert (∀ event nd0, loop_turn event nd0 = Some nd' → nd_created nd' = nd_created nd0) as Hturn.
  { intros event nd0. unfold loop_turn. intros (loop & _ & [= <-])%bind_Some. done. }
  destruct a as [l|ts sci|k| |event| |k| | |]; cbn [node_step] in Hstep; try done.
  - by injection Hstep as <-.
  - apply bind_Some in Hstep as (q & Hk & [= <-]). cbn. rewrite length_delete by eauto. lia.
  - apply bind_Some in Hstep as (msg & _ & ->%Hturn). done.
  - by apply Hturn in Hstep as ->.
  - by apply Hturn in Hstep as ->.
  - by apply bind_Some in Hstep as (answer & _ & [= <-]).
  - apply bind_Some in Hstep as (c & _ & (k & _ & [= <-])%bind_Some). by rewrite Hrem.
  - apply bind_Some in Hstep as (c & _ & Hif). case_match; [|done]. by injection Hif as <-.
  - case_match; [|done]. injection Hstep as <-. by rewrite Hrem.
Qed.

Lemma book_moves_mono src src' nd nd' : (∀ q, src q → src' q) → book_moves src nd nd' → book_moves src' nd nd'.
Proof. intros Himp [? ? ? ? ?]. split; eauto using Forall_impl. Qed.

Lemma queues_mono src src' nd nd' : (∀ q, src q → src' q) → queues src nd nd' → queues src' nd nd'.
Proof.
  intros Himp [? ? Hp ? ? ?]. split; eauto. intros m Hm. destruct (Hp m Hm) as (q & data & ? & ?). eauto.
Qed.

(** A quote that is delivered. *)
Lemma node_step_gossip src v nd nd' q data :
  (∀ x, src x → from_client x) → node_ok src nd → src q →
  gossip_serialize (GossipSciQuoteAdded q) = Ok data →
  node_step v (NetworkTurn (GossipMessage MSG_BUS_TOPIC data)) nd = Some nd' → settled (node_book nd') q.
Proof.
  intros Hsrc Hok Hq Hser. cbn [node_step]. rewrite (gossip_turn _ _ _ Hser (proj2 (Hsrc q Hq))). intros [= <-].
  by apply (moves_added src nd _ q Hok Hsrc (Hsrc q Hq) (λ _, Hq)).
Qed.

Lemma rpc_responses respond request (s : P2P (SynchronizedQuoteBook Q L)) :
  p2p_responses (handle_rpc_request respond request s).2 =
  p2p_responses s ++ match rpc_response (p2p_quote_book s) request with Ok r => [r] | _ => [] end.
Proof.
  unfold handle_rpc_request. destruct (metrics_req (p2p_metrics s) request) as [m name].
  cbn [p2p_quote_book]. destruct (rpc_response (p2p_quote_book s) request); cbn; by rewrite ?app_nil_r.
Qed.

(** A request for quotes that is answered. *)
Lemma node_step_rpc src v nd nd' ids quotes response rest q :
  node_ok src nd →
  node_step v (NetworkTurn (RpcRequest [] (GetQuotesById ids))) nd = Some nd' →
  newly_responded nd nd' = response :: rest → get_quotes_by_id (λ _, Ok response) ids = Ok quotes →
  Ok (Some q) ∈ quotes → src q.
Proof.
  intros Hok. cbn [node_step]. unfold loop_turn, loop_step, handle_network_event. cbn [option_bind mbind].
  intros [= <-]. unfold newly_responded.
  change (node_p2p (with_loop ?loop nd)) with (sl_p2p loop). cbn [sl_p2p]. rewrite rpc_responses.
  fold (node_p2p nd). fold (node_book nd). rewrite drop_app_length.
  destruct (rpc_response (node_book nd) (GetQuotesById ids)) as [resp|e|p] eqn:Hresp; [|done..].
  intros [= <- <-]. revert Hresp. cbn. case_match; [|by intros [= <-]].
  set (answers := lookup_quote (node_book nd) <$> ids). intros Hresp. unfold get_quotes_by_id.
  assert (resp = MaybeQuotes answers) as ->.
  { destruct (list_find _ _) as [[i [o|e|p]]|]; by simplify_eq. }
  destruct (_ =? _)%nat; [|done]. intros [= <-] (i & Hl & _)%list_elem_of_fmap. unfold lookup_quote in Hl.
  pose proof (ok_contents _ _ Hok) as Hc. rewrite Forall_forall in Hc. apply Hc.
  destruct (qb_get_quote_by_id i (node_book nd)) as [o|e|p] eqn:Hget; [|done..]. injection Hl as <-.
  exact (proj1 (get_quote_by_id_ok i (sync_quote_book (node_book nd)) (Some q) (up_inv _ (ok_up _ _ Hok)) Hget)).
Qed.
End NodeFacts.

(** * What holds of the network *)

Section ClusterFacts.
Context `{McLib, GossipCodec} {Q L : Type}.
Context `{!QuoteBook Q, !QuoteBookLaws Q, !TotalBook Q, !Ledger L, !LedgerLaws L, !GossipCodecLaws}.
Implicit Types (c : Cluster Q L) (nd : Node Q L) (q : Quote).
Variable validators : nat → SignedContingentInput → outcome Error unit.
Variable submitted_scis : SignedContingentInput → Prop.
Variable ledger_state : L → Prop.
Hypothesis Hscis : good_scis (Q:=Q) submitted_scis.
(** The quotes the nodes start with. *)
Variable initial : list Quote.
Hypothesis Hinitial : Forall (from_client submitted_scis) initial.

Definition known_to c q : Prop := q ∈ initial ∨ q ∈ (c_log c).*2.

(** What happens to the network: the ledgers grow, the clients submit SCIs of
    those considered, gossip arrives only by delivery. *)
Definition cluster_allowed (a : ClusterAction L) c : Prop :=
  match a with
  | At i a => ∀ nd, c_nodes c !! i = Some nd → node_allowed (Q:=Q) submitted_scis ledger_state (λ _, False) a nd
  | _ => True
  end.
Definition cluster_trans c c' : Prop := ∃ a, cluster_allowed a c ∧ cluster_step validators a c = Some c'.

(** Where a quote of a client of node [i] is on its way to node [j]: with
    [nd] and [nd'] these nodes, and [arriving] a message just taken off the
    wire. *)
Definition on_way arriving c q (j : nat) nd nd' : Prop :=
  settled ledger_state (node_book nd') q ∨ q ∈ nd_created nd ∨ SciQuoteAdded q ∈ nd_bus nd ∨
  is_ok (gossip_serialize (GossipSciQuoteAdded q)) = false ∨
  ∃ data, gossip_serialize (GossipSciQuoteAdded q) = Ok data ∧
          (j, (MSG_BUS_TOPIC, data)) ∈ arriving ++ c_wire c ++ c_lost c.

Record cluster_inv arriving c : Prop := {
  ci_nodes i nd : c_nodes c !! i = Some nd → node_ok ledger_state (known_to c) nd;
  ci_wire j m : (j, m) ∈ arriving ++ c_wire c →
    ∃ q data, known_to c q ∧ gossip_serialize (GossipSciQuoteAdded q) = Ok data ∧ m = (MSG_BUS_TOPIC, data);
  ci_log i q : (i, q) ∈ c_log c → from_client submitted_scis q ∧ validators i (q_sci q) = Ok tt;
  ci_own i q nd : (i, q) ∈ c_log c → c_nodes c !! i = Some nd → settled ledger_state (node_book nd) q;
  ci_way i q j nd nd' : (i, q) ∈ c_log c → c_nodes c !! i = Some nd → c_nodes c !! j = Some nd' →
    on_way arriving c q j nd nd';
}.

Lemma known_from_client arriving c q : cluster_inv arriving c → known_to c q → from_client submitted_scis q.
Proof.
  intros Hc [Hq|((i & x) & -> & Hq)%list_elem_of_fmap]; [by rewrite Forall_forall in Hinitial; apply Hinitial|].
  by destruct (ci_log _ _ Hc i x Hq).
Qed.

Lemma flood_elem i n msgs j m : (j, m) ∈ flood i n msgs ↔ m ∈ msgs ∧ (j < n)%nat ∧ j ≠ i.
Proof.
  unfold flood. rewrite list_elem_of_bind. split.
  - intros (m' & (j' & [= -> ->] & [? Hj]%list_elem_of_filter)%list_elem_of_fmap & Hm).
    apply elem_of_seq in Hj. split; [done|]. split; [lia|done].
  - intros (Hm & Hj & Hne). exists m. split; [|done]. apply list_elem_of_fmap. exists j. split; [done|].
    apply list_elem_of_filter. split; [done|]. apply elem_of_seq. lia.
Qed.

(** The step of one node, whatever the step is. *)
Lemma node_step_spec arriving c i nd a nd' :
  cluster_inv arriving c → c_nodes c !! i = Some nd →
  node_allowed (Q:=Q) submitted_scis ledger_state (known_to c) a nd → node_step (validators i) a nd = Some nd' →
  let src q := known_to c q ∨ q ∈ newly_created nd nd' in
  book_moves ledger_state src nd nd' ∧ queues src nd nd' ∧
  ∀ q, q ∈ newly_created nd nd' →
    from_client submitted_scis q ∧ validators i (q_sci q) = Ok tt ∧ settled ledger_state (node_book nd') q ∧ q ∈ nd_created nd'.
Proof.
  intros Hc Hi Hall Hstep src. pose proof (ci_nodes _ _ Hc i nd Hi) as Hok.
  pose proof (λ q, known_from_client arriving c q Hc) as Hsrc.
  destruct (is_submit a) eqn:Hsub.
  - destruct a; try done. by eapply node_step_submit.
  - destruct (node_step_quiet submitted_scis ledger_state Hscis _ _ _ _ _ Hsrc Hok Hall Hsub Hstep) as [Hm Hq].
    pose proof (node_step_created _ _ _ _ Hsub Hstep) as Hnew.
    split; [eapply book_moves_mono; [|exact Hm]; by left|]. split; [eapply queues_mono; [|exact Hq]; by left|].
    rewrite Hnew. by intros q ?%elem_of_nil.
Qed.

(** ** A step of a node in the network *)

(** [a] is what [arriving] arrives by at node [i]. *)
Definition arrives arriving (i : nat) (a : NodeAction L) : Prop :=
  arriving = [] ∨ ∃ topic data, arriving = [(i, (topic, data))] ∧ a = NetworkTurn (GossipMessage topic data).

(** The network after node [i] has become [nd1], with [new] for the wire and
    [made] created. *)
Definition stepped (i : nat) nd1 new made c : Cluster Q L :=
  mk_cluster (<[i := nd1]> (c_nodes c)) (c_wire c ++ new) (c_lost c) (c_log c ++ ((i,.) <$> made)).

Lemma stepped_node i nd1 new made c j nd :
  c_nodes (stepped i nd1 new made c) !! j = Some nd →
  (j = i ∧ nd = nd1) ∨ (j ≠ i ∧ c_nodes c !! j = Some nd).
Proof. cbn. intros [(-> & -> & _)|[? ?]]%list_lookup_insert_Some; auto. Qed.

Lemma stepped_log i nd1 new made c k q :
  (k, q) ∈ c_log (stepped i nd1 new made c) → (k, q) ∈ c_log c ∨ k = i ∧ q ∈ made.
Proof. cbn. intros [?|(x & [= -> ->] & ?)%list_elem_of_fmap]%elem_of_app; auto. Qed.

(** A quote goes on on its way. *)
Lemma on_way_step arriving c i nd nd1 a src made k q j ndk ndj :
  cluster_inv arriving c → arrives arriving i a → c_nodes c !! i = Some nd →
  node_step (validators i) a nd = Some nd1 → book_moves ledger_state src nd nd1 → queues src nd nd1 →
  let c' := stepped i nd1 (flood i (length (c_nodes c)) (newly_published nd nd1)) made c in
  (k, q) ∈ c_log c → c_nodes c' !! k = Some ndk → c_nodes c' !! j = Some ndj → on_way [] c' q j ndk ndj.
Proof.
  intros Hc Harr Hi Hstep Hm Hqs c' Hlog Hk Hj.
  assert (∃ ndj0, c_nodes c !! j = Some ndj0 ∧ (settled ledger_state (node_book ndj0) q → settled ledger_state (node_book ndj) q)) as (ndj0 & Hj0 & Hset).
  { destruct (stepped_node _ _ _ _ _ _ _ Hj) as [[-> ->]|[_ ?]]; [|by exists ndj]. exists nd. split; [done|].
    apply (bm_settled _ _ _ _ Hm). }
  assert (∃ ndk0, c_nodes c !! k = Some ndk0 ∧ ((k = i ∧ ndk0 = nd ∧ ndk = nd1) ∨ (k ≠ i ∧ ndk = ndk0))) as (ndk0 & Hk0 & Hcase).
  { destruct (stepped_node _ _ _ _ _ _ _ Hk) as [[-> ->]|[? ?]]; [exists nd; auto|exists ndk; auto]. }
  destruct (ci_way _ _ Hc k q j ndk0 ndj0 Hlog Hk0 Hj0) as [?|[Hcr|[Hbus|[?|(data & Hser & Hin)]]]].
  - left. auto.
  - destruct Hcase as [(-> & -> & ->)|[_ ->]]; [|by right; left].
    destruct (qs_created _ _ _ Hqs q Hcr); [by right; left|by right; right; left].
  - destruct Hcase as [(-> & -> & ->)|[_ ->]]; [|by right; right; left].
    destruct (qs_bus _ _ _ Hqs q Hbus) as [?|[?|(data & Hser & Hpub)]]; [by right; right; left|by do 3 right; left|].
    destruct (decide (j = i)) as [->|Hne]; [left; apply Hset; by eapply (ci_own _ _ Hc)|].
    do 4 right. exists data. split; [done|]. cbn. apply elem_of_app. left. apply elem_of_app. right.
    apply flood_elem. split; [done|]. split; [by eapply lookup_lt_Some|done].
  - by do 3 right; left.
  - apply elem_of_app in Hin as [Hin|Hin].
    + destruct Harr as [->|(topic & data' & -> & ->)]; [by apply elem_of_nil in Hin|].
      apply list_elem_of_singleton in Hin as [= <- <- ->]. left.
      destruct (stepped_node _ _ _ _ _ _ _ Hj) as [[_ ->]|[? _]]; [|done].
      refine (node_step_gossip submitted_scis ledger_state Hscis (known_to c) _ nd nd1 q _ _ (ci_nodes _ _ Hc _ nd Hi) _ Hser Hstep).
      * intros x. by apply (known_from_client _ _ _ Hc).
      * right. apply list_elem_of_fmap. by exists (k, q).
    + do 4 right. exists data. split; [done|]. cbn. set_solver.
Qed.

Lemma step_at_inv arriving c i nd a c' :
  cluster_inv arriving c → arrives arriving i a → c_nodes c !! i = Some nd →
  node_allowed (Q:=Q) submitted_scis ledger_state (known_to c) a nd → step_at validators i a c = Some c' → cluster_inv [] c'.
Proof.
  intros Hc Harr Hi Hall. unfold step_at. rewrite Hi. cbn [mbind option_bind].
  intros (nd1 & Hstep & [= <-])%bind_Some.
  destruct (node_step_spec arriving c i nd a nd1 Hc Hi Hall Hstep) as (Hm & Hqs & Hnew).
  set (src q := known_to c q ∨ q ∈ newly_created nd nd1) in *.
  fold (stepped i nd1 (flood i (length (c_nodes c)) (newly_published nd nd1)) (newly_created nd nd1) c).
  set (c' := stepped _ _ _ _ c).
  assert (∀ q, src q → known_to c' q) as Hsrc'.
  { intros q [[?|?]|Hq]; [by left|right..]; cbn; rewrite fmap_app, elem_of_app; [by left|right].
    apply list_elem_of_fmap. exists (i, q). split; [done|]. by apply list_elem_of_fmap_2. }
  assert (∀ q, known_to c q → known_to c' q) as Hknown by (intros q Hq; apply Hsrc'; by left).
  split.
  - intros j nd' [[-> ->]|[_ Hj]]%stepped_node; eapply node_ok_mono; [exact Hsrc'| |exact Hknown|by eapply (ci_nodes _ _ Hc)].
    eapply node_ok_step; [|exact Hm|exact Hqs]. by eapply ok_sync, (ci_nodes _ _ Hc).
  - intros j m. cbn. intros [Hin|Hin]%elem_of_app.
    + destruct (ci_wire _ _ Hc j m) as (q & data & ? & ?); [set_solver|]. exists q, data. auto.
    + apply flood_elem in Hin as [Hp _]. destruct (qs_published _ _ _ Hqs m Hp) as (q & data & ? & ?).
      exists q, data. auto.
  - intros k q [?|[-> Hq]]%stepped_log; [by eapply (ci_log _ _ Hc)|]. by destruct (Hnew q Hq) as (? & ? & _).
  - intros k q nd' Hlog Hk. destruct (stepped_log _ _ _ _ _ _ _ Hlog) as [Hold|[-> Hq]];
      destruct (stepped_node _ _ _ _ _ _ _ Hk) as [[Hki ->]|[? Hk']]; [| | |done].
    + subst k. apply (bm_settled _ _ _ _ Hm). by eapply (ci_own _ _ Hc).
    + by eapply (ci_own _ _ Hc).
    + by destruct (Hnew q Hq) as (_ & _ & ? & _).
  - intros k q j ndk ndj Hlog Hk Hj. destruct (stepped_log _ _ _ _ _ _ _ Hlog) as [Hold|[-> Hq]].
    + by eapply on_way_step.
    + destruct (stepped_node _ _ _ _ _ _ _ Hk) as [[_ ->]|[? _]]; [|done]. right. left. by apply (Hnew q Hq).
Qed.

(** ** The other steps *)

Lemma node_allowed_mono (src src' : Quote → Prop) a nd :
  (∀ q, src q → src' q) → node_allowed (Q:=Q) submitted_scis ledger_state src a nd →
  node_allowed (Q:=Q) submitted_scis ledger_state src' a nd.
Proof.
  intros Himp. destruct a as [| | | |[]| | | | |]; try done. intros (-> & q & ? & ?). split; [done|]. exists q. auto.
Qed.

Lemma taken_off k j m c :
  c_wire c !! k = Some (j, m) → cluster_inv [] c →
  cluster_inv [(j, m)] (set_wire (delete k (c_wire c)) (c_lost c) c).
Proof.
  intros Hk [Hn Hw Hl Ho Hway].
  assert (∀ x, x ∈ c_wire c ↔ x ∈ (j, m) :: delete k (c_wire c)) as Hdel.
  { intros x. by rewrite <-(delete_Permutation _ _ _ Hk). }
  split; [done| |done|done|].
  - intros j' m' Hin. apply (Hw j' m'). cbn. by apply Hdel.
  - intros i q j' nd nd' Hlog Hi Hj. destruct (Hway i q j' nd nd' Hlog Hi Hj) as [?|[?|[?|[?|(data & ? & Hin)]]]];
      [by left|by right; left|by do 2 right; left|by do 3 right; left|].
    do 4 right. exists data. split; [done|]. cbn in *. rewrite elem_of_app, Hdel in Hin.
    rewrite elem_of_cons, elem_of_app in *. tauto.
Qed.

Lemma lose_inv k m c :
  c_wire c !! k = Some m → cluster_inv [] c → cluster_inv [] (set_wire (delete k (c_wire c)) (m :: c_lost c) c).
Proof.
  intros Hk [Hn Hw Hl Ho Hway].
  assert (∀ x, x ∈ c_wire c ↔ x ∈ m :: delete k (c_wire c)) as Hdel.
  { intros x. by rewrite <-(delete_Permutation _ _ _ Hk). }
  split; [done| |done|done|].
  - intros j' m' Hin. apply (Hw j' m'). cbn. apply Hdel. by right.
  - intros i q j' nd nd' Hlog Hi Hj. destruct (Hway i q j' nd nd' Hlog Hi Hj) as [?|[?|[?|[?|(data & ? & Hin)]]]];
      [by left|by right; left|by do 2 right; left|by do 3 right; left|].
    do 4 right. exists data. split; [done|]. cbn in *. rewrite elem_of_app, Hdel in Hin.
    rewrite elem_of_app, !elem_of_cons in *. tauto.
Qed.

Lemma answers_inv i nd quotes c :
  c_nodes c !! i = Some nd → (∀ q, Ok (Some q) ∈ quotes → known_to c q) → cluster_inv [] c →
  cluster_inv [] (set_node i (with_answers (nd_answers nd ++ quotes) nd) c).
Proof.
  intros Hi Hqs [Hn Hw Hl Ho Hway].
  assert (∀ j nd', c_nodes (set_node i (with_answers (nd_answers nd ++ quotes) nd) c) !! j = Some nd' →
    ∃ nd0, c_nodes c !! j = Some nd0 ∧ (nd' = nd0 ∨ j = i ∧ nd0 = nd ∧ nd' = with_answers (nd_answers nd ++ quotes) nd)) as Hnode.
  { cbn. intros j nd' [(<- & -> & _)|[? ?]]%list_lookup_insert_Some; [exists nd; auto|exists nd'; auto]. }
  split; [|done|done| |].
  - intros j nd' (nd0 & Hj & [->|(-> & -> & ->)])%Hnode; [by apply (Hn j)|].
    destruct (Hn i nd Hi) as [? ? ? ? ? ? Hans]. split; try done. cbn. intros q [?|?]%elem_of_app; [by apply Hans|by apply Hqs].
  - intros k q nd' Hlog (nd0 & Hj & [->|(-> & -> & ->)])%Hnode; [by apply (Ho k)|]. by apply (Ho i q nd Hlog).
  - intros k q j ndk ndj Hlog (nd0 & Hk & Hnk)%Hnode (nd1 & Hj & Hnj)%Hnode.
    pose proof (Hway k q j nd0 nd1 Hlog Hk Hj) as Hw'.
    destruct Hnk as [->|(-> & -> & ->)], Hnj as [->|(-> & -> & ->)]; exact Hw'.
Qed.

Lemma cluster_step_inv c c' : cluster_inv [] c → cluster_trans c c' → cluster_inv [] c'.
Proof.
  intros Hc (a & Hall & Hstep). destruct a as [i a|k|k|i j ids]; cbn [cluster_step] in Hstep.
  - pose proof Hstep as (nd & Hi & _)%bind_Some. eapply (step_at_inv []); [done|by left|done| |done].
    eapply node_allowed_mono; [|by apply (Hall nd)]. done.
  - apply bind_Some in Hstep as ([j [topic data]] & Hk & Hstep). pose proof Hstep as (nd & Hj & _)%bind_Some.
    pose proof (taken_off _ _ _ _ Hk Hc) as Hc1. eapply step_at_inv; [exact Hc1|right; eauto|done| |done].
    destruct (ci_wire _ _ Hc j (topic, data)) as (q & data' & ? & ? & [= -> ->]); [by eapply list_elem_of_lookup_2|].
    split; [done|]. by exists q.
  - apply bind_Some in Hstep as (m & Hk & [= <-]). by apply lose_inv.
  - apply bind_Some in Hstep as (peer & Hj & (c1 & Hstep & (peer' & Hj' & (nd & Hi & Hresp)%bind_Some)%bind_Some)%bind_Some).
    assert (cluster_inv [] c1) as Hc1 by (eapply (step_at_inv []); [exact Hc|by left|exact Hj| |exact Hstep]; exact I).
    destruct (newly_responded peer peer') as [|response rest] eqn:Hnew; [by injection Hresp as <-|].
    destruct (get_quotes_by_id _ ids) as [quotes|e|p] eqn:Hget; [|by injection Hresp as <-..].
    injection Hresp as <-. apply answers_inv; [done| |done]. intros q Hq.
    unfold step_at in Hstep. rewrite Hj in Hstep. cbn [mbind option_bind] in Hstep.
    apply bind_Some in Hstep as (peer1 & Hturn & [= <-]). cbn in Hj'.
    rewrite list_lookup_insert_eq in Hj' by by eapply lookup_lt_Some. injection Hj' as ->.
    assert (known_to c q) as [?|?]; [|by left|right; cbn; rewrite fmap_app; set_solver].
    eapply (node_step_rpc ledger_state (known_to c)); [by eapply (ci_nodes _ _ Hc)|done..].
Qed.

(** ** Theorems *)

(** Servers that are running, with no messages under way. *)
Record cluster_start c : Prop := {
  start_nodes i nd : c_nodes c !! i = Some nd → node_ok ledger_state (λ q, q ∈ initial) nd;
  start_wire : c_wire c = [];
  start_log : c_log c = [];
}.

Lemma cluster_reachable_inv c c' : cluster_start c → rtc cluster_trans c c' → cluster_inv [] c'.
Proof.
  intros [Hn Hw Hl]. apply rtc_preserve; [exact cluster_step_inv|]. split.
  - intros i nd Hi. eapply node_ok_mono; [|by eapply Hn]. by left.
  - rewrite Hw. by intros j m ?%elem_of_nil.
  - rewrite Hl. by intros i q ?%elem_of_nil.
  - rewrite Hl. by intros i q nd ?%elem_of_nil.
  - rewrite Hl. by intros i q j nd nd' ?%elem_of_nil.
Qed.

Lemma cluster_run_reachable actions c c' :
  Forall (λ a, ∀ c, cluster_allowed a c) actions → cluster_run validators actions c = Some c' → rtc cluster_trans c c'.
Proof.
  intros Hall. revert c. induction Hall as [|a actions Ha _ IH]; intros c; cbn; [by intros [= <-]|].
  intros (c1 & Hstep & Hrun)%bind_Some. eapply rtc_l; [by exists a|]. by apply IH.
Qed.

(** C24: what the nodes of a network hold.  However clients, event loops,
    threads, ledgers, deliveries, losses and requests between the nodes
    interleave step by step, every quote in the book of a node was there in the
    beginning or was created by a client of some node [k], whose own validator
    let it pass (a node's minimum binds only its own clients); it has the terms
    that [Quote::new] reads from its SCI; and its input is not spent in a block
    that the node's thread has processed.  A step adds one quote as a whole:
    the check against the ledger and the insertion are not separated by a step
    of the node's thread; where they are, the spent input stays in the book
    ([sync_add_race]).  The SCIs submitted have quotes with a price that the
    books can store, and digests that do not collide. *)
Theorem cluster_safe c c' i nd q :
  cluster_start c → rtc cluster_trans c c' → c_nodes c' !! i = Some nd → q ∈ contents (node_book nd) →
  (q ∈ initial ∨ ∃ k, (k, q) ∈ c_log c' ∧ validators k (q_sci q) = Ok tt) ∧ genuine q ∧
  quote_key_image q ∉ key_images (take (nd_next nd) (blocks (node_ledger nd))).
Proof.
  intros Hstart Hrun Hi Hq. pose proof (cluster_reachable_inv _ _ Hstart Hrun) as Hc.
  destruct (ci_nodes _ _ Hc i nd Hi) as [_ _ Hs Hcont _ _ _]. rewrite Forall_forall in Hcont.
  pose proof (Hcont q Hq) as Hk. split; [|split].
  - destruct Hk as [?|((k & x) & -> & Hlog)%list_elem_of_fmap]; [by left|right].
    exists k. split; [done|]. by apply (ci_log _ _ Hc).
  - by destruct (known_from_client _ _ _ Hc Hk).
  - pose proof (sy_unspent _ Hs q Hq) as Hu. unfold handled in Hu. rewrite not_elem_of_app in Hu. by destruct Hu.
Qed.

(** A ledger that has the ring of a quote and answers refuses the quote only
    if it rules it out. *)
Definition has_ring (l : L) q : Prop :=
  answers l q ∧ Forall2 (λ i t, (blocks l ≫= bc_outputs) !! Z.to_nat i = Some t)
    (tx_out_global_indices (q_sci q)) (ring (tx_in (q_sci q))).

Lemma refused_ruled_out l q : has_ring l q → is_ok (check_quote l q) = false → ruled_out (blocks l) q.
Proof.
  intros [Ha Hring] Hno. destruct (check_quote_refused l q Ha) as [Hok|[_ Hnf]]; [by rewrite Hok in Hno|].
  destruct (decide (quote_key_image q ∈ key_images (blocks l))) as [?|Hu]; [by left|right].
  destruct Ha as ((n & Hn & Hpos) & _). apply num_blocks_ok in Hn as [-> _].
  exists (length (blocks l) - 1)%nat. split; [lia|]. right.
  destruct (input_rules (tx_in (q_sci q))) as [ir|] eqn:Hir.
  - destruct (decide (max_tombstone_block ir ≠ 0 ∧ max_tombstone_block ir ≤ Z.of_nat (length (blocks l) - 1)))
      as [[? ?]|Hn]; [by exists ir|]. destruct Hnf. split; [|done|done]. intros ir' Hir' Hz.
    rewrite Hir in Hir'. injection Hir' as <-. lia.
  - destruct Hnf. split; [by rewrite Hir|done|done].
Qed.

(** C25: a quote occupies its slot at every node.  Once a quote that a client
    of node [i] created is no longer waiting in that node (for the bus, or on
    it) nor on the wire to node [j], and its message to [j] was not lost, node
    [j] has a quote in its slot (this one or another for the same input and
    pair), or had one that its ledger has ruled out since: spent or past its
    tombstone.  This needs that the ledger of [j], in all the states it has
    gone through, answers and has the ring of the quote: a node whose ledger
    lags behind misses the quote ([lagging_node_misses_quote]).  Steps add one quote as
    a whole, and the SCIs submitted are as for the theorem before. *)
Theorem cluster_propagates c c' i q nd j nd' data :
  cluster_start c → rtc cluster_trans c c' →
  (i, q) ∈ c_log c' → c_nodes c' !! i = Some nd → c_nodes c' !! j = Some nd' →
  q ∉ nd_created nd → SciQuoteAdded q ∉ nd_bus nd →
  gossip_serialize (GossipSciQuoteAdded q) = Ok data → (j, (MSG_BUS_TOPIC, data)) ∉ c_wire c' ++ c_lost c' →
  (∀ l, ledger_state l → blocks l `prefix_of` blocks (node_ledger nd') → has_ring l q) →
  ∃ e, slot e = slot q ∧ (e ∈ contents (node_book nd') ∨ ruled_out (blocks (node_ledger nd')) e).
Proof.
  intros Hstart Hrun Hlog Hi Hj Hcr Hbus Hser Hwire Hring.
  pose proof (cluster_reachable_inv _ _ Hstart Hrun) as Hc.
  destruct (ci_way _ _ Hc i q j nd nd' Hlog Hi Hj) as [Hset|[?|[?|[Hs|(data' & Hs & Hin)]]]]; [|done|done|..].
  - destruct Hset as [?|(l & Hl & Hpre & Hno)]; [done|]. exists q. split; [done|]. right.
    eapply ruled_out_grow; [exact Hpre|]. by apply refused_ruled_out; [apply Hring|].
  - by rewrite Hser in Hs.
  - rewrite Hser in Hs. by injection Hs as <-.
Qed.
End ClusterFacts.

(** * Requests are steps *)

Section Requests.
Context `{McLib, GossipCodec} {A Q L : Type} `{!SciApi A, !QuoteBook Q, !Ledger L, !LedgerLaws L}.
Implicit Types (nd : Node Q L).

Fixpoint node_run (v : SignedContingentInput → outcome Error unit) (actions : list (NodeAction L)) nd : option (Node Q L) :=
  match actions with
  | [] => Some nd
  | a :: rest => nd' ← node_step v a nd; node_run v rest nd'
  end.

Lemma node_run_app v l1 l2 nd : node_run v (l1 ++ l2) nd = nd' ← node_run v l1 nd; node_run v l2 nd'.
Proof. revert nd. induction l1 as [|a l1 IH]; intros nd; [done|]. cbn. destruct (node_step v a nd); cbn; [apply IH|done]. Qed.

(** The closures of a request, in the order they are scheduled. *)
Lemma submit_all_steps v ts scis schedule m nd m' b' :
  NoDup schedule → (∀ i, i ∈ schedule → m !! i = None) →
  submit_all v ts scis schedule m (node_book nd) = (m', b') →
  ∃ made, node_run v (Submit ts <$> omap (λ i, scis !! i) schedule) nd =
      Some (with_created (nd_created nd ++ made) (with_book b' nd)) ∧
    created m' ≡ₚ made ++ created m.
Proof.
  revert m nd. induction schedule as [|i schedule IH]; intros m nd Hnd Hm; cbn [submit_all].
  { intros [= <- <-]. exists []. rewrite app_nil_r. split; [|done]. by destruct nd as [[[]]]. }
  apply NoDup_cons in Hnd as [Hi Hnd]. cbn [omap list_omap]. destruct (scis !! i) as [sci|] eqn:Hsci.
  - destruct (submit_one v ts sci (node_book nd)) as [r b] eqn:Hr. intros Hall.
    cbn [fmap list_fmap node_run node_step]. rewrite Hr. cbn [mbind option_bind].
    set (nd1 := with_created (nd_created nd ++ option_list (result_quote r)) (with_book b nd)).
    destruct (IH (<[i:=r]> m) nd1 Hnd) as (made & Hrun & Hc); [|exact Hall|].
    + intros j Hj. rewrite lookup_insert_ne by (intros ->; done). apply Hm. by right.
    + exists (option_list (result_quote r) ++ made). rewrite Hrun. split; [by cbn; rewrite (assoc_L (++))|].
      rewrite Hc, created_insert by (apply Hm; left). rewrite !(assoc (++)).
      by rewrite (Permutation_app_comm made).
  - intros Hall. apply IH; [done| |done]. intros j Hj. apply Hm. by right.
Qed.

Lemma submit_all_dom v ts scis schedule m (b : SynchronizedQuoteBook Q L) m' b' :
  submit_all v ts scis schedule m b = (m', b') → ∀ i, is_Some (m' !! i) → is_Some (m !! i) ∨ is_Some (scis !! i).
Proof.
  revert m b. induction schedule as [|j schedule IH]; intros m b; cbn [submit_all]; [by intros [= <- <-]; left|].
  destruct (scis !! j) as [sci|] eqn:Hsci; [|apply IH].
  destruct (submit_one v ts sci b) as [r b1]. intros Hall i [Hi|?]%(IH _ _ Hall); [|by right].
  apply lookup_insert_is_Some in Hi as [<-|[_ ?]]; [right; by rewrite Hsci|by left].
Qed.

(** The messages a request sends, in the order of its SCIs. *)
Lemma announce_steps v l nd :
  nd_created nd ≡ₚ l →
  ∃ actions, node_run v actions nd = Some (with_bus (nd_bus nd ++ (SciQuoteAdded <$> l)) (with_created [] nd)).
Proof.
  revert nd. induction l as [|q l IH]; intros nd Hp.
  { apply Permutation_nil_r in Hp. exists []. cbn. rewrite app_nil_r, <-Hp. by destruct nd. }
  assert (q ∈ nd_created nd) as [k Hk]%list_elem_of_lookup by (rewrite Hp; left).
  destruct (IH (with_bus (nd_bus nd ++ [SciQuoteAdded q]) (with_created (delete k (nd_created nd)) nd))) as [actions Hrun].
  { cbn. apply (Permutation_cons_inv (a:=q)). by rewrite <-(delete_Permutation _ _ _ Hk). }
  exists (Announce k :: actions). cbn. rewrite Hk. cbn. rewrite Hrun. cbn. by rewrite <-(assoc_L (++)).
Qed.

(** Serving a request to submit quotes is a sequence of steps of the node:
    the handler as a whole does nothing that the steps do not do. *)
Lemma submit_quotes_steps v now schedule (req : list A) nd resp s' :
  nd_created nd = [] → schedule ≡ₚ seq 0 (length req) →
  submit_quotes_impl v now schedule req (mk_service (nd_bus nd) (node_book nd)) = (Ok resp, s') →
  ∃ actions, node_run v actions nd = Some (with_bus (cs_msg_bus s') (with_book (cs_quote_book s') nd)).
Proof.
  intros Hcr Hsched. unfold submit_quotes_impl. destruct (_ <=? _); [done|].
  destruct (request_timestamp now) as [ts|e|p]; [|done..].
  destruct (collect_results sci_from_api req) as [scis|e|p] eqn:Hscis; [|done..]. cbn [cs_quote_book cs_msg_bus].
  destruct (submit_all v ts scis schedule ∅ (node_book nd)) as [m b'] eqn:Hall.
  destruct (collect_response _ _ _) as [[resp' bus']|e|p] eqn:Hresp; [|done..]. intros [= -> <-]. cbn.
  destruct (submit_all_steps v ts scis schedule ∅ nd m b') as (made & Hrun & Hmade);
    [rewrite Hsched; apply NoDup_seq|done|done|].
  apply collect_response_spec in Hresp as (_ & _ & _ & ->).
  assert (∀ i, is_Some (m !! i) → (i < length scis)%nat) as Hdom.
  { intros i Hi. apply (submit_all_dom v ts scis schedule ∅ (node_book nd) m b' Hall) in Hi as [[? ?]|Hi];
      [done|by apply lookup_lt_is_Some]. }
  set (nd1 := with_created (nd_created nd ++ made) (with_book b' nd)) in *.
  destruct (announce_steps v (omap result_quote (omap (λ i, m !! i) (seq 0 (length scis)))) nd1) as [actions Hann].
  { cbn. rewrite Hcr, omap_seq_entries by done. change (made ≡ₚ created m). rewrite Hmade.
    unfold created. by rewrite map_to_list_empty, app_nil_r. }
  exists ((Submit ts <$> omap (λ i, scis !! i) schedule) ++ actions). rewrite node_run_app, Hrun. cbn [mbind option_bind].
  rewrite Hann. unfold nd1. destruct nd as [loop n d cr bus ans]. cbn in Hcr |- *. by rewrite Hcr.
Qed.
End Requests.

(** * The theorems on examples *)

Module ClusterExamples.
Import Sample SampleCodec SampleLedger InMemoryExamples SyncExamples.

(** Gossip messages: the fields of the quote one after the other. *)
#[export] Program Instance Pair_ser : Ser Pair :=
  iso_ser (λ p, (base_token_id p, counter_token_id p)) (λ '(b, c), Build_Pair b c) _.
Next Obligation. by intros []. Qed.
#[export] Program Instance Quote_ser : Ser Quote :=
  iso_ser (λ q, (q_sci q, (q_id q, (q_pair q, (q_base_range q, (q_max_counter_tokens q, q_timestamp q))))))
    (λ '(sci, (i, (p, (r, (m, t))))), Build_Quote sci i p r m t) _.
Next Obligation. by intros []. Qed.

Definition deser_quote (data : bytes) : outcome string GossipMsgBusData :=
  match deser (A:=Quote) data with Some (q, []) => Ok (GossipSciQuoteAdded q) | _ => Err "gossip" end.
Definition ser_quote (q : Quote) : bytes := ser q.
#[export] Instance quote_gossip : GossipCodec := {|
  gossip_serialize m := match m with GossipSciQuoteAdded q => Ok (ser_quote q) end;
  gossip_deserialize := deser_quote;
|}.

#[export] Instance quote_gossip_laws : GossipCodecLaws.
Proof.
  intros [q] data E. assert (data = ser_quote q) as -> by by injection E.
  unfold gossip_deserialize, quote_gossip, deser_quote, ser_quote.
  by rewrite <-(app_nil_r (ser q)), deser_ser.
Qed.

(** Two servers over the same ledger; the second has a minimum of 50. *)
Abbreviation node := (Node InMemoryQuoteBook Chain).
Definition new_node (l : Chain) : node :=
  mk_node (mk_loop (mk_p2p (sync_new im_default l) (Build_P2PRpcMetrics ∅ ∅ ∅) [] [] []) 0 0) 0 0 [] [] [].
Definition two_nodes (l : Chain) : Cluster InMemoryQuoteBook Chain := mk_cluster [new_node l; new_node l] [] [] [].
Definition minimums (i : nat) : SignedContingentInput → outcome Error unit :=
  sci_validator (if (i =? 1)%nat then {[ 1 := 50 ]} else ∅).

Definition offered_scis (sci : SignedContingentInput) : Prop := sci = sci_full 1 1.

Lemma offered_quote q : from_client offered_scis q → q = quote_on_terms (sci_full 1 1) 2 (10, 10) 20 (q_timestamp q).
Proof.
  intros [Hsci Hg]. unfold offered_scis in Hsci. unfold genuine in Hg. rewrite Hsci in Hg.
  assert (quote_new None (sci_full 1 1) (Some (q_timestamp q)) =
          Ok (quote_on_terms (sci_full 1 1) 2 (10, 10) 20 (q_timestamp q))) as E by done.
  rewrite E in Hg. congruence.
Qed.

Lemma offered_good : good_scis (Q:=InMemoryQuoteBook) offered_scis.
Proof.
  split; [by intros sci sci' -> ->|]. intros q ->%offered_quote. split; [|done].
  unfold priced, max_base_tokens, is_u64, U64_MOD. cbn. lia.
Qed.

(** The SCI is submitted to the first server and reaches the second, which
    would not have accepted it from a client. *)
Definition propagation : list (ClusterAction Chain) :=
  [At 1%nat (Submit 3 (sci_full 1 1)); At 0%nat (Submit 5 (sci_full 1 1)); At 0%nat (Announce 0);
   At 0%nat BusTurn; Deliver 0].
Definition propagated : option (Cluster InMemoryQuoteBook Chain) :=
  cluster_run minimums propagation (two_nodes [origin]).

Definition has_quote (id : QuoteId) (i : nat) (c : Cluster InMemoryQuoteBook Chain) : option bool :=
  nd ← c_nodes c !! i;
  match qb_get_quote_by_id id (node_book nd) with Ok o => Some (bool_decide (is_Some o)) | _ => None end.

Example e2e_two_nodes_dust_propagation :
  (propagated ≫= has_quote (q_id quote_a) 0, propagated ≫= has_quote (q_id quote_a) 1,
   c_log <$> propagated) = (Some true, Some true, Some [(0%nat, quote_a)]).
Proof. by vm_compute. Qed.

Definition same_ledger (l : Chain) : Prop := l = [origin].

Lemma two_nodes_start : cluster_start same_ledger [] (two_nodes [origin]).
Proof.
  assert (node_ok same_ledger (λ q, q ∈ []) (new_node [origin])) as Hok.
  { split.
    - split; [apply im_reachable_healthy; by apply rtc_refl|constructor].
    - done.
    - split; [exact (proj1 (im_reachable_healthy im_default (rtc_refl _ _)))|cbn; lia|by intros q ?%elem_of_nil].
    - constructor.
    - constructor.
    - by intros q ?%elem_of_nil.
    - by intros q ?%elem_of_nil. }
  split; [|done|done]. by intros [|[|i]] nd [= <-].
Qed.

Lemma propagation_reachable c :
  propagated = Some c → rtc (cluster_trans (Q:=InMemoryQuoteBook) minimums offered_scis same_ledger) (two_nodes [origin]) c.
Proof.
  apply cluster_run_reachable. repeat (apply Forall_cons; split); [..|by apply Forall_nil]; intros c'; cbn; try done.
  all: intros nd _; done.
Qed.

(** The books and the queues in the end. *)
Definition queued (nd : node) : list Quote * list Msg := (nd_created nd, nd_bus nd).
Lemma propagation_end :
  match propagated with
  | Some c =>
      ((contents ∘ node_book <$> c_nodes c), (queued <$> c_nodes c), c_log c, c_wire c, c_lost c) =
      ([[quote_a]; [quote_a]], [([], []); ([], [])], [(0%nat, quote_a)], [], [])
  | None => False
  end.
Proof. by vm_compute. Qed.

Lemma two_at {A B} (f : A → B) l x y i z : f <$> l = [x; y] → l !! i = Some z → f z = x ∨ f z = y.
Proof. destruct l as [|a [|b [|? ?]]]; [done|done| |done]. intros [= <- <-]. destruct i as [|[|i]]; intros [= <-]; auto. Qed.

Lemma cluster_safe_witness :
  match propagated with
  | Some c => ∀ i nd, c_nodes c !! i = Some nd →
      (quote_a ∈ [] ∨ ∃ k, (k, quote_a) ∈ c_log c ∧ minimums k (q_sci quote_a) = Ok tt) ∧ genuine quote_a ∧
      quote_key_image quote_a ∉ key_images (take (nd_next nd) (blocks (node_ledger nd)))
  | None => False
  end.
Proof.
  pose proof propagation_end as Hend. pose proof propagation_reachable as Hrun. destruct propagated as [c|]; [|done].
  injection Hend as Hbooks _ _ _ _. intros i nd Hi.
  apply (cluster_safe minimums offered_scis same_ledger offered_good [] (Forall_nil_2 _) _ c i nd quote_a
           two_nodes_start (Hrun c eq_refl) Hi).
  assert (contents (node_book nd) = [quote_a]) as -> by by destruct (two_at _ _ _ _ _ _ Hbooks Hi). left.
Defined.

Lemma quote_a_ring l : same_ledger l → has_ring l quote_a.
Proof.
  intros ->. split; [|by repeat constructor]. split; [by exists 1|]. split; [by eexists|].
  intros i Hi. assert (i = 1) as -> by by apply list_elem_of_singleton in Hi. by exists (tx_out 1).
Qed.

Lemma cluster_propagates_witness :
  match propagated with
  | Some c => ∀ j nd', c_nodes c !! j = Some nd' →
      ∃ e, slot e = slot quote_a ∧ (e ∈ contents (node_book nd') ∨ ruled_out (blocks (node_ledger nd')) e)
  | None => False
  end.
Proof.
  pose proof propagation_end as Hend. pose proof propagation_reachable as Hrun. destruct propagated as [c|]; [|done].
  injection Hend as _ Hqueues Hlog Hwire Hlost. intros j nd' Hj.
  destruct (c_nodes c !! 0%nat) as [nd|] eqn:Hi; [|by destruct (c_nodes c)].
  destruct (two_at _ _ _ _ _ _ Hqueues Hi) as [[= Hcr Hbus]|[= Hcr Hbus]];
    (apply (cluster_propagates minimums offered_scis same_ledger offered_good [] (Forall_nil_2 _) _ c 0%nat quote_a nd j nd'
             (ser_quote quote_a) two_nodes_start (Hrun c eq_refl));
     [rewrite Hlog; left|exact Hi|exact Hj|rewrite Hcr; apply not_elem_of_nil|rewrite Hbus; apply not_elem_of_nil
     |reflexivity|rewrite Hwire, Hlost; apply not_elem_of_nil|intros l Hl _; exact (quote_a_ring l Hl)]).
Defined.

(** Both remove it when their ledgers spend its input. *)
Definition spends (i : nat) : list (ClusterAction Chain) :=
  At i <$> [LedgerGrows [origin; spending]; FetchNext; FetchKeyImage; FetchNext; SweepTombstones].
Example e2e_two_nodes_removal :
  let c := propagated ≫= cluster_run minimums (spends 0 ++ spends 1) in
  (c ≫= has_quote (q_id quote_a) 0, c ≫= has_quote (q_id quote_a) 1) = (Some false, Some false).
Proof. by vm_compute. Qed.

(** A server that joins asks for what it has missed. *)
Example e2e_initial_sync :
  let c := cluster_run minimums
    [At 0%nat (Submit 5 (sci_full 1 1)); Ask 1 0 [q_id quote_a]; At 1%nat (AddAnswer 0)] (two_nodes [origin]) in
  (c ≫= has_quote (q_id quote_a) 1) = Some true.
Proof. by vm_compute. Qed.

(** The same SCI submitted to both at different times: both keep their own
    time stamp, the message of the other changes nothing. *)
Example same_sci_two_times :
  let c := cluster_run (λ _, sci_validator ∅)
    [At 0%nat (Submit 5 (sci_full 1 1)); At 1%nat (Submit 6 (sci_full 1 1)); At 0%nat (Announce 0); At 0%nat BusTurn;
     Deliver 0; At 1%nat (Announce 0); At 1%nat BusTurn; Deliver 0] (two_nodes [origin]) in
  ((λ c, (map q_timestamp ∘ contents ∘ node_book <$> c_nodes c, c_wire c)) <$> c) = Some ([[5]; [6]], []).
Proof. by vm_compute. Qed.

(** A server whose ledger is behind when the quote arrives refuses it, and
    does not get it later. *)
Example lagging_node_misses_quote :
  let c := cluster_run minimums
    ([At 0%nat (LedgerGrows [origin]); At 0%nat (Submit 5 (sci_full 1 1)); At 0%nat (Announce 0); At 0%nat BusTurn;
      Deliver 0; At 1%nat (LedgerGrows [origin])]) (two_nodes []) in
  (c ≫= has_quote (q_id quote_a) 0, c ≫= has_quote (q_id quote_a) 1, c_wire <$> c) = (Some true, Some false, Some []).
Proof. by vm_compute. Qed.
End ClusterExamples.
