(* ===== verification/LiveMirror.v ===== *)
(** What a subscriber of live updates knows of the book.

    The client service, the thread of the synchronized book and the network
    share one quote book.  Quotes a client submits and quotes the thread
    removes are announced on the message bus, which the subscribers' streams
    follow; quotes learned from peers are not. *)

From S2P Require Import Prelude McTypes QuoteApi QuotePricing QuoteBook InMemory SqlTypes Sqlite Synchronized ApiConvert ClientService ServerP2P.

(** * A subscriber *)

(** A client that keeps a copy of the quotes: the effect of an update. *)
Definition apply_update {A} (copy : list (ApiQuote A)) (u : LiveUpdate A) : list (ApiQuote A) :=
  match u with
  | QuoteAdded quote => quote :: copy
  | QuoteRemoved id => filter (λ q, aid_data (default api_quote_id_default (aq_id q)) ≠ aid_data id) copy
  end.
Definition subscriber_copy {A} (start : list (ApiQuote A)) (updates : list (LiveUpdate A)) : list (ApiQuote A) :=
  foldl apply_update start updates.

(** The same on the messages of the bus. *)
Definition apply_msg (copy : list Quote) (m : Msg) : list Quote :=
  match m with
  | SciQuoteAdded quote => quote :: copy
  | SciQuoteRemoved quote => filter (λ q, q ≠ quote) copy
  end.
Definition replay (start : list Quote) (msgs : list Msg) : list Quote := foldl apply_msg start msgs.

Definition msg_quote (m : Msg) : Quote := match m with SciQuoteAdded q | SciQuoteRemoved q => q end.

(** An id, a digest, belongs to one of these quotes. *)
Definition ids_unique (l : list Quote) : Prop := ∀ x y, x ∈ l → y ∈ l → q_id x = q_id y → x = y.

Section Subscriber.
Context {A : Type} `{!SciApi A}.
Implicit Types (l : list Quote) (msgs : list Msg).

Definition wanted (f : option Pair) (q : Quote) : Prop := match f with Some p => q_pair q = p | None => True end.
#[export] Instance wanted_dec f q : Decision (wanted f q).
Proof. unfold wanted. destruct f; apply _. Defined.

Lemma live_update_wanted f m : live_update (A:=A) f m =
  if decide (wanted f (msg_quote m)) then
    Some match m with
         | SciQuoteAdded q => QuoteAdded (quote_to_api q)
         | SciQuoteRemoved q => QuoteRemoved (quote_id_to_api (q_id q))
         end
  else None.
Proof.
  unfold live_update, wanted. destruct f as [p|], m; cbn; try done.
  all: case_bool_decide; case_decide; done.
Qed.

(** The copy of a subscriber follows the replay, restricted to its pair. *)
Lemma subscriber_copy_replay f msgs l :
  ids_unique (l ++ (msg_quote <$> msgs)) →
  subscriber_copy (quote_to_api (A:=A) <$> filter (wanted f) l) (omap (live_update f) msgs) =
  quote_to_api <$> filter (wanted f) (replay l msgs).
Proof.
  revert l. induction msgs as [|m msgs IH]; intros l Hids; [done|].
  assert (ids_unique (apply_msg l m ++ (msg_quote <$> msgs))) as Hids'.
  { assert (∀ x, x ∈ apply_msg l m ++ (msg_quote <$> msgs) → x ∈ l ++ (msg_quote <$> m :: msgs)) as Hsub.
    { intros x. rewrite fmap_cons, !elem_of_app, elem_of_cons.
      destruct m; cbn [apply_msg msg_quote]; rewrite ?elem_of_cons, ?list_elem_of_filter; tauto. }
    intros x y Hx Hy. by apply Hids; apply Hsub. }
  cbn [omap list_omap]. rewrite live_update_wanted. change (replay l (m :: msgs)) with (replay (apply_msg l m) msgs).
  rewrite <-IH by done. case_decide as Hw; [|f_equal].
  - unfold subscriber_copy. cbn [foldl]. f_equal. destruct m as [q|q]; cbn [apply_update apply_msg msg_quote] in *.
    + by rewrite filter_cons_True.
    + rewrite filter_fmap. f_equal. cbn [quote_to_api quote_id_to_api aq_id aid_data default from_option id]. rewrite !list_filter_filter. apply list_filter_ext.
      intros x Hx. assert (q_id x = q_id q ↔ x = q) as ->; [|tauto]. split; [|by intros ->].
      apply Hids; apply elem_of_app; [by left|right; apply list_elem_of_here].
  - f_equal. destruct m as [q|q]; cbn [apply_msg msg_quote] in *.
    + by rewrite filter_cons_False.
    + rewrite list_filter_filter. apply list_filter_ext. intros x Hx. split; [|tauto].
      intros Hwx. split; [done|]. by intros ->.
Qed.
End Subscriber.

(** * The shared book *)

Section Shared.
Context `{McLib, GossipCodec} {A OB : Type} `{!SciApi A, !QuoteBook OB, !QuoteBookLaws OB}.
Context (Hfailed : failed_adds_keep (OB:=OB)).

(** The service, and the quotes of the book that came from peers. *)
Record Shared := mk_shared { sh_service : ClientService OB; sh_from_peers : list Quote }.

(** What happens to the book: a submission; a removal by the thread, for a
    spent key image or for a block's tombstone, with its callback; a quote
    received by gossip.  Requests that are refused change nothing. *)
Inductive shared_step : Shared → Shared → Prop :=
| share_submit validator now schedule (req : list A) s resp s' peers :
    schedule ≡ₚ seq 0 (length req) →
    (∀ ts scis, request_timestamp now = Ok ts → collect_results sci_from_api req = Ok scis →
       admissible (cs_quote_book s) (attempted ts scis)) →
    submit_quotes_impl validator now schedule req s = (Ok resp, s') →
    shared_step (mk_shared s peers) (mk_shared s' peers)
| share_remove_ki k bus b n h t' bus' peers :
    remove_and_notify 1 (qb_remove_quotes_by_key_image k) (mk_fetcher b [] n h) = (Ok tt, t') →
    remove_quote_callback true (concat (f_callbacks t')) bus = (Ok tt, bus') →
    shared_step (mk_shared (mk_service bus b) peers)
      (mk_shared (mk_service bus' (f_quotebook t')) (filter (λ q, q ∉ concat (f_callbacks t')) peers))
| share_remove_tombstone i bus b n h t' bus' peers :
    remove_and_notify 1 (qb_remove_quotes_by_tombstone_block i) (mk_fetcher b [] n h) = (Ok tt, t') →
    remove_quote_callback true (concat (f_callbacks t')) bus = (Ok tt, bus') →
    shared_step (mk_shared (mk_service bus b) peers)
      (mk_shared (mk_service bus' (f_quotebook t')) (filter (λ q, q ∉ concat (f_callbacks t')) peers))
| share_gossip quote bus p r p' peers :
    (∀ q, quote_new None (q_sci quote) (Some (q_timestamp quote)) = Ok q → addable (contents (p2p_quote_book p)) q) →
    handle_sci_quote_added quote p = (r, p') →
    shared_step (mk_shared (mk_service bus (p2p_quote_book p)) peers)
      (mk_shared (mk_service bus (p2p_quote_book p'))
         (if is_ok r then option_list (result_quote (quote_new None (q_sci quote) (Some (q_timestamp quote)))) ++ peers
          else peers)).

(** Replaying the bus gives the book, less what came from peers. *)
Definition mirrors (l0 : list Quote) (y : Shared) : Prop :=
  book_inv (cs_quote_book (sh_service y)) ∧
  replay l0 (cs_msg_bus (sh_service y)) ++ sh_from_peers y ≡ₚ contents (cs_quote_book (sh_service y)).

Lemma replay_added l0 bus qs : replay l0 (bus ++ (SciQuoteAdded <$> qs)) ≡ₚ qs ++ replay l0 bus.
Proof.
  unfold replay. rewrite foldl_app. generalize (foldl apply_msg l0 bus) as l.
  induction qs as [|q qs IH]; intros l; [done|]. cbn. rewrite IH. by rewrite Permutation_middle.
Qed.

Lemma replay_removed l0 bus qs :
  replay l0 (bus ++ (SciQuoteRemoved <$> qs)) = filter (λ q, q ∉ qs) (replay l0 bus).
Proof.
  unfold replay. rewrite foldl_app. generalize (foldl apply_msg l0 bus) as l.
  induction qs as [|q qs IH]; intros l; cbn [fmap list_fmap foldl].
  - symmetry. apply list_filter_all. intros x _. apply not_elem_of_nil.
  - rewrite IH. cbn [apply_msg]. rewrite list_filter_filter. apply list_filter_ext. intros x _.
    rewrite not_elem_of_cons. tauto.
Qed.

Lemma remove_quote_callback_bus qs bus bus' :
  remove_quote_callback true qs bus = (Ok tt, bus') → bus' = bus ++ (SciQuoteRemoved <$> qs).
Proof.
  revert bus. induction qs as [|q qs IH]; intros bus; cbn; [intros [= <-]; by rewrite app_nil_r|].
  unfold st_bind. intros ->%IH. by rewrite <-(assoc_L (++)).
Qed.

(** A removal that succeeds and its callback keep the mirror. *)
Lemma mirrors_removal l0 m (p : Quote → bool) bus b n h t' bus' peers :
  (∀ l b', m b = (Ok l, b') → book_inv b' ∧ l ≡ₚ filter (λ q, p q = true) (contents b) ∧
     contents b' ≡ₚ filter (λ q, p q = false) (contents b)) →
  mirrors l0 (mk_shared (mk_service bus b) peers) →
  remove_and_notify 1 m (mk_fetcher b [] n h) = (Ok tt, t') →
  remove_quote_callback true (concat (f_callbacks t')) bus = (Ok tt, bus') →
  mirrors l0 (mk_shared (mk_service bus' (f_quotebook t')) (filter (λ q, q ∉ concat (f_callbacks t')) peers)).
Proof.
  intros Hm [Hi Hmir] Hr ->%remove_quote_callback_bus. unfold remove_and_notify in Hr. cbn in Hr.
  destruct (m b) as [[l| |] b'] eqn:Hmb; [|done..]. injection Hr as <-. cbn [f_callbacks f_quotebook concat app].
  rewrite app_nil_r. destruct (Hm l b' eq_refl) as (Hi' & Hl & Hc). split; [done|]. cbn in *.
  rewrite replay_removed, <-filter_app, Hmir, Hc. apply reflexive_eq. apply list_filter_ext.
  intros q Hq. rewrite Hl, list_elem_of_filter. destruct (p q); naive_solver.
Qed.

Lemma mirrors_step l0 y y' : mirrors l0 y → shared_step y y' → mirrors l0 y'.
Proof.
  intros Hy Hstep. destruct Hstep as [validator now schedule req s resp s' peers Hsched Had Hr
    |k bus b n h t' bus' peers Hr Hcb|i bus b n h t' bus' peers Hr Hcb|quote bus p r p' peers Had Hr].
  - destruct Hy as [Hi Hmir]. cbn in *.
    destruct (submit_quotes_effect _ _ _ _ _ _ _ Hi Hsched Had Hr) as (Hi' & ts & scis & results & _ & _ & _ & _ & Hbus & _ & Hc).
    split; [done|]. cbn. rewrite Hbus, replay_added, (Hc Hfailed), <-Hmir. by rewrite (assoc_L (++)).
  - eapply (mirrors_removal l0 _ (λ q, bool_decide (quote_key_image q = k))); [|exact Hy|exact Hr|exact Hcb].
    intros l b' Hl. destruct Hy as [Hi _]. cbn in Hi. split; [by eapply remove_ki_inv|].
    destruct (remove_ki_ok k b l b' Hi Hl) as [-> ->].
    split; (erewrite list_filter_ext; [done|]); intros q _; cbn; by rewrite ?bool_decide_eq_true, ?bool_decide_eq_false.
  - eapply (mirrors_removal l0 _ (tombstone_expired i)); [|exact Hy|exact Hr|exact Hcb].
    intros l b' Hl. destruct Hy as [Hi _]. cbn in Hi. split; [by eapply remove_tombstone_inv|].
    by apply (remove_tombstone_ok i b l b' Hi Hl).
  - destruct Hy as [Hi Hmir]. cbn in Hi, Hmir. unfold handle_sci_quote_added in Hr.
    destruct (qb_add_sci _ _ _ _) as [r1 b1] eqn:Hadd. injection Hr as <- <-. unfold mirrors.
    destruct r1 as [q|e|e];
      cbn [sh_service sh_from_peers cs_quote_book cs_msg_bus set_book p2p_quote_book map_err mbind outcome_bind is_ok].
    + destruct (add_sci_ok _ _ _ _ _ _ Hi Had Hadd) as (Hq & Hi' & Hc). split; [done|].
      rewrite Hq. cbn [result_quote option_list app]. rewrite Hc, <-Hmir. by rewrite Permutation_middle.
    + destruct (add_sci_frame _ _ _ _ _ _ Hi Had Hadd) as [Hi' _]. split; [done|].
      rewrite (add_sci_failed _ _ _ _ _ _ Hfailed Hi Had Hadd) by done. done.
    + destruct (add_sci_frame _ _ _ _ _ _ Hi Had Hadd) as [Hi' _]. split; [done|].
      rewrite (add_sci_failed _ _ _ _ _ _ Hfailed Hi Had Hadd) by done. done.
Qed.

(** C21: A subscriber can keep a copy of the book.  From the quotes of its pair
    at the time it subscribed, or of all pairs, the updates it is sent lead to
    exactly those of the book, but for quotes that came from peers: they are
    never announced.  It never holds a quote that the book does not. *)
Theorem subscriber_mirrors_book (b0 : OB) y req_pair :
  book_inv b0 → rtc shared_step (mk_shared (mk_service [] b0) []) y →
  ids_unique (contents b0 ++ (msg_quote <$> cs_msg_bus (sh_service y))) →
  let p := pair_from_api (default api_pair_default req_pair) in
  let f := if (base_token_id p =? 0) && (counter_token_id p =? 0) then None else Some p in
  ∃ updates, live_updates_impl req_pair (λ _, false) (cs_msg_bus (sh_service y)) = (Ok updates, updates) ∧
    subscriber_copy (quote_to_api (A:=A) <$> filter (wanted f) (contents b0)) updates ++
      (quote_to_api <$> filter (wanted f) (sh_from_peers y)) ≡ₚ
    quote_to_api <$> filter (wanted f) (contents (cs_quote_book (sh_service y))).
Proof.
  intros Hi Hrun Hids p f.
  assert (mirrors (contents b0) y) as [_ Hmir].
  { eapply (rtc_preserve shared_step (mirrors (contents b0))); [apply mirrors_step| |exact Hrun].
    split; [done|]. cbn. by rewrite app_nil_r. }
  exists (omap (live_update f) (cs_msg_bus (sh_service y))). split.
  - destruct (live_updates_loop_spec (A:=A) f (λ _, false) (cs_msg_bus (sh_service y)) []) as [(n & _ & ? & _)|[_ Hl]];
      [done|]. exact Hl.
  - rewrite subscriber_copy_replay by done. rewrite <-fmap_app, <-filter_app. by rewrite Hmir.
Qed.
End Shared.

(** * The theorem on an example *)

Module LiveMirrorExamples.
Import Sample SampleCodec ApiConvertExamples InMemoryExamples ClientServiceExamples ServerP2PExamples.

Lemma im_failed_adds_keep : failed_adds_keep (OB:=InMemoryQuoteBook).
Proof.
  intros q b r b' Hm Ha Hr Hok. destruct (im_add_cases q b r b' Hm Ha Hr)
    as [_ [(_ & -> & _)|(_ & _ & [(e & _ & _ & _ & Hc)|(-> & _)])]]; [done|done|done].
Qed.

(** A client submits [quote_b], then the input of [quote_a] is spent. *)
Definition after_submit : ClientService InMemoryQuoteBook := submission.2.
Definition after_removal := remove_and_notify 1 (qb_remove_quotes_by_key_image [1]) (mk_fetcher (cs_quote_book after_submit) [] 0 0).
Definition shared_end : Shared (OB:=InMemoryQuoteBook) :=
  mk_shared (mk_service [SciQuoteAdded quote_b; SciQuoteRemoved quote_a] (f_quotebook after_removal.2)) [].

Lemma shared_run : rtc (shared_step (A:=list Z)) (mk_shared service_a []) shared_end.
Proof.
  apply (rtc_l _ _ (mk_shared after_submit [])); [unfold after_submit|apply rtc_once].
  - destruct submission as [[resp|e|p] s'] eqn:Hs; [|by vm_compute in Hs..].
    eapply (share_submit _ (Some 6) [1; 0]%nat request service_a resp s' []); [|apply request_admissible|exact Hs].
    by apply Permutation_swap.
  - assert (after_submit = mk_service [SciQuoteAdded quote_b] (cs_quote_book after_submit)) as Hsub by by vm_compute.
    rewrite Hsub. refine (share_remove_ki [1] [SciQuoteAdded quote_b] (cs_quote_book after_submit) 0 0 after_removal.2
      [SciQuoteAdded quote_b; SciQuoteRemoved quote_a] [] _ _).
    + change (after_removal = (Ok tt, after_removal.2)). by vm_compute.
    + by vm_compute.
Qed.

Lemma subscriber_mirrors_book_witness :
  ∃ updates, live_updates_impl None (λ _, false) (cs_msg_bus (sh_service shared_end)) = (Ok updates, updates) ∧
    subscriber_copy (quote_to_api (A:=list Z) <$> filter (wanted None) (contents book_a)) updates ++
      (quote_to_api <$> filter (wanted None) []) ≡ₚ
    quote_to_api <$> filter (wanted None) (contents (f_quotebook after_removal.2)).
Proof.
  refine (subscriber_mirrors_book im_failed_adds_keep book_a shared_end None
    (proj1 (im_reachable_healthy _ book_a_reachable)) shared_run _).
  intros x y Hx Hy Hid. rewrite contents_book_a in Hx, Hy.
  assert (∀ z, z ∈ [quote_a] ++ (msg_quote <$> cs_msg_bus (sh_service shared_end)) → z = quote_a ∨ z = quote_b) as Hz.
  { intros z Hz. cbn in Hz. set_solver. }
  destruct (Hz x Hx) as [->| ->], (Hz y Hy) as [->| ->]; try reflexivity; vm_compute in Hid; discriminate Hid.
Defined.

(** The additions of a request and their announcements are separate: when the
    thread removes a quote in between, its removal is announced first and the
    subscribers keep a quote that is not in the book. *)
Example announcement_race :
  let '(results, b) := submit_all (sci_validator ∅) 6 [sci_partial 2 2 0] [0%nat] ∅ book_a in
  let '(_, t) := remove_and_notify 1 (qb_remove_quotes_by_key_image [2]) (mk_fetcher b [] 0 0) in
  let '(_, bus) := remove_quote_callback true (concat (f_callbacks t)) [] in
  match collect_response (A:=list Z) (omap (λ i, results !! i) [0%nat]) (mk_submit_response [] [] []) bus with
  | Ok (_, bus) => bool_decide (quote_b ∈ replay (contents book_a) bus) = true ∧
                   bool_decide (quote_b ∈ contents (f_quotebook t)) = false
  | _ => False
  end.
Proof. vm_compute. split; reflexivity. Qed.
End LiveMirrorExamples.
