(* ===== verification/ServerStart.v ===== *)
(** Starting and stopping a server (server/src/bin/main.rs, config.rs,
    server.rs and grpc_server.rs): the stack of quote books over the database
    and the ledger, the gRPC server, and what a restart leaves of the quotes. *)

From S2P Require Import Prelude McTypes QuoteApi QuotePricing QuoteBook InMemory SqlTypes Sqlite Synchronized ApiConvert ClientService ServerP2P.

Definition MSG_BUS_QUEUE_SIZE : Z := 1000.

(** * The minimum amounts *)

(** [quote_minimum_tuples.into_iter().collect()]: a later entry for a token
    replaces an earlier one. *)
Definition quote_minimum_map (quote_minimum_tuples : list (TokenId * Z)) : gmap Z Z :=
  fold_left (λ m '(token, minimum), <[token := minimum]> m) quote_minimum_tuples ∅.

Lemma quote_minimum_map_lookup tuples token :
  quote_minimum_map tuples !! token = snd <$> last (filter (λ e, e.1 = token) tuples).
Proof.
  unfold quote_minimum_map. induction tuples as [|[t v] tuples IH] using rev_ind; [done|].
  rewrite fold_left_app, filter_app, filter_cons. cbn. destruct (decide (t = token)) as [->|Hne].
  - by rewrite lookup_insert_eq, last_snoc.
  - by rewrite lookup_insert_ne, app_nil_r.
Qed.

(** The last minimum given for the token of an SCI decides whether it is let
    through; a token without one has no minimum. *)
Lemma sci_validator_minimum tuples sci :
  let minimum := default 0 (snd <$> last (filter (λ e, e.1 = amt_token_id (pseudo_output_amount sci)) tuples)) in
  sci_validator (quote_minimum_map tuples) sci = Ok tt ↔ minimum ≤ amt_value (pseudo_output_amount sci).
Proof.
  intros minimum. unfold sci_validator. rewrite quote_minimum_map_lookup. fold minimum.
  destruct (Z.ltb_spec (amt_value (pseudo_output_amount sci)) minimum); split; [done|lia|lia|done].
Qed.

(** * The gRPC server (grpc_server.rs) *)

(** [DeqsClientUri], as far as it is used. *)
Record ClientUri := mk_uri { uri_host : string; uri_port : Z }.

(** The grpcio crate: [SRV] is its server, [W] the outside. *)
Class GrpcIo (SRV W : Type) := {
  (** [ServerBuilder::build], with both services registered *)
  grpc_build : stateful W string SRV;
  grpc_add_listening_port : ClientUri → SRV → stateful W string Z;
  grpc_start : SRV → W → W;
  grpc_shutdown : SRV → stateful W string unit;
}.

(** Which servers accept calls.  A port is given out of the range of ports, a
    server that was started accepts calls until it is shut down. *)
Class GrpcIoLaws (SRV W : Type) `{!GrpcIo SRV W} := {
  serving : SRV → W → Prop;
  start_serves srv w : serving srv (grpc_start srv w);
  shutdown_serves srv w w' : grpc_shutdown srv w = (Ok tt, w') → ¬ serving srv w';
}.

(** [struct GrpcServer]; the book, the bus and the minimum amounts are those of
    the client service. *)
Record GrpcServer (SRV : Type) := mk_grpc {
  client_listen_uri : ClientUri;
  grpc_server : option SRV;
  actual_listen_uri : option ClientUri;
}.
Arguments mk_grpc {SRV} _ _ _.
Arguments client_listen_uri {SRV} _.
Arguments grpc_server {SRV} _.
Arguments actual_listen_uri {SRV} _.

Section Grpc.
Context {SRV W : Type} `{!GrpcIo SRV W}.
Local Abbreviation grpc := (GrpcServer SRV * W)%type.

Definition grpc_new (uri : ClientUri) : GrpcServer SRV := mk_grpc uri None None.

(** A call of the crate, and [?]. *)
Definition grpc_io {A} (m : stateful W string A) : stateful grpc ServerError A := λ s,
  let '(r, w) := m s.2 in (map_err GrpcError r, (s.1, w)).

Definition start_client_rpc_server : stateful grpc ServerError unit :=
  server <-- grpc_io grpc_build;;
  λ s, (port <-- grpc_io (grpc_add_listening_port (client_listen_uri s.1) server);;
        λ s, let w := grpc_start server s.2 in
             (Ok tt, (mk_grpc (client_listen_uri s.1) (Some server)
                        (Some (mk_uri (uri_host (client_listen_uri s.1)) port)), w))) s.

(** [GrpcServer::stop] *)
Definition grpc_stop : stateful grpc ServerError unit := λ s,
  match grpc_server s.1 with
  | Some server =>
      let '(r, w) := grpc_shutdown server s.2 in
      (match r with Ok _ => Ok tt | _ => Panic "Could not stop client grpc server" end,
       (mk_grpc (client_listen_uri s.1) None (actual_listen_uri s.1), w))
  | None => (Ok tt, s)
  end.

(** [GrpcServer::start]: an error stops what was started. *)
Definition grpc_server_start : stateful grpc ServerError unit := λ s,
  match start_client_rpc_server s with
  | (Err e, s') =>
      match grpc_stop s' with
      | (Panic p, s'') => (Panic p, s'')
      | (_, s'') => (Err e, s'')
      end
  | r => r
  end.

Context `{!GrpcIoLaws SRV W}.

(** A server that was started accepts calls at the address it reports, on the
    host it was asked to listen on; a start that failed leaves none; stopping
    ends it, and stopping again changes nothing. *)
Lemma grpc_lifecycle uri w r g w' :
  grpc_server_start (grpc_new uri, w) = (r, (g, w')) →
  (r = Ok tt ∧ ∃ srv port, grpc_server g = Some srv ∧ serving srv w' ∧
     actual_listen_uri g = Some (mk_uri (uri_host uri) port) ∧
     ∀ g' w'', grpc_stop (g, w') = (Ok tt, (g', w'')) →
       ¬ serving srv w'' ∧ grpc_server g' = None ∧ grpc_stop (g', w'') = (Ok tt, (g', w''))) ∨
  (is_ok r = false ∧ grpc_server g = None ∧ actual_listen_uri g = None).
Proof.
  unfold grpc_server_start, start_client_rpc_server, grpc_io, st_bind. cbn.
  destruct (grpc_build w) as [[srv|e|p] w1]; cbn; [|by intros [= <- <- <-]; right..].
  destruct (grpc_add_listening_port uri srv w1) as [[port|e|p] w2]; cbn; [|by intros [= <- <- <-]; right..].
  intros [= <- <- <-]. left. split; [done|]. exists srv, port. cbn. split; [done|]. split; [apply start_serves|].
  split; [done|]. intros g' w''. unfold grpc_stop. cbn.
  destruct (grpc_shutdown srv (grpc_start srv w2)) as [[[]|e|p] w3] eqn:Hs; intros [= <- <-].
  split; [by eapply shutdown_serves|done].
Qed.
End Grpc.

(** * The server of main.rs *)

Section Main.
Context `{McLib, SciCodec} `{!HashIter Pair (list Quote)} {DB L : Type} `{!SqlDb DB, !Ledger L}.
(** Addresses of the peer-to-peer network. *)
Context {ADDR : Type}.
Local Abbreviation books := (SynchronizedQuoteBook (SqliteQuoteBook DB InMemoryQuoteBook) L).
Local Abbreviation inner := (SqliteQuoteBook DB InMemoryQuoteBook).

(** The parts of a running server that share the book: the client service and
    the thread that follows the ledger; their books are clones of one. *)
Record RunningServer := mk_running {
  rs_service : ClientService books;
  rs_thread : DbFetcherThread inner;
  rs_minimum : gmap Z Z;
  rs_p2p_listen_addrs : list ADDR;
}.

(** The errors [main] returns, boxed. *)
Inductive MainError := BoxedKeypair (e : string) | BoxedServer (e : ServerError).

(** [main] up to the wait for Ctrl-C: [keypair] is the result of reading the key
    file, [p2p] that of [P2P::new] and [listen_addrs], [grpc] that of
    [GrpcServer::start]. *)
Definition server_main (keypair : outcome string unit) (pool : DB) (ledger_db : L)
    (p2p : outcome ServerError (list ADDR)) (grpc : outcome ServerError unit)
    (quote_minimum_tuples : list (TokenId * Z)) : outcome MainError RunningServer :=
  match num_blocks ledger_db with
  | Ok n =>
      _ ← rust_assert (negb (n =? 0)) "assertion failed: `(left != right)`";
      _ ← map_err BoxedKeypair keypair;
      match sq_new pool im_default with
      | Ok internal_quote_book =>
          let synchronized_quote_book := sync_new internal_quote_book ledger_db in
          p2p_listen_addrs ← map_err BoxedServer p2p;
          match grpc with
          | Ok _ => Ok (mk_running (mk_service [] synchronized_quote_book)
                          (fetcher_start internal_quote_book 0)
                          (quote_minimum_map quote_minimum_tuples) p2p_listen_addrs)
          | _ => Panic "Failed starting client GRPC server"
          end
      | _ => Panic "failed initializing database"
      end
  | _ => Panic "Could not compute num_blocks"
  end.
End Main.

Section Restart.
Context `{McLib, SciCodec} `{!SciCodecLaws _} `{!HashIter Pair (list Quote)} {DB L A ADDR : Type}.
Context `{!SqlDb DB, !SqlDbLaws DB, !Ledger L, !SciApi A}.

(** The books of two servers with the same quotes answer alike. *)
Lemma same_contents_same_answer {B1 B2 : Type} `{!QuoteBook B1, !QuoteBookLaws B1, !QuoteBook B2, !QuoteBookLaws B2}
    (s1 : ClientService B1) (s2 : ClientService B2) req resp resp' :
  book_inv (cs_quote_book s1) → book_inv (cs_quote_book s2) → Forall priced (contents (cs_quote_book s1)) →
  contents (cs_quote_book s2) ≡ₚ contents (cs_quote_book s1) → 0 ≤ gq_limit req →
  get_quotes_impl (A:=A) req s1 = Ok resp → get_quotes_impl (A:=A) req s2 = Ok resp' → resp = resp'.
Proof.
  intros Hi1 Hi2 Hpr Hc Hlim. unfold get_quotes_impl.
  destruct (qb_get_quotes _ _ _ (cs_quote_book s1)) as [l1|?|?] eqn:E1; [|done..].
  destruct (qb_get_quotes _ _ _ (cs_quote_book s2)) as [l2|?|?] eqn:E2; [|done..]. cbn. intros [= <-] [= <-]. f_equal.
  destruct (get_quotes_ok _ _ _ _ _ Hi2 Hlim E2) as (all & Hs & Hp & ->).
  eapply listing_unique; [exact Hpr|by apply get_quotes_ok|]. exists all. split; [done|]. split; [by rewrite Hp, Hc|done].
Qed.

(** C10: A restart loses nothing.  When a server whose table was in step stops
    and [main] starts again on the same database, the new server holds exactly
    the quotes of the old one, its ledger thread works on the same book from
    block zero on, and every query the old server answered gets the same
    response from the new one. *)
Theorem server_restart_serves (s : ClientService (SynchronizedQuoteBook (SqliteQuoteBook DB InMemoryQuoteBook) L))
    pool count loaded n ledger_db (addrs : list ADDR) tuples :
  let old := sync_quote_book (cs_quote_book s) in
  in_step old → Forall quote_wf (contents old) →
  db_get_conn (sq_pool old) = Ok tt → db_migrate (sq_pool old) = (Ok tt, pool) →
  db_count pool = Ok count → db_load pool = Ok loaded →
  num_blocks ledger_db = Ok n → n ≠ 0 →
  ∃ s', server_main (Ok tt) (sq_pool old) ledger_db (Ok addrs) (Ok tt) tuples = Ok s' ∧
    contents (cs_quote_book (rs_service s')) ≡ₚ contents (cs_quote_book s) ∧
    f_quotebook (rs_thread s') = sync_quote_book (cs_quote_book (rs_service s')) ∧
    f_next_block_index (rs_thread s') = 0 ∧
    ∀ req resp, 0 ≤ gq_limit req → get_quotes_impl (A:=A) req s = Ok resp →
      get_quotes_impl (A:=A) req (rs_service s') = Ok resp.
Proof.
  intros old Hstep Hwf Hconn Hmig Hcount Hload Hblocks Hn.
  destruct (sqlite_restart old pool count loaded) as (new & Hnew & Hc & Hstep' & [Hm Hp]); [done..|].
  unfold server_main. rewrite Hblocks, (proj2 (Z.eqb_neq _ _) Hn). cbn. rewrite Hnew. cbn.
  eexists. split; [done|]. cbn. split; [exact Hc|]. do 2 (split; [done|]). intros req resp Hlim Hresp.
  destruct (get_quotes_impl (A:=A) req (mk_service [] (sync_new new ledger_db))) as [resp'|e|p] eqn:Hans; cycle 1.
  1, 2: unfold get_quotes_impl in Hans; cbn in Hans; unfold sq_get_quotes, im_get_quotes, with_read in Hans; cbn in Hans;
    rewrite Hp in Hans; by case_match.
  f_equal. symmetry.
  refine (same_contents_same_answer s (mk_service [] (sync_new new ledger_db)) req _ _ _ _ _ _ Hlim Hresp Hans).
  - apply Hstep.
  - apply Hstep'.
  - apply map_inv_priced. exact (step_inv _ Hstep).
  - exact Hc.
Qed.
End Restart.

(** * The theorem on an example *)

Module ServerStartExamples.
Import Sample SampleCodec SampleDb ApiConvertExamples InMemoryExamples SqliteExamples SampleLedger.

(** A server that holds one quote. *)
Definition server_a : ClientService (SynchronizedQuoteBook (SqliteQuoteBook Db InMemoryQuoteBook) Chain) :=
  mk_service [] (sync_new (sq_book_a false) []).
Definition chain_a : Chain := [{| bc_key_images := [[9]]; bc_outputs := [] |}].
Definition any_quotes : GetQuotesRequest :=
  {| gq_pair := Some (pair_to_api (q_pair quote_a)); gq_base_range_min := 0; gq_base_range_max := 0; gq_limit := 0 |}.

Lemma server_restart_serves_witness :
  ∃ s', server_main (Ok tt) (sq_pool (sq_book_a false)) chain_a (Ok ["/ip4/127.0.0.1"]) (Ok tt) [(1, 5)] = Ok s' ∧
    get_quotes_impl (A:=list Z) any_quotes (rs_service s') = Ok [quote_to_api quote_a].
Proof.
  destruct (server_restart_serves (A:=list Z) server_a (sq_pool (sq_book_a false)) 1 [row_from_quote quote_a] 1
              chain_a ["/ip4/127.0.0.1"] [(1, 5)]) as (s' & Hs' & _ & _ & _ & Hans);
    [apply sq_book_a_in_step| |done..|].
  - assert (contents (sync_quote_book (cs_quote_book server_a)) = [quote_a]) as -> by by vm_compute. by repeat constructor.
  - exists s'. split; [exact Hs'|]. apply Hans; [done|by vm_compute].
Defined.

(** The numbers of the servers that accept calls; port 0 asks for a free one. *)
#[export] Instance sample_grpc : GrpcIo Z (list Z) := {|
  grpc_build w := (Ok (Z.of_nat (length w)), w);
  grpc_add_listening_port uri _ w := (if uri_port uri =? 0 then Ok 49152 else Err "address in use", w);
  grpc_start srv w := srv :: w;
  grpc_shutdown srv w := (Ok tt, filter (λ x, x ≠ srv) w);
|}.
#[export] Program Instance sample_grpc_laws : GrpcIoLaws Z (list Z) := {| serving srv w := srv ∈ w |}.
Next Obligation. intros srv w. left. Qed.
Next Obligation. intros srv w w' [= <-]. rewrite list_elem_of_filter. tauto. Qed.

(** A free port is found, a given one is taken. *)
Example grpc_starts :
  (grpc_server_start (grpc_new (mk_uri "localhost" 0), ([] : list Z))).2 =
    (mk_grpc (mk_uri "localhost" 0) (Some 0) (Some (mk_uri "localhost" 49152)), [0]) ∧
  grpc_server_start (grpc_new (mk_uri "localhost" 80), ([] : list Z)) =
    (Err (GrpcError "address in use"), (mk_grpc (mk_uri "localhost" 80) None None, [])).
Proof. by vm_compute. Qed.
End ServerStartExamples.
