(* ===== verification/TestServer.v ===== *)
(** The server that stands in for a DEQS in the tests of its clients
    (test-server/src/lib.rs, client_service.rs): it records the requests and
    answers with what it was told to. *)

From S2P Require Import Prelude McTypes QuoteApi QuotePricing QuoteBook InMemory SqlTypes ApiConvert ClientService ServerP2P ServerStart.

(** [RpcStatus::new(RpcStatusCode::UNAVAILABLE)] *)
Definition UNAVAILABLE : RpcStatus := Status 14 "".

(** [struct ClientService] of client_service.rs; the locks are never held by a
    thread that panics. *)
Record TestClientService (A : Type) := mk_test_service {
  submit_quotes_requests : list (list A);
  submit_quotes_response : outcome RpcStatus (SubmitQuotesResponse A);
  get_quotes_requests : list GetQuotesRequest;
  get_quotes_response : outcome RpcStatus (list (ApiQuote A));
}.
Arguments mk_test_service {A} _ _ _ _.
Arguments submit_quotes_requests {A} _.
Arguments submit_quotes_response {A} _.
Arguments get_quotes_requests {A} _.
Arguments get_quotes_response {A} _.

(** [struct DeqsTestServer] *)
Record DeqsTestServer (A SRV : Type) := mk_test_server {
  ts_server : option SRV;
  ts_client_service : TestClientService A;
  ts_client_uri : ClientUri;
}.
Arguments mk_test_server {A SRV} _ _ _.
Arguments ts_server {A SRV} _.
Arguments ts_client_service {A SRV} _.
Arguments ts_client_uri {A SRV} _.

Section Service.
Context {A : Type}.
Implicit Types (s : TestClientService A).

Definition test_service_new : TestClientService A := mk_test_service [] (Err UNAVAILABLE) [] (Err UNAVAILABLE).

(** The handlers; the answer is what [send_result] sends. *)
Definition test_submit_quotes (req : list A) : stateful (TestClientService A) RpcStatus (SubmitQuotesResponse A) := λ s,
  (submit_quotes_response s,
   mk_test_service (submit_quotes_requests s ++ [req]) (submit_quotes_response s)
     (get_quotes_requests s) (get_quotes_response s)).
Definition test_get_quotes (req : GetQuotesRequest) : stateful (TestClientService A) RpcStatus (list (ApiQuote A)) := λ s,
  (get_quotes_response s,
   mk_test_service (submit_quotes_requests s) (submit_quotes_response s)
     (get_quotes_requests s ++ [req]) (get_quotes_response s)).
Definition test_live_updates : stateful (TestClientService A) RpcStatus unit := st_lift (Panic "not implemented").

(** The methods of the server the tests use. *)
Definition set_submit_quotes_response (resp : outcome RpcStatus (SubmitQuotesResponse A)) s : TestClientService A :=
  mk_test_service (submit_quotes_requests s) resp (get_quotes_requests s) (get_quotes_response s).
Definition set_get_quotes_response (resp : outcome RpcStatus (list (ApiQuote A))) s : TestClientService A :=
  mk_test_service (submit_quotes_requests s) (submit_quotes_response s) (get_quotes_requests s) resp.
Definition pop_submit_quotes_requests s : list (list A) * TestClientService A :=
  (submit_quotes_requests s,
   mk_test_service [] (submit_quotes_response s) (get_quotes_requests s) (get_quotes_response s)).
Definition pop_get_quotes_requests s : list GetQuotesRequest * TestClientService A :=
  (get_quotes_requests s,
   mk_test_service (submit_quotes_requests s) (submit_quotes_response s) [] (get_quotes_response s)).
End Service.

Section Server.
Context {A SRV W : Type} `{!GrpcIo SRV W}.

Definition test_server_start : stateful W string (DeqsTestServer A SRV) := λ w,
  match grpc_build w with
  | (Ok server, w) =>
      match grpc_add_listening_port (mk_uri "127.0.0.1" 0) server w with
      | (Ok port, w) =>
          (Ok (mk_test_server (Some server) test_service_new (mk_uri "127.0.0.1" port)), grpc_start server w)
      | (_, w) => (Panic "called `Result::unwrap()` on an `Err` value", w)
      end
  | (_, w) => (Panic "called `Result::unwrap()` on an `Err` value", w)
  end.

(** [Drop] *)
Definition test_server_drop (t : DeqsTestServer A SRV) : stateful W string (DeqsTestServer A SRV) := λ w,
  match ts_server t with
  | Some server =>
      let '(r, w) := grpc_shutdown server w in
      (match r with
       | Ok _ => Ok (mk_test_server None (ts_client_service t) (ts_client_uri t))
       | _ => Panic "Could not stop test grpc server"
       end, w)
  | None => (Ok t, w)
  end.

Context `{!GrpcIoLaws SRV W}.

(** The test server accepts calls on the address it gives out until it is
    dropped, and before a test has said what to answer it is unavailable. *)
Lemma test_server_lifecycle w t w' :
  test_server_start w = (Ok t, w') →
  ∃ srv, ts_server t = Some srv ∧ serving srv w' ∧ uri_host (ts_client_uri t) = "127.0.0.1" ∧
    (∀ req, (test_submit_quotes req (ts_client_service t)).1 = Err UNAVAILABLE) ∧
    (∀ req, (test_get_quotes req (ts_client_service t)).1 = Err UNAVAILABLE) ∧
    ∀ t' w'', test_server_drop t w' = (Ok t', w'') → ¬ serving srv w'' ∧ test_server_drop t' w'' = (Ok t', w'').
Proof.
  unfold test_server_start. destruct (grpc_build w) as [[srv|e|p] w1]; [|done..].
  destruct (grpc_add_listening_port _ srv w1) as [[port|e|p] w2]; [|done..]. intros [= <- <-]. exists srv. cbn.
  split; [done|]. split; [apply start_serves|]. do 3 (split; [done|]). intros t' w''. unfold test_server_drop. cbn.
  destruct (grpc_shutdown srv _) as [[[]|e|p] w3] eqn:Hs; intros [= <- <-].
  split; [by eapply shutdown_serves|done].
Qed.
End Server.

(** What a test sees over a run: what it does, and what comes back. *)
Inductive TestCall (A : Type) :=
| CallSubmit (req : list A)
| CallGet (req : GetQuotesRequest)
| SetSubmit (resp : outcome RpcStatus (SubmitQuotesResponse A))
| SetGet (resp : outcome RpcStatus (list (ApiQuote A)))
| PopSubmit
| PopGet.
Arguments CallSubmit {A} req.
Arguments CallGet {A} req.
Arguments SetSubmit {A} resp.
Arguments SetGet {A} resp.
Arguments PopSubmit {A}.
Arguments PopGet {A}.

Section Runs.
Context {A : Type}.
Implicit Types (s : TestClientService A).

(** The state after a call, and the requests it popped. *)
Definition test_call (c : TestCall A) s : list (list A) * list GetQuotesRequest * TestClientService A :=
  match c with
  | CallSubmit req => ([], [], (test_submit_quotes req s).2)
  | CallGet req => ([], [], (test_get_quotes req s).2)
  | SetSubmit resp => ([], [], set_submit_quotes_response resp s)
  | SetGet resp => ([], [], set_get_quotes_response resp s)
  | PopSubmit => let '(l, s) := pop_submit_quotes_requests s in (l, [], s)
  | PopGet => let '(l, s) := pop_get_quotes_requests s in ([], l, s)
  end.
Fixpoint test_calls (cs : list (TestCall A)) s : list (list A) * list GetQuotesRequest * TestClientService A :=
  match cs with
  | [] => ([], [], s)
  | c :: cs =>
      let '(l, g, s) := test_call c s in
      let '(l', g', s) := test_calls cs s in (l ++ l', g ++ g', s)
  end.

Definition submitted_in (c : TestCall A) : option (list A) := match c with CallSubmit req => Some req | _ => None end.
Definition asked_in (c : TestCall A) : option GetQuotesRequest := match c with CallGet req => Some req | _ => None end.
Definition set_in (c : TestCall A) : option (outcome RpcStatus (SubmitQuotesResponse A)) :=
  match c with SetSubmit resp => Some resp | _ => None end.

(** Whatever the order of calls, every request is popped at most once and in
    order: what was popped and what is still there are together the requests
    made; and the answer is the last one that was set. *)
Lemma test_server_records cs s l g s' :
  test_calls cs s = (l, g, s') →
  l ++ submit_quotes_requests s' = submit_quotes_requests s ++ omap submitted_in cs ∧
  g ++ get_quotes_requests s' = get_quotes_requests s ++ omap asked_in cs ∧
  submit_quotes_response s' = default (submit_quotes_response s) (last (omap set_in cs)).
Proof.
  revert s l g s'. induction cs as [|c cs IH]; intros s l g s'; cbn; [intros [= <- <- <-]; by rewrite !app_nil_r|].
  destruct (test_call c s) as [[l1 g1] s1] eqn:Hc. destruct (test_calls cs s1) as [[l2 g2] s2] eqn:Hcs.
  intros [= <- <- <-]. destruct (IH _ _ _ _ Hcs) as (IH1 & IH2 & IH3). rewrite <-!(assoc_L (++)), IH1, IH2, IH3.
  destruct c as [req|req|resp|resp| |]; cbn in Hc; injection Hc as <- <- <-; cbn; rewrite <-?(assoc_L (++)); try done.
  split; [done|]. split; [done|]. destruct (omap set_in cs) as [|x xs] using rev_ind; [done|].
  by rewrite app_comm_cons, !last_snoc.
Qed.
End Runs.

(** A client that asks before the answer was set, and again after. *)
Example test_server_run :
  test_calls [CallSubmit [1]; SetSubmit (Ok (mk_submit_response [] [] [])); CallSubmit [2; 3]; PopSubmit; CallSubmit [4]]
    test_service_new =
  ([[1]; [2; 3]], [], mk_test_service [[4]] (Ok (mk_submit_response [] [] [])) [] (Err UNAVAILABLE)).
Proof. done. Qed.
