(* ===== verification/Wallet.v ===== *)
(** The mini wallet of the liquidity bot (liquidity-bot/src/mini_wallet/mod.rs,
    matched_tx_out.rs, account_ledger_scanner.rs): a thread that scans the
    ledger for the account's outputs and tracks the unspent ones.

    The account's keys and the cryptography on them are parameters. *)

From S2P Require Import Prelude McTypes QuoteApi QuotePricing QuoteBook InMemory Synchronized.

(** * matched_tx_out.rs *)

Record MatchedTxOut := {
  mt_block_index : BlockIndex;
  mt_tx_out : TxOut;
  mt_amount : Amount;
  mt_subaddress_index : Z;
  mt_key_image : KeyImage;
}.

#[export] Instance MatchedTxOut_eq_dec : EqDecision MatchedTxOut.
Proof. solve_decision. Defined.

(** The operations on an account key the wallet uses, public keys as bytes. *)
Class AccountKey := {
  (** [RistrettoPublic::try_from] of a compressed key *)
  decompress : bytes → outcome string bytes;
  (** the masked amount of an output, opened with the secret shared with it *)
  unmask_amount : TxOut → bytes → outcome string Amount;
  (** [recover_public_subaddress_spend_key(view_private_key, target, public)] *)
  recover_spend_key : bytes → bytes → bytes;
  (** the key image of the output with this public key at a subaddress *)
  onetime_key_image : bytes → Z → KeyImage;
  (** [account_key.subaddress(i).spend_public_key()] *)
  subaddress_spend_public_key : Z → bytes;
}.

Section Scan.
Context `{AccountKey}.

(** [MatchedTxOut::view_key_scan] *)
Definition view_key_scan (block_index : BlockIndex) (tx_out : TxOut) (spsk_to_index : gmap bytes Z) :
    outcome string (option MatchedTxOut) :=
  decompressed_tx_pub ← decompress (txo_public_key tx_out);
  match unmask_amount tx_out decompressed_tx_pub with
  | Err _ => Ok None
  | Panic p => Panic p
  | Ok amount =>
      tx_out_target_key ← decompress (txo_target_key tx_out);
      tx_public_key ← decompress (txo_public_key tx_out);
      let subaddress_spk := recover_spend_key tx_out_target_key tx_public_key in
      match spsk_to_index !! subaddress_spk with
      | None => Ok None
      | Some subaddress_index =>
          Ok (Some {| mt_block_index := block_index;
                      mt_tx_out := tx_out;
                      mt_amount := amount;
                      mt_subaddress_index := subaddress_index;
                      mt_key_image := onetime_key_image decompressed_tx_pub subaddress_index |})
      end
  end.

(** * account_ledger_scanner.rs *)

Definition SCAN_CHUNK_SIZE : Z := 1000.

(** [default_spsk_to_index_map], for the default, historical change and change
    subaddresses. *)
Definition default_spsk_to_index_map (default_index change_index : Z) : gmap bytes Z :=
  fold_left (λ m idx, <[subaddress_spend_public_key idx := idx]> m) [default_index; 1; change_index] ∅.

Record ScannedBlock := {
  sb_block_index : BlockIndex;
  sb_matched_tx_outs : list MatchedTxOut;
  sb_key_images : list KeyImage;
}.

(** The loop of [process_block] over the outputs. *)
Fixpoint scan_outputs (spsk_to_index : gmap bytes Z) (block_index : BlockIndex) (outputs : list TxOut) :
    outcome string (list MatchedTxOut) :=
  match outputs with
  | [] => Ok []
  | tx_out :: rest =>
      o ← view_key_scan block_index tx_out spsk_to_index;
      l ← scan_outputs spsk_to_index block_index rest;
      Ok (match o with Some matched_tx_out => matched_tx_out :: l | None => l end)
  end.

Definition process_block (spsk_to_index : gmap bytes Z) (block_index : BlockIndex)
    (block_contents : BlockContents) : outcome string ScannedBlock :=
  matched_tx_outs ← scan_outputs spsk_to_index block_index (bc_outputs block_contents);
  Ok {| sb_block_index := block_index;
        sb_matched_tx_outs := matched_tx_outs;
        sb_key_images := bc_key_images block_contents |}.

(** One closure of the parallel scan. *)
Definition scan_block {L} `{!Ledger L} (spsk_to_index : gmap bytes Z) (ledger_db : L)
    (block_index : BlockIndex) : outcome string (option ScannedBlock) :=
  match get_block_contents block_index ledger_db with
  | Ok block_contents => b ← process_block spsk_to_index block_index block_contents; Ok (Some b)
  | Err NotFound => Ok None
  | Err err => Err (ledger_error_display err)
  | Panic p => Panic p
  end.
End Scan.

(** * mod.rs *)

Inductive WalletEvent :=
| BlockProcessed (block_index : BlockIndex) (received_tx_outs spent_tx_outs : list MatchedTxOut).

(** [struct State] *)
Record State := {
  next_block_index : BlockIndex;
  matched_tx_outs : gmap KeyImage MatchedTxOut;
}.

(** [sort_by_key(|matched_tx_out| matched_tx_out.block_index)] *)
Definition by_block_index (a b : MatchedTxOut) : Prop := mt_block_index a ≤ mt_block_index b.
#[export] Instance by_block_index_dec : RelDecision by_block_index.
Proof. unfold by_block_index. intros a b. apply _. Defined.

(** [MiniWallet::matched_tx_outs]: the values, by block index. *)
Definition wallet_matched_tx_outs `{!HashIter (list Z) MatchedTxOut} (s : State) : list MatchedTxOut :=
  merge_sort by_block_index (hash_entries (matched_tx_outs s)).*2.

(** [filter_map] over the key images of a block, which removes what it finds. *)
Fixpoint remove_spent (key_images : list KeyImage) (m : gmap KeyImage MatchedTxOut) :
    list MatchedTxOut * gmap KeyImage MatchedTxOut :=
  match key_images with
  | [] => ([], m)
  | key_image :: rest =>
      match m !! key_image with
      | Some matched_tx_out =>
          let '(spent, m) := remove_spent rest (delete key_image m) in (matched_tx_out :: spent, m)
      | None => remove_spent rest m
      end
  end.

(** The new outputs, by key image. *)
Definition insert_received (received : list MatchedTxOut) (m : gmap KeyImage MatchedTxOut) :
    gmap KeyImage MatchedTxOut :=
  fold_left (λ m matched_tx_out, <[mt_key_image matched_tx_out := matched_tx_out]> m) received m.

(** One result of the scan: the next state and the event for the callback. *)
Definition apply_block (result : ScannedBlock) : stateful State string WalletEvent := λ s,
  match rust_assert (sb_block_index result =? next_block_index s) "result.block_index == state.next_block_index" with
  | Ok _ =>
      let '(spent_tx_outs, m) := remove_spent (sb_key_images result) (matched_tx_outs s) in
      (Ok (BlockProcessed (sb_block_index result) (sb_matched_tx_outs result) spent_tx_outs),
       {| next_block_index := u64_add (next_block_index s) 1;
          matched_tx_outs := insert_received (sb_matched_tx_outs result) m |})
  | Err e => (Err e, s)
  | Panic p => (Panic p, s)
  end.

Fixpoint apply_blocks (results : list ScannedBlock) : stateful State string (list WalletEvent) :=
  match results with
  | [] => st_ret []
  | result :: rest =>
      event <-- apply_block result ;;
      events <-- apply_blocks rest ;;
      st_ret (event :: events)
  end.

Section Scanner.
Context `{AccountKey} {L : Type} `{!Ledger L}.

(** The block indices of one iteration. *)
Definition scan_range (num : Z) (next : BlockIndex) : list BlockIndex :=
  let ledger_last_block_index := u64_sub num 1 in
  let last_block_index := Z.min (u64_add ledger_last_block_index 1) (u64_add next SCAN_CHUNK_SIZE) in
  (λ i, next + Z.of_nat i) <$> seq 0 (Z.to_nat (last_block_index - next)).

(** [num_blocks().expect(..)] *)
Definition expect_num_blocks (ledger_db : L) : outcome string Z :=
  match num_blocks ledger_db with
  | Ok num => Ok num
  | Err _ => Panic "Could not get num blocks"
  | Panic p => Panic p
  end.

(** The blocks of one iteration, loaded and scanned. *)
Definition scan_blocks (spsk_to_index : gmap bytes Z) (ledger_db : L) (num : Z) (next : BlockIndex) :
    outcome string (list ScannedBlock) :=
  match collect_results (scan_block spsk_to_index ledger_db) (scan_range num next) with
  | Ok results => Ok (omap id results)
  | Err err => Err err
  | Panic p => Panic p
  end.
End Scanner.

(** * Theorems *)

(** What a wallet that has seen the blocks [seen] should track: the outputs
    whose key image no later block contains. *)
Definition unspent (seen : list ScannedBlock) (k : KeyImage) (t : MatchedTxOut) : Prop :=
  ∃ i b, seen !! i = Some b ∧ t ∈ sb_matched_tx_outs b ∧ mt_key_image t = k ∧
    ∀ j b', (i < j)%nat → seen !! j = Some b' → k ∉ sb_key_images b'.

(** No two outputs of the account share a key image. *)
Definition distinct_outputs (seen : list ScannedBlock) : Prop :=
  NoDup (mt_key_image <$> (seen ≫= sb_matched_tx_outs)).

Lemma remove_spent_spec ks m :
  (∀ k, (remove_spent ks m).2 !! k = if decide (k ∈ ks) then None else m !! k) ∧
  (∀ t, t ∈ (remove_spent ks m).1 ↔ ∃ k, k ∈ ks ∧ m !! k = Some t).
Proof.
  revert m. induction ks as [|k ks IH]; intros m; cbn.
  { split; [done|]. intros t. rewrite elem_of_nil. set_solver. }
  destruct (m !! k) as [t|] eqn:Hk.
  - destruct (IH (delete k m)) as [Hl Hs]. destruct (remove_spent ks (delete k m)) as [spent m']. cbn in *. split.
    + intros k'. rewrite Hl. destruct (decide (k' = k)) as [->|Hne].
      * rewrite lookup_delete_eq. by repeat case_decide; set_solver.
      * rewrite lookup_delete_ne by done. repeat case_decide; set_solver.
    + intros t'. rewrite elem_of_cons, Hs. split.
      * intros [->|(k' & Hk' & Hl')]; [set_solver|]. apply lookup_delete_Some in Hl' as [_ ?]. set_solver.
      * intros (k' & [->|Hk']%elem_of_cons & Hl'); [left; congruence|].
        destruct (decide (k' = k)) as [->|]; [left; congruence|]. right. exists k'.
        by rewrite lookup_delete_ne.
  - destruct (IH m) as [Hl Hs]. split.
    + intros k'. rewrite Hl. destruct (decide (k' = k)) as [->|]; repeat case_decide; set_solver.
    + intros t'. rewrite Hs. split; [set_solver|]. intros (k' & [->|]%elem_of_cons & ?); [congruence|set_solver].
Qed.

Lemma insert_received_spec l m k :
  NoDup (mt_key_image <$> l) →
  ∀ t, insert_received l m !! k = Some t ↔
    (t ∈ l ∧ mt_key_image t = k) ∨ (k ∉ mt_key_image <$> l ∧ m !! k = Some t).
Proof.
  unfold insert_received. revert m. induction l as [|x l IH]; intros m Hnd t; cbn.
  { rewrite elem_of_nil. set_solver. }
  cbn in Hnd. apply NoDup_cons in Hnd as [Hx Hnd]. rewrite IH by done.
  rewrite lookup_insert_Some, !not_elem_of_cons, elem_of_cons. split.
  - intros [[? ?]|[Hk [[<- <-]|[Hne Ht]]]]; [naive_solver..|]. right. done.
  - intros [[[->|Ht] Hk]|[[Hne Hk] Ht]]; [|naive_solver..]. subst k. right. split; [done|]. by left.
Qed.

Lemma unspent_snoc seen b k t :
  unspent (seen ++ [b]) k t ↔
  (t ∈ sb_matched_tx_outs b ∧ mt_key_image t = k) ∨ (k ∉ sb_key_images b ∧ unspent seen k t).
Proof.
  unfold unspent. split.
  - intros (i & b' & Hi & Ht & Hk & Hlater). apply lookup_app_Some in Hi as [Hi|[Hle Hi]].
    + right. split.
      * apply (Hlater (length seen) b); [by eapply lookup_lt_Some|]. by rewrite lookup_app_r, Nat.sub_diag.
      * exists i, b'. repeat (split; [done|]). intros j b'' Hj Hb''. apply (Hlater j); [done|].
        rewrite lookup_app_l; [done|by eapply lookup_lt_Some].
    + apply list_lookup_singleton_Some in Hi as [_ <-]. by left.
  - intros [[Ht Hk]|(Hk & i & b' & Hi & Ht & Hkt & Hlater)].
    + exists (length seen), b. rewrite lookup_app_r, Nat.sub_diag by done. repeat (split; [done|]).
      intros j b' Hj [Hb'|[_ Hb']]%lookup_app_Some; [apply lookup_lt_Some in Hb'; lia|].
      apply list_lookup_singleton_Some in Hb' as [? _]. lia.
    + exists i, b'. split; [by apply lookup_app_l_Some|]. repeat (split; [done|]).
      intros j b'' Hj [Hb''|[_ Hb'']]%lookup_app_Some; [by apply (Hlater j)|].
      by apply list_lookup_singleton_Some in Hb'' as [_ <-].
Qed.

(** The outputs of a later block are new. *)
Lemma unspent_other seen b k t :
  distinct_outputs (seen ++ [b]) → unspent seen k t → k ∉ mt_key_image <$> sb_matched_tx_outs b.
Proof.
  unfold distinct_outputs. rewrite bind_app, fmap_app. cbn. rewrite app_nil_r.
  intros (_ & Hdisj & _)%NoDup_app (i & b' & Hi & Ht & <- & _). apply Hdisj.
  apply list_elem_of_fmap_2, list_elem_of_bind. exists b'. split; [done|]. by eapply list_elem_of_lookup_2.
Qed.

(** The state of a wallet that has seen [seen]. *)
Definition tracks (seen : list ScannedBlock) (s : State) : Prop :=
  ∀ k t, matched_tx_outs s !! k = Some t ↔ unspent seen k t.

Lemma apply_block_tracks seen b s e s' :
  distinct_outputs (seen ++ [b]) → tracks seen s → apply_block b s = (Ok e, s') →
  tracks (seen ++ [b]) s' ∧ ∃ spent,
    e = BlockProcessed (sb_block_index b) (sb_matched_tx_outs b) spent ∧
    ∀ t, t ∈ spent ↔ ∃ k, k ∈ sb_key_images b ∧ unspent seen k t.
Proof.
  intros Hd Hs. unfold apply_block. destruct (rust_assert _ _); [|done..].
  destruct (remove_spent_spec (sb_key_images b) (matched_tx_outs s)) as [Hl Hsp].
  destruct (remove_spent _ _) as [spent m]. intros [= <- <-]. cbn in *. split.
  - intros k t. cbn. rewrite insert_received_spec, unspent_snoc, Hl.
    + case_decide as Hk; split.
      * intros [?|[_ ?]]; [by left|done].
      * intros [?|[? _]]; [by left|done].
      * intros [?|[_ Ht]]; [by left|right]. by rewrite <-(Hs k t).
      * intros [?|[_ Ht]]; [by left|right]. split; [by eapply unspent_other|by apply Hs].
    + unfold distinct_outputs in Hd. rewrite bind_app, fmap_app in Hd. cbn in Hd. rewrite app_nil_r in Hd.
      by apply NoDup_app in Hd as (_ & _ & ?).
  - exists spent. split; [done|]. intros t. rewrite Hsp. unfold tracks in Hs. by setoid_rewrite Hs.
Qed.

Lemma apply_blocks_tracks rest seen s events s' :
  distinct_outputs (seen ++ rest) → tracks seen s → apply_blocks rest s = (Ok events, s') →
  tracks (seen ++ rest) s' ∧ length events = length rest ∧
  ∀ i e, events !! i = Some e → ∃ b spent, rest !! i = Some b ∧
    e = BlockProcessed (sb_block_index b) (sb_matched_tx_outs b) spent ∧
    ∀ t, t ∈ spent ↔ ∃ k, k ∈ sb_key_images b ∧ unspent (seen ++ take i rest) k t.
Proof.
  revert seen s events. induction rest as [|b rest IH]; intros seen s events Hd Hs; cbn [apply_blocks].
  { intros [= <- <-]. rewrite app_nil_r. split; [done|]. by split. }
  assert (seen ++ b :: rest = (seen ++ [b]) ++ rest) as E by by rewrite <-(assoc_L (++)).
  intros (e & s1 & He & (es & s2 & Hes & [= <- <-])%st_bind_Ok_inv)%st_bind_Ok_inv.
  destruct (apply_block_tracks seen b s e s1) as [Hs1 (spent & -> & Hsp)]; [|done..|].
  { unfold distinct_outputs in *. rewrite E, bind_app, fmap_app in Hd. by apply NoDup_app in Hd as [? _]. }
  rewrite E in Hd. destruct (IH (seen ++ [b]) s1 es Hd Hs1 Hes) as (Hs' & Hlen & Hev).
  rewrite E. split; [done|]. split; [cbn; by rewrite Hlen|]. intros [|i] e He'; cbn in He'.
  - injection He' as <-. exists b, spent. cbn. by rewrite app_nil_r.
  - destruct (Hev i e He') as (b' & spent' & ? & ? & Hsp'). exists b', spent'. do 2 (split; [done|]). cbn.
    by rewrite <-(assoc_L (++)) in Hsp'.
Qed.

(** C26: the wallet knows its money.  After a new wallet has processed a
    sequence of blocks, the outputs it tracks are exactly those of the account
    that were received in a block and whose key image is in no later block;
    and it has reported one event per block, in order, with the outputs
    received in that block and, as spent, exactly the outputs tracked before
    whose key image the block contains. *)
Theorem wallet_tracks_unspent results s events s' :
  matched_tx_outs s = ∅ → distinct_outputs results → apply_blocks results s = (Ok events, s') →
  (∀ k t, matched_tx_outs s' !! k = Some t ↔ unspent results k t) ∧
  length events = length results ∧
  ∀ i e, events !! i = Some e → ∃ b spent, results !! i = Some b ∧
    e = BlockProcessed (sb_block_index b) (sb_matched_tx_outs b) spent ∧
    ∀ t, t ∈ spent ↔ ∃ k, k ∈ sb_key_images b ∧ unspent (take i results) k t.
Proof.
  intros Hempty Hd Hr. apply (apply_blocks_tracks results [] s); [done| |done].
  intros k t. rewrite Hempty, lookup_empty. split; [done|]. by intros (i & b & Hi & _).
Qed.

(** ** The scanner makes progress *)

Lemma apply_blocks_total results s :
  (∀ i b, results !! i = Some b → sb_block_index b = next_block_index s + Z.of_nat i) →
  0 ≤ next_block_index s → next_block_index s + Z.of_nat (length results) < U64_MOD →
  ∃ events s', apply_blocks results s = (Ok events, s') ∧ length events = length results ∧
    next_block_index s' = next_block_index s + Z.of_nat (length results).
Proof.
  revert s. induction results as [|b results IH]; intros s Hidx Hpos Hlt; cbn [apply_blocks].
  { exists [], s. do 2 (split; [done|]). cbn. lia. }
  cbn [length] in Hlt. pose proof (Hidx 0%nat b eq_refl) as Hb.
  unfold st_bind at 1, apply_block. rewrite Hb, Z.add_0_r, Z.eqb_refl. cbn [rust_assert].
  destruct (remove_spent _ _) as [spent m]. set (s1 := {| next_block_index := _ |}).
  assert (next_block_index s1 = next_block_index s + 1) as Hn1.
  { cbn. unfold u64_add. apply wrap64_small. unfold is_u64. lia. }
  destruct (IH s1) as (events & s' & Hr & Hl & Hn).
  { intros i b' Hi. rewrite Hn1. rewrite (Hidx (S i) b' Hi). lia. }
  { lia. }
  { lia. }
  unfold st_bind. rewrite Hr. unfold st_ret. eexists _, s'. split; [done|]. cbn [length]. lia.
Qed.

(** ** Scanning a chain *)

Section Progress.
Context `{AccountKey} {L : Type} `{!Ledger L, !LedgerLaws L}.

(** The blocks of a chain from index [i] on, scanned one after the other. *)
Fixpoint scan_chain (spsk : gmap bytes Z) (i : nat) (chain : list BlockContents) : outcome string (list ScannedBlock) :=
  match chain with
  | [] => Ok []
  | c :: chain => b ← process_block spsk (Z.of_nat i) c; bs ← scan_chain spsk (S i) chain; Ok (b :: bs)
  end.

Lemma process_block_index spsk i c b : process_block spsk i c = Ok b → sb_block_index b = i.
Proof. unfold process_block. intros Hb. by inv_ok. Qed.

Lemma scan_chain_lookup spsk i chain bs :
  scan_chain spsk i chain = Ok bs →
  length bs = length chain ∧
  ∀ k c, chain !! k = Some c → ∃ b, bs !! k = Some b ∧ process_block spsk (Z.of_nat (i + k)) c = Ok b.
Proof.
  revert i bs. induction chain as [|c chain IH]; intros i bs; cbn.
  { intros [= <-]. by split. }
  intros (b & Hb & (bs' & Hbs & [= <-])%bind_Ok_inv)%bind_Ok_inv. apply IH in Hbs as [Hlen Hl].
  split; [cbn; by rewrite Hlen|]. intros [|k] c' Hk; cbn in Hk.
  - injection Hk as <-. exists b. by rewrite Nat.add_0_r.
  - destruct (Hl k c' Hk) as (b' & ? & Hb'). exists b'. split; [done|]. by rewrite Nat.add_succ_r.
Qed.

Lemma scan_chain_index spsk i chain bs k b :
  scan_chain spsk i chain = Ok bs → bs !! k = Some b → sb_block_index b = Z.of_nat (i + k).
Proof.
  intros [Hlen Hl]%scan_chain_lookup Hk.
  destruct (lookup_lt_is_Some_2 chain k) as [c Hc]; [rewrite <-Hlen; by eapply lookup_lt_Some|].
  destruct (Hl k c Hc) as (b' & Hb' & Hp). apply process_block_index in Hp. congruence.
Qed.

Lemma scan_range_eq num next :
  0 ≤ num → 0 ≤ next → num < U64_MOD → next + SCAN_CHUNK_SIZE < U64_MOD →
  scan_range num next =
    (λ i, next + Z.of_nat i) <$> seq 0 (Z.to_nat (Z.min num (next + SCAN_CHUNK_SIZE) - next)).
Proof.
  intros Hn Hnx Hlt Hlt'. unfold SCAN_CHUNK_SIZE in *. unfold scan_range, u64_add, u64_sub, SCAN_CHUNK_SIZE.
  rewrite (wrap64_small (next + 1000)) by (unfold is_u64; lia).
  assert (wrap64 (wrap64 (num - 1) + 1) = num) as ->; [|done].
  unfold wrap64. rewrite Zplus_mod_idemp_l, Z.sub_add. apply Z.mod_small. lia.
Qed.

(** A ledger that serves a part of the chain [B] from its start. *)
Definition serves_chain (B : list BlockContents) (db : L) : Prop :=
  serves db ∧ blocks db `prefix_of` B ∧ num_blocks db = Ok (Z.of_nat (length (blocks db))).

Lemma scan_block_chain spsk B db first bs k :
  serves_chain B db → scan_chain spsk first (drop first B) = Ok bs →
  (first + k < length (blocks db))%nat →
  ∃ b, bs !! k = Some b ∧ scan_block spsk db (Z.of_nat (first + k)) = Ok (Some b).
Proof.
  intros (Hserve & Hpre & _) [_ Hl]%scan_chain_lookup Hk. unfold scan_block.
  destruct (lookup_lt_is_Some_2 _ _ Hk) as [c Hc].
  destruct (Hl k c) as (b & Hb & Hp); [by rewrite lookup_drop; eapply prefix_lookup_Some|].
  exists b. split; [done|]. destruct (Hserve (Z.of_nat (first + k))) as [[c' Hc']|Hnf]; [lia| |].
  - rewrite Hc'. apply get_block_contents_ok in Hc'; [|lia]. rewrite Nat2Z.id in Hc'.
    assert (c' = c) as -> by congruence. by rewrite Hp.
  - apply get_block_contents_not_found in Hnf; lia.
Qed.

(** When the ledger serves its blocks and they can be scanned, an iteration
    gets the next blocks of the chain, 1000 at most, in order and without a
    gap. *)
Lemma scan_blocks_chain spsk B db first n bs :
  serves_chain B db → scan_chain spsk first (drop first B) = Ok bs →
  Z.of_nat (length B) < U64_MOD → Z.of_nat (first + n) + SCAN_CHUNK_SIZE < U64_MOD →
  scan_blocks spsk db (Z.of_nat (length (blocks db))) (Z.of_nat (first + n)) =
    Ok (take (Nat.min (length (blocks db)) (first + n + 1000) - (first + n)) (drop n bs)).
Proof.
  intros Hdb Hscan HB Hn. destruct Hdb as (Hserve & Hpre & Hnum) eqn:E. clear E. unfold scan_blocks.
  pose proof (prefix_length _ _ Hpre) as Hlen.
  rewrite scan_range_eq by lia. unfold SCAN_CHUNK_SIZE. set (len := (_ - (first + n))%nat).
  replace (Z.to_nat _) with len by (unfold len; lia).
  pose proof (λ k, scan_block_chain spsk B db first bs k Hdb Hscan) as Hblock.
  enough (collect_results (scan_block spsk db) ((λ i, Z.of_nat (first + n) + Z.of_nat i) <$> seq 0 len)
    = Ok (Some <$> take len (drop n bs))) as ->.
  { cbn. f_equal. clear. induction (take len (drop n bs)) as [|b l IH]; [done|]. cbn in *. by rewrite IH. }
  apply collect_results_Ok, Forall2_same_length_lookup. split.
  - rewrite !length_fmap, length_seq, length_take, length_drop.
    destruct (scan_chain_lookup _ _ _ _ Hscan) as [-> _]. rewrite length_drop. unfold len. lia.
  - intros i x o Hx Ho. rewrite list_lookup_fmap in Hx. apply list_lookup_fmap_Some in Ho as (b0 & -> & Ho).
    destruct (seq 0 len !! i) as [j|] eqn:Hj; [|done]. apply lookup_seq in Hj as [-> Hi]. injection Hx as <-.
    destruct (Hblock (n + i)%nat) as (b & Hb & Hs); [unfold len in Hi; lia|].
    rewrite lookup_take_lt, lookup_drop in Ho by done. assert (b0 = b) as -> by congruence.
    rewrite <-Hs. f_equal. lia.
Qed.
End Progress.

(** * The theorems on examples *)

Module WalletExamples.
Import Sample SampleLedger SyncExamples.

(** An account that owns the outputs with an even public key; their key image
    is that key. *)
#[export] Instance sample_account : AccountKey := {|
  decompress k := Ok k;
  unmask_amount t _ :=
    match txo_public_key t with
    | [k] => if Z.even k then Ok (amount 10 1) else Err "view key"
    | _ => Err "view key"
    end;
  recover_spend_key _ _ := [0];
  onetime_key_image k _ := k;
  subaddress_spend_public_key i := [i];
|}.

Definition spsk : gmap (list Z) Z := default_spsk_to_index_map 0 18446744073709551614.
Definition wallet_start : State := {| next_block_index := 0; matched_tx_outs := ∅ |}.
(** The output with key 2 is spent in the second block, which has a new one. *)
Definition chain : Chain :=
  [ {| bc_key_images := []; bc_outputs := tx_out <$> [0; 1; 2] |};
    {| bc_key_images := [[2]; [9]]; bc_outputs := [tx_out 4] |} ].
Definition matched (block k : Z) : MatchedTxOut := {|
  mt_block_index := block; mt_tx_out := tx_out k; mt_amount := amount 10 1;
  mt_subaddress_index := 0; mt_key_image := [k] |}.
Definition blocks_ab : list ScannedBlock :=
  [ {| sb_block_index := 0; sb_matched_tx_outs := [matched 0 0; matched 0 2]; sb_key_images := [] |};
    {| sb_block_index := 1; sb_matched_tx_outs := [matched 1 4]; sb_key_images := [[2]; [9]] |} ].
Definition wallet_end : State := {|
  next_block_index := 2;
  matched_tx_outs := <[[4] := matched 1 4]> (delete [2] (<[[2] := matched 0 2]> (<[[0] := matched 0 0]> ∅)));
|}.
Definition events_ab : list WalletEvent :=
  [ BlockProcessed 0 [matched 0 0; matched 0 2] []; BlockProcessed 1 [matched 1 4] [matched 0 2] ].

Lemma wallet_tracks_unspent_witness :
  matched_tx_outs wallet_end !! [0] = Some (matched 0 0) ∧ unspent blocks_ab [0] (matched 0 0) ∧
  matched_tx_outs wallet_end !! [2] = None ∧ length events_ab = length blocks_ab.
Proof.
  destruct (wallet_tracks_unspent blocks_ab wallet_start events_ab wallet_end) as (H & Hl & _);
    [done|unfold distinct_outputs; apply (bool_decide_unpack _); by vm_compute|by vm_compute|].
  split; [by vm_compute|]. split; [by apply H; vm_compute|]. split; [by vm_compute|done].
Defined.

Example chain_scanned : scan_chain spsk 0 chain = Ok blocks_ab.
Proof. by vm_compute. Qed.
End WalletExamples.
