(* ===== verification/WalletRun.v ===== *)
(** The mini wallet as a process (liquidity-bot/src/mini_wallet/mod.rs,
    account_ledger_scanner.rs): its state file, the thread that scans the
    ledger, and what a stop or a crash of the program leaves behind. *)

From S2P Require Import Prelude McTypes QuoteApi QuotePricing QuoteBook InMemory Synchronized Wallet.

(** * Files *)

Abbreviation PathBuf := string (only parsing).

(** The files, and what goes wrong with them: paths whose metadata cannot be
    read, errors of reading, and errors of writing, before the file is opened
    ([None]) or after so many bytes. *)
Record FileSystem := {
  fs_files : gmap PathBuf bytes;
  fs_stat_fails : gset PathBuf;
  fs_read_fails : gmap PathBuf string;
  fs_write_fails : gmap PathBuf (option nat * string);
}.

Definition set_file (path : PathBuf) (data : bytes) (fs : FileSystem) : FileSystem := {|
  fs_files := <[path := data]> (fs_files fs);
  fs_stat_fails := fs_stat_fails fs;
  fs_read_fails := fs_read_fails fs;
  fs_write_fails := fs_write_fails fs;
|}.

(** [Path::exists]: also [false] when it cannot tell. *)
Definition path_exists (path : PathBuf) (fs : FileSystem) : bool :=
  bool_decide (path ∉ fs_stat_fails fs ∧ is_Some (fs_files fs !! path)).

(** [std::fs::read] *)
Definition fs_read (path : PathBuf) (fs : FileSystem) : outcome string bytes :=
  match fs_read_fails fs !! path with
  | Some err => Err err
  | None => ok_or (fs_files fs !! path) "entity not found"
  end.

(** [std::fs::write]: truncates the file and then writes. *)
Definition fs_write (path : PathBuf) (data : bytes) : stateful FileSystem string unit := λ fs,
  match fs_write_fails fs !! path with
  | None => (Ok tt, set_file path data fs)
  | Some (None, err) => (Err err, fs)
  | Some (Some n, err) => (Err err, set_file path (take n data) fs)
  end.

(** The file system works for this path. *)
Definition healthy (path : PathBuf) (fs : FileSystem) : Prop :=
  path ∉ fs_stat_fails fs ∧ fs_read_fails fs !! path = None ∧ fs_write_fails fs !! path = None.

(** * The state file (mod.rs) *)

(** [mc_util_serial] on a [State]. *)
Class StateSerial := {
  state_serialize : State → outcome string bytes;
  state_deserialize : bytes → outcome string State;
}.
Class StateSerialLaws `{!StateSerial} : Prop := {
  state_serialize_total s : ∃ data, state_serialize s = Ok data;
  state_serialize_roundtrip s data : state_serialize s = Ok data → state_deserialize data = Ok s;
  state_deserialize_empty : is_err (state_deserialize []) = true;
}.

(** [Default::default()] with a first block. *)
Definition fresh_state (first : BlockIndex) : State := {| next_block_index := first; matched_tx_outs := ∅ |}.

Section StateFile.
Context `{!StateSerial}.

(** [State::load] *)
Definition state_load (state_file : PathBuf) (default_first_block_index : BlockIndex) (fs : FileSystem) :
    outcome string State :=
  if path_exists state_file fs then
    data ← fs_read state_file fs;
    state_deserialize data
  else Ok (fresh_state default_first_block_index).

(** [State::save] *)
Definition state_save (s : State) (path : PathBuf) : stateful FileSystem string unit :=
  data <-- st_lift (state_serialize s);; fs_write path data.
End StateFile.

(** * The scanner (account_ledger_scanner.rs) *)

(** What the scanner's thread works on: the [Arc<Mutex<State>>] it shares with
    the wallet, the files, and what the callback changes. *)
Record Scanner (W : Type) := mk_scanner {
  sc_state : State;
  sc_poisoned : bool;
  sc_fs : FileSystem;
  sc_world : W;
}.
Arguments mk_scanner {W} _ _ _ _.
Arguments sc_state {W} _.
Arguments sc_poisoned {W} _.
Arguments sc_fs {W} _.
Arguments sc_world {W} _.

(** Parts of the scanner, as places a step acts on. *)
Definition on_state {W A} (m : stateful State string A) : stateful (Scanner W) string A := λ sc,
  let '(r, s) := m (sc_state sc) in (r, mk_scanner s (sc_poisoned sc) (sc_fs sc) (sc_world sc)).
Definition on_fs {W A} (m : stateful FileSystem string A) : stateful (Scanner W) string A := λ sc,
  let '(r, fs) := m (sc_fs sc) in (r, mk_scanner (sc_state sc) (sc_poisoned sc) fs (sc_world sc)).
Definition on_world {W A} (m : stateful W string A) : stateful (Scanner W) string A := λ sc,
  let '(r, w) := m (sc_world sc) in (r, mk_scanner (sc_state sc) (sc_poisoned sc) (sc_fs sc) w).

(** [lock().expect("mutex poisoned")]: a panic while the lock is held poisons
    it. *)
Definition with_lock {W A} (m : stateful (Scanner W) string A) : stateful (Scanner W) string A := λ sc,
  if sc_poisoned sc then (Panic "mutex poisoned", sc)
  else match m sc with
       | (Panic p, sc') => (Panic p, mk_scanner (sc_state sc') true (sc_fs sc') (sc_world sc'))
       | r => r
       end.

(** [Result::expect] *)
Definition expect {S A} (m : stateful S string A) (msg : string) : stateful S string A := λ s,
  match m s with
  | (Err _, s') => (Panic msg, s')
  | r => r
  end.

Section Run.
Context `{AccountKey, !StateSerial} {L W : Type} `{!Ledger L}.
Variable wallet_event_callback : WalletEvent → stateful W string unit.
Variable spsk_to_index : gmap bytes Z.
Variable state_file : PathBuf.
Local Abbreviation scanner := (Scanner W).

(** The loop over the results of the scan, with its callbacks. *)
Fixpoint process_results (results : list ScannedBlock) : stateful scanner string unit :=
  match results with
  | [] => st_ret tt
  | result :: rest =>
      event <-- on_state (apply_block result);;
      on_world (wallet_event_callback event);;;
      process_results rest
  end.

(** One iteration of [run]: [Err] when scanning failed, which is logged and
    retried. *)
Definition run_iteration (ledger_db : L) : stateful scanner string unit :=
  num <-- st_lift (expect_num_blocks ledger_db);;
  next <-- with_lock (λ sc, (Ok (next_block_index (sc_state sc)), sc));;
  results <-- st_lift (scan_blocks spsk_to_index ledger_db num next);;
  with_lock
    (process_results results;;;
     λ sc, expect (on_fs (state_save (sc_state sc) state_file)) "Could not save state" sc).

(** [AccountLedgerScannerWorker::run], which finds the flag and the ledger as
    listed: whether it has returned. *)
Fixpoint scanner_run (turns : list (bool * L)) : stateful scanner string bool :=
  match turns with
  | [] => st_ret false
  | (stop_requested, ledger_db) :: rest =>
      if stop_requested then st_ret true
      else λ sc, match run_iteration ledger_db sc with
                 | (Panic p, sc') => (Panic p, sc')
                 | (_, sc') => scanner_run rest sc'
                 end
  end.

(** [AccountLedgerScanner::drop] of a thread that ended like this. *)
Definition scanner_drop (thread : outcome string bool) : outcome string unit :=
  match thread with Panic _ => Panic "Could not join thread" | _ => Ok tt end.

(** [MiniWallet::new]: the scanner its thread starts with. *)
Definition mini_wallet_new (default_first_block_index : BlockIndex) (fs : FileSystem) (w : W) : outcome string scanner :=
  state ← state_load state_file default_first_block_index fs;
  Ok (mk_scanner state false fs w).

(** [MiniWallet::next_block_index], with [lock().unwrap()] *)
Definition mini_wallet_next_block_index (sc : scanner) : outcome string BlockIndex :=
  if sc_poisoned sc then Panic "PoisonError" else Ok (next_block_index (sc_state sc)).

(** ** Programs that stop or crash *)

(** Where a program is killed in an iteration: after so many callbacks, or in
    the write of the state file after so many bytes. *)
Inductive CrashPoint := InCallbacks (n : nat) | InSave (n : nat).

Inductive Ending := Stopped | Killed (ledger_db : L) (point : CrashPoint).

(** One run of the program: the ledgers its iterations find, and its end. *)
Record Session := mk_session { se_ledgers : list L; se_end : Ending }.

(** The callbacks alone. *)
Fixpoint deliver (events : list WalletEvent) (w : W) : W :=
  match events with
  | [] => w
  | event :: rest => deliver rest (wallet_event_callback event w).2
  end.

(** What is left of an iteration cut short. *)
Definition crash (ledger_db : L) (point : CrashPoint) (sc : scanner) : FileSystem * W :=
  match (num ← expect_num_blocks ledger_db;
         scan_blocks spsk_to_index ledger_db num (next_block_index (sc_state sc))) with
  | Ok results =>
      match apply_blocks results (sc_state sc), point with
      | (Ok events, _), InCallbacks n => (sc_fs sc, deliver (take n events) (sc_world sc))
      | (Ok events, s), InSave n =>
          (match state_serialize s with
           | Ok data => set_file state_file (take n data) (sc_fs sc)
           | _ => sc_fs sc
           end, deliver events (sc_world sc))
      | _, _ => (sc_fs sc, sc_world sc)
      end
  | _ => (sc_fs sc, sc_world sc)
  end.

(** A run: the wallet is created, its thread turns, and it ends. *)
Definition run_session (first : BlockIndex) (se : Session) (st : FileSystem * W) : outcome string (FileSystem * W) :=
  sc ← mini_wallet_new first st.1 st.2;
  match scanner_run (pair false <$> se_ledgers se) sc with
  | (Ok _, sc') =>
      Ok (match se_end se with
          | Stopped => (sc_fs sc', sc_world sc')
          | Killed ledger_db point => crash ledger_db point sc'
          end)
  | (Err err, _) => Err err
  | (Panic p, _) => Panic p
  end.

Fixpoint run_sessions (first : BlockIndex) (sessions : list Session) (st : FileSystem * W) :
    outcome string (FileSystem * W) :=
  match sessions with
  | [] => Ok st
  | se :: rest => st' ← run_session first se st; run_sessions first rest st'
  end.
End Run.
Arguments Stopped {L}.
Arguments Killed {L} ledger_db point.
Arguments mk_session {L} _ _.
Arguments se_ledgers {L} _.
Arguments se_end {L} _.

(** * Theorems *)

(** In-order delivery of a list of events, at least once each: [n] of them are
    done, and a restart goes back to an earlier one. *)
Inductive delivered {E} (events : list E) : list E → nat → Prop :=
| delivered_none : delivered events [] 0
| delivered_next log n e : delivered events log n → events !! n = Some e → delivered events (log ++ [e]) (S n)
| delivered_back log n m : delivered events log n → (m ≤ n)%nat → delivered events log m.

(** Nothing is skipped and nothing is made up. *)
Lemma delivered_complete {E} (events log : list E) n :
  delivered events log n → (n ≤ length events)%nat ∧ log ⊆ events ∧ take n events ⊆ log.
Proof.
  induction 1 as [|log n e _ (IH1 & IH2 & IH3) He|log n m _ (IH1 & IH2 & IH3) Hm].
  - split; [lia|]. set_solver.
  - split; [by apply lookup_lt_Some in He|]. split.
    + apply list_elem_of_lookup_2 in He. set_solver.
    + rewrite (take_S_r _ _ e) by done. set_solver.
  - split; [lia|]. split; [done|]. intros x Hx. apply IH3.
    replace m with (Nat.min m n) in Hx by lia. rewrite <-take_take in Hx.
    apply list_elem_of_lookup_1 in Hx as [i Hi]. apply lookup_take_Some in Hi as [Hi _].
    by eapply list_elem_of_lookup_2.
Qed.

Lemma delivered_slice {E} (events log : list E) n k :
  delivered events log n → (n + k ≤ length events)%nat →
  delivered events (log ++ take k (drop n events)) (n + k).
Proof.
  intros Hd. induction k as [|k IH]; intros Hk.
  { by rewrite take_0, app_nil_r, Nat.add_0_r. }
  destruct (lookup_lt_is_Some_2 events (n + k)) as [e He]; [lia|].
  rewrite (take_S_r _ _ e) by by rewrite lookup_drop. rewrite (assoc_L (++)), Nat.add_succ_r.
  apply delivered_next; [apply IH; lia|done].
Qed.

Lemma apply_blocks_app l1 l2 s events s' :
  apply_blocks (l1 ++ l2) s = (Ok events, s') →
  ∃ e1 s1 e2, apply_blocks l1 s = (Ok e1, s1) ∧ apply_blocks l2 s1 = (Ok e2, s') ∧ events = e1 ++ e2.
Proof.
  revert s events. induction l1 as [|b l1 IH]; intros s events; cbn.
  { intros He. by exists [], s, events. }
  intros (e & s1 & He & (es & s2 & Hes & [= <- <-])%st_bind_Ok_inv)%st_bind_Ok_inv.
  destruct (IH s1 es Hes) as (e1 & s3 & e2 & H1 & H2 & ->). exists (e :: e1), s3, e2.
  split; [|by split]. unfold st_bind. by rewrite He, H1.
Qed.

Lemma apply_blocks_length l s events s' : apply_blocks l s = (Ok events, s') → length events = length l.
Proof.
  revert s events. induction l as [|b l IH]; intros s events; cbn; [by intros [= <- _]|].
  intros (e & s1 & He & (es & s2 & Hes & [= <- <-])%st_bind_Ok_inv)%st_bind_Ok_inv.
  cbn. by rewrite (IH s1 es Hes).
Qed.

Section Laws.
Context `{!StateSerial, !StateSerialLaws}.

(** What was saved is loaded. *)
Lemma save_load s path first fs fs' :
  path ∉ fs_stat_fails fs → fs_read_fails fs !! path = None →
  state_save s path fs = (Ok tt, fs') → state_load path first fs' = Ok s.
Proof.
  intros Hst Hrd (data & fs1 & Hd & Hw)%st_bind_Ok_inv. injection Hd as Hd ->. unfold fs_write in Hw.
  destruct (fs_write_fails fs1 !! path) as [[[n|] err]|]; [done..|]. injection Hw as <-.
  unfold state_load, path_exists. cbn. rewrite lookup_insert_eq, bool_decide_eq_true_2 by eauto.
  unfold fs_read. cbn. rewrite Hrd, lookup_insert_eq. cbn. by apply state_serialize_roundtrip.
Qed.

(** A program killed when it has just truncated its state file cannot start
    again. *)
Lemma torn_save_blocks_start {W} path first fs (w : W) :
  path ∉ fs_stat_fails fs → fs_read_fails fs !! path = None →
  is_err (mini_wallet_new path first (set_file path [] fs) w) = true.
Proof.
  intros Hst Hrd. unfold mini_wallet_new, state_load, path_exists. cbn.
  rewrite lookup_insert_eq, bool_decide_eq_true_2 by eauto. unfold fs_read. cbn. rewrite Hrd, lookup_insert_eq. cbn.
  pose proof state_deserialize_empty as He. by destruct (state_deserialize []).
Qed.
End Laws.

Section Process.
Context `{AccountKey, !StateSerial, !StateSerialLaws} {L W : Type} `{!Ledger L, !LedgerLaws L}.
Context (wallet_event_callback : WalletEvent → stateful W string unit) (spsk : gmap bytes Z) (state_file : PathBuf).
(** The callback queues its events. *)
Context (queue : W → list WalletEvent).
Hypothesis callback_queues : ∀ e w, ∃ w', wallet_event_callback e w = (Ok tt, w') ∧ queue w' = queue w ++ [e].
(** The chain of blocks, of which the ledgers show the start, and the first
    block the wallet scans. *)
Context (B : list BlockContents) (first : nat) (bs : list ScannedBlock).
Hypothesis Hscan : scan_chain spsk first (drop first B) = Ok bs.
Hypothesis Hfits : Z.of_nat (first + length B) + SCAN_CHUNK_SIZE < U64_MOD.
Local Abbreviation iteration := (run_iteration wallet_event_callback spsk state_file (L:=L)).
Local Abbreviation thread_run := (scanner_run wallet_event_callback spsk state_file (L:=L)).

(** The wallet that has scanned [n] blocks without interruption, and all that
    it reports. *)
Definition wallet_at (n : nat) : State := (apply_blocks (take n bs) (fresh_state (Z.of_nat first))).2.
Definition wallet_reports : list WalletEvent :=
  match apply_blocks bs (fresh_state (Z.of_nat first)) with (Ok events, _) => events | _ => [] end.

Lemma bs_length : (length bs ≤ length B)%nat.
Proof. destruct (scan_chain_lookup _ _ _ _ Hscan) as [-> _]. rewrite length_drop. lia. Qed.

Lemma wallet_at_run n :
  (n ≤ length bs)%nat →
  apply_blocks (take n bs) (fresh_state (Z.of_nat first)) = (Ok (take n wallet_reports), wallet_at n) ∧
  next_block_index (wallet_at n) = Z.of_nat (first + n).
Proof.
  intros Hn. pose proof bs_length as Hlen. unfold SCAN_CHUNK_SIZE in Hfits.
  destruct (apply_blocks_total bs (fresh_state (Z.of_nat first))) as (events & s' & Hr & Hl & _).
  { intros i b Hi. rewrite (scan_chain_index _ _ _ _ _ _ Hscan Hi). cbn. lia. }
  { cbn. lia. }
  { cbn. lia. }
  destruct (apply_blocks_total (take n bs) (fresh_state (Z.of_nat first))) as (e1 & s1 & Hr1 & Hl1 & Hn1).
  { intros i b [Hi _]%lookup_take_Some. rewrite (scan_chain_index _ _ _ _ _ _ Hscan Hi). cbn. lia. }
  { cbn. lia. }
  { cbn. rewrite length_take. lia. }
  unfold wallet_at, wallet_reports. rewrite Hr, Hr1. cbn in *. rewrite length_take in *. split; [|lia].
  rewrite <-(take_drop n bs) in Hr. apply apply_blocks_app in Hr as (e1' & s1' & e2 & Hr1' & _ & ->).
  rewrite Hr1 in Hr1'. injection Hr1' as <- <-. by rewrite take_app_length' by lia.
Qed.

Lemma wallet_at_step n k :
  (n + k ≤ length bs)%nat →
  apply_blocks (take k (drop n bs)) (wallet_at n) = (Ok (take k (drop n wallet_reports)), wallet_at (n + k)).
Proof.
  intros Hk. destruct (wallet_at_run (n + k)) as [Hr _]; [done|]. destruct (wallet_at_run n) as [Hn _]; [lia|].
  rewrite <-take_take_drop in Hr.
  apply apply_blocks_app in Hr as (e1 & s1 & e2 & Hr1 & Hr2 & He). rewrite Hn in Hr1. injection Hr1 as <- <-.
  rewrite Hr2. rewrite <-take_take_drop in He. by apply (inj (app (take n wallet_reports))) in He as <-.
Qed.

(** How far an iteration gets on a ledger. *)
Definition advance (n : nat) (db : L) : nat :=
  n + (Nat.min (length (blocks db)) (first + n + 1000) - (first + n)).

Lemma advance_bound n db :
  serves_chain B db → (n ≤ length bs)%nat → (advance n db ≤ length bs)%nat.
Proof.
  intros (_ & Hpre & _) Hn. apply prefix_length in Hpre. unfold advance.
  destruct (scan_chain_lookup _ _ _ _ Hscan) as [Hl _]. rewrite length_drop in Hl. lia.
Qed.

Lemma scan_blocks_at n db :
  serves_chain B db → (n ≤ length bs)%nat →
  (num ← expect_num_blocks db; scan_blocks spsk db num (next_block_index (wallet_at n))) =
    Ok (take (advance n db - n) (drop n bs)).
Proof.
  intros Hdb Hn. pose proof bs_length. rewrite (proj2 (wallet_at_run n Hn)).
  assert (expect_num_blocks db = Ok (Z.of_nat (length (blocks db)))) as ->
    by (destruct Hdb as (_ & _ & Hnum); unfold expect_num_blocks; by rewrite Hnum).
  cbn. unfold SCAN_CHUNK_SIZE in Hfits.
  rewrite (scan_blocks_chain spsk B db first n bs) by (unfold SCAN_CHUNK_SIZE; done || lia).
  do 2 f_equal. unfold advance. lia.
Qed.

Lemma deliver_queue events w : queue (deliver wallet_event_callback events w) = queue w ++ events.
Proof.
  revert w. induction events as [|e events IH]; intros w; cbn; [by rewrite app_nil_r|].
  destruct (callback_queues e w) as (w' & Hw & Hq). rewrite Hw, IH. cbn. by rewrite Hq, <-(assoc_L (++)).
Qed.

Lemma process_results_run results sc events s' :
  apply_blocks results (sc_state sc) = (Ok events, s') →
  process_results wallet_event_callback results sc =
    (Ok tt, mk_scanner s' (sc_poisoned sc) (sc_fs sc) (deliver wallet_event_callback events (sc_world sc))).
Proof.
  revert sc events. induction results as [|b results IH]; intros [s p fs w] events; cbn.
  { by intros [= <- <-]. }
  intros (e & s1 & He & (es & s2 & Hes & [= <- <-])%st_bind_Ok_inv)%st_bind_Ok_inv.
  unfold st_bind, on_state, on_world. cbn. rewrite He. cbn.
  destruct (callback_queues e w) as (w' & Hw & _). rewrite Hw. cbn.
  apply (IH (mk_scanner s1 p fs w') es Hes).
Qed.

(** The state file holds the wallet that has scanned [n] blocks. *)
Definition saved (fs : FileSystem) (n : nat) : Prop :=
  state_load state_file (Z.of_nat first) fs = Ok (wallet_at n) ∧ healthy state_file fs ∧ (n ≤ length bs)%nat.
(** So does the memory of the thread. *)
Definition in_sync (sc : Scanner W) (n : nat) : Prop :=
  sc_state sc = wallet_at n ∧ sc_poisoned sc = false ∧ saved (sc_fs sc) n.

Lemma state_save_saved n fs :
  healthy state_file fs → (n ≤ length bs)%nat →
  ∃ fs', state_save (wallet_at n) state_file fs = (Ok tt, fs') ∧ saved fs' n.
Proof.
  intros (Hst & Hrd & Hwr) Hn. destruct (state_serialize_total (wallet_at n)) as [data Hd].
  assert (state_save (wallet_at n) state_file fs = (Ok tt, set_file state_file data fs)) as Hs.
  { unfold state_save, st_bind, st_lift. rewrite Hd. unfold fs_write. by rewrite Hwr. }
  exists (set_file state_file data fs). split; [done|]. split; [by eapply save_load|]. by repeat split.
Qed.

Lemma iteration_run n db sc :
  serves_chain B db → in_sync sc n →
  ∃ sc', iteration db sc = (Ok tt, sc') ∧ in_sync sc' (advance n db) ∧
    queue (sc_world sc') = queue (sc_world sc) ++ take (advance n db - n) (drop n wallet_reports).
Proof.
  intros Hdb (Hs & Hp & Hload & Hfs & Hn). pose proof (advance_bound n db Hdb Hn) as Hb.
  assert (n ≤ advance n db)%nat as Hge by (unfold advance; lia).
  pose proof (scan_blocks_at n db Hdb Hn) as Hscan'. apply bind_Ok_inv in Hscan' as (num & Hnum & Hres).
  pose proof (wallet_at_step n (advance n db - n) ltac:(lia)) as Happ.
  replace (n + (advance n db - n))%nat with (advance n db) in Happ by lia. rewrite <-Hs in Happ.
  destruct (state_save_saved (advance n db) (sc_fs sc) Hfs Hb) as (fs' & Hsave & Hsaved).
  exists (mk_scanner (wallet_at (advance n db)) false fs'
    (deliver wallet_event_callback (take (advance n db - n) (drop n wallet_reports)) (sc_world sc))).
  split; [|split; [done|apply deliver_queue]].
  unfold run_iteration, st_lift, with_lock, st_bind. rewrite Hnum, Hp. cbn [fst snd].
  rewrite Hs, Hres, Hp, (process_results_run _ sc _ _ Happ). unfold expect, on_fs. cbn [sc_state sc_fs sc_world sc_poisoned]. by rewrite Hsave, Hp.
Qed.

Lemma run_in_sync dbs n sc :
  Forall (serves_chain B) dbs → in_sync sc n →
  ∃ sc', thread_run (pair false <$> dbs) sc = (Ok false, sc') ∧ in_sync sc' (fold_left advance dbs n) ∧
    (n ≤ fold_left advance dbs n)%nat ∧
    queue (sc_world sc') = queue (sc_world sc) ++ take (fold_left advance dbs n - n) (drop n wallet_reports).
Proof.
  revert n sc. induction dbs as [|db dbs IH]; intros n sc Hdbs Hsc.
  { exists sc. cbn. rewrite Nat.sub_diag, app_nil_r. split; [done|]. by split. }
  apply Forall_cons in Hdbs as [Hdb Hdbs]. rewrite fmap_cons. cbn [scanner_run fold_left].
  destruct (iteration_run n db sc Hdb Hsc) as (sc1 & -> & Hsc1 & Hq1).
  destruct (IH _ _ Hdbs Hsc1) as (sc2 & Hr & Hsc2 & Hle & Hq2). exists sc2.
  assert (n ≤ advance n db)%nat as Hge by (unfold advance; lia).
  split; [done|]. split; [done|]. split; [lia|]. rewrite Hq2, Hq1, <-(assoc_L (++)). f_equal.
  set (m := advance n db) in *. set (m' := fold_left advance dbs m) in *.
  replace (m' - n)%nat with ((m - n) + (m' - m))%nat by lia. rewrite <-take_take_drop, drop_drop.
  by replace (n + (m - n))%nat with m by lia.
Qed.

(** A session whose program is not killed in the middle of a write. *)
Definition session_ok (se : Session) : Prop :=
  Forall (serves_chain B) (se_ledgers se) ∧
  match se_end se with
  | Killed db (InCallbacks _) => serves_chain B db
  | Killed _ (InSave _) => False
  | Stopped => True
  end.

Lemma session_run se n st :
  session_ok se → saved st.1 n →
  ∃ st' n' k, run_session wallet_event_callback spsk state_file (Z.of_nat first) se st = Ok st' ∧
    saved st'.1 n' ∧ (n ≤ n' ≤ n + k ∧ n + k ≤ length bs)%nat ∧ (se_end se = Stopped → n' = n + k)%nat ∧
    queue st'.2 = queue st.2 ++ take k (drop n wallet_reports).
Proof.
  intros [Hdbs Hend] (Hload & Hfs & Hn). unfold run_session, mini_wallet_new. rewrite Hload. cbn.
  destruct (run_in_sync (se_ledgers se) n (mk_scanner (wallet_at n) false st.1 st.2)) as (sc & Hr & Hsc & Hle & Hq);
    [done|by split_and!|]. rewrite Hr. set (m := fold_left _ _ _) in *. destruct Hsc as (Hs & Hp & Hsaved).
  pose proof (proj2 (proj2 Hsaved)) as Hm. destruct (se_end se) as [|db [c|c]]; [| |done].
  - eexists _, m, (m - n)%nat. split; [done|]. split; [done|]. split; [lia|]. split; [lia|done].
  - unfold crash. rewrite Hs, (scan_blocks_at m db Hend Hm).
    pose proof (advance_bound m db Hend Hm) as Hb.
    assert (m ≤ advance m db)%nat as Hge by (unfold advance; lia).
    rewrite (wallet_at_step m (advance m db - m)) by lia.
    set (j := Nat.min c (advance m db - m)).
    eexists _, m, (m - n + j)%nat. split; [done|]. split; [done|].
    split; [unfold j; lia|]. split; [done|]. cbn [snd]. rewrite deliver_queue, Hq, take_take.
    fold j. rewrite <-(assoc_L (++)). f_equal. rewrite <-take_take_drop, drop_drop.
    by replace (n + (m - n))%nat with m by lia.
Qed.

Lemma sessions_run sessions n st :
  Forall session_ok sessions → saved st.1 n → delivered wallet_reports (queue st.2) n →
  ∃ st' n', run_sessions wallet_event_callback spsk state_file (Z.of_nat first) sessions st = Ok st' ∧
    saved st'.1 n' ∧ delivered wallet_reports (queue st'.2) n' ∧ (n ≤ n')%nat ∧
    (Forall (λ se, se_end se = Stopped) sessions →
      queue st'.2 = queue st.2 ++ take (n' - n) (drop n wallet_reports)).
Proof.
  revert n st. induction sessions as [|se sessions IH]; intros n st Hok Hsaved Hd; cbn.
  { exists st, n. rewrite Nat.sub_diag, app_nil_r. split; [done|]. by split_and!. }
  apply Forall_cons in Hok as [Hse Hok].
  destruct (session_run se n st Hse Hsaved) as (st1 & n1 & k & -> & Hsaved1 & Hn1 & Hstop & Hq1). cbn.
  assert (length wallet_reports = length bs) as Hlen.
  { destruct (wallet_at_run (length bs)) as [Hr _]; [done|]. rewrite take_ge in Hr by done.
    unfold wallet_reports at 1. by rewrite Hr; apply apply_blocks_length in Hr. }
  destruct (IH n1 st1 Hok Hsaved1) as (st2 & n2 & Hr & Hsaved2 & Hd2 & Hn2 & Hq2).
  { rewrite Hq1. apply (delivered_back _ _ (n + k)); [apply delivered_slice; [done|lia]|lia]. }
  exists st2, n2. split; [done|]. split; [done|]. split; [done|]. split; [lia|].
  intros [Hst Hsts]%Forall_cons. apply Hstop in Hst as ->. rewrite (Hq2 Hsts), Hq1, <-(assoc_L (++)). f_equal.
  replace (n2 - n)%nat with (k + (n2 - (n + k)))%nat by lia. by rewrite <-take_take_drop, drop_drop.
Qed.

(** A scan that fails is retried with nothing changed. *)
Lemma failed_scan_retries db num err rest sc :
  sc_poisoned sc = false → num_blocks db = Ok num →
  scan_blocks spsk db num (next_block_index (sc_state sc)) = Err err →
  thread_run ((false, db) :: rest) sc = thread_run rest sc.
Proof.
  intros Hp Hnum Herr. cbn [scanner_run]. unfold run_iteration, st_lift, with_lock, st_bind, expect_num_blocks.
  by rewrite Hnum, Hp, Herr.
Qed.

(** A panic of the thread, be it the callback's or a failed write, poisons the
    lock, and so reaches whoever asks the wallet or drops it. *)
Lemma failed_save_poisons db n fs w err :
  serves_chain B db → (n ≤ length bs)%nat → fs_write_fails fs !! state_file = Some err →
  ∃ sc', thread_run [(false, db)] (mk_scanner (wallet_at n) false fs w) = (Panic "Could not save state", sc') ∧
    is_panic (mini_wallet_next_block_index sc') = true ∧
    is_panic (scanner_drop (thread_run [(false, db)] (mk_scanner (wallet_at n) false fs w)).1) = true.
Proof.
  intros Hdb Hn Hw. pose proof (scan_blocks_at n db Hdb Hn) as Hscan'. apply bind_Ok_inv in Hscan' as (num & Hnum & Hres).
  pose proof (advance_bound n db Hdb Hn) as Hb. assert (n ≤ advance n db)%nat as Hge by (unfold advance; lia).
  pose proof (wallet_at_step n (advance n db - n) ltac:(lia)) as Happ.
  destruct (state_serialize_total (wallet_at (n + (advance n db - n)))) as [data Hd].
  assert (∃ fs', state_save (wallet_at (n + (advance n db - n))) state_file fs = (Err err.2, fs')) as [fs' Hs].
  { unfold state_save, st_bind, st_lift. rewrite Hd. unfold fs_write. rewrite Hw. destruct err as [[?|] ?]; eauto. }
  enough (∃ sc', iteration db (mk_scanner (wallet_at n) false fs w) = (Panic "Could not save state", sc') ∧
    sc_poisoned sc' = true) as (sc' & Hr & Hp).
  { exists sc'. cbn [scanner_run]. rewrite Hr. split; [done|]. unfold mini_wallet_next_block_index. by rewrite Hp. }
  unfold run_iteration, st_lift, with_lock, st_bind. rewrite Hnum. cbn [sc_poisoned sc_state]. rewrite Hres.
  cbn [sc_poisoned]. rewrite (process_results_run _ (mk_scanner (wallet_at n) false fs w) _ _ Happ).
  unfold expect, on_fs. cbn [sc_state sc_fs sc_world sc_poisoned]. rewrite Hs. by eexists.
Qed.

Lemma advance_turns k n db :
  (first + n ≤ length (blocks db))%nat →
  fold_left advance (replicate k db) n = (n + Nat.min (1000 * k) (length (blocks db) - (first + n)))%nat.
Proof.
  revert n. induction k as [|k IH]; intros n Hn; [cbn; lia|]. cbn [replicate fold_left].
  rewrite IH by (unfold advance; lia). unfold advance. lia.
Qed.

(** C27: the scanner catches up and stops.  A thread in step with its state
    file, on a ledger that serves its blocks, has scanned all of them after one
    iteration per 1000 new blocks (and stays there), with one event for each
    of them, in order and without a gap; the state file is up to date, and
    when it is asked to stop the thread returns, so that dropping the wallet
    does not hang. *)
Theorem scanner_catches_up db n k sc :
  serves_chain B db → in_sync sc n →
  (first + n ≤ length (blocks db) ≤ first + n + 1000 * k)%nat →
  ∃ sc', thread_run (replicate k (false, db) ++ [(true, db)]) sc = (Ok true, sc') ∧
    in_sync sc' (length (blocks db) - first) ∧
    mini_wallet_next_block_index sc' = Ok (Z.of_nat (length (blocks db))) ∧
    queue (sc_world sc') = queue (sc_world sc) ++ take (length (blocks db) - (first + n)) (drop n wallet_reports) ∧
    scanner_drop (thread_run (replicate k (false, db) ++ [(true, db)]) sc).1 = Ok tt.
Proof.
  intros Hdb Hsc Hk. destruct (run_in_sync (replicate k db) n sc) as (sc' & Hr & Hsc' & Hle & Hq);
    [by apply Forall_replicate|done|].
  rewrite advance_turns in Hsc', Hle, Hq by lia.
  replace (n + _)%nat with (length (blocks db) - first)%nat in Hsc', Hq by lia.
  assert (thread_run (replicate k (false, db) ++ [(true, db)]) sc = (Ok true, sc')) as Hrun.
  { rewrite fmap_replicate in Hr. clear -Hr. revert sc Hr.
    induction k as [|k IH]; intros sc; cbn [replicate app scanner_run]; [by intros [= <-]|].
    destruct (iteration db sc) as [[]]; eauto. done. }
  exists sc'. rewrite Hrun. split; [done|]. split; [done|]. destruct Hsc' as (Hs & Hp & Hsaved).
  split; [|split; [rewrite Hq; do 2 f_equal; lia|done]].
  unfold mini_wallet_next_block_index. rewrite Hp, Hs, (proj2 (wallet_at_run _ (proj2 (proj2 Hsaved)))). f_equal. lia.
Qed.

(** C28: restarts lose nothing.  Over any sequence of runs of the program,
    each ended by a stop or killed while it reports events, every run starts,
    and the state file ends up with the wallet that has scanned the same
    blocks without interruption: its outputs are exactly the unspent ones.
    The events reported are those of that wallet, in order and none skipped;
    blocks are reported again only after a kill. *)
Theorem wallet_survives_restarts sessions fs w :
  healthy state_file fs → fs_files fs !! state_file = None → queue w = [] → distinct_outputs bs →
  Forall session_ok sessions →
  ∃ fs' w' n, run_sessions wallet_event_callback spsk state_file (Z.of_nat first) sessions (fs, w) = Ok (fs', w') ∧
    state_load state_file (Z.of_nat first) fs' = Ok (wallet_at n) ∧
    next_block_index (wallet_at n) = Z.of_nat (first + n) ∧
    (∀ k t, matched_tx_outs (wallet_at n) !! k = Some t ↔ unspent (take n bs) k t) ∧
    delivered wallet_reports (queue w') n ∧
    (Forall (λ se, se_end se = Stopped) sessions → queue w' = take n wallet_reports).
Proof.
  intros Hfs Hnone Hw Hdist Hok.
  assert (saved fs 0) as Hsaved.
  { split; [|split; [done|lia]]. unfold state_load, path_exists. rewrite Hnone, bool_decide_eq_false_2; [done|].
    by intros [_ [? ?]]. }
  destruct (sessions_run sessions 0 (fs, w)) as ([fs' w'] & n & Hr & (Hload & _ & Hn) & Hd & _ & Hq);
    [done|done|cbn; rewrite Hw; constructor|].
  destruct (wallet_at_run n Hn) as [Hrun Hnext].
  exists fs', w', n. split; [done|]. split; [done|]. split; [done|]. split; [|split; [done|]].
  - apply (apply_blocks_tracks (take n bs) [] (fresh_state (Z.of_nat first)) (take n wallet_reports)); [| |done].
    + unfold distinct_outputs in *. cbn. rewrite <-(take_drop n bs), bind_app, fmap_app in Hdist.
      by apply NoDup_app in Hdist as [? _].
    + intros k t. cbn. rewrite lookup_empty. split; [done|]. by intros (i & b & Hi & _).
  - intros Hst. specialize (Hq Hst). cbn in Hq. by rewrite Hw, Nat.sub_0_r, drop_0 in Hq.
Qed.
End Process.

(** * The theorems on examples *)

Module WalletRunExamples.
Import Sample SampleLedger SyncExamples WalletExamples.

(** A state as one number behind a tag. *)
Definition state_fields (s : State) : Z * list (list Z * (Z * (list Z * list Z * list Z) * (Z * Z) * Z * list Z)) :=
  (next_block_index s,
   (λ '(k, t), (k, (mt_block_index t,
      (txo_public_key (mt_tx_out t), txo_target_key (mt_tx_out t), txo_rest (mt_tx_out t)),
      (amt_value (mt_amount t), amt_token_id (mt_amount t)), mt_subaddress_index t, mt_key_image t)))
     <$> map_to_list (matched_tx_outs s)).
Definition state_of_fields (f : Z * list (list Z * (Z * (list Z * list Z * list Z) * (Z * Z) * Z * list Z))) : State := {|
  next_block_index := f.1;
  matched_tx_outs := list_to_map ((λ '(k, (i, (p, t, r), (v, tok), sub, ki)),
    (k, {| mt_block_index := i; mt_tx_out := {| txo_public_key := p; txo_target_key := t; txo_rest := r |};
           mt_amount := {| amt_value := v; amt_token_id := tok |};
           mt_subaddress_index := sub; mt_key_image := ki |})) <$> f.2);
|}.

Lemma state_of_fields_of s : state_of_fields (state_fields s) = s.
Proof.
  destruct s as [next m]. unfold state_of_fields, state_fields. cbn. f_equal.
  rewrite <-list_fmap_compose.
  rewrite (list_fmap_ext _ (λ x, x)); [by rewrite list_fmap_id, list_to_map_to_list|].
  intros i [k [b [p t r] [v tok] sub ki]] _. done.
Qed.

#[export] Instance sample_serial : StateSerial := {|
  state_serialize s := Ok [1; Z.pos (encode (state_fields s))];
  state_deserialize data :=
    match data with
    | [1; Z.pos p] => ok_or (state_of_fields <$> decode p) "data"
    | _ => Err "unexpected end of file"
    end;
|}.
#[export] Instance sample_serial_laws : StateSerialLaws.
Proof.
  split; cbn; [by eexists| |done]. intros s data [= <-].
  by rewrite decode_encode; cbn; rewrite state_of_fields_of.
Qed.

(** The queue of the program. *)
Definition push (e : WalletEvent) : stateful (list WalletEvent) string unit := λ w, (Ok tt, w ++ [e]).
Lemma push_queues e (w : list WalletEvent) : ∃ w', push e w = (Ok tt, w') ∧ id w' = id w ++ [e].
Proof. by eexists. Qed.

Definition disk : FileSystem := {| fs_files := ∅; fs_stat_fails := ∅; fs_read_fails := ∅; fs_write_fails := ∅ |}.
Lemma disk_healthy : healthy "wallet-state" disk.
Proof. split; [set_solver|done]. Qed.
Lemma chain_served n : serves_chain chain (take n chain).
Proof.
  split; [apply chain_serves|]. split; [apply prefix_take|]. cbn.
  rewrite bool_decide_eq_true_2; [done|]. unfold is_u64. rewrite length_take. cbn. unfold U64_MOD. lia.
Qed.

Lemma scanner_catches_up_witness :
  ∃ sc', scanner_run push spsk "wallet-state" [(false, chain); (true, chain)]
      (mk_scanner (fresh_state 0) false disk []) = (Ok true, sc') ∧
    mini_wallet_next_block_index sc' = Ok 2 ∧ sc_world sc' = events_ab.
Proof.
  destruct (scanner_catches_up push spsk "wallet-state" id push_queues chain 0 blocks_ab chain_scanned eq_refl
    chain 0 1 (mk_scanner (fresh_state 0) false disk [])) as (sc' & Hr & _ & Hn & Hq & _).
  - exact (chain_served 2).
  - split_and!; [done|done|]. split; [by vm_compute|]. split; [exact disk_healthy|cbn; lia].
  - cbn. lia.
  - exists sc'. split; [exact Hr|]. split; [exact Hn|]. change (sc_world sc' = events_ab) with (id (sc_world sc') = events_ab).
    rewrite Hq. by vm_compute.
Defined.

(** The first run scans one block and is killed when it has reported the
    second; the second run reports it again. *)
Definition sessions : list (Session (L:=Chain)) :=
  [mk_session [take 1 chain] (Killed chain (InCallbacks 1)); mk_session [chain] Stopped].

Lemma wallet_survives_restarts_witness :
  ∃ fs' w' n, run_sessions push spsk "wallet-state" 0 sessions (disk, []) = Ok (fs', w') ∧
    state_load "wallet-state" 0 fs' = Ok (wallet_at 0 blocks_ab n) ∧
    delivered (wallet_reports 0 blocks_ab) w' n.
Proof.
  destruct (wallet_survives_restarts push spsk "wallet-state" id push_queues chain 0 blocks_ab chain_scanned eq_refl
    sessions disk []) as (fs' & w' & n & Hr & Hl & _ & _ & Hd & _).
  - exact disk_healthy.
  - done.
  - done.
  - unfold distinct_outputs. apply (bool_decide_unpack _). by vm_compute.
  - apply Forall_cons. split; [|apply Forall_singleton]; (split; [apply Forall_singleton|]); [| |exact (chain_served 2)|done].
    + exact (chain_served 1).
    + exact (chain_served 2).
  - exists fs', w', n. exact (conj Hr (conj Hl Hd)).
Defined.

Example sessions_report_again :
  ∃ fs', run_sessions push spsk "wallet-state" 0 sessions (disk, []) =
    Ok (fs', [BlockProcessed 0 [matched 0 0; matched 0 2] []; BlockProcessed 1 [matched 1 4] [matched 0 2];
              BlockProcessed 1 [matched 1 4] [matched 0 2]]).
Proof. eexists. vm_compute. reflexivity. Qed.

(** A kill inside the write of the state file: the program does not start
    again. *)
Example torn_state_file :
  run_sessions push spsk "wallet-state" 0 [mk_session [] (Killed chain (InSave 0)); mk_session [] Stopped] (disk, []) =
    Err "unexpected end of file".
Proof. by vm_compute. Qed.
End WalletRunExamples.
