(* ===== verification/WalletTests.v ===== *)
(** The unit test of the mini wallet (liquidity-bot/src/mini_wallet/mod.rs,
    [mod tests]) as a program: the wallet's thread scans a test ledger while
    the test looks at the events it has reported. *)

From S2P Require Import Prelude McTypes QuoteApi QuotePricing QuoteBook InMemory Synchronized Wallet WalletRun.

(** [RING_SIZE] of mc_transaction_core *)
Definition TX_RING_SIZE : nat := 11.

(** The test ledger of mc_ledger_db for the account of the test, and the
    constants of the mobilecoin crates. *)
Class WalletTestLib (L : Type) := {
  INITIALIZE_LEDGER_AMOUNT : Z;
  MINIMUM_FEE : Z;
  (** [create_ledger()] and [initialize_ledger(.., n_blocks, &account_key, ..)] *)
  initialize_ledger : Z → L;
}.

(** The subaddresses of the test's account: the default and the change one. *)
Definition account_spsk `{AccountKey} : gmap bytes Z := default_spsk_to_index_map 0 (U64_MOD - 2).

Section Test.
Context `{AccountKey, !StateSerial} {L : Type} `{!Ledger L, !WalletTestLib L}.
(** How often the thread turns before the test's look number [i]. *)
Variable turns : nat → nat.

(** The wallet's thread: whether it is still running, and what it works on. *)
Local Abbreviation thread := (bool * Scanner (list WalletEvent))%type.
(** [events2.lock().unwrap().push(event)] *)
Definition push_event (event : WalletEvent) : stateful (list WalletEvent) string unit := λ events,
  (Ok tt, events ++ [event]).
Definition thread_turns (state_file : PathBuf) (ledger_db : L) (n : nat) (t : thread) : thread :=
  if t.1 then
    match scanner_run push_event account_spsk state_file (replicate n (false, ledger_db)) t.2 with
    | (Ok _, sc) => (true, sc)
    | (_, sc) => (false, sc)
    end
  else t.

Definition n_blocks : nat := 3.

(** The loop that waits for the events: the number of looks, and the thread. *)
Fixpoint wait_for_events (state_file : PathBuf) (ledger_db : L) (rounds look : nat) (t : thread) : nat * thread :=
  match rounds with
  | O => (look, t)
  | S rounds =>
      let t := thread_turns state_file ledger_db (turns look) t in
      if decide (length (sc_world t.2) = n_blocks) then (S look, t)
      else wait_for_events state_file ledger_db rounds (S look) t
  end.

(** The loop over the events. *)
Fixpoint check_events (i : nat) (expected_amount : Amount) (events : list WalletEvent) : outcome string unit :=
  match events with
  | [] => Ok tt
  | BlockProcessed block_index received_tx_outs spent_tx_outs :: rest =>
      let num_expected_tx_outs := if decide (i = 0%nat) then TX_RING_SIZE else 1%nat in
      let num_expected_spent_tx_outs := if decide (i = 0%nat) then 0%nat else 1%nat in
      _ ← rust_assert (block_index =? Z.of_nat i) "block_index";
      _ ← rust_assert (length received_tx_outs =? num_expected_tx_outs)%nat "received_tx_outs";
      _ ← rust_assert (length spent_tx_outs =? num_expected_spent_tx_outs)%nat "spent_tx_outs";
      _ ← rust_assert (forallb (λ m, bool_decide (mt_amount m = expected_amount)) received_tx_outs) "received amount";
      _ ← (if (0 <? num_expected_spent_tx_outs)%nat then
             rust_assert (forallb (λ m, amt_value (mt_amount m) =? u64_add (amt_value expected_amount) MINIMUM_FEE)
                            spent_tx_outs) "spent amount"
           else Ok tt);
      check_events (S i) {| amt_value := u64_sub (amt_value expected_amount) MINIMUM_FEE;
                            amt_token_id := amt_token_id expected_amount |} rest
  end.

Definition mini_wallet_properly_identifies_spendable_and_spent_txos (temp_dir : PathBuf) (fs : FileSystem) :
    outcome string unit :=
  let ledger_db := initialize_ledger (Z.of_nat n_blocks) in
  let state_file := temp_dir +:+ "/wallet-state" in
  match mini_wallet_new state_file 0 fs [] with
  | Ok wallet =>
      let '(look, t) := wait_for_events state_file ledger_db 30 0 (true, wallet) in
      let t := thread_turns state_file ledger_db (turns look) t in
      _ ← rust_assert (bool_decide (length (sc_world t.2) = n_blocks)) "events";
      check_events 0 {| amt_value := INITIALIZE_LEDGER_AMOUNT; amt_token_id := 0 |} (sc_world t.2)
  | Err e => Panic "called `Result::unwrap()` on an `Err` value"
  | Panic p => Panic p
  end.
End Test.

(** [initialize_ledger] makes an origin block with a ring of outputs for the
    account, and then blocks that each spend an output of the block before it
    and pay what the fee leaves. *)
Definition initial_amount {L} `{!WalletTestLib L} (i : nat) : Amount :=
  {| amt_value := INITIALIZE_LEDGER_AMOUNT - Z.of_nat i * MINIMUM_FEE; amt_token_id := 0 |}.

Class WalletTestLaws `{AccountKey} (L : Type) `{!Ledger L, !LedgerLaws L, !WalletTestLib L} : Prop := {
  fees_fit : is_u64 INITIALIZE_LEDGER_AMOUNT ∧ 0 ≤ MINIMUM_FEE ∧ 1000 * MINIMUM_FEE ≤ INITIALIZE_LEDGER_AMOUNT;
  initialized n : 0 < n ≤ 1000 → let db : L := initialize_ledger n in
    serves db ∧ length (blocks db) = Z.to_nat n ∧ num_blocks db = Ok n;
  initial_outputs n i c : 0 < n ≤ 1000 → blocks (initialize_ledger n : L) !! i = Some c →
    length (bc_outputs c) = (if decide (i = 0%nat) then TX_RING_SIZE else 1%nat) ∧
    ∀ o, o ∈ bc_outputs c → ∃ m, view_key_scan (Z.of_nat i) o account_spsk = Ok (Some m) ∧ mt_amount m = initial_amount i;
  initial_origin n c : 0 < n ≤ 1000 → blocks (initialize_ledger n : L) !! 0%nat = Some c → bc_key_images c = [];
  initial_spends n i c : 0 < n ≤ 1000 → blocks (initialize_ledger n : L) !! S i = Some c →
    ∃ c' o m, blocks (initialize_ledger n : L) !! i = Some c' ∧ o ∈ bc_outputs c' ∧
      view_key_scan (Z.of_nat i) o account_spsk = Ok (Some m) ∧ bc_key_images c = [mt_key_image m];
}.

(** * What the wallet reports of such a chain *)

Section Reports.
Context `{AccountKey} {L : Type} `{!WalletTestLib L}.

Record initial_block (i : nat) (prev : option ScannedBlock) (b : ScannedBlock) : Prop := {
  ib_index : sb_block_index b = Z.of_nat i;
  ib_received : length (sb_matched_tx_outs b) = if decide (i = 0%nat) then TX_RING_SIZE else 1%nat;
  ib_amounts : Forall (λ m, mt_amount m = initial_amount i) (sb_matched_tx_outs b);
  ib_spent : match prev with
             | None => i = 0%nat ∧ sb_key_images b = []
             | Some p => (i ≠ 0)%nat ∧ ∃ t, t ∈ sb_matched_tx_outs p ∧ sb_key_images b = [mt_key_image t]
             end;
}.

Fixpoint initial_chain (i : nat) (prev : option ScannedBlock) (bs : list ScannedBlock) : Prop :=
  match bs with
  | [] => True
  | b :: rest => initial_block i prev b ∧ initial_chain (S i) (Some b) rest
  end.

Lemma insert_received_found l m (P : MatchedTxOut → Prop) t :
  Forall P l → t ∈ l → ∃ t', insert_received l m !! mt_key_image t = Some t' ∧ P t'.
Proof.
  intros HP Ht. unfold insert_received. induction l as [|x l IH] using rev_ind; [by apply elem_of_nil in Ht|].
  rewrite fold_left_app. cbn. apply Forall_app in HP as [HP Hx]. apply Forall_cons in Hx as [Hx _].
  destruct (decide (mt_key_image x = mt_key_image t)) as [Hk|Hne].
  { exists x. by rewrite Hk, lookup_insert_eq. }
  rewrite lookup_insert_ne by done. apply IH; [done|]. apply elem_of_app in Ht as [Ht|Ht%list_elem_of_singleton]; [done|by subst].
Qed.

(** The events of the wallet on such a chain pass the checks of the test. *)
Lemma initial_chain_reports bs i prev s :
  initial_chain i prev bs → next_block_index s = Z.of_nat i →
  Z.of_nat (i + length bs) < U64_MOD → is_u64 INITIALIZE_LEDGER_AMOUNT → 0 ≤ MINIMUM_FEE →
  Z.of_nat (i + length bs) * MINIMUM_FEE ≤ INITIALIZE_LEDGER_AMOUNT →
  (∀ p t, prev = Some p → t ∈ sb_matched_tx_outs p → ∃ t',
     matched_tx_outs s !! mt_key_image t = Some t' ∧ mt_amount t' = initial_amount (i - 1)) →
  ∃ events s', apply_blocks bs s = (Ok events, s') ∧ check_events i (initial_amount i) events = Ok tt.
Proof.
  revert i prev s. induction bs as [|b bs IH]; intros i prev s Hc Hi Hlt Hu Hfee Hfit Hprev.
  { by exists [], s. }
  destruct Hc as [[Hidx Hrec Ham Hsp] Hc]. cbn [length] in *.
  set (spent := (remove_spent (sb_key_images b) (matched_tx_outs s)).1).
  set (s1 := {| next_block_index := u64_add (next_block_index s) 1; matched_tx_outs :=
    insert_received (sb_matched_tx_outs b) (remove_spent (sb_key_images b) (matched_tx_outs s)).2 |}).
  assert (apply_block b s = (Ok (BlockProcessed (Z.of_nat i) (sb_matched_tx_outs b) spent), s1)) as Hb.
  { unfold apply_block, s1, spent. rewrite Hidx, Hi, Z.eqb_refl. cbn. by destruct (remove_spent _ _). }
  destruct (IH (S i) (Some b) s1 Hc) as (events & s2 & Hr & Hev); [..|done|done|lia| |].
  { cbn. rewrite Hi. unfold u64_add. rewrite wrap64_small by (unfold is_u64; lia). lia. }
  { lia. }
  { intros p t [= <-] Ht. replace (S i - 1)%nat with i by lia. by apply insert_received_found. }
  exists (BlockProcessed (Z.of_nat i) (sb_matched_tx_outs b) spent :: events), s2.
  split; [cbn; unfold st_bind; by rewrite Hb, Hr|]. cbn [check_events].
  rewrite Z.eqb_refl, Hrec, Nat.eqb_refl. cbn.
  assert (length spent = (if decide (i = 0%nat) then 0 else 1)%nat ∧ (i ≠ 0%nat → ∀ t, t ∈ spent → mt_amount t = initial_amount (i - 1)))
    as [Hlen Hspent].
  { unfold spent. destruct prev as [p|]; [|by destruct Hsp as [-> ->]].
    destruct Hsp as (Hne & t & Ht & ->). cbn. destruct (Hprev p t eq_refl Ht) as (t' & Ht' & Ha). rewrite Ht'. cbn.
    rewrite decide_False by done. split; [done|]. by intros _ x ->%list_elem_of_singleton. }
  rewrite Hlen, Nat.eqb_refl. cbn. replace (forallb _ (sb_matched_tx_outs b)) with true.
  2:{ symmetry. apply forallb_forall. intros m Hm. apply bool_decide_eq_true. rewrite Forall_forall in Ham.
      by apply Ham, list_elem_of_In. }
  cbn.
  assert (i ≠ 0%nat → forallb (λ m, amt_value (mt_amount m) =? u64_add (amt_value (initial_amount i)) MINIMUM_FEE) spent = true)
    as Hspent'.
  { intros Hne. apply forallb_forall. intros m Hm. apply Z.eqb_eq. rewrite (Hspent Hne m) by by apply list_elem_of_In.
    cbn. unfold u64_add. rewrite wrap64_small; [nia|]. unfold is_u64 in *. nia. }
  assert (check_events (S i) {| amt_value := u64_sub (amt_value (initial_amount i)) MINIMUM_FEE; amt_token_id := 0 |} events
    = Ok tt) as Hrest.
  { rewrite <-Hev. f_equal. unfold initial_amount. f_equal. unfold u64_sub. cbn [amt_value].
    rewrite wrap64_small; [lia|]. unfold is_u64 in *. nia. }
  destruct (decide (i = 0%nat)) as [|Hne]; cbn; [exact Hrest|]. unfold initial_amount in Hspent' at 1. cbn in Hspent'.
  rewrite (Hspent' Hne). cbn. exact Hrest.
Qed.
End Reports.

Section Pass.
Context `{AccountKey, !StateSerial, !StateSerialLaws} {L : Type}.
Context `{!Ledger L, !LedgerLaws L, !WalletTestLib L, !WalletTestLaws L}.

Lemma scan_outputs_all i outputs (P : MatchedTxOut → Prop) :
  (∀ o, o ∈ outputs → ∃ m, view_key_scan i o account_spsk = Ok (Some m) ∧ P m) →
  ∃ ms, scan_outputs account_spsk i outputs = Ok ms ∧ length ms = length outputs ∧ Forall P ms ∧
    ∀ o m, o ∈ outputs → view_key_scan i o account_spsk = Ok (Some m) → m ∈ ms.
Proof.
  induction outputs as [|o outputs IH]; intros Ho.
  { exists []. split; [done|]. split; [done|]. split; [done|]. by intros ? ? ?%elem_of_nil. }
  destruct (Ho o) as (m & Hm & HP); [left|]. destruct IH as (ms & Hms & Hlen & Hall & Hin); [set_solver|].
  exists (m :: ms). split; [cbn [scan_outputs]; rewrite Hm; cbn [mbind outcome_bind]; by rewrite Hms|].
  split; [cbn; by rewrite Hlen|]. split; [by constructor|].
  intros o' m' [->|Ho']%elem_of_cons Hs; [|right; eauto].
  assert (m' = m) as -> by congruence. left.
Qed.

(** The test ledger from block [i] on, scanned. *)
Lemma initial_scan n k i prev :
  0 < n ≤ 1000 → (i + k = Z.to_nat n)%nat →
  match prev with
  | None => i = 0%nat
  | Some p => (i ≠ 0)%nat ∧ ∀ c' o m, blocks (initialize_ledger n : L) !! (i - 1)%nat = Some c' → o ∈ bc_outputs c' →
      view_key_scan (Z.of_nat (i - 1)) o account_spsk = Ok (Some m) → m ∈ sb_matched_tx_outs p
  end →
  ∃ bs, scan_chain account_spsk i (drop i (blocks (initialize_ledger n : L))) = Ok bs ∧
    length bs = k ∧ initial_chain (L:=L) i prev bs.
Proof.
  intros Hn. destruct (initialized n Hn) as (_ & Hlen & _). revert i prev. induction k as [|k IH]; intros i prev Hk Hprev.
  { exists []. rewrite drop_ge by lia. done. }
  destruct (lookup_lt_is_Some_2 (blocks (initialize_ledger n : L)) i) as [c Hc]; [lia|].
  rewrite (drop_S _ c) by done. cbn [scan_chain]. destruct (initial_outputs n i c Hn Hc) as [Hout Hscan].
  destruct (scan_outputs_all _ _ _ Hscan) as (ms & Hms & Hlms & Hall & Hin). unfold process_block. rewrite Hms. cbn [mbind outcome_bind].
  set (b := {| sb_block_index := _ |}).
  destruct (IH (S i) (Some b)) as (bs & Hbs & Hl & Hchain); [lia| |].
  { split; [done|]. replace (S i - 1)%nat with i by lia. intros c' o m Hc' Ho Hv.
    assert (c' = c) as -> by congruence. by eapply Hin. }
  exists (b :: bs). rewrite Hbs. split; [done|]. split; [cbn; by rewrite Hl|]. split; [|done].
  split; cbn; [done|by rewrite Hlms|done|]. destruct prev as [p|].
  - destruct Hprev as [Hne Hp]. split; [done|]. destruct i as [|i]; [done|]. rewrite Nat.sub_succ, Nat.sub_0_r in Hp.
    destruct (initial_spends n i c Hn Hc) as (c' & o & m & Hc' & Ho & Hm & ->). exists m. split; [|done].
    by eapply Hp.
  - subst i. split; [done|]. by apply (initial_origin n).
Qed.

Local Abbreviation db := (initialize_ledger (Z.of_nat n_blocks) : L).

Lemma push_event_queues e (w : list WalletEvent) : ∃ w', push_event e w = (Ok tt, w') ∧ id w' = id w ++ [e].
Proof. by eexists. Qed.

(** What the test can find: the thread is in step, and has reported all of the
    blocks once it has turned. *)
Definition reported (file : PathBuf) (bs : list ScannedBlock) (turned : bool) (t : bool * Scanner (list WalletEvent)) : Prop :=
  t.1 = true ∧ in_sync file 0 bs t.2 (if turned then 3 else 0) ∧
  sc_world t.2 = (if turned then wallet_reports 0 bs else []).

Section Wait.
Context (file : PathBuf) (bs : list ScannedBlock) (turns : nat → nat).
Hypothesis Hscan : scan_chain account_spsk 0 (drop 0 (blocks db)) = Ok bs.
Hypothesis Hbs : length bs = 3%nat.

Lemma db_served : serves_chain (blocks db) db ∧ length (blocks db) = 3%nat.
Proof.
  destruct (initialized (L:=L) (Z.of_nat n_blocks)) as (Hs & Hl & Hn); [done|].
  rewrite Nat2Z.id in Hl. split; [|done]. split; [done|]. split; [done|]. by rewrite Hl.
Qed.

Lemma reports_length : length (wallet_reports 0 bs) = 3%nat.
Proof.
  destruct db_served as [_ Hl]. assert (Z.of_nat (0 + length (blocks db)) + SCAN_CHUNK_SIZE < U64_MOD) as Hfits by by rewrite Hl.
  destruct (wallet_at_run account_spsk (blocks db) 0 bs Hscan Hfits 3) as [Hr _]; [lia|].
  rewrite take_ge in Hr by lia. pose proof Hr as Hlen. apply apply_blocks_length in Hlen.
  unfold wallet_reports at 1. rewrite Hr. by rewrite Hlen.
Qed.

Lemma turns_reported n turned t :
  reported file bs turned t → reported file bs (turned || (0 <? n)%nat) (thread_turns file db n t).
Proof.
  intros (Ha & Hsync & Hw). destruct db_served as [Hserve Hl]. unfold thread_turns. rewrite Ha.
  assert (Z.of_nat (0 + length (blocks db)) + SCAN_CHUNK_SIZE < U64_MOD) as Hfits by by rewrite Hl.
  destruct (run_in_sync push_event account_spsk file id push_event_queues (blocks db) 0 bs Hscan Hfits
    (replicate n db) _ _ ltac:(by apply Forall_replicate) Hsync) as (sc' & Hr & Hsync' & _ & Hq).
  rewrite fmap_replicate in Hr. rewrite Hr. rewrite (advance_turns (blocks db) 0 Hfits) in Hsync', Hq by (rewrite Hl; by destruct turned; cbn; lia).
  rewrite Hl in Hsync', Hq. unfold id in Hq. rewrite Hw in Hq. pose proof reports_length. split; [done|]. cbn [snd].
  destruct turned; cbn [orb].
  - rewrite Nat.sub_diag, Nat.min_0_r in Hsync', Hq. split; [done|]. by rewrite Hq, app_nil_r.
  - destruct (Nat.ltb_spec 0 n).
    + rewrite Nat.min_r in Hsync', Hq by lia. split; [done|]. rewrite Hq. cbn. by rewrite drop_0, take_ge by lia.
    + replace n with 0%nat in * by lia. split; [done|]. by rewrite Hq.
Qed.

(** When the thread turns while the test waits, the events are there. *)
Lemma wait_reported rounds look turned t :
  reported file bs turned t → turned = true ∨ (∃ i, (look ≤ i < look + rounds)%nat ∧ (0 < turns i)%nat) →
  reported file bs true (wait_for_events turns file db rounds look t).2.
Proof.
  revert look turned t. induction rounds as [|rounds IH]; intros look turned t Ht Hturn.
  { destruct Hturn as [->|(i & Hi & _)]; [done|lia]. }
  cbn [wait_for_events]. pose proof (turns_reported (turns look) turned t Ht) as Ht'.
  destruct (decide _) as [Hlen|Hlen].
  - destruct Ht' as (? & ? & Hw). destruct (turned || (0 <? turns look)%nat) eqn:E; [done|].
    by rewrite Hw in Hlen.
  - eapply IH; [done|]. destruct Hturn as [->|(i & Hi & Hpos)]; [by left|].
    destruct (decide (i = look)) as [->|Hne]; [|right; exists i; lia].
    left. by rewrite (proj2 (Nat.ltb_lt 0 _)), orb_true_r.
Qed.
End Wait.

(** The test passes when the thread turns at least once in the 30 seconds the
    test waits, however it does, in a temporary directory that works. *)
Lemma wallet_test_passes turns temp_dir fs :
  (∃ i, (i < 30)%nat ∧ (0 < turns i)%nat) →
  healthy (temp_dir +:+ "/wallet-state") fs → fs_files fs !! (temp_dir +:+ "/wallet-state") = None →
  mini_wallet_properly_identifies_spendable_and_spent_txos (L:=L) turns temp_dir fs = Ok tt.
Proof.
  intros (i & Hi & Hpos) Hfs Hnew. set (file := temp_dir +:+ "/wallet-state") in *.
  destruct (initial_scan (Z.of_nat n_blocks) 3 0 None) as (bs & Hscan & Hlen & Hchain); [done..|].
  unfold mini_wallet_properly_identifies_spendable_and_spent_txos, mini_wallet_new. fold file.
  assert (state_load file 0 fs = Ok (fresh_state 0)) as Hload.
  { unfold state_load, path_exists. rewrite bool_decide_false; [done|]. rewrite Hnew. by intros [_ [? ?]]. }
  rewrite Hload. cbn [mbind outcome_bind].
  assert (reported file bs false (true, mk_scanner (fresh_state 0) false fs [])) as Hstart.
  { split; [done|]. split; [|done]. split; [done|]. split; [done|]. split; [done|]. split; [done|lia]. }
  pose proof (wait_reported file bs turns Hscan Hlen 30 0 false _ Hstart) as Hwait.
  destruct (wait_for_events _ _ _ _ _ _) as [look t]. cbn [snd] in Hwait.
  assert (reported file bs true t) as Ht by (apply Hwait; right; exists i; lia).
  apply (turns_reported file bs Hscan Hlen (turns look)) in Ht as (_ & _ & ->). cbn [orb].
  rewrite (reports_length bs Hscan Hlen). cbn [bool_decide decide rust_assert].
  destruct (fees_fit (L:=L)) as (Hu & Hfee & Hfit).
  destruct (initial_chain_reports (L:=L) bs 0 None (fresh_state 0) Hchain) as (events & s' & Hr & Hev); try done.
  - cbn. rewrite Hlen. done.
  - cbn. rewrite Hlen. lia.
  - unfold wallet_reports. change (Z.of_nat 0) with 0. rewrite Hr. unfold initial_amount in Hev.
    rewrite Z.mul_0_l, Z.sub_0_r in Hev. exact Hev.
Qed.
End Pass.

(** * Example *)

Module WalletTestsExamples.
Import SampleLedger WalletRunExamples.

(** The output number [j] of block [i]; all outputs are the account's, of an
    amount that depends on their block. *)
Definition output (i j : nat) : TxOut :=
  {| txo_public_key := [Z.of_nat i; Z.of_nat j]; txo_target_key := []; txo_rest := [] |}.
#[export] Instance test_account : AccountKey := {|
  decompress k := Ok k;
  unmask_amount t _ := match txo_public_key t with
                       | [i; _] => Ok {| amt_value := 1000000 - i * 10; amt_token_id := 0 |}
                       | _ => Err "view key"
                       end;
  recover_spend_key _ _ := [0];
  onetime_key_image k _ := k;
  subaddress_spend_public_key i := [i];
|}.
Definition block (i : nat) : BlockContents := {|
  bc_key_images := match i with O => [] | S i => [[Z.of_nat i; 0]] end;
  bc_outputs := output i <$> seq 0 (if decide (i = 0%nat) then TX_RING_SIZE else 1%nat);
|}.
#[export] Instance wallet_test_lib : WalletTestLib Chain := {|
  INITIALIZE_LEDGER_AMOUNT := 1000000; MINIMUM_FEE := 10;
  initialize_ledger n := block <$> seq 0 (Z.to_nat n);
|}.

Definition seen_as (i : nat) (j : Z) : MatchedTxOut := {|
  mt_block_index := Z.of_nat i; mt_tx_out := output i (Z.to_nat j); mt_amount := initial_amount i;
  mt_subaddress_index := 0; mt_key_image := [Z.of_nat i; Z.of_nat (Z.to_nat j)] |}.
Lemma spsk_default : account_spsk !! [0] = Some 0.
Proof. by vm_compute. Qed.
Lemma output_scan i j : view_key_scan (Z.of_nat i) (output i (Z.to_nat j)) account_spsk = Ok (Some (seen_as i j)).
Proof.
  unfold view_key_scan. cbn [decompress test_account mbind outcome_bind unmask_amount txo_public_key output recover_spend_key].
  by rewrite spsk_default.
Qed.

Lemma block_lookup n i c : blocks (initialize_ledger n : Chain) !! i = Some c → c = block i.
Proof. cbn. intros (j & -> & Hj)%list_lookup_fmap_Some. by apply lookup_seq in Hj as [-> _]. Qed.

#[export] Instance wallet_test_laws : WalletTestLaws Chain.
Proof.
  split.
  - done.
  - intros n Hn db. split; [apply chain_serves|]. unfold db. cbn. rewrite length_fmap, length_seq. split; [done|].
    rewrite Z2Nat.id by lia. rewrite bool_decide_true; [done|]. unfold is_u64, U64_MOD. lia.
  - intros n i c _ ->%block_lookup. cbn. rewrite length_fmap, length_seq. split; [done|].
    intros o (j & -> & _)%list_elem_of_fmap. exists (seen_as i (Z.of_nat j)). split; [|done].
    rewrite <-output_scan. by rewrite Nat2Z.id.
  - by intros n c _ ->%block_lookup.
  - intros n i c _ Hc. pose proof (block_lookup _ _ _ Hc) as ->. apply lookup_lt_Some in Hc.
    destruct (lookup_lt_is_Some_2 (blocks (initialize_ledger n : Chain)) i) as [c' Hc']; [lia|].
    pose proof (block_lookup _ _ _ Hc') as ->. exists (block i), (output i (Z.to_nat 0)), (seen_as i 0). split; [done|].
    split; [|split; [apply output_scan|done]]. cbn. apply list_elem_of_fmap_2, elem_of_seq. by destruct (decide _); unfold TX_RING_SIZE; lia.
Qed.

(** The thread turns for the first time before the third look. *)
Example wallet_test_runs :
  mini_wallet_properly_identifies_spendable_and_spent_txos (L:=Chain)
    (λ look, if decide (look = 2%nat) then 1%nat else 0%nat) "/tmp/dir" disk = Ok tt.
Proof. apply wallet_test_passes; [by exists 2%nat; split; [lia|vm_compute; lia]| |done]. split; [set_solver|done]. Qed.

(** A thread that never gets to run fails the test. *)
Example wallet_test_fails :
  is_panic (mini_wallet_properly_identifies_spendable_and_spent_txos (L:=Chain) (λ _, 0%nat) "/tmp/dir" disk) = true.
Proof. by vm_compute. Qed.
End WalletTestsExamples.
