(* ===== verification/TestCli.v ===== *)
(** The command line client (test-cli/src/bin/main.rs) against a server.

    The client makes the SCIs with the functions of mc-test-utils and calls
    the handlers of the client service through a channel that may be down.
    What it prints is the list of its lines. *)

From S2P Require Import Prelude McTypes QuoteApi QuotePricing QuoteBook InMemory SqlTypes Sqlite BookEquiv TestUtils Conformance ApiConvert ClientService ServiceRules Wallet WalletRun.

(** [libp2p::identity::Keypair] *)
Class Keypairs (K S : Type) := {
  generate_ed25519 : S → K * S;
  to_protobuf_encoding : K → outcome string bytes;
  from_protobuf_encoding : bytes → outcome string K;
  peer_id_of : K → string;
}.
Class KeypairsLaws (K S : Type) `{!Keypairs K S} : Prop :=
  keypair_roundtrip k data : to_protobuf_encoding k = Ok data → from_protobuf_encoding data = Ok k.

(** [enum Command] *)
Inductive Command :=
| GetQuotes (base_token_id counter_token_id : TokenId) (base_vol_min limit : Z)
| SubmitQuotes (num_quotes : Z) (base_token_id counter_token_id : TokenId) (base_amount counter_amount : Z)
    (allow_partial_fills : bool)
| GenP2pKeypair (out : string).

(** [struct Config], without the address of the server and of the ledger. *)
Record Config := { cli_rng_seed : option Z; cli_command : Command }.

(** What [println!] is given. *)
Inductive Line (A : Type) :=
| GotSuccessfulResponse
| GetQuotesResponse (quotes : list (ApiQuote A))
| SubmitResponse (resp : SubmitQuotesResponse A)
| EmptyLine
| QuoteLine (i : nat) (id : string)
| StatusLine (i : nat) (code : QuoteStatusCode)
| PeerIdLine (id : string).
Arguments GotSuccessfulResponse {A}.
Arguments GetQuotesResponse {A} quotes.
Arguments SubmitResponse {A} resp.
Arguments EmptyLine {A}.
Arguments QuoteLine {A} i id.
Arguments StatusLine {A} i code.
Arguments PeerIdLine {A} id.

(** The random generator, the ledger and the clock; the server; what was
    printed; the files. *)
Record CliWorld (A S OB : Type) := mk_world {
  cw_env : S;
  cw_service : ClientService OB;
  cw_out : list (Line A);
  cw_fs : FileSystem;
}.
Arguments mk_world {A S OB} _ _ _ _.
Arguments cw_env {A S OB} _.
Arguments cw_service {A S OB} _.
Arguments cw_out {A S OB} _.
Arguments cw_fs {A S OB} _.

(** The first eight bytes are the seed, big endian; without a seed all are
    random. *)
Definition seed_bytes (rng_seed : option Z) (random : bytes) : bytes :=
  match rng_seed with
  | Some seed => to_be_bytes 8 seed ++ replicate 24 0
  | None => random
  end.

Definition get_quotes_request (base_token_id counter_token_id : TokenId) (base_vol_min limit : Z) : GetQuotesRequest := {|
  gq_pair := Some {| ap_base_token_id := base_token_id; ap_counter_token_id := counter_token_id |};
  gq_base_range_min := base_vol_min;
  gq_base_range_max := U64_MAX;
  gq_limit := limit;
|}.

Section Cli.
Context `{McLib} {S Acc IC B A OB K : Type} `{!TestLib S Acc IC B, !SciApi A, !QuoteBook OB, !Keypairs K S}.
Local Abbreviation world := (CliWorld A S OB).
Local Abbreviation program := (stateful world string).

(** The server: its validator and the order in which it handles the quotes
    of a request; what is wrong with the channel to it, and with the ledger
    database; the random generator. *)
Variable validator : SignedContingentInput → outcome Error unit.
Variable schedule : nat → list nat.
Variables channel_error ledger_error : option string.
Variable seed_rng : bytes → S → S.
Variable thread_random : bytes.

Definition println (line : Line A) : program unit := λ w,
  (Ok tt, mk_world (cw_env w) (cw_service w) (cw_out w ++ [line]) (cw_fs w)).
(** What concerns the generator, the ledger and the server. *)
Definition with_server {X} (m : stateful (S * ClientService OB) string X) : program X := λ w,
  let '(r, (s, service)) := m (cw_env w, cw_service w) in (r, mk_world s service (cw_out w) (cw_fs w)).
Definition with_fs {X} (m : stateful FileSystem string X) : program X := λ w,
  let '(r, fs) := m (cw_fs w) in (r, mk_world (cw_env w) (cw_service w) (cw_out w) fs).
(** A call through the channel. *)
Definition through_channel {X} (m : stateful (S * ClientService OB) string X) : program X :=
  match channel_error with Some e => st_lift (Err e) | None => with_server m end.

Definition run_get_quotes (base_token_id counter_token_id : TokenId) (base_vol_min limit : Z) : program unit :=
  resp <-- expect_ok "get quotes failed"
    (through_channel (call_get_quotes (get_quotes_request base_token_id counter_token_id base_vol_min limit)));;
  println GotSuccessfulResponse;;;
  println (GetQuotesResponse resp).

Definition create_one (base_token_id counter_token_id : TokenId) (base_amount counter_amount : Z)
    (allow_partial_fills : bool) : stateful S string SignedContingentInput :=
  if allow_partial_fills
  then tu_create_partial_sci base_token_id counter_token_id base_amount 0 0 counter_amount true
  else tu_create_sci base_token_id counter_token_id base_amount counter_amount true.

(** The lines about the quotes of a response. *)
Fixpoint print_results (i : nat) (results : list (QuoteStatusCode * ApiQuote A)) : program unit :=
  match results with
  | [] => st_ret tt
  | (CREATED, quote) :: rest =>
      quote <-- expect_ok "invalid quote" (st_lift (quote_from_api quote));;
      println (QuoteLine i (quote_id_display (q_id quote)));;;
      print_results (Datatypes.S i) rest
  | (err, _) :: rest =>
      println (StatusLine i err);;;
      print_results (Datatypes.S i) rest
  end.

Definition submit_and_print (scis : list SignedContingentInput) : program unit :=
  resp <-- expect_ok "submit quote failed" (through_channel (call_submit_quotes validator schedule scis));;
  println (SubmitResponse resp);;;
  println EmptyLine;;;
  print_results 0 (zip (sr_status_codes resp) (sr_quotes resp)).

Definition run_submit_quotes (num_quotes : Z) (base_token_id counter_token_id : TokenId) (base_amount counter_amount : Z)
    (allow_partial_fills : bool) : program unit :=
  expect_ok "Could not open ledger db" (st_lift (match ledger_error with Some e => Err e | None => Ok tt end));;;
  scis <-- with_server (make_many (Z.to_nat num_quotes)
             (create_one base_token_id counter_token_id base_amount counter_amount allow_partial_fills));;
  submit_and_print scis.

Definition run_gen_p2p_keypair (out : string) : program unit :=
  keypair <-- with_server (make (from_fun generate_ed25519));;
  data <-- expect_ok "failed encoding to protobuf" (st_lift (to_protobuf_encoding (keypair : K)));;
  expect_ok "failed to write keypair" (with_fs (fs_write out data));;;
  println (PeerIdLine (peer_id_of keypair)).

Definition cli_main (config : Config) : program unit :=
  with_server (make (from_fun (λ s, (tt, seed_rng (seed_bytes (cli_rng_seed config) thread_random) s))));;;
  match cli_command config with
  | GetQuotes base_token_id counter_token_id base_vol_min limit =>
      run_get_quotes base_token_id counter_token_id base_vol_min limit
  | SubmitQuotes num_quotes base_token_id counter_token_id base_amount counter_amount allow_partial_fills =>
      run_submit_quotes num_quotes base_token_id counter_token_id base_amount counter_amount allow_partial_fills
  | GenP2pKeypair out => run_gen_p2p_keypair out
  end.
End Cli.

(** [main] of the server, which reads the file. *)
Definition read_keypair {K S} `{!Keypairs K S} (p2p_keypair_path : option string) (fs : FileSystem) :
    outcome string (option K) :=
  match p2p_keypair_path with
  | Some path => data ← fs_read path fs; k ← from_protobuf_encoding data; Ok (Some k)
  | None => Ok None
  end.

(** * The seed *)

Lemma seed_bytes_length seed random : length random = 32%nat → length (seed_bytes seed random) = 32%nat.
Proof. destruct seed; [|done]. intros _. cbn [seed_bytes]. by rewrite length_app, to_be_bytes_length, length_replicate. Qed.

(** Different seeds start the generator differently. *)
Lemma seed_bytes_inj seed seed' random : is_u64 seed → is_u64 seed' →
  seed_bytes (Some seed) random = seed_bytes (Some seed') random → seed = seed'.
Proof.
  intros Hs Hs' [E _]%app_inj_1; [|by rewrite !to_be_bytes_length].
  apply (f_equal from_be_bytes) in E. rewrite !from_to_be_bytes in E.
  by rewrite !Z.mod_small in E by done.
Qed.

(** * What the commands do *)

Section Commands.
Context `{McLib} `{!McLibLaws _, !TombstoneLaws _} {S Acc IC B A OB K : Type} `{!TestLib S Acc IC B, !TestLibLaws S Acc IC B}.
Context `{!SciApi A, !SciApiLaws A, !QuoteBook OB, !QuoteBookLaws OB, !TotalBook OB, !StoresTests OB, !Keypairs K S}.
Implicit Types (w : CliWorld A S OB) (p : Pair) (qs : list Quote).
Variable validator : SignedContingentInput → outcome Error unit.
Variable schedule : nat → list nat.

Lemma returns_println line w (Q : unit → CliWorld A S OB → Prop) :
  Q tt (mk_world (cw_env w) (cw_service w) (cw_out w ++ [line]) (cw_fs w)) → returns (println line) w Q.
Proof. intros HQ. by eexists _, _. Qed.

Definition quote_lines (i : nat) qs : list (Line A) := imap (λ k q, QuoteLine (i + k) (quote_id_display (q_id q))) qs.

Lemma print_created i qs w (Q : unit → CliWorld A S OB → Prop) :
  Forall (λ q, length (q_id q) = 32%nat) qs →
  Q tt (mk_world (cw_env w) (cw_service w) (cw_out w ++ quote_lines i qs) (cw_fs w)) →
  returns (print_results i (zip (replicate (length qs) CREATED) (quote_to_api <$> qs))) w Q.
Proof.
  intros Hids. revert i w. induction Hids as [|q qs Hq _ IH]; intros i w HQ; cbn.
  { apply returns_ret. unfold quote_lines in HQ. cbn in HQ. rewrite app_nil_r in HQ. by destruct w. }
  apply returns_bind, returns_expect, (returns_lift _ q); [by apply quote_from_to_api|].
  apply returns_bind, returns_println, IH. cbn. rewrite <-(assoc_L (++)). cbn.
  assert (quote_lines i (q :: qs) = QuoteLine i (quote_id_display (q_id q)) :: quote_lines (Datatypes.S i) qs) as E.
  { unfold quote_lines. cbn. rewrite Nat.add_0_r. f_equal. apply imap_ext. intros k x _. cbn. f_equal. lia. }
  by rewrite <-E.
Qed.

Lemma with_server_returns {X} (m : stateful (S * ClientService OB) string X) w (Q : X → CliWorld A S OB → Prop) :
  returns m (cw_env w, cw_service w) (λ x sv, Q x (mk_world sv.1 sv.2 (cw_out w) (cw_fs w))) → returns (with_server m) w Q.
Proof. intros (x & [s sv] & Hm & HQ). eexists _, _. unfold with_server. by rewrite Hm. Qed.

(** Submitting quotes from the command line.  With a server that is up,
    fewer than 30 quotes are all created: the client prints their ids in
    order, the book holds them in addition to what it held, all on the terms
    asked for, and they are announced on the bus in that order.  With 30 or
    more the server refuses the request: the client panics, and nothing of the
    server has changed. *)
Lemma cli_submit_quotes num p base counter partial w :
  is_u64 base → is_u64 counter → is_u64 (base_token_id p) → is_u64 (counter_token_id p) → 0 < base → 0 ≤ num →
  book_up (cs_quote_book (cw_service w)) →
  known (trace (cw_env w)) (contents (cs_quote_book (cw_service w))) → ticks 1 (trace (cw_env w)) →
  (∀ n, schedule n ≡ₚ seq 0 n) →
  (∀ sci, pseudo_output_amount sci = {| amt_value := base; amt_token_id := base_token_id p |} → validator sci = Ok tt) →
  let run := run_submit_quotes validator schedule None None num (base_token_id p) (counter_token_id p) base counter partial w in
  if num <? 30 then
    ∃ w' qs resp, run = (Ok tt, w') ∧ Z.of_nat (length qs) = num ∧
      cw_out w' = cw_out w ++ [SubmitResponse resp; EmptyLine] ++ quote_lines 0 qs ∧
      contents (cs_quote_book (cw_service w')) ≡ₚ qs ++ contents (cs_quote_book (cw_service w)) ∧
      cs_msg_bus (cw_service w') = cs_msg_bus (cw_service w) ++ (SciQuoteAdded <$> qs) ∧
      Forall (λ q, q_pair q = p ∧ max_base_tokens q = base ∧ q_max_counter_tokens q = counter) qs
  else ∃ w', run = (Panic "submit quote failed", w') ∧ cw_service w' = cw_service w ∧ cw_out w' = cw_out w.
Proof.
  intros Hb Hc Ht1 Ht2 Hpos Hnum Hup Hk Hleft Hsched Hv run.
  destruct (make_many_returns (Z.to_nat num) p (if partial then 0 else base, base) counter
              (create_one (base_token_id p) (counter_token_id p) base counter partial) (cw_env w, cw_service w))
    as (scis & [s1 sv1] & Hcr & Hlen & Hall & Hsv & Hns).
  { intros s. destruct partial; [by apply create_partial_returns|by apply create_full_returns]. }
  cbn in Hsv, Hns. subst sv1. pose proof Hns as [_ _ _ _ _ [Hl Hj]].
  destruct (system_time_ok s1 0 (ticks_same 1 _ _ Hl Hj Hleft)) as (ts & s2 & Hclock & Hts & _).
  assert (run = submit_and_print validator schedule None scis (mk_world s1 (cw_service w) (cw_out w) (cw_fs w))) as ->.
  { unfold run, run_submit_quotes, st_bind, with_server. cbn. by rewrite Hcr. }
  destruct (Z.ltb_spec num 30).
  - destruct (sold_quotes (OB:=OB) validator p _ counter scis ts Hall) as (qs & Hg & Hkeys & Hids & Hterms); [done..|].
    pose proof (Forall2_length _ _ _ Hg) as Hlq.
    destruct (submit_quotes_answers (A:=A) validator (schedule (length scis)) scis (Ok <$> qs) (cw_service w) ts)
      as (b' & Hsub & _ & Hcont); [by apply gives_becomes|by rewrite created_of; eapply sold_all_new|done|lia|done|done|].
    rewrite created_of, response_of_created in *.
    assert (returns (submit_and_print validator schedule None scis) (mk_world s1 (cw_service w) (cw_out w) (cw_fs w)) (λ _ w', ∃ resp,
      w' = mk_world s2 (mk_service (cs_msg_bus (cw_service w) ++ (SciQuoteAdded <$> qs)) b')
             (cw_out w ++ [SubmitResponse resp; EmptyLine] ++ quote_lines 0 qs) (cw_fs w))) as ([] & w' & Hr & resp & ->).
    { unfold submit_and_print. apply returns_bind, returns_expect, with_server_returns. eexists _, _.
      unfold call_submit_quotes. cbn [fst snd cw_env cw_service]. rewrite Hclock, length_fmap, Hsub. split; [done|].
      apply returns_bind, returns_println, returns_bind, returns_println, print_created.
      { eapply Forall_impl; [exact Hterms|]. by intros q (_ & _ & _ & ?). }
      eexists. cbn. by rewrite <-!(assoc_L (++)). }
    eexists _, qs, resp. split; [exact Hr|]. cbn. split; [lia|]. do 3 (split; [done|]).
    eapply Forall_impl; [exact Hterms|]. intros q (? & Hr2 & ? & _). unfold max_base_tokens. by rewrite Hr2.
  - unfold submit_and_print, st_bind, expect_ok, through_channel, with_server, call_submit_quotes. cbn [fst snd cw_env cw_service].
    rewrite Hclock, submit_too_many by (rewrite length_fmap; lia). eexists. split; [done|]. done.
Qed.

(** Asking for quotes from the command line: the best quotes of the pair, up to
    the limit, that can fill the minimum volume. *)
Lemma cli_get_quotes p base_vol_min limit w :
  book_up (cs_quote_book (cw_service w)) → 0 ≤ limit →
  (∀ q, q ∈ contents (cs_quote_book (cw_service w)) → (q_base_range q).1 ≤ U64_MAX) →
  ∃ l all, run_get_quotes None (base_token_id p) (counter_token_id p) base_vol_min limit w =
      (Ok tt, mk_world (cw_env w) (cw_service w)
                (cw_out w ++ [GotSuccessfulResponse; GetQuotesResponse (quote_to_api <$> l)]) (cw_fs w)) ∧
    StronglySorted (cmp_lt quote_cmp) all ∧
    all ≡ₚ filter (λ q, q_pair q = p ∧ base_vol_min ≤ max_base_tokens q) (contents (cs_quote_book (cw_service w))) ∧
    l = if limit =? 0 then all else take (Z.to_nat limit) all.
Proof.
  intros Hup Hlim Hr. set (range := (Included base_vol_min, Included U64_MAX)).
  destruct (up_get_quotes p range limit _ Hup) as [l Hl].
  pose proof (get_quotes_ok p range limit _ l (up_inv _ Hup) Hlim Hl) as (all & Hs & Hp & E).
  exists l, all. split; [|split; [done|split; [|done]]].
  - unfold run_get_quotes, st_bind, expect_ok, through_channel, with_server, call_get_quotes, get_quotes_impl.
    cbn [gq_pair get_quotes_request].
    cbn -[qb_get_quotes]. rewrite andb_false_r.
    destruct p as [pb pc]. unfold pair_from_api. cbn [ap_base_token_id ap_counter_token_id base_token_id counter_token_id].
    fold range. rewrite Hl. unfold println. cbn. by rewrite <-(assoc_L (++)).
  - rewrite Hp. erewrite list_filter_ext; [done|]. intros q Hq. unfold overlaps, range. cbn.
    rewrite andb_true_iff, !Z.leb_le. specialize (Hr q Hq). unfold max_base_tokens. tauto.
Qed.

(** A key pair the client wrote is the one the server reads. *)
Lemma cli_keypair `{!KeypairsLaws K S} out w w' :
  healthy out (cw_fs w) → run_gen_p2p_keypair (K:=K) out w = (Ok tt, w') →
  ∃ k, read_keypair (S:=S) (Some out) (cw_fs w') = Ok (Some k) ∧ cw_out w' = cw_out w ++ [PeerIdLine (peer_id_of k)].
Proof.
  intros (_ & Hread & Hwrite). unfold run_gen_p2p_keypair, st_bind, with_server, make, from_fun, expect_ok, st_lift. cbn [fst snd].
  destruct (generate_ed25519 (cw_env w)) as [k s]. destruct (to_protobuf_encoding k) as [data|e|q] eqn:Henc; [|done..].
  unfold with_fs, fs_write. cbn. rewrite Hwrite. cbn. intros [= <-]. exists k. split; [|done].
  unfold read_keypair, fs_read. cbn. rewrite Hread, lookup_insert_eq. cbn. by rewrite (keypair_roundtrip _ _ Henc).
Qed.
End Commands.

(** * The commands on examples *)

Module TestCliExamples.
Import SampleCodec SampleDb BookEquivExamples ConformanceExamples ApiConvertExamples.

Definition cli_start : CliWorld (list Z) Outside (SqliteQuoteBook Db InMemoryQuoteBook) :=
  mk_world (outside_at_start 10) (mk_service [] new_world.2) [] (Build_FileSystem ∅ ∅ ∅ ∅).
Definition in_reverse (n : nat) : list nat := reverse (seq 0 n).

(** Three quotes of 100 for 1000, handled last to first by a server with a
    minimum of 50. *)
Definition submit_run (num : Z) :=
  run_submit_quotes (sci_validator {[ 1 := 50 ]}) in_reverse None None num 1 2 100 1000 false cli_start.

Lemma minimum_passes sci :
  pseudo_output_amount sci = {| amt_value := 100; amt_token_id := base_token_id test_pair |} →
  sci_validator {[ 1 := 50 ]} sci = Ok tt.
Proof. intros E. unfold sci_validator. by rewrite E. Qed.

Lemma cli_submit_quotes_witness :
  (∃ w' qs resp, submit_run 3 = (Ok tt, w') ∧ Z.of_nat (length qs) = 3 ∧
     cw_out w' = [] ++ [SubmitResponse resp; EmptyLine] ++ quote_lines 0 qs ∧
     contents (cs_quote_book (cw_service w')) ≡ₚ qs ++ contents (cs_quote_book (cw_service cli_start)) ∧
     cs_msg_bus (cw_service w') = [] ++ (SciQuoteAdded <$> qs) ∧
     Forall (λ q, q_pair q = test_pair ∧ max_base_tokens q = 100 ∧ q_max_counter_tokens q = 1000) qs) ∧
  ∃ w', submit_run 30 = (Panic "submit quote failed", w') ∧ cw_service w' = cw_service cli_start ∧ cw_out w' = [].
Proof.
  assert (known (trace (cw_env cli_start)) (contents (cs_quote_book (cw_service cli_start)))) as Hk
    by (by intros x ?%elem_of_nil).
  assert (∀ n, in_reverse n ≡ₚ seq 0 n) as Hrev by (intros n; apply reverse_Permutation).
  split.
  - exact (cli_submit_quotes (sci_validator {[ 1 := 50 ]}) in_reverse 3 test_pair 100 1000 false cli_start
             ltac:(done) ltac:(done) ltac:(done) ltac:(done) ltac:(done) ltac:(done) new_world_up Hk
             ltac:(by vm_compute) Hrev minimum_passes).
  - exact (cli_submit_quotes (sci_validator {[ 1 := 50 ]}) in_reverse 30 test_pair 100 1000 false cli_start
             ltac:(done) ltac:(done) ltac:(done) ltac:(done) ltac:(done) ltac:(done) new_world_up Hk
             ltac:(by vm_compute) Hrev minimum_passes).
Defined.

(** Submitted and asked for, the best rate first. *)
Example submitted_then_listed :
  let submit base := run_submit_quotes (sci_validator ∅) in_reverse None None 1 1 2 base 1000 true in
  let '(r, w) := (submit 100;;; submit 300;;; submit 200;;; run_get_quotes None 1 2 150 10) cli_start in
  (r, (λ l, match l with GetQuotesResponse qs => aq_base_range_max <$> qs | _ => [] end) <$> last (cw_out w)) =
  (Ok tt, Some [300; 200]).
Proof. by vm_compute. Qed.
End TestCliExamples.
