(* ===== verification/LiquidityBot.v ===== *)
(** The liquidity bot (liquidity-bot/src/lib.rs, error.rs): offers the outputs
    of its wallet on a DEQS server as SCIs at configured rates.

    The state of the task holds the two lists of the source.  What the task
    talks to is part of the state too: the DEQS behind the client, the thread's
    random number generator and the number of times the clock was read.  The
    ledger, the decimal numbers and the SCI builder are parameters. *)

From S2P Require Import Prelude McTypes QuoteApi QuotePricing QuoteBook InMemory SqlTypes Sqlite Synchronized ApiConvert ClientService Wallet.

(** In milliseconds. *)
Definition QUOTE_REFRESH_INTERVAL : Z := 600 * 1000.
Definition RING_SIZE : nat := 11.

(** * error.rs *)

(** [grpcio::Error]: a status from the server, or a failure of the channel. *)
Inductive GrpcError := RpcFailure (status : RpcStatus) | ChannelFailure (msg : string).

(** The errors of the transaction builders. *)
Inductive BuilderError := TxBuilder (msg : string) | SciBuilder (msg : string).

Inductive BotError :=
| LedgerDb (e : LedgerError)
| TxBuilderErr (msg : string)
| SignedContingentInputBuilderErr (msg : string)
| AmountErr (msg : string)
| TxOutConversion (msg : string)
| Key (msg : string)
| IO (msg : string)
| Json (msg : string)
| Grpc (e : GrpcError)
| InvalidGrpcResponse (msg : string)
| ApiConversion (msg : string)
| UnknownTokenId (token_id : TokenId)
| DecimalConversion (msg : string)
| Deserialize (msg : string)
| Serialize (msg : string)
| Prometheus (msg : string)
| RevealedTxOutFailure (e : RevealedTxOutError).

(** [impl From<TxBuilderError>] and [From<SignedContingentInputBuilderError>] *)
Definition from_builder_error (e : BuilderError) : BotError :=
  match e with
  | TxBuilder msg => TxBuilderErr msg
  | SciBuilder msg => SignedContingentInputBuilderErr msg
  end.

(** How an operation of the task ends without a result: with an error, or not
    at all when its loop does not end within the given number of rounds. *)
Inductive BotStop := Failed (e : BotError) | Hangs.

(** * What the bot calls *)

(** [rust_decimal::Decimal]; a product out of range panics. *)
Class Decimal (D : Type) := {
  decimal_from_u64 : Z → D;
  decimal_mul : D → D → outcome BotStop D;
  decimal_ceil : D → D;
  decimal_to_u64 : D → option Z;
  decimal_display : D → string;
}.

(** The calls of the ledger database the wallet and the book do not make. *)
Class LedgerTxOuts (L P : Type) := {
  num_txos : L → outcome LedgerError Z;
  get_tx_out_index_by_public_key : bytes → L → outcome LedgerError Z;
  get_tx_out_proof_of_memberships : list Z → L → outcome LedgerError (list P);
}.

(** The random number generator, and the SCI builder of the bot's account. *)
Class SciBuilding (R P IC B : Type) := {
  (** [rng.gen_range(0..n)], for a positive [n] *)
  gen_range : Z → R → Z * R;
  (** [InputCredentials::new(ring, proofs, real_index, subaddress, view key)] *)
  input_credentials_new : list TxOut → list P → Z → Z → outcome BuilderError IC;
  sci_builder_new : IC → outcome BuilderError B;
  add_partial_fill_output : Amount → B → stateful R BuilderError B;
  add_partial_fill_change_output : Amount → B → stateful R BuilderError B;
  sci_build : B → stateful R BuilderError SignedContingentInput;
}.

(** The client of the DEQS and the service behind it. *)
Class DeqsClient (A W : Type) := {
  submit_quotes_async : list A → stateful W GrpcError (SubmitQuotesResponse A);
}.

(** The histograms of the prometheus crate: [with_label_values] of a vector
    made with these buckets, which makes the histogram of a new label.  The
    buckets are in tenths. *)
Class HistogramVecs := {
  with_label_values : list Z → string → outcome BotStop unit;
}.

(** * The data of lib.rs *)

Record PendingTxOut := { p_matched_tx_out : MatchedTxOut; p_sci : SignedContingentInput }.

Record ListedTxOut := {
  l_matched_tx_out : MatchedTxOut;
  l_quote : Quote;
  l_last_submitted_at : Z;
}.

Record FulfilledSci := {
  fs_listed_tx_out : ListedTxOut;
  fs_requested_counter_output : RevealedTxOut;
  fs_received_counter_output : MatchedTxOut;
  fs_received_base_change_output : option MatchedTxOut;
}.

#[export] Instance PendingTxOut_eq_dec : EqDecision PendingTxOut.
Proof. solve_decision. Defined.
#[export] Instance ListedTxOut_eq_dec : EqDecision ListedTxOut.
Proof. solve_decision. Defined.
#[export] Instance FulfilledSci_eq_dec : EqDecision FulfilledSci.
Proof. solve_decision. Defined.

Record Stats := {
  num_pending_tx_outs_by_token_id : gmap TokenId Z;
  total_pending_tx_outs_value_by_token_id : gmap TokenId Z;
  num_listed_tx_outs_by_token_id : gmap TokenId Z;
  total_listed_tx_outs_value_by_token_id : gmap TokenId Z;
}.

(** [enum Command]; the sender of a reply is the caller's. *)
Inductive Command :=
| CmdWalletEvent (event : WalletEvent)
| GetStats
| GetPendingTxOuts
| GetListedTxOuts.

Inductive Reply :=
| StatsReply (stats : Stats)
| PendingReply (tx_outs : list PendingTxOut)
| ListedReply (tx_outs : list ListedTxOut).

Record LiquidityBotTask (R W : Type) := mk_task {
  pending_tx_outs : list PendingTxOut;
  listed_tx_outs : list ListedTxOut;
  task_rng : R;
  task_clock : nat;
  task_deqs : W;
}.
Arguments mk_task {R W} _ _ _ _ _.
Arguments pending_tx_outs {R W} _.
Arguments listed_tx_outs {R W} _.
Arguments task_rng {R W} _.
Arguments task_clock {R W} _.
Arguments task_deqs {R W} _.

Definition set_pending {R W} (l : list PendingTxOut) (s : LiquidityBotTask R W) : LiquidityBotTask R W :=
  mk_task l (listed_tx_outs s) (task_rng s) (task_clock s) (task_deqs s).
Definition set_listed {R W} (l : list ListedTxOut) (s : LiquidityBotTask R W) : LiquidityBotTask R W :=
  mk_task (pending_tx_outs s) l (task_rng s) (task_clock s) (task_deqs s).

Definition key_image_of_pending (p : PendingTxOut) : KeyImage := mt_key_image (p_matched_tx_out p).
Definition key_image_of_listed (l : ListedTxOut) : KeyImage := mt_key_image (l_matched_tx_out l).

(** * Statistics *)

(** [*map.entry(token_id).or_default() += value] *)
Definition entry_add (token_id : TokenId) (value : Z) (m : gmap TokenId Z) : gmap TokenId Z :=
  <[token_id := u64_add (default 0 (m !! token_id)) value]> m.
(** [map.entry(token_id).or_default()] *)
Definition entry_default (token_id : TokenId) (m : gmap TokenId Z) : gmap TokenId Z :=
  <[token_id := default 0 (m !! token_id)]> m.

(** The loop over one of the lists: the counts and the values. *)
Definition stats_of (amounts : list Amount) : gmap TokenId Z * gmap TokenId Z :=
  fold_left (λ '(num, total) amount,
    (entry_add (amt_token_id amount) 1 num, entry_add (amt_token_id amount) (amt_value amount) total))
    amounts (∅, ∅).

Definition with_known_tokens (tokens : list TokenId) (m : gmap TokenId Z) : gmap TokenId Z :=
  fold_left (λ m token_id, entry_default token_id m) tokens m.

(** [impl From<&LiquidityBotTask> for Stats]; [tokens] are the keys of the
    pairs. *)
Definition stats_from {R W} (tokens : list TokenId) (task : LiquidityBotTask R W) : Stats :=
  let '(num_pending, total_pending) := stats_of ((λ p, mt_amount (p_matched_tx_out p)) <$> pending_tx_outs task) in
  let '(num_listed, total_listed) := stats_of ((λ l, mt_amount (l_matched_tx_out l)) <$> listed_tx_outs task) in
  {| num_pending_tx_outs_by_token_id := with_known_tokens tokens num_pending;
     total_pending_tx_outs_value_by_token_id := with_known_tokens tokens total_pending;
     num_listed_tx_outs_by_token_id := with_known_tokens tokens num_listed;
     total_listed_tx_outs_value_by_token_id := with_known_tokens tokens total_listed |}.

(** * Submitting *)

(** [sanity_check_submit_quotes_response] *)
Definition mismatch (what : string) (expected got : nat) : BotStop :=
  Failed (InvalidGrpcResponse
    ("Number of " +:+ what +:+ " in response does not match number of quotes in request. Expected "
       +:+ pretty expected +:+ ", got " +:+ pretty got +:+ ".")).

Definition sanity_check_submit_quotes_response {A} (resp : SubmitQuotesResponse A) (expected_len : nat) :
    outcome BotStop unit :=
  if negb (length (sr_status_codes resp) =? expected_len)%nat then
    Err (mismatch "status codes" expected_len (length (sr_status_codes resp)))
  else if negb (length (sr_error_messages resp) =? expected_len)%nat then
    Err (mismatch "error messages" expected_len (length (sr_error_messages resp)))
  else if negb (length (sr_quotes resp) =? expected_len)%nat then
    Err (mismatch "quotes" expected_len (length (sr_quotes resp)))
  else Ok tt.

(** The errors logged by the event loop of the task end there. *)
Definition log_error {S T} (m : stateful S BotStop T) : stateful S BotStop (option T) := λ s,
  match m s with
  | (Ok x, s) => (Ok (Some x), s)
  | (Err (Failed _), s) => (Ok None, s)
  | (Err Hangs, s) => (Err Hangs, s)
  | (Panic p, s) => (Panic p, s)
  end.

Section Submit.
Context {A R W : Type} `{!SciApi A, !DeqsClient A W}.
(** The system time at each reading, in milliseconds since the epoch; [None]
    when it is before the epoch. *)
Variable clock : nat → option Z.
Abbreviation task := (LiquidityBotTask R W).

Definition now_since_epoch : stateful task BotStop Z := λ s,
  (match clock (task_clock s) with
   | Some millis => Ok (wrap64 millis)
   | None => Panic "System time is before UNIX_EPOCH"
   end,
   mk_task (pending_tx_outs s) (listed_tx_outs s) (task_rng s) (S (task_clock s)) (task_deqs s)).

(** [LiquidityBotTask::submit_quotes] *)
Definition submit_quotes (req : list A) : stateful task BotStop (SubmitQuotesResponse A) := λ s,
  let '(r, w) := submit_quotes_async req (task_deqs s) in
  (map_err (λ e, Failed (Grpc e)) r,
   mk_task (pending_tx_outs s) (listed_tx_outs s) (task_rng s) (task_clock s) w).

Definition push_listed (l : ListedTxOut) : stateful task BotStop unit := λ s,
  (Ok tt, set_listed (listed_tx_outs s ++ [l]) s).

Definition quote_try_from (quote : ApiQuote A) : outcome BotStop Quote :=
  map_err (λ e, Failed (ApiConversion e)) (quote_from_api quote).

(** The loop of [submit_pending_tx_outs] over the drained list and the
    response. *)
Fixpoint settle_pending (entries : list (PendingTxOut * QuoteStatusCode * string * ApiQuote A)) :
    stateful task BotStop unit :=
  match entries with
  | [] => st_ret tt
  | (pending_tx_out, status_code, error_msg, quote) :: rest =>
      match status_code with
      | CREATED | QUOTE_ALREADY_EXISTS =>
          quote <-- st_lift (quote_try_from quote) ;;
          st_lift (if bool_decide (q_sci quote = p_sci pending_tx_out) then Ok tt
                   else rust_assert (bool_decide (status_code = QUOTE_ALREADY_EXISTS))
                          "status_code == QUOTE_ALREADY_EXISTS") ;;;
          now <-- now_since_epoch ;;
          push_listed {| l_matched_tx_out := p_matched_tx_out pending_tx_out;
                         l_quote := quote; l_last_submitted_at := now |} ;;;
          settle_pending rest
      | _ => settle_pending rest
      end
  end.

(** [drain(..)] empties the list whether or not the loop gets to its end. *)
Definition drain_pending : stateful task BotStop (list PendingTxOut) := λ s,
  (Ok (pending_tx_outs s), set_pending [] s).

Definition submit_pending_tx_outs : stateful task BotStop unit := λ s,
  match pending_tx_outs s with
  | [] => (Ok tt, s)
  | _ =>
      let req := (λ p, sci_to_api (p_sci p)) <$> pending_tx_outs s in
      (resp <-- submit_quotes req ;;
       st_lift (sanity_check_submit_quotes_response resp (length req)) ;;;
       pending <-- drain_pending ;;
       settle_pending (zip (zip (zip pending (sr_status_codes resp)) (sr_error_messages resp)) (sr_quotes resp))) s
  end.

(** The loop of [resubmit_listed_tx_outs]. *)
Fixpoint settle_listed (entries : list (ListedTxOut * QuoteStatusCode * string * ApiQuote A)) :
    stateful task BotStop unit :=
  match entries with
  | [] => st_ret tt
  | (listed_tx_out, status_code, error_msg, quote) :: rest =>
      match status_code with
      | CREATED =>
          quote <-- st_lift (quote_try_from quote) ;;
          st_lift (rust_assert (bool_decide (q_sci quote = q_sci (l_quote listed_tx_out)))
                     "quote.sci() == listed_tx_out.quote.sci()") ;;;
          now <-- now_since_epoch ;;
          push_listed {| l_matched_tx_out := l_matched_tx_out listed_tx_out;
                         l_quote := quote; l_last_submitted_at := now |} ;;;
          settle_listed rest
      | QUOTE_ALREADY_EXISTS =>
          quote <-- st_lift (quote_try_from quote) ;;
          let quote := if bool_decide (quote = l_quote listed_tx_out) then l_quote listed_tx_out else quote in
          now <-- now_since_epoch ;;
          push_listed {| l_matched_tx_out := l_matched_tx_out listed_tx_out;
                         l_quote := quote; l_last_submitted_at := now |} ;;;
          settle_listed rest
      | _ => settle_listed rest
      end
  end.

(** The test of the partition. *)
Definition needs_resubmit (current_time older_than : Z) (listed_tx_out : ListedTxOut) : bool :=
  wrap64 older_than <? default 0 (checked_sub current_time (l_last_submitted_at listed_tx_out)).

(** [older_than] is in milliseconds. *)
Definition resubmit_listed_tx_outs (older_than : Z) : stateful task BotStop unit :=
  current_time <-- now_since_epoch ;;
  λ s,
    let '(to_resubmit, to_keep) := drain_filter (needs_resubmit current_time older_than) (listed_tx_outs s) in
    let s := set_listed to_keep s in
    match to_resubmit with
    | [] => (Ok tt, s)
    | _ =>
        let req := (λ l, sci_to_api (q_sci (l_quote l))) <$> to_resubmit in
        match submit_quotes req s with
        | (Ok resp, s) =>
            (st_lift (sanity_check_submit_quotes_response resp (length req)) ;;;
             settle_listed (zip (zip (zip to_resubmit (sr_status_codes resp)) (sr_error_messages resp))
                              (sr_quotes resp))) s
        | (Err err, s) => (Err err, set_listed (listed_tx_outs s ++ to_resubmit) s)
        | (Panic p, s) => (Panic p, s)
        end
    end.
End Submit.

(** * Spent outputs *)

(** [position] and [remove] for each of the spent outputs. *)
Fixpoint unlist_loop (spent_tx_outs : list MatchedTxOut) (listed : list ListedTxOut) :
    list ListedTxOut * list ListedTxOut :=
  match spent_tx_outs with
  | [] => ([], listed)
  | mtxo :: rest =>
      match list_find (λ ltxo, key_image_of_listed ltxo = mt_key_image mtxo) listed with
      | Some (idx, ltxo) =>
          let '(removed, listed) := unlist_loop rest (delete idx listed) in (ltxo :: removed, listed)
      | None => unlist_loop rest listed
      end
  end.

Definition unlist_spent_tx_outs {R W} (spent_tx_outs : list MatchedTxOut) :
    stateful (LiquidityBotTask R W) BotStop (list ListedTxOut) := λ s,
  let '(removed, listed) := unlist_loop spent_tx_outs (listed_tx_outs s) in
  (Ok removed, set_listed listed s).

Section Fulfilled.
Context `{McLib}.

(** [FulfilledSci::fill_percents]: the two numbers whose quotient it is. *)
Definition fill_percents (f : FulfilledSci) : outcome BotStop (Z * Z) :=
  '(requested, _) ← map_err (λ e, Failed (RevealedTxOutFailure e)) (reveal_amount (fs_requested_counter_output f));
  Ok (amt_value (mt_amount (fs_received_counter_output f)), amt_value requested).

(** [received_tx_outs.iter().find(..)] by public key *)
Definition find_received (received_tx_outs : list MatchedTxOut) (t : TxOut) : option MatchedTxOut :=
  snd <$> list_find (λ mtxo, txo_public_key (mt_tx_out mtxo) = txo_public_key t) received_tx_outs.

Fixpoint look_for_fulfilled_scis (spent_listed_tx_outs : list ListedTxOut) (received_tx_outs : list MatchedTxOut) :
    outcome BotStop (list FulfilledSci) :=
  match spent_listed_tx_outs with
  | [] => Ok []
  | listed_tx_out :: rest =>
      let rules := input_rules (tx_in (q_sci (l_quote listed_tx_out))) in
      match default [] (partial_fill_outputs <$> rules) with
      | [partial_fill_output] =>
          let received_counter_output := find_received received_tx_outs (rto_tx_out partial_fill_output) in
          let received_base_change_output :=
            txo ← rules ≫= partial_fill_change; find_received received_tx_outs (rto_tx_out txo) in
          match received_counter_output with
          | Some received_counter_output =>
              let fulfilled_sci := {| fs_listed_tx_out := listed_tx_out;
                                      fs_requested_counter_output := partial_fill_output;
                                      fs_received_counter_output := received_counter_output;
                                      fs_received_base_change_output := received_base_change_output |} in
              _ ← fill_percents fulfilled_sci;
              l ← look_for_fulfilled_scis rest received_tx_outs;
              Ok (fulfilled_sci :: l)
          | None => look_for_fulfilled_scis rest received_tx_outs
          end
      | _ => look_for_fulfilled_scis rest received_tx_outs
      end
  end.

(** metrics.rs: the buckets of the histogram of fulfilled SCIs, and
    [update_metrics_from_fulfilled_sci] as far as it can end the caller. *)
Definition FULFILLED_SCI_BUCKETS : list Z := [0; 1; 2; 3; 4; 5; 6; 7; 8; 8; 9].
Definition observe_fulfilled `{HistogramVecs} (fulfilled_sci : FulfilledSci) : outcome BotStop unit :=
  match fill_percents fulfilled_sci with
  | Ok _ => with_label_values FULFILLED_SCI_BUCKETS (pretty (base_token_id (q_pair (l_quote (fs_listed_tx_out fulfilled_sci)))))
  | Err _ => Ok tt
  | Panic p => Panic p
  end.
(** The loop over the fulfilled SCIs. *)
Fixpoint observe_all `{HistogramVecs} (fulfilled_scis : list FulfilledSci) : outcome BotStop unit :=
  match fulfilled_scis with
  | [] => Ok tt
  | fulfilled_sci :: rest => _ ← observe_fulfilled fulfilled_sci; observe_all rest
  end.
End Fulfilled.

(** * New outputs *)

Section Create.
Context {D R P IC B L : Type} `{!Decimal D, !Ledger L, !LedgerTxOuts L P, !SciBuilding R P IC B, !HashIter Z unit}.
(** The rounds the sampling loop is given. *)
Variable fuel : nat.

(** [while sampled_indices.len() < RING_SIZE]; the range [0..0] panics. *)
Fixpoint sample_indices (fuel : nat) (num_txos : Z) (sampled_indices : gmap Z unit) :
    stateful R BotStop (gmap Z unit) := λ rng,
  if (RING_SIZE <=? size sampled_indices)%nat then (Ok sampled_indices, rng) else
  match fuel with
  | O => (Err Hangs, rng)
  | S fuel =>
      if num_txos =? 0 then (Panic "cannot sample empty range", rng)
      else let '(index, rng) := gen_range num_txos rng in
           sample_indices fuel num_txos (<[index := tt]> sampled_indices) rng
  end.

Definition ledger_call {T} (m : outcome LedgerError T) : stateful R BotStop T :=
  st_lift (map_err (λ e, Failed (LedgerDb e)) m).
Definition builder_call {T} (m : stateful R BuilderError T) : stateful R BotStop T := λ rng,
  let '(r, rng) := m rng in (map_err (λ e, Failed (from_builder_error e)) r, rng).

(** The counter amount of an output at a rate. *)
Definition counter_amount_at (value : Z) (swap_rate : D) : outcome BotStop Z :=
  product ← decimal_mul (decimal_from_u64 value) swap_rate;
  ok_or (decimal_to_u64 (decimal_ceil product))
    (Failed (DecimalConversion
       ("Could not convert " +:+ pretty value +:+ " times " +:+ decimal_display swap_rate +:+ " to u64"))).

(** The ring: eleven sampled indices, the first replaced by our own. *)
Definition ring_indices (ledger_db : L) (public_key : bytes) : stateful R BotStop (list Z) :=
  num <-- ledger_call (num_txos ledger_db) ;;
  sampled_indices <-- sample_indices fuel num ∅ ;;
  our_tx_out_index <-- ledger_call (get_tx_out_index_by_public_key public_key ledger_db) ;;
  match (hash_entries sampled_indices).*1 with
  | [] => st_lift (Panic "index out of bounds")
  | _ :: rest => st_ret (our_tx_out_index :: rest)
  end.

Definition create_pending_tx_out (pairs : gmap TokenId (TokenId * D)) (ledger_db : L)
    (matched_tx_out : MatchedTxOut) : stateful R BotStop PendingTxOut :=
  let amount := mt_amount matched_tx_out in
  pair <-- st_lift (ok_or (pairs !! amt_token_id amount) (Failed (UnknownTokenId (amt_token_id amount)))) ;;
  let '(counter_token_id, swap_rate) := pair in
  counter_amount <-- st_lift (counter_amount_at (amt_value amount) swap_rate) ;;
  sampled_indices_vec <-- ring_indices ledger_db (txo_public_key (mt_tx_out matched_tx_out)) ;;
  tx_outs <-- ledger_call (collect_results (λ idx, get_tx_out_by_index idx ledger_db) sampled_indices_vec) ;;
  proofs <-- ledger_call (get_tx_out_proof_of_memberships sampled_indices_vec ledger_db) ;;
  input_credentials <-- builder_call (st_lift
    (input_credentials_new tx_outs proofs 0 (mt_subaddress_index matched_tx_out))) ;;
  builder <-- builder_call (st_lift (sci_builder_new input_credentials)) ;;
  builder <-- builder_call (add_partial_fill_output
    {| amt_value := counter_amount; amt_token_id := counter_token_id |} builder) ;;
  builder <-- builder_call (add_partial_fill_change_output amount builder) ;;
  sci <-- builder_call (sci_build builder) ;;
  st_ret {| p_matched_tx_out := matched_tx_out; p_sci := sci |}.
End Create.

(** * The task *)

Section Task.
Context `{McLib, HistogramVecs} {A D R W P IC B L : Type}.
Context `{!SciApi A, !DeqsClient A W, !Decimal D, !Ledger L, !LedgerTxOuts L P, !SciBuilding R P IC B, !HashIter Z unit}.
Variable clock : nat → option Z.
Variable fuel : nat.
Variable pairs : gmap TokenId (TokenId * D).
Abbreviation task := (LiquidityBotTask R W).

Definition with_rng {T} (m : stateful R BotStop T) : stateful task BotStop T := λ s,
  let '(r, rng) := m (task_rng s) in
  (r, mk_task (pending_tx_outs s) (listed_tx_outs s) rng (task_clock s) (task_deqs s)).

Definition push_pending (p : PendingTxOut) : stateful task BotStop unit := λ s,
  (Ok tt, set_pending (pending_tx_outs s ++ [p]) s).

(** [update_pending_tx_outs_from_received_tx_outs], from a value of [added]. *)
Fixpoint update_pending_loop (ledger_db : L) (matched_tx_outs : list MatchedTxOut) (added : bool) :
    stateful task BotStop bool := λ s,
  match matched_tx_outs with
  | [] => (Ok added, s)
  | matched_tx_out :: rest =>
      if bool_decide (pairs !! amt_token_id (mt_amount matched_tx_out) = None) then
        update_pending_loop ledger_db rest added s
      else if bool_decide (mt_key_image matched_tx_out ∈ key_image_of_pending <$> pending_tx_outs s) then
        update_pending_loop ledger_db rest added s
      else if bool_decide (mt_key_image matched_tx_out ∈ key_image_of_listed <$> listed_tx_outs s) then
        update_pending_loop ledger_db rest added s
      else
        (tracked_tx_out <-- with_rng (create_pending_tx_out fuel pairs ledger_db matched_tx_out) ;;
         push_pending tracked_tx_out ;;;
         update_pending_loop ledger_db rest true) s
  end.
Definition update_pending_tx_outs_from_received_tx_outs (ledger_db : L) (matched_tx_outs : list MatchedTxOut) :
    stateful task BotStop bool := update_pending_loop ledger_db matched_tx_outs false.

(** The arm of the event loop for a block. *)
Definition on_wallet_event (ledger_db : L) (event : WalletEvent) : stateful task BotStop unit :=
  match event with
  | BlockProcessed _ received_tx_outs spent_tx_outs =>
      spent_listed_tx_outs <-- unlist_spent_tx_outs spent_tx_outs ;;
      fulfilled_scis <-- log_error (st_lift (look_for_fulfilled_scis spent_listed_tx_outs received_tx_outs)) ;;
      st_lift (observe_all (default [] fulfilled_scis)) ;;;
      added <-- log_error (update_pending_tx_outs_from_received_tx_outs ledger_db received_tx_outs) ;;
      match added with
      | Some true => log_error (submit_pending_tx_outs clock) ;;; st_ret tt
      | _ => st_ret tt
      end
  end.

(** The arm for the timer. *)
Definition on_tick : stateful task BotStop unit :=
  log_error (resubmit_listed_tx_outs clock QUOTE_REFRESH_INTERVAL) ;;;
  log_error (submit_pending_tx_outs clock) ;;;
  st_ret tt.

(** [tx.send(..).expect("channel should be open")] *)
Definition send_reply (open : bool) (reply : Reply) : outcome BotStop (option Reply) :=
  if open then Ok (Some reply) else Panic "channel should be open".

(** What the [select!] of [run] receives: a command, with whether the caller
    still waits for the reply and with the ledger at that time, or the end of
    the commands; a tick of the timer; a request to shut down. *)
Inductive TaskEvent :=
| ReceivedCommand (command : Command) (open : bool) (ledger_db : L)
| CommandsClosed
| Tick
| ShutdownRequested.

(** One round of the loop: whether it goes on, and the reply it sent. *)
Definition run_step (event : TaskEvent) : stateful task BotStop (bool * option Reply) :=
  match event with
  | ReceivedCommand (CmdWalletEvent event) _ ledger_db =>
      on_wallet_event ledger_db event ;;; st_ret (true, None)
  | ReceivedCommand GetStats open _ => λ s,
      (r ← send_reply open (StatsReply (stats_from (map_to_list pairs).*1 s)); Ok (true, r), s)
  | ReceivedCommand GetPendingTxOuts open _ => λ s,
      (r ← send_reply open (PendingReply (pending_tx_outs s)); Ok (true, r), s)
  | ReceivedCommand GetListedTxOuts open _ => λ s,
      (r ← send_reply open (ListedReply (listed_tx_outs s)); Ok (true, r), s)
  | CommandsClosed => st_ret (false, None)
  | Tick => on_tick ;;; st_ret (true, None)
  | ShutdownRequested => st_ret (false, None)
  end.

(** [LiquidityBotTask::run] on a sequence of events: the replies. *)
Fixpoint bot_run (events : list TaskEvent) : stateful task BotStop (list Reply) :=
  match events with
  | [] => st_ret []
  | event :: rest =>
      r <-- run_step event ;;
      let '(continue, reply) := r in
      if continue : bool then
        replies <-- bot_run rest ;; st_ret (option_list reply ++ replies)
      else st_ret (option_list reply)
  end.

(** [LiquidityBot::new] *)
Definition bot_new (rng : R) (deqs : W) : task := mk_task [] [] rng 0 deqs.
End Task.

(** * What the bot tracks *)

Section Tracked.
Context {R W : Type}.
Implicit Types s : LiquidityBotTask R W.

Definition tracked_tx_outs s : list MatchedTxOut :=
  (p_matched_tx_out <$> pending_tx_outs s) ++ (l_matched_tx_out <$> listed_tx_outs s).

(** No output is tracked twice, and all are of a token with a pair. *)
Definition bot_inv {D} (pairs : gmap TokenId (TokenId * D)) s : Prop :=
  NoDup (mt_key_image <$> tracked_tx_outs s) ∧
  Forall (λ t, is_Some (pairs !! amt_token_id (mt_amount t))) (tracked_tx_outs s).

Lemma bot_inv_submseteq {D} (pairs : gmap TokenId (TokenId * D)) s s' :
  tracked_tx_outs s' ⊆+ tracked_tx_outs s → bot_inv pairs s → bot_inv pairs s'.
Proof.
  intros Hsub [Hnd Hf]. split; [|by eapply Forall_submseteq].
  eapply NoDup_submseteq_inv; [|exact Hnd]. by apply fmap_submseteq.
Qed.

(** Code that tracks nothing new besides [extra]. *)
Definition only_drops {E T} (extra : list MatchedTxOut) (m : stateful (LiquidityBotTask R W) E T) : Prop :=
  ∀ s r s', m s = (r, s') → tracked_tx_outs s' ⊆+ extra ++ tracked_tx_outs s.

Lemma drops_ret {E T} extra (x : T) : only_drops extra (st_ret (E:=E) x).
Proof. intros s r s' [= <- <-]. by apply submseteq_inserts_l. Qed.
Lemma drops_lift {E T} extra (m : outcome E T) : only_drops extra (st_lift m).
Proof. intros s r s' [= <- <-]. by apply submseteq_inserts_l. Qed.
Lemma drops_bind {E T U} e1 e2 (m : stateful (LiquidityBotTask R W) E T) (k : T → stateful _ E U) :
  only_drops e1 m → (∀ x, only_drops e2 (k x)) → only_drops (e1 ++ e2) (st_bind m k).
Proof.
  intros Hm Hk s r s'. unfold st_bind. destruct (m s) as [[x|e|p] s1] eqn:E1; intros Hr; simplify_eq.
  - specialize (Hm _ _ _ E1). specialize (Hk x _ _ _ Hr). etransitivity; [exact Hk|].
    etransitivity; [apply submseteq_app; [reflexivity|exact Hm]|].
    by rewrite !(assoc_L (++)), (comm (++) e2 e1).
  - etransitivity; [exact (Hm _ _ _ E1)|]. rewrite <-(assoc_L (++)). by apply submseteq_app, submseteq_inserts_l.
  - etransitivity; [exact (Hm _ _ _ E1)|]. rewrite <-(assoc_L (++)). by apply submseteq_app, submseteq_inserts_l.
Qed.
Lemma drops_seq {E T U} extra (m : stateful (LiquidityBotTask R W) E T) (k : T → stateful _ E U) :
  only_drops [] m → (∀ x, only_drops extra (k x)) → only_drops extra (st_bind m k).
Proof. exact (drops_bind [] extra m k). Qed.
Lemma drops_log_error {T} (m : stateful (LiquidityBotTask R W) BotStop T) : only_drops [] m → only_drops [] (log_error m).
Proof.
  intros Hm s r s'. unfold log_error. destruct (m s) as [[x|[e|]|p] s1] eqn:E1; intros [= <- <-]; by apply (Hm _ _ _ E1).
Qed.

Lemma drops_now clock : only_drops [] (now_since_epoch (R:=R) (W:=W) clock).
Proof. by intros s r s' [= <- <-]. Qed.
Lemma drops_push_listed l : only_drops [l_matched_tx_out l] (push_listed (R:=R) (W:=W) l).
Proof.
  intros s r s' [= <- <-]. unfold tracked_tx_outs, set_listed. cbn. rewrite fmap_app. cbn.
  by rewrite (assoc_L (++)), (comm (++)).
Qed.
Lemma drops_with_rng {T} (m : stateful R BotStop T) : only_drops [] (with_rng (W:=W) m).
Proof. intros s r s'. unfold with_rng. destruct (m (task_rng s)) as [r0 rng]. by intros [= <- <-]. Qed.
End Tracked.

#[export] Hint Resolve drops_ret drops_lift drops_seq drops_log_error drops_now drops_push_listed drops_with_rng : deqs.

(** * The invariant *)

Lemma zip_fst_submseteq {T U} (l : list T) (k : list U) : (zip l k).*1 ⊆+ l.
Proof.
  revert k. induction l as [|x l IH]; intros [|y k]; cbn; [done|done|apply submseteq_nil_l|]. by apply submseteq_skip.
Qed.

Lemma zip3_fst_submseteq {T U V X Y} (f : T → Y) (l : list T) (a : list U) (b : list V) (c : list X) :
  ((λ e, f e.1.1.1) <$> zip (zip (zip l a) b) c) ⊆+ f <$> l.
Proof.
  replace ((λ e, f e.1.1.1) <$> zip (zip (zip l a) b) c) with (f <$> (zip (zip (zip l a) b) c).*1.*1.*1)
    by by rewrite <-!list_fmap_compose.
  apply fmap_submseteq. rewrite <-(zip_fst_submseteq l a) at 2.
  apply fmap_submseteq. rewrite <-(zip_fst_submseteq (zip l a) b) at 2.
  apply fmap_submseteq, zip_fst_submseteq.
Qed.

Section Drops.
Context {A R W : Type} `{!SciApi A, !DeqsClient A W} (clock : nat → option Z).
Implicit Types s : LiquidityBotTask R W.

Lemma drops_mono {E T} e1 e2 (m : stateful (LiquidityBotTask R W) E T) :
  e1 ⊆+ e2 → only_drops e1 m → only_drops e2 m.
Proof.
  intros He Hm s r s' Hr. etransitivity; [exact (Hm _ _ _ Hr)|]. by apply submseteq_app.
Qed.

Lemma drops_push_then {T} x l extra (m : stateful (LiquidityBotTask R W) BotStop T) :
  x = l_matched_tx_out l → only_drops extra m → only_drops (x :: extra) (push_listed l ;;; m).
Proof. intros -> Hm. apply (drops_bind [_] extra); [apply drops_push_listed|done]. Qed.

Lemma drops_settle_pending (entries : list (PendingTxOut * QuoteStatusCode * string * ApiQuote A)) :
  only_drops (R:=R) (W:=W) ((λ e, p_matched_tx_out e.1.1.1) <$> entries) (settle_pending clock entries).
Proof.
  induction entries as [|[[[p code] msg] q] entries IH]; cbn [settle_pending fmap list_fmap]; [apply drops_ret|].
  assert (only_drops (R:=R) (W:=W) (p_matched_tx_out p :: ((λ e, p_matched_tx_out e.1.1.1) <$> entries))
            (settle_pending clock entries)) as Hskip by (eapply drops_mono; [|exact IH]; by apply submseteq_cons).
  destruct code; try exact Hskip.
  all: repeat (apply drops_seq; [solve [auto with deqs]|intros ?]).
  all: by apply drops_push_then.
Qed.

Lemma drops_settle_listed (entries : list (ListedTxOut * QuoteStatusCode * string * ApiQuote A)) :
  only_drops (R:=R) (W:=W) ((λ e, l_matched_tx_out e.1.1.1) <$> entries) (settle_listed clock entries).
Proof.
  induction entries as [|[[[l code] msg] q] entries IH]; cbn [settle_listed fmap list_fmap]; [apply drops_ret|].
  assert (only_drops (R:=R) (W:=W) (l_matched_tx_out l :: ((λ e, l_matched_tx_out e.1.1.1) <$> entries))
            (settle_listed clock entries)) as Hskip by (eapply drops_mono; [|exact IH]; by apply submseteq_cons).
  destruct code; try exact Hskip.
  all: repeat (apply drops_seq; [solve [auto with deqs]|intros ?]).
  all: by apply drops_push_then.
Qed.

Lemma drops_submit_quotes (req : list A) : only_drops (R:=R) (W:=W) [] (submit_quotes req).
Proof. intros s r s'. unfold submit_quotes. destruct (submit_quotes_async _ _). by intros [= <- <-]. Qed.

Lemma drops_submit_pending : only_drops [] (submit_pending_tx_outs (R:=R) (W:=W) clock).
Proof.
  intros s r s'. unfold submit_pending_tx_outs. destruct (pending_tx_outs s) as [|p0 pending] eqn:Hp.
  { by intros [= <- <-]. }
  rewrite <-Hp. clear Hp. generalize ((λ p, sci_to_api (p_sci p)) <$> pending_tx_outs s). intros req.
  revert s r s'. refine (drops_seq [] _ _ (drops_submit_quotes req) _). intros resp.
  apply drops_seq; [apply drops_lift|intros _]. intros s r s'. unfold st_bind, drain_pending. cbn.
  intros Hr%drops_settle_pending. etransitivity; [exact Hr|]. unfold tracked_tx_outs. cbn.
  apply submseteq_app; [apply zip3_fst_submseteq|done].
Qed.

Lemma drops_resubmit older_than : only_drops [] (resubmit_listed_tx_outs (R:=R) (W:=W) clock older_than).
Proof.
  apply drops_seq; [apply drops_now|intros now]. intros s r s'.
  pose proof (drain_filter_perm (needs_resubmit now older_than) (listed_tx_outs s)) as Hperm.
  destruct (drain_filter _ _) as [due keep]. cbn [fst snd] in Hperm.
  assert (tracked_tx_outs s ≡ₚ (l_matched_tx_out <$> due) ++ tracked_tx_outs (set_listed keep s)) as Ht.
  { unfold tracked_tx_outs, set_listed. cbn. rewrite <-Hperm, fmap_app.
    by rewrite !(assoc_L (++)), (comm (++) (p_matched_tx_out <$> _) (l_matched_tx_out <$> due)). }
  cbv beta zeta iota. destruct due as [|l due]; [intros [= <- <-]; by rewrite Ht|].
  destruct (submit_quotes (A:=A) _ (set_listed keep s)) as [[resp|e|p] s1] eqn:Hs1;
    pose proof (drops_submit_quotes _ _ _ _ Hs1) as Hd; cbn [app] in Hd.
  - intros Hr. eapply (drops_seq _ _ _ (drops_lift _ _) (λ _, drops_settle_listed _)) in Hr.
    etransitivity; [exact Hr|]. cbn [app]. rewrite Ht.
    apply submseteq_app; [apply zip3_fst_submseteq|done].
  - intros [= <- <-]. cbn [app]. rewrite Ht. etransitivity; [|apply submseteq_app; [reflexivity|exact Hd]].
    unfold tracked_tx_outs, set_listed. cbn [pending_tx_outs listed_tx_outs].
    by rewrite fmap_app, (assoc_L (++)), (comm (++)).
  - intros [= <- <-]. etransitivity; [exact Hd|]. cbn [app]. rewrite Ht. by apply submseteq_inserts_l.
Qed.

Lemma unlist_loop_perm spent listed :
  (unlist_loop spent listed).1 ++ (unlist_loop spent listed).2 ≡ₚ listed.
Proof.
  revert listed. induction spent as [|t spent IH]; intros listed; cbn; [done|].
  destruct (list_find _ listed) as [[i l]|] eqn:Hf; [|apply IH].
  apply list_find_Some in Hf as (Hi & _). specialize (IH (delete i listed)).
  destruct (unlist_loop spent (delete i listed)) as [removed rest]. cbn in *. rewrite IH.
  symmetry. by apply delete_Permutation.
Qed.

Lemma drops_unlist spent : only_drops (R:=R) (W:=W) [] (unlist_spent_tx_outs spent).
Proof.
  intros s r s'. unfold unlist_spent_tx_outs. pose proof (unlist_loop_perm spent (listed_tx_outs s)) as Hp.
  destruct (unlist_loop _ _) as [removed listed]. intros [= <- <-]. unfold tracked_tx_outs. cbn in *.
  apply submseteq_app; [done|]. apply fmap_submseteq. rewrite <-Hp. by apply submseteq_inserts_l.
Qed.
End Drops.

Section Invariant.
Context `{McLib, HistogramVecs} {A D R W P IC B L : Type}.
Context `{!SciApi A, !DeqsClient A W, !Decimal D, !Ledger L, !LedgerTxOuts L P, !SciBuilding R P IC B, !HashIter Z unit}.
Context (clock : nat → option Z) (fuel : nat) (pairs : gmap TokenId (TokenId * D)).
Implicit Types s : LiquidityBotTask R W.

Definition keeps_inv {E T} (m : stateful (LiquidityBotTask R W) E T) : Prop :=
  ∀ s r s', bot_inv pairs s → m s = (r, s') → bot_inv pairs s'.

Lemma keeps_drops {E T} (m : stateful (LiquidityBotTask R W) E T) : only_drops [] m → keeps_inv m.
Proof. intros Hm s r s' Hi Hr%Hm. by eapply bot_inv_submseteq. Qed.
Lemma keeps_bind {E T U} (m : stateful (LiquidityBotTask R W) E T) (k : T → stateful _ E U) :
  keeps_inv m → (∀ x, keeps_inv (k x)) → keeps_inv (st_bind m k).
Proof.
  intros Hm Hk s r s' Hi. unfold st_bind. destruct (m s) as [[x|e|p] s1] eqn:E1; intros Hr; simplify_eq.
  all: apply (Hm _ _ _ Hi) in E1; first [done|by eapply Hk].
Qed.
Lemma keeps_log_error {T} (m : stateful (LiquidityBotTask R W) BotStop T) : keeps_inv m → keeps_inv (log_error m).
Proof.
  intros Hm s r s' Hi. unfold log_error.
  destruct (m s) as [[x|[e|]|p] s1] eqn:E1; intros [= <- <-]; by apply (Hm _ _ _ Hi E1).
Qed.

(** A new pending output is for the output it was made for. *)
Lemma create_pending_matched ledger t rng p rng' :
  create_pending_tx_out (R:=R) (IC:=IC) (P:=P) (B:=B) (L:=L) fuel pairs ledger t rng = (Ok p, rng') →
  p_matched_tx_out p = t.
Proof.
  unfold create_pending_tx_out. intros ([c d] & ? & _ & Hr)%st_bind_Ok_inv.
  do 9 apply st_bind_Ok_inv in Hr as (? & ? & _ & Hr). by injection Hr as <- _.
Qed.

Lemma bot_inv_push p s :
  bot_inv pairs s → is_Some (pairs !! amt_token_id (mt_amount (p_matched_tx_out p))) →
  key_image_of_pending p ∉ key_image_of_pending <$> pending_tx_outs s →
  key_image_of_pending p ∉ key_image_of_listed <$> listed_tx_outs s →
  bot_inv pairs (set_pending (pending_tx_outs s ++ [p]) s).
Proof.
  intros [Hnd Hf] Hpair Hp Hl.
  assert (tracked_tx_outs (set_pending (pending_tx_outs s ++ [p]) s) ≡ₚ p_matched_tx_out p :: tracked_tx_outs s) as Ht.
  { unfold tracked_tx_outs. cbn. rewrite fmap_app. rewrite <-(assoc_L (++)). cbn [app fmap list_fmap]. by rewrite <-Permutation_middle. }
  unfold bot_inv. rewrite Ht. cbn. split; [|by constructor]. apply NoDup_cons. split; [|done].
  unfold tracked_tx_outs. rewrite fmap_app, <-!list_fmap_compose. rewrite elem_of_app. by intros [?|?].
Qed.

Lemma update_pending_keeps ledger l added : keeps_inv (update_pending_loop (P:=P) fuel pairs (L:=L) ledger l added).
Proof.
  revert added. induction l as [|t l IH]; intros added s r s' Hi; cbn [update_pending_loop]; [by intros [= <- <-]|].
  case_bool_decide as Hpair; [by apply IH|]. case_bool_decide as Hp; [by apply IH|].
  case_bool_decide as Hl; [by apply IH|].
  unfold st_bind at 1, with_rng.
  destruct (create_pending_tx_out fuel pairs ledger t (task_rng s)) as [[p|e|p] rng] eqn:Hc;
    [|by intros [= <- <-]; apply (bot_inv_submseteq pairs s)..].
  apply create_pending_matched in Hc. cbn. apply IH.
  assert (key_image_of_pending p = mt_key_image t) as Hk by (unfold key_image_of_pending; by rewrite Hc).
  apply (bot_inv_push p (mk_task (pending_tx_outs s) (listed_tx_outs s) rng (task_clock s) (task_deqs s)));
    rewrite ?Hk, ?Hc; [done| |done|done].
  by apply not_eq_None_Some.
Qed.

Lemma on_wallet_event_keeps ledger event :
  keeps_inv (on_wallet_event (A:=A) (P:=P) (IC:=IC) (B:=B) clock fuel pairs (L:=L) ledger event).
Proof.
  destruct event as [i received spent]. cbn [on_wallet_event].
  apply keeps_bind; [apply keeps_drops, drops_unlist|intros listed].
  apply keeps_bind; [apply keeps_drops; auto with deqs|intros fulfilled].
  apply keeps_bind; [apply keeps_drops; auto with deqs|intros _].
  apply keeps_bind; [apply keeps_log_error, update_pending_keeps|intros [[]|]];
    [|apply keeps_drops; auto with deqs..].
  apply keeps_drops, drops_seq; [apply drops_log_error, drops_submit_pending|auto with deqs].
Qed.

Lemma on_tick_keeps : keeps_inv (on_tick (A:=A) clock).
Proof.
  apply keeps_drops, drops_seq; [apply drops_log_error, drops_resubmit|intros _].
  apply drops_seq; [apply drops_log_error, drops_submit_pending|auto with deqs].
Qed.

Lemma run_step_keeps event : keeps_inv (run_step (A:=A) (P:=P) (IC:=IC) (B:=B) clock fuel pairs (L:=L) event).
Proof.
  destruct event as [[] open ledger| | |]; cbn [run_step].
  - apply keeps_bind; [apply on_wallet_event_keeps|]. intros _. apply keeps_drops; auto with deqs.
  - by intros s r s' Hi [= _ <-].
  - by intros s r s' Hi [= _ <-].
  - by intros s r s' Hi [= _ <-].
  - apply keeps_drops; auto with deqs.
  - apply keeps_bind; [apply on_tick_keeps|]. intros _. apply keeps_drops; auto with deqs.
  - apply keeps_drops; auto with deqs.
Qed.

(** C29: the bot never offers an output twice.  Whatever happens to a running
    bot (blocks, ticks of the timer, queries, in any order, with a DEQS that
    answers anything and calls that fail anywhere), no two entries of its
    pending and listed outputs together have the same key image, and it only
    tracks outputs of tokens it has a pair for. *)
Theorem bot_tracks_once events rng deqs r s' :
  bot_run (A:=A) (P:=P) (IC:=IC) (B:=B) clock fuel pairs (L:=L) events (bot_new rng deqs) = (r, s') →
  NoDup ((key_image_of_pending <$> pending_tx_outs s') ++ (key_image_of_listed <$> listed_tx_outs s')) ∧
  Forall (λ t, is_Some (pairs !! amt_token_id (mt_amount t))) (tracked_tx_outs s').
Proof.
  intros Hr. assert (bot_inv pairs s') as [Hnd Hf].
  { assert (bot_inv pairs (bot_new (W:=W) rng deqs)) as Hi by (split; constructor).
    revert Hi Hr. generalize (bot_new rng deqs). revert r s'.
    induction events as [|event events IH]; intros r s' s Hi; cbn [bot_run]; [by intros [= <- <-]|].
    revert s r s' Hi. apply keeps_bind; [apply run_step_keeps|].
    intros [[] reply]; [|apply keeps_drops; auto with deqs].
    apply keeps_bind; [intros s r s' Hi Hr; by apply (IH r s' s)|]. intros ?. apply keeps_drops; auto with deqs. }
  split; [|done]. unfold tracked_tx_outs in Hnd. by rewrite fmap_app, <-!list_fmap_compose in Hnd.
Qed.
End Invariant.

(** * Statistics and fulfilled SCIs *)

Definition of_token (t : TokenId) (amounts : list Amount) : list Amount := filter (λ a, amt_token_id a = t) amounts.

(** The entry of a token after the loop: the count and the sum of the values
    of its outputs, as 64-bit numbers. *)
Lemma stats_of_spec amounts t :
  default 0 ((stats_of amounts).1 !! t) = wrap64 (Z.of_nat (length (of_token t amounts))) ∧
  default 0 ((stats_of amounts).2 !! t) = wrap64 (foldr (λ a z, amt_value a + z) 0 (of_token t amounts)).
Proof.
  unfold stats_of, of_token. induction amounts as [|a amounts [IH1 IH2]] using rev_ind; [done|].
  rewrite fold_left_app, filter_app, filter_cons, filter_nil. cbn [fold_left].
  destruct (fold_left _ amounts _) as [num total]. cbn [fst snd] in *. unfold entry_add.
  destruct (decide (amt_token_id a = t)) as [->|Ht].
  - rewrite !lookup_insert_eq, length_app, foldr_app. cbn [default length foldr from_option id].
    rewrite IH1, IH2. unfold u64_add, wrap64. rewrite !Zplus_mod_idemp_l. split; [f_equal; lia|].
    f_equal. clear IH1 IH2. induction (filter _ amounts) as [|x l IHl]; cbn in *; lia.
  - by rewrite app_nil_r, !lookup_insert_ne.
Qed.

Section FulfilledSpec.
Context `{McLib}.

(** A spent listed output whose single partial-fill output was received. *)
Definition was_fulfilled (received : list MatchedTxOut) (l : ListedTxOut) : Prop :=
  match default [] (partial_fill_outputs <$> input_rules (tx_in (q_sci (l_quote l)))) with
  | [pf] => is_Some (find_received received (rto_tx_out pf))
  | _ => False
  end.
#[export] Instance was_fulfilled_dec received l : Decision (was_fulfilled received l).
Proof. unfold was_fulfilled. repeat case_match; apply _. Defined.

(** The outputs reported as fulfilled are exactly those, in order. *)
Lemma look_for_fulfilled_spec spent received l :
  look_for_fulfilled_scis spent received = Ok l →
  fs_listed_tx_out <$> l = filter (was_fulfilled received) spent.
Proof.
  revert l. induction spent as [|t spent IH]; intros l; cbn [look_for_fulfilled_scis]; [by intros [= <-]|].
  rewrite filter_cons. destruct (decide (was_fulfilled received t)) as [Hf|Hf]; unfold was_fulfilled in Hf.
  - destruct (default [] _) as [|pf [|]]; [done| |done]. destruct Hf as [c ->].
    intros Hl. inv_ok. cbn. f_equal. by apply IH.
  - destruct (default [] _) as [|pf [|]]; [apply IH| |apply IH].
    destruct (find_received received (rto_tx_out pf)) as [c|]; [destruct Hf; eauto|apply IH].
Qed.
End FulfilledSpec.

(** * The ring of an SCI *)

Section Ring.
Context {R P IC B L : Type} `{!Ledger L, !LedgerTxOuts L P, !SciBuilding R P IC B, !HashIter Z unit}.

Lemma sample_indices_size fuel n m rng m' rng' :
  (size m ≤ RING_SIZE)%nat → sample_indices (P:=P) (IC:=IC) (B:=B) fuel n m rng = (Ok m', rng') → size m' = RING_SIZE.
Proof.
  revert m rng. induction fuel as [|fuel IH]; intros m rng Hm; cbn [sample_indices];
    destruct (Nat.leb_spec RING_SIZE (size m)) as [Hle|Hlt]; try (intros [= <- _]; lia).
  destruct (n =? 0); [done|]. destruct (gen_range n rng) as [i rng1]. apply IH.
  rewrite map_size_insert. destruct (m !! i); cbn; lia.
Qed.

(** The ring has eleven members, the first of them the output itself. *)
Lemma ring_indices_spec fuel ledger key rng l rng' :
  ring_indices (P:=P) (IC:=IC) (B:=B) fuel ledger key rng = (Ok l, rng') →
  length l = RING_SIZE ∧
  ∃ i, l !! 0%nat = Some i ∧ get_tx_out_index_by_public_key (P:=P) (L:=L) key ledger = Ok i.
Proof.
  unfold ring_indices. intros (n & r1 & _ & Hr)%st_bind_Ok_inv.
  apply st_bind_Ok_inv in Hr as (m & r2 & Hm & Hr). apply sample_indices_size in Hm; [|by rewrite map_size_empty; unfold RING_SIZE; lia].
  apply st_bind_Ok_inv in Hr as (i & r3 & Hi & Hr).
  assert (length (hash_entries m).*1 = RING_SIZE) as Hlen.
  { rewrite length_fmap, (Permutation_length (hash_entries_perm m)). rewrite length_map_to_list. done. }
  destruct (hash_entries m).*1 as [|i0 rest]; [done|]. injection Hr as <- _. split; [done|]. exists i.
  split; [done|]. unfold ledger_call, st_lift in Hi. injection Hi as Hi _. by inv_ok.
Qed.

Lemma size_below (m : gmap Z unit) n : (∀ i, is_Some (m !! i) → 0 ≤ i < n) → (size m ≤ Z.to_nat n)%nat.
Proof.
  intros Hm. assert (dom m ⊆ (list_to_set (seqZ 0 n) : gset Z)) as Hsub%subseteq_size.
  { intros i Hi%elem_of_dom. rewrite elem_of_list_to_set, elem_of_seqZ. specialize (Hm i Hi). lia. }
  rewrite size_dom, size_list_to_set, length_seqZ in Hsub by apply NoDup_seqZ. done.
Qed.

(** A ledger with fewer outputs than the ring has members keeps the loop
    going forever. *)
Lemma sample_indices_hangs fuel n m rng :
  (∀ n r, 0 < n → 0 ≤ (gen_range (P:=P) (IC:=IC) (B:=B) n r).1 < n) →
  0 < n < Z.of_nat RING_SIZE → (∀ i, is_Some (m !! i) → 0 ≤ i < n) →
  (sample_indices (R:=R) (P:=P) (IC:=IC) (B:=B) fuel n m rng).1 = Err Hangs.
Proof.
  intros Hgen Hn. revert m rng. induction fuel as [|fuel IH]; intros m rng Hm; cbn [sample_indices];
    pose proof (size_below m n Hm); rewrite (proj2 (Nat.leb_gt _ _)) by lia; [done|].
  rewrite (proj2 (Z.eqb_neq n 0)) by lia. specialize (Hgen n rng ltac:(lia)).
  destruct (gen_range n rng) as [i rng1]. apply IH. intros j. rewrite lookup_insert_is_Some.
  cbn in Hgen. destruct (decide (i = j)) as [->|]; [lia|]. intros [?|[_ ?]]; [done|by apply Hm].
Qed.
End Ring.

(** * The theorems on examples *)

Module BotExamples.
Import Sample SampleLedger WalletExamples SampleCodec ApiConvertExamples.

(** Rates are whole numbers. *)
#[export] Instance sample_decimal : Decimal Z := {|
  decimal_from_u64 z := z; decimal_mul a b := Ok (a * b); decimal_ceil z := z;
  decimal_to_u64 z := if bool_decide (is_u64 z) then Some z else None; decimal_display := pretty;
|}.

#[export] Instance sample_tx_outs : LedgerTxOuts Chain unit := {|
  num_txos l := Ok (Z.of_nat (length (l ≫= bc_outputs)));
  get_tx_out_index_by_public_key k l :=
    ok_or ((λ x, Z.of_nat x.1) <$> list_find (λ t, txo_public_key t = k) (l ≫= bc_outputs)) NotFound;
  get_tx_out_proof_of_memberships l _ := Ok ((λ _, tt) <$> l);
|}.

(** A generator that counts, and SCIs that show what they were built from. *)
#[export] Instance sample_building : SciBuilding Z unit (list TxOut) (list TxOut * list Amount) := {|
  gen_range n r := (r mod n, r + 1);
  input_credentials_new ring _ _ _ := Ok ring;
  sci_builder_new ring := Ok (ring, []);
  add_partial_fill_output a b := st_ret (b.1, b.2 ++ [a]);
  add_partial_fill_change_output a b := st_ret (b.1, b.2 ++ [a]);
  sci_build b := st_lift (
    match txo_public_key <$> b.1, b.2 with
    | [k] :: _, [a; change] => Ok (sci k k (amt_value change) [] [(amt_value a, amt_token_id a)] 0 0)
    | _, _ => Err (SciBuilder "ring")
    end);
|}.

(** Buckets have to increase. *)
Fixpoint increasing (l : list Z) : bool :=
  match l with x :: (y :: _) as rest => (x <? y) && increasing rest | _ => true end.
#[export] Instance sample_histograms : HistogramVecs := {|
  with_label_values buckets _ :=
    if increasing buckets then Ok tt else Panic "histogram buckets must be in increasing order";
|}.

(** A DEQS that cannot be reached. *)
#[export] Instance unreachable : DeqsClient (list Z) unit := {|
  submit_quotes_async _ w := (Err (ChannelFailure "unavailable"), w);
|}.

Definition ledger_12 : Chain := [ {| bc_key_images := []; bc_outputs := tx_out <$> seqZ 0 12 |} ].
Definition sample_clock (n : nat) : option Z := Some (Z.of_nat n).
(** Two of token 2 for one of token 1. *)
Definition sample_pairs : gmap Z (Z * Z) := {[ 1 := (2, 2) ]}.

(** The same output arrives twice, then the timer ticks. *)
Definition sample_events : list (TaskEvent (L:=Chain)) :=
  [ ReceivedCommand (CmdWalletEvent (BlockProcessed 0 [matched 0 2; matched 0 4; matched 0 2] [])) true ledger_12;
    Tick;
    ReceivedCommand (CmdWalletEvent (BlockProcessed 1 [matched 0 2] [])) true ledger_12 ].
Definition sample_run : outcome BotStop (list Reply) * LiquidityBotTask Z unit :=
  bot_run (A:=list Z) (P:=unit) (IC:=list TxOut) (B:=list TxOut * list Amount)
    sample_clock 20 sample_pairs sample_events (bot_new 0 tt).

Lemma bot_tracks_once_witness :
  (key_image_of_pending <$> pending_tx_outs sample_run.2) = [[2]; [4]] ∧
  NoDup ((key_image_of_pending <$> pending_tx_outs sample_run.2) ++
         (key_image_of_listed <$> listed_tx_outs sample_run.2)) ∧
  Forall (λ t, is_Some (sample_pairs !! amt_token_id (mt_amount t))) (tracked_tx_outs sample_run.2).
Proof.
  split; [by vm_compute|].
  exact (bot_tracks_once sample_clock 20 sample_pairs sample_events 0 tt sample_run.1 sample_run.2
           (surjective_pairing sample_run)).
Defined.

(** The output itself may be sampled for its own ring, which then has it
    twice. *)
Example ring_may_repeat :
  ∃ l rng, ring_indices (P:=unit) (IC:=list TxOut) (B:=list TxOut * list Amount) 20 ledger_12 [4] 0 = (Ok l, rng) ∧
           bool_decide (NoDup l) = false.
Proof. eexists _, _. split; [by vm_compute|by vm_compute]. Qed.
End BotExamples.
