(* ===== verification/BotOffers.v ===== *)
(** What the bot offers (liquidity-bot/src/lib.rs, [create_pending_tx_out]): the
    SCI for an output of the wallet, the quote it becomes on a DEQS, and what a
    taker pays for it.

    The decimal numbers are those of the crate rust_decimal, a mantissa of 96
    bits and a scale of at most 28; the SCI builder is the one of the
    mobilecoin crates, which signs for the input it was given on the terms it
    collected. *)

From S2P Require Import Prelude McTypes QuoteApi QuotePricing QuoteBook InMemory SqlTypes Sqlite Synchronized ApiConvert ClientService Wallet LiquidityBot.

(** * Decimal numbers *)

Class DecimalLaws (D : Type) `{!Decimal D} := {
  mantissa : D → Z;
  scale : D → Z;
  scale_range d : 0 ≤ scale d ≤ 28;
  from_u64_ok n : is_u64 n → mantissa (decimal_from_u64 n) = n ∧ scale (decimal_from_u64 n) = 0;
  (** A product that fits is exact. *)
  mul_ok a b : Z.abs (mantissa a * mantissa b) < 2 ^ 96 → scale a + scale b ≤ 28 → ∃ d, decimal_mul a b = Ok d ∧
    mantissa d * 10 ^ (scale a + scale b) = mantissa a * mantissa b * 10 ^ scale d;
  (** The least integer that is not below. *)
  ceil_ok d : ∃ c, mantissa (decimal_ceil d) = c * 10 ^ scale (decimal_ceil d) ∧
    (c - 1) * 10 ^ scale d < mantissa d ≤ c * 10 ^ scale d;
  to_u64_ok d c : mantissa d = c * 10 ^ scale d → decimal_to_u64 d = if bool_decide (is_u64 c) then Some c else None;
}.

(** The quotient, rounded up. *)
Definition div_up (a b : Z) : Z := - (- a / b).

Lemma div_up_spec a b : 0 < b → (div_up a b - 1) * b < a ≤ div_up a b * b.
Proof.
  intros Hb. unfold div_up. pose proof (Z.div_mod (- a) b ltac:(lia)). pose proof (Z.mod_pos_bound (- a) b Hb). nia.
Qed.
Lemma div_up_unique a b c : 0 < b → (c - 1) * b < a ≤ c * b → c = div_up a b.
Proof. intros Hb Hc. pose proof (div_up_spec a b Hb). nia. Qed.

Section Rate.
Context {D : Type} `{!Decimal D, !DecimalLaws D}.
Implicit Types rate : D.

Lemma pow10_pos n : 0 ≤ n → 0 < 10 ^ n.
Proof. intros. apply Z.pow_pos_nonneg; lia. Qed.

(** The counter amount of a value at a rate, in tokens. *)
Definition at_rate (value : Z) rate : Z := div_up (value * mantissa rate) (10 ^ scale rate).

Lemma at_rate_pos value rate : 0 < value → 0 < mantissa rate → 0 < at_rate value rate.
Proof.
  intros Hv Hm. pose proof (scale_range rate). assert (0 < 10 ^ scale rate) as Hp by (apply pow10_pos; lia).
  pose proof (div_up_spec (value * mantissa rate) (10 ^ scale rate) Hp). unfold at_rate. nia.
Qed.

Lemma counter_amount_at_rate value rate :
  is_u64 value → Z.abs (value * mantissa rate) < 2 ^ 96 →
  counter_amount_at value rate =
  if bool_decide (is_u64 (at_rate value rate)) then Ok (at_rate value rate)
  else Err (Failed (DecimalConversion
         ("Could not convert " +:+ pretty value +:+ " times " +:+ decimal_display rate +:+ " to u64"))).
Proof.
  intros Hv Hfit. destruct (from_u64_ok value Hv) as [Hm Hs]. pose proof (scale_range rate) as Hsr.
  destruct (mul_ok (decimal_from_u64 value) rate) as (d & Hd & Heq); [by rewrite Hm|lia|].
  rewrite Hm, Hs, Z.add_0_l in Heq. destruct (ceil_ok d) as (c & Hc & Hceil).
  pose proof (scale_range d) as Hsd. assert (0 < 10 ^ scale d) as P1 by (apply pow10_pos; lia).
  assert (0 < 10 ^ scale rate) as P2 by (apply pow10_pos; lia).
  assert (c = at_rate value rate) as <-.
  { apply div_up_unique; [done|]. split; nia. }
  unfold counter_amount_at. rewrite Hd. cbn. rewrite (to_u64_ok _ c Hc). by destruct (bool_decide (is_u64 c)).
Qed.
End Rate.

(** * The SCI builder

    What the mobilecoin crates document of it: the credentials hold the ring
    in an order of their own, with the indices of the proofs; the builder
    collects the terms; the SCI is valid and states them. *)

Class SciBuildingLaws `{McLib} (R P IC B : Type) `{!SciBuilding R P IC B} := {
  (** what a TxOut commits to, and its key image when it belongs to the
      account at a subaddress *)
  committed : TxOut → Amount;
  own_key_image : TxOut → Z → option KeyImage;
  (** an output for the account *)
  own_output : TxOut → Prop;
  proof_index : P → Z;
  (** the real input with its subaddress, and the ring with its indices *)
  ic_real : IC → TxOut * Z;
  ic_members : IC → list (Z * TxOut);
  builder_input : B → IC;
  builder_partial : B → list Amount;
  builder_change : B → option Amount;
  gen_range_ok n r : 0 < n → 0 ≤ (gen_range (P:=P) (IC:=IC) (B:=B) n r).1 < n;
  input_credentials_ok ring proofs i t subaddress :
    0 ≤ i → ring !! Z.to_nat i = Some t → length proofs = length ring → ∃ ic,
      input_credentials_new (R:=R) (B:=B) ring proofs i subaddress = Ok ic ∧ ic_real ic = (t, subaddress) ∧
      ic_members ic ≡ₚ zip (proof_index <$> proofs) ring;
  sci_builder_ok ic : ∃ b, sci_builder_new (R:=R) (P:=P) ic = Ok b ∧
    builder_input b = ic ∧ builder_partial b = [] ∧ builder_change b = None;
  add_partial_fill_ok a b rng : amount_wf a → 0 < amt_value a → ∃ b' rng',
    add_partial_fill_output (P:=P) (IC:=IC) a b rng = (Ok b', rng') ∧
    builder_input b' = builder_input b ∧ builder_partial b' = builder_partial b ++ [a] ∧
    builder_change b' = builder_change b;
  add_fill_change_ok a b rng : builder_change b = None → amount_wf a → 0 < amt_value a → ∃ b' rng',
    add_partial_fill_change_output (P:=P) (IC:=IC) a b rng = (Ok b', rng') ∧
    builder_input b' = builder_input b ∧ builder_partial b' = builder_partial b ∧
    builder_change b' = Some a;
  (** With a change that is the whole input, any part of it can be taken; no
      tombstone was set. *)
  sci_build_ok b rng t subaddress key_image a :
    ic_real (builder_input b) = (t, subaddress) → own_key_image t subaddress = Some key_image →
    amount_wf a → builder_partial b = [a] → builder_change b = Some (committed t) → ∃ sci rng' ir pf bl change bl',
      sci_build (P:=P) (IC:=IC) b rng = (Ok sci, rng') ∧
      sci_validate sci = Ok tt ∧ sci_key_image sci = key_image ∧
      pseudo_output_amount sci = committed t ∧ required_output_amounts sci = [] ∧
      tx_out_global_indices sci = (ic_members (builder_input b)).*1 ∧
      ring (tx_in sci) = (ic_members (builder_input b)).*2 ∧
      input_rules (tx_in sci) = Some ir ∧ required_outputs ir = [] ∧
      partial_fill_outputs ir = [pf] ∧ reveal_amount pf = Ok (a, bl) ∧
      partial_fill_change ir = Some change ∧ reveal_amount change = Ok (committed t, bl') ∧
      own_output (rto_tx_out pf) ∧ own_output (rto_tx_out change) ∧
      txo_public_key (rto_tx_out pf) ≠ txo_public_key (rto_tx_out change) ∧
      min_partial_fill_value ir = 0 ∧ max_tombstone_block ir = 0;
}.

(** * The ring *)

Section Sampling.
Context {R P IC B : Type} `{!SciBuilding R P IC B}.

(** The numbers a generator yields below [n]. *)
Fixpoint draws (count : nat) (n : Z) (rng : R) : list Z :=
  match count with
  | O => []
  | S count => let '(i, rng) := gen_range (P:=P) (IC:=IC) (B:=B) n rng in i :: draws count n rng
  end.

(** The loop ends as soon as enough different numbers were drawn. *)
Lemma sample_indices_ends count n m rng :
  0 < n → (RING_SIZE ≤ size (dom m ∪ list_to_set (draws count n rng)))%nat →
  ∃ m' rng', sample_indices (P:=P) (IC:=IC) (B:=B) count n m rng = (Ok m', rng') ∧
             dom m' ⊆ dom m ∪ list_to_set (draws count n rng).
Proof.
  intros Hn. revert m rng. induction count as [|count IH]; intros m rng; cbn [draws sample_indices].
  - rewrite list_to_set_nil, union_empty_r_L, size_dom. intros Hsize. rewrite (proj2 (Nat.leb_le _ _)) by done.
    exists m, rng. split; [done|set_solver].
  - destruct (Nat.leb_spec RING_SIZE (size m)) as [Hle|Hlt]; [intros _; exists m, rng; split; [done|set_solver]|].
    rewrite (proj2 (Z.eqb_neq n 0)) by lia. destruct (gen_range n rng) as [i rng1]. intros Hsize.
    destruct (IH (<[i := tt]> m) rng1) as (m' & rng' & Hm & Hdom).
    + eapply Nat.le_trans; [exact Hsize|]. apply subseteq_size. rewrite dom_insert_L, list_to_set_cons. set_solver.
    + exists m', rng'. split; [done|]. rewrite dom_insert_L in Hdom. rewrite list_to_set_cons. set_solver.
Qed.

Lemma draws_below {H : McLib} `{!SciBuildingLaws R P IC B} count n rng : 0 < n → Forall (λ i, 0 ≤ i < n) (draws count n rng).
Proof.
  intros Hn. revert rng. induction count as [|count IH]; intros rng; cbn [draws]; [constructor|].
  pose proof (gen_range_ok n rng Hn) as Hi. destruct (gen_range n rng) as [i rng1]. constructor; [exact Hi|apply IH].
Qed.
End Sampling.

(** * The offer *)

Section Offer.
Context `{McLib} {D R P IC B L : Type} `{!McLibLaws _, !Decimal D, !DecimalLaws D, !Ledger L, !LedgerTxOuts L P}.
Context `{!SciBuilding R P IC B, !SciBuildingLaws R P IC B, !HashIter Z unit}.
Implicit Types (t : MatchedTxOut) (rate : D) (ledger_db : L) (n i : Z).

(** The ledger has [n] outputs, [t] among them, and proofs for all. *)
Record ledger_has ledger_db n t : Prop := {
  lh_num : num_txos (P:=P) ledger_db = Ok n;
  lh_own : ∃ i, get_tx_out_index_by_public_key (P:=P) (txo_public_key (mt_tx_out t)) ledger_db = Ok i ∧
             0 ≤ i < n ∧ get_tx_out_by_index i ledger_db = Ok (mt_tx_out t);
  lh_tx_outs i : 0 ≤ i < n → ∃ o, get_tx_out_by_index i ledger_db = Ok o;
  lh_proofs l : Forall (λ i, 0 ≤ i < n) l → ∃ proofs,
    get_tx_out_proof_of_memberships (P:=P) l ledger_db = Ok proofs ∧ proof_index <$> proofs = l;
}.

(** The output is the account's, with this key image, and of the amount the
    wallet found in it. *)
Record matches t (key_image : KeyImage) : Prop := {
  mo_committed : committed (mt_tx_out t) = mt_amount t;
  mo_key_image : own_key_image (mt_tx_out t) (mt_subaddress_index t) = Some key_image;
  mo_wf : amount_wf (mt_amount t);
  mo_some : 0 < amt_value (mt_amount t);
}.

(** Enough different numbers among the first draws. *)
Definition spread (fuel : nat) n (rng : R) : Prop :=
  0 < n ∧ (RING_SIZE ≤ size (list_to_set (draws (P:=P) (IC:=IC) (B:=B) fuel n rng) : gset Z))%nat.

Lemma ring_indices_returns fuel ledger_db n t rng :
  ledger_has ledger_db n t → spread fuel n rng →
  ∃ i rest rng', ring_indices (P:=P) (IC:=IC) (B:=B) fuel ledger_db (txo_public_key (mt_tx_out t)) rng = (Ok (i :: rest), rng') ∧
    Forall (λ i, 0 ≤ i < n) (i :: rest) ∧ get_tx_out_by_index i ledger_db = Ok (mt_tx_out t).
Proof.
  intros [Hnum (i & Hi & Hin & Hown) _ _] [Hn Hs].
  destruct (sample_indices_ends fuel n ∅ rng) as (m & rng' & Hm & Hdom); [done|by rewrite dom_empty_L, union_empty_l_L|].
  pose proof Hm as Hsize. apply sample_indices_size in Hsize; [|rewrite map_size_empty; unfold RING_SIZE; lia].
  assert (Forall (λ i, 0 ≤ i < n) (hash_entries m).*1) as Hall.
  { apply Forall_fmap, Forall_forall. intros [j []] Hj. rewrite hash_entries_perm in Hj. apply elem_of_map_to_list in Hj.
    assert (j ∈ dom m) as Hjd by by eapply elem_of_dom_2. apply Hdom in Hjd. rewrite dom_empty_L, union_empty_l_L in Hjd.
    apply elem_of_list_to_set in Hjd. pose proof (draws_below (P:=P) (IC:=IC) (B:=B) fuel n rng Hn) as Hd. rewrite Forall_forall in Hd. by apply Hd. }
  assert (length (hash_entries m).*1 = RING_SIZE) as Hlen
    by by rewrite length_fmap, (Permutation_length (hash_entries_perm m)), length_map_to_list.
  destruct (hash_entries m).*1 as [|i0 rest] eqn:Hrest; [done|]. exists i, rest, rng'.
  split; [|split; [|done]].
  - unfold ring_indices, ledger_call, st_bind, st_lift. rewrite Hnum. cbn [map_err]. rewrite Hm. rewrite Hi. cbn [map_err].
    by rewrite Hrest.
  - inversion Hall; subst. by constructor.
Qed.

(** What the SCI of an output states: the whole output, in any part, for the
    price; with a ring of outputs of the ledger, its own among them. *)
Record sells_output ledger_db t (key_image : KeyImage) (price : Amount) (sci : SignedContingentInput) : Prop := {
  so_valid : sci_validate sci = Ok tt;
  so_wf : sci_wf sci;
  so_key_image : sci_key_image sci = key_image;
  so_input : pseudo_output_amount sci = mt_amount t;
  so_rules : ∃ ir pf bl change bl', input_rules (tx_in sci) = Some ir ∧ required_outputs ir = [] ∧
    partial_fill_outputs ir = [pf] ∧ reveal_amount pf = Ok (price, bl) ∧
    partial_fill_change ir = Some change ∧ reveal_amount change = Ok (mt_amount t, bl') ∧
    own_output (rto_tx_out pf) ∧ own_output (rto_tx_out change) ∧
    txo_public_key (rto_tx_out pf) ≠ txo_public_key (rto_tx_out change) ∧
    min_partial_fill_value ir = 0 ∧ max_tombstone_block ir = 0;
  so_members : Forall (λ '(i, o), get_tx_out_by_index i ledger_db = Ok o)
    (zip (tx_out_global_indices sci) (ring (tx_in sci)));
  so_ring : length (ring (tx_in sci)) = RING_SIZE ∧ length (tx_out_global_indices sci) = RING_SIZE;
  so_own : mt_tx_out t ∈ ring (tx_in sci);
}.

Lemma Forall2_zip {X Y} (Q : X → Y → Prop) l k : Forall2 Q l k → Forall (λ '(x, y), Q x y) (zip l k).
Proof. induction 1; cbn; by constructor. Qed.

(** The SCI built from credentials that hold the ring. *)
Lemma sci_of_members ledger_db t key_image price ic b rng rings :
  amount_wf price → matches t key_image → ic_real ic = (mt_tx_out t, mt_subaddress_index t) →
  ic_members ic ≡ₚ rings → Forall (λ '(i, o), get_tx_out_by_index i ledger_db = Ok o) rings →
  length rings = RING_SIZE → mt_tx_out t ∈ rings.*2 →
  builder_input b = ic → builder_partial b = [price] → builder_change b = Some (mt_amount t) →
  ∃ sci rng', sci_build (P:=P) (IC:=IC) b rng = (Ok sci, rng') ∧ sells_output ledger_db t key_image price sci.
Proof.
  intros Hpw [Hc Hk Hwf _] Hreal Hperm Hall Hlen Hown Hin Hpart Hch. subst ic. rewrite <-Hc in Hch.
  destruct (sci_build_ok b rng _ _ _ price Hreal Hk Hpw Hpart Hch)
    as (sci & rng' & ir & pf & bl & ch & bl' & Hb & Hv & Hki & Hps & Hro & Hix & Hring & Hir & Hreq & Hpf & Hrev & Hch' & Hrev' & Hop & Hoc & Hne & Hmin & Htomb).
  exists sci, rng'. split; [done|]. rewrite Hc in Hps. split; try done.
  - split; [by rewrite Hps|by rewrite Hro; constructor|]. intros ir' Hir'. rewrite Hir in Hir'. injection Hir' as <-.
    by rewrite Hmin, Htomb.
  - rewrite Hc in Hrev'. by exists ir, pf, bl, ch, bl'.
  - rewrite Hix, Hring, zip_fst_snd. by rewrite Hperm.
  - rewrite Hix, Hring, !length_fmap. by rewrite (Permutation_length Hperm).
  - rewrite Hring. by rewrite Hperm.
Qed.

Lemma create_pending_returns fuel pairs ledger_db n t key_image rng counter rate :
  pairs !! amt_token_id (mt_amount t) = Some (counter, rate) → is_u64 counter →
  matches t key_image → ledger_has ledger_db n t → spread fuel n rng → 0 < mantissa rate →
  amt_value (mt_amount t) * mantissa rate < 2 ^ 96 → is_u64 (at_rate (amt_value (mt_amount t)) rate) →
  ∃ sci rng', create_pending_tx_out (P:=P) (IC:=IC) (B:=B) fuel pairs ledger_db t rng =
                (Ok {| p_matched_tx_out := t; p_sci := sci |}, rng') ∧
    sells_output ledger_db t key_image {| amt_value := at_rate (amt_value (mt_amount t)) rate; amt_token_id := counter |} sci.
Proof.
  intros Hpair Hcu Hm Hl Hs Hrate Hfit Hu. pose proof Hm as [_ _ [Hv Ht] Hpos].
  set (price := {| amt_value := at_rate (amt_value (mt_amount t)) rate; amt_token_id := counter |}).
  destruct (ring_indices_returns fuel ledger_db n t rng Hl Hs) as (i & rest & rng1 & Hri & Hrange & Hown).
  destruct (ring_indices_spec fuel ledger_db _ _ _ _ Hri) as [Hlen _].
  assert (∃ outs, Forall2 (λ j o, get_tx_out_by_index j ledger_db = Ok o) (i :: rest) outs) as [outs Houts].
  { clear Hri Hlen. induction Hrange as [|j l Hj _ [os IH]]; [by exists []|].
    destruct (lh_tx_outs _ _ _ Hl j Hj) as [o Ho]. exists (o :: os). by constructor. }
  inversion Houts as [|? o ? os Ho Hos Hi Heq]; subst. rewrite Hown in Ho. injection Ho as <-.
  destruct (lh_proofs _ _ _ Hl _ Hrange) as (proofs & Hproofs & Hix).
  pose proof (Forall2_length _ _ _ Houts) as Hlo. assert (length proofs = length (mt_tx_out t :: os)) as Hlp
    by by rewrite <-Hlo, <-Hix, length_fmap.
  destruct (input_credentials_ok (R:=R) (B:=B) (mt_tx_out t :: os) proofs 0 (mt_tx_out t) (mt_subaddress_index t))
    as (ic & Hic & Hreal & Hmem); [done..|]. rewrite Hix in Hmem.
  destruct (sci_builder_ok ic) as (b0 & Hb0 & Hin0 & Hp0 & Hc0).
  destruct (add_partial_fill_ok price b0 rng1) as (b1 & rng2 & Hb1 & Hin1 & Hp1 & Hc1); [done|by apply at_rate_pos|].
  destruct (add_fill_change_ok (mt_amount t) b1 rng2) as (b2 & rng3 & Hb2 & Hin2 & Hp2 & Hc2); [congruence|done|done|].
  destruct (sci_of_members ledger_db t key_image price ic b2 rng3 (zip (i :: rest) (mt_tx_out t :: os))) as (sci & rng4 & Hsci & Hsell);
    [done|done|done|done| | |rewrite snd_zip by (rewrite <-Hlo; lia); left|congruence|by rewrite Hp2, Hp1, Hp0|done|].
  { by apply Forall2_zip. }
  { rewrite length_zip_with. rewrite <-Hlo, Hlen. done. }
  exists sci, rng4. split; [|done].
  unfold create_pending_tx_out, st_bind, st_lift, ledger_call, builder_call, st_ret. rewrite Hpair. cbn [ok_or].
  rewrite counter_amount_at_rate, bool_decide_eq_true_2 by (done || rewrite Z.abs_eq by nia; done).
  rewrite Hri, (proj2 (collect_results_Ok _ _ _) Houts). cbn [map_err st_lift]. rewrite Hproofs. cbn [map_err st_lift].
  rewrite Hic. cbn [map_err st_lift]. rewrite Hb0. cbn [map_err st_lift]. fold price. rewrite Hb1. cbn [map_err st_lift].
  rewrite Hb2. cbn [map_err st_lift]. rewrite Hsci. done.
Qed.
(** The quote the SCI becomes. *)
Lemma sells_output_quote ledger_db t key_image price sci now ts :
  sells_output ledger_db t key_image price sci →
  quote_new now sci (Some ts) = Ok (quote_on_terms sci (amt_token_id price) (0, amt_value (mt_amount t)) (amt_value price) ts).
Proof.
  intros [Hv _ _ Hin (ir & pf & bl & _ & _ & Hir & Hreq & Hpf & Hrev & _ & _ & _ & _ & _ & Hmin & _) _ _ _].
  pose proof (offer_partial sci ir pf price bl Hreq Hpf Hrev) as Ho. rewrite Hin, Hmin in Ho. apply quote_terms_offer in Ho.
  unfold quote_new. cbn. rewrite Hv, Hir. cbn. by rewrite Ho.
Qed.

(** A synchronized book over the ledger lets the quote in while the output is
    unspent. *)
Lemma sells_output_checks ledger_db t key_image price sci ts blocks :
  sells_output ledger_db t key_image price sci → num_blocks ledger_db = Ok blocks →
  contains_key_image key_image ledger_db = Ok false →
  check_quote ledger_db (quote_on_terms sci (amt_token_id price) (0, amt_value (mt_amount t)) (amt_value price) ts) = Ok tt.
Proof.
  intros [_ _ Hki _ (ir & _ & _ & _ & _ & Hir & _ & _ & _ & _ & _ & _ & _ & _ & _ & Htomb) Hmem [Hl1 Hl2] _] Hnum Hun. unfold check_quote, validate_quote_ring_members. cbn.
  rewrite Hnum, Hir, Htomb, Hki, Hun. cbn. rewrite Hl1, Hl2. cbn.
  induction Hmem as [|[i o] l Hi _ IH]; cbn; [done|]. rewrite Hi. cbn. by rewrite bool_decide_eq_false_2 by auto.
Qed.

(** What a taker pays: never more than the share of the price, and more than
    the rate asks for less one token. *)
Lemma sells_output_cost ledger_db t key_image rate counter sci ts b :
  sells_output ledger_db t key_image {| amt_value := at_rate (amt_value (mt_amount t)) rate; amt_token_id := counter |} sci →
  matches t key_image → 0 ≤ b ≤ amt_value (mt_amount t) →
  let price := at_rate (amt_value (mt_amount t)) rate in
  let q := quote_on_terms sci counter (0, amt_value (mt_amount t)) price ts in
  ∃ cost, counter_tokens_cost q b = Ok cost ∧
    cost * amt_value (mt_amount t) ≤ price * b ∧ b * mantissa rate < (cost + 1) * 10 ^ scale rate ∧
    (b = amt_value (mt_amount t) → cost = price).
Proof.
  intros Hs [_ _ [Hv _] Hpos] Hb price q. pose proof (sells_output_quote _ _ _ _ _ None ts Hs) as Hq. cbn in Hq. fold price q in Hq.
  assert (is_u64 b) by (unfold is_u64 in *; lia). destruct Hs as [_ Hwf _ Hin _ _ _ _].
  pose proof (counter_tokens_cost_eq None sci (Some ts) q b Hwf Hq ltac:(done) Hpos) as Hcost.
  rewrite (proj2 (range_contains_true _ _)) in Hcost by (cbn; lia). eexists. split; [exact Hcost|].
  assert (offered q = amt_value (mt_amount t)) as -> by (unfold offered; cbn; by rewrite Hin).
  change (q_max_counter_tokens q) with price. set (v := amt_value (mt_amount t)) in *.
  pose proof (Z.mul_div_le (price * b) v Hpos). pose proof (Z.mul_succ_div_gt (price * b) v Hpos).
  pose proof (scale_range rate). assert (0 < 10 ^ scale rate) as Hp by (apply pow10_pos; lia).
  destruct (div_up_spec (v * mantissa rate) (10 ^ scale rate) Hp) as [_ Hup]. fold (at_rate v rate) in Hup. fold price in Hup.
  split_and!; [lia| |intros ->; by rewrite Z.div_mul by lia].
  set (k := price * b / v) in *. set (e := 10 ^ scale rate) in *. apply (Zmult_lt_reg_r _ _ v); [done|].
  assert (b * (v * mantissa rate) ≤ b * (price * e)) by (apply Z.mul_le_mono_nonneg_l; lia).
  assert (price * b * e < v * Z.succ k * e) by (apply Z.mul_lt_mono_pos_r; lia). lia.
Qed.

(** C30: what the bot offers.  For an output of its account in the ledger, of a
    token it sells at a positive rate, with a generator that gives enough
    different ring members, the bot makes an SCI that is valid, that becomes a
    quote for the whole output or any part of it, and that the synchronized
    book of a DEQS with the same ledger accepts while the output is unspent.
    The whole output costs the configured rate, rounded up to a token; a part
    costs at most its share of that, and less than one token below the rate.
    When that price is not a 64-bit number, no SCI is made and the error says
    so.  All this holds where the value times the mantissa of the rate is below
    2^96, so that the decimal product is exact: always, if the mantissa is below
    2^32.  Beyond, the product is rounded, or panics, and then the bot does. *)
Theorem bot_sells_at_rate fuel pairs ledger_db n t rng counter rate now ts :
  pairs !! amt_token_id (mt_amount t) = Some (counter, rate) → is_u64 counter →
  matches t (mt_key_image t) → ledger_has ledger_db n t → spread fuel n rng → 0 < mantissa rate →
  let v := amt_value (mt_amount t) in
  let price := at_rate v rate in
  let r := create_pending_tx_out (P:=P) (IC:=IC) (B:=B) fuel pairs ledger_db t rng in
  (price - 1) * 10 ^ scale rate < v * mantissa rate ≤ price * 10 ^ scale rate ∧
  (mantissa rate < 2 ^ 32 → v * mantissa rate < 2 ^ 96) ∧
  if 2 ^ 96 <=? v * mantissa rate then
    ∀ p, decimal_mul (decimal_from_u64 v) rate = Panic p → r.1 = Panic p
  else if bool_decide (is_u64 price) then
    ∃ sci q, r.1 = Ok {| p_matched_tx_out := t; p_sci := sci |} ∧ quote_new now sci (Some ts) = Ok q ∧
      q_pair q = {| base_token_id := amt_token_id (mt_amount t); counter_token_id := counter |} ∧
      q_base_range q = (0, v) ∧ quote_key_image q = mt_key_image t ∧
      (∀ blocks, num_blocks ledger_db = Ok blocks → contains_key_image (mt_key_image t) ledger_db = Ok false →
         check_quote ledger_db q = Ok tt) ∧
      (∀ b, 0 ≤ b ≤ v → ∃ cost, counter_tokens_cost q b = Ok cost ∧
         cost * v ≤ price * b ∧ b * mantissa rate < (cost + 1) * 10 ^ scale rate ∧ (b = v → cost = price))
  else
    r.1 = Err (Failed (DecimalConversion ("Could not convert " +:+ pretty v +:+ " times " +:+ decimal_display rate +:+ " to u64"))).
Proof.
  intros Hpair Hcu Hm Hl Hs Hrate v price r. pose proof Hm as [_ _ [Hv _] Hpos].
  pose proof (scale_range rate). assert (0 < 10 ^ scale rate) as Hp by (apply pow10_pos; lia).
  split; [exact (div_up_spec (v * mantissa rate) _ Hp)|]. fold v in Hv, Hpos.
  split; [intros; unfold is_u64, U64_MOD in Hv; change (2 ^ 96) with (2 ^ 64 * 2 ^ 32); nia|].
  destruct (Z.leb_spec (2 ^ 96) (v * mantissa rate)) as [_|Hfit].
  { intros p Hmul. unfold r, create_pending_tx_out, counter_amount_at, st_bind, st_lift. rewrite Hpair. cbn [ok_or].
    fold v. by rewrite Hmul. }
  case_bool_decide as Hu.
  - destruct (create_pending_returns fuel pairs ledger_db n t (mt_key_image t) rng counter rate) as (sci & rng' & Hr & Hsell); [done..|].
    exists sci, (quote_on_terms sci counter (0, v) price ts). unfold r. rewrite Hr.
    split_and!; [done|exact (sells_output_quote _ _ _ _ _ now ts Hsell)| |done| | |].
    + cbn. by rewrite (so_input _ _ _ _ _ Hsell).
    + exact (so_key_image _ _ _ _ _ Hsell).
    + intros blocks Hn Hun. exact (sells_output_checks _ _ _ _ _ ts blocks Hsell Hn Hun).
    + intros b Hb. exact (sells_output_cost ledger_db t (mt_key_image t) rate counter sci ts b Hsell Hm Hb).
  - unfold r, create_pending_tx_out, st_bind, st_lift. rewrite Hpair. cbn [ok_or].
    rewrite counter_amount_at_rate, bool_decide_eq_false_2 by (done || rewrite Z.abs_eq by (unfold is_u64 in *; nia); done). done.
Qed.
End Offer.

(** * The theorem on an example *)

Module BotOffersExamples.
Import Sample SampleLedger WalletExamples BotExamples.

(** A mantissa and a number of decimals. *)
Abbreviation Dec := (Z * nat)%type.
Definition dec_scale (d : Dec) : Z := Z.min 28 (Z.of_nat d.2).

#[export] Instance dec_decimal : Decimal Dec := {|
  decimal_from_u64 z := (z, 0%nat);
  decimal_mul a b :=
    if bool_decide (Z.abs (a.1 * b.1) < 2 ^ 96 ∧ dec_scale a + dec_scale b ≤ 28)
    then Ok (a.1 * b.1, Z.to_nat (dec_scale a + dec_scale b)) else Panic "Multiplication overflowed";
  decimal_ceil d := (div_up d.1 (10 ^ dec_scale d), 0%nat);
  decimal_to_u64 d :=
    let c := d.1 / 10 ^ dec_scale d in if bool_decide (is_u64 c) then Some c else None;
  decimal_display d := pretty d.1 +:+ "e-" +:+ pretty d.2;
|}.

#[export] Program Instance dec_laws : DecimalLaws Dec := {| mantissa d := d.1; scale := dec_scale |}.
Next Obligation. intros d. unfold dec_scale. lia. Qed.
Next Obligation. done. Qed.
Next Obligation.
  intros a b Hm Hs. cbn [decimal_mul dec_decimal]. rewrite bool_decide_eq_true_2 by done. eexists. split; [done|].
  cbn [fst]. f_equal. f_equal. unfold dec_scale in *. cbn [snd]. lia.
Qed.
Next Obligation.
  intros d. exists (div_up d.1 (10 ^ dec_scale d)). split.
  - change (dec_scale (decimal_ceil d)) with 0. rewrite Z.pow_0_r, Z.mul_1_r. done.
  - apply div_up_spec, Z.pow_pos_nonneg; unfold dec_scale; lia.
Qed.
Next Obligation.
  intros d c Hc. cbn in *. rewrite Hc, Z.div_mul; [done|].
  apply Z.pow_nonzero; unfold dec_scale; lia.
Qed.

(** Proofs are the indices they are for. *)
#[export] Instance indexed_tx_outs : LedgerTxOuts Chain Z := {|
  num_txos l := Ok (Z.of_nat (length (l ≫= bc_outputs)));
  get_tx_out_index_by_public_key k l :=
    ok_or ((λ x, Z.of_nat x.1) <$> list_find (λ t, txo_public_key t = k) (l ≫= bc_outputs)) NotFound;
  get_tx_out_proof_of_memberships l _ := Ok l;
|}.

(** The sample account owns every output, of ten tokens 1 each. *)
Record Credentials := { cr_real : TxOut * Z; cr_members : list (Z * TxOut) }.
Record Builder := { bu_input : Credentials; bu_partial : list Amount; bu_change : option Amount }.

Definition built (b : Builder) (a : Amount) : SignedContingentInput := {|
  pseudo_output_amount := amount 10 1;
  required_output_amounts := [];
  tx_in := {|
    ring := (cr_members (bu_input b)).*2;
    input_rules := Some {|
      required_outputs := [];
      partial_fill_outputs := [{| rto_tx_out := tx_out 0; rto_secret := [amt_value a; amt_token_id a] |}];
      partial_fill_change := Some {| rto_tx_out := tx_out 1; rto_secret := [10; 1] |};
      min_partial_fill_value := 0;
      max_tombstone_block := 0;
    |} |};
  tx_out_global_indices := (cr_members (bu_input b)).*1;
  sci_signature := take 1 (txo_public_key (cr_real (bu_input b)).1);
|}.

#[export] Instance indexed_building : SciBuilding Z Z Credentials Builder := {|
  gen_range n r := (r mod n, r + 1);
  input_credentials_new ring proofs i subaddress :=
    match ring !! Z.to_nat i with
    | Some t => Ok {| cr_real := (t, subaddress); cr_members := zip proofs ring |}
    | None => Err (TxBuilder "InvalidRingSize")
    end;
  sci_builder_new ic := Ok {| bu_input := ic; bu_partial := []; bu_change := None |};
  add_partial_fill_output a b :=
    st_ret {| bu_input := bu_input b; bu_partial := bu_partial b ++ [a]; bu_change := bu_change b |};
  add_partial_fill_change_output a b :=
    st_ret {| bu_input := bu_input b; bu_partial := bu_partial b; bu_change := Some a |};
  sci_build b := st_lift match bu_partial b with [a] => Ok (built b a) | _ => Err (SciBuilder "outputs") end;
|}.

#[export] Program Instance indexed_laws : SciBuildingLaws Z Z Credentials Builder := {|
  committed _ := amount 10 1;
  own_key_image t _ := Some (take 1 (txo_public_key t));
  own_output _ := True;
  proof_index p := p;
  ic_real := cr_real; ic_members := cr_members;
  builder_input := bu_input; builder_partial := bu_partial; builder_change := bu_change;
|}.
Next Obligation. intros n r Hn. by apply Z.mod_pos_bound. Qed.
Next Obligation.
  intros ring proofs i t subaddress Hi Ht Hlen. cbn. rewrite Ht. eexists. split_and!; [done..|].
  cbn. by rewrite list_fmap_id.
Qed.
Next Obligation. intros ic. by eexists. Qed.
Next Obligation. intros a b rng _ _. by eexists _, _. Qed.
Next Obligation. intros a b rng _ _ _. by eexists _, _. Qed.
Next Obligation.
  intros b rng t subaddress key_image a Hreal [= <-] Ha Hp Hc. cbn. rewrite Hp.
  eexists (built b a), rng, _, _, [], _, []. split_and!; try done.
  - cbn. unfold built. cbn. rewrite Hreal. cbn. by destruct (txo_public_key t) as [|? []].
  - cbn. unfold reveal. cbn. rewrite bool_decide_eq_true_2 by exact Ha. by destruct a.
Qed.

(** One and a quarter of token 2 for one of token 1. *)
Definition quarter_pairs : gmap Z (Z * Dec) := {[ 1 := (2, (125, 2%nat)) ]}.

Lemma ledger_12_has : ledger_has (P:=Z) (IC:=Credentials) (B:=Builder) ledger_12 12 (matched 0 4).
Proof.
  split.
  - done.
  - exists 4. split_and!; [by vm_compute|lia|lia|by vm_compute].
  - intros i Hi. cbn [get_tx_out_by_index sample_ledger].
    destruct ((ledger_12 ≫= bc_outputs) !! Z.to_nat i) as [o|] eqn:E; [by exists o|].
    apply lookup_ge_None in E. change (length (ledger_12 ≫= bc_outputs)) with 12%nat in E. lia.
  - intros l _. exists l. split; [done|]. apply list_fmap_id.
Qed.

(** Ten tokens 1 cost thirteen of token 2, and four of them five. *)
Lemma bot_sells_at_rate_witness :
  at_rate 10 ((125, 2%nat) : Dec) = 13 ∧
  ∃ sci q, (create_pending_tx_out (P:=Z) (IC:=Credentials) (B:=Builder) 20 quarter_pairs ledger_12 (matched 0 4) 0).1 =
             Ok {| p_matched_tx_out := matched 0 4; p_sci := sci |} ∧
    quote_new None sci (Some 5) = Ok q ∧ check_quote ledger_12 q = Ok tt ∧
    counter_tokens_cost q 4 = Ok 5 ∧ counter_tokens_cost q 10 = Ok 13.
Proof.
  split; [by vm_compute|].
  destruct (bot_sells_at_rate (R:=Z) (P:=Z) (IC:=Credentials) (B:=Builder) 20 quarter_pairs ledger_12 12 (matched 0 4) 0
              2 (125, 2%nat) None 5) as (_ & _ & Hs).
  - done.
  - done.
  - split; done.
  - exact ledger_12_has.
  - split; [done|]. by vm_compute; lia.
  - done.
  - destruct Hs as (sci & q & Hr & Hq & _ & _ & _ & Hchk & Hcost). exists sci, q.
    split_and!; [done|done|by apply (Hchk 1)| |].
    + destruct (Hcost 4) as (c & Hc & H1 & H2 & _); [cbn; lia|]. rewrite Hc. f_equal. change (amt_value (mt_amount (matched 0 4))) with 10 in *.
      change (at_rate 10 ((125, 2%nat) : Dec)) with 13 in *. change (10 ^ scale ((125, 2%nat) : Dec)) with 100 in *. cbn [mantissa dec_laws fst] in H2. lia.
    + destruct (Hcost 10) as (c & Hc & _ & _ & H3); [cbn; lia|]. by rewrite Hc, H3.
Defined.
End BotOffersExamples.
