(* ===== verification/BotTests.v ===== *)
(** The unit tests of the liquidity bot (liquidity-bot/src/lib.rs,
    [mod tests]) as programs: the task of the bot, a test server in the place
    of the DEQS, and a test ledger the bot and the test share. *)

From S2P Require Import Prelude McTypes QuoteApi QuotePricing QuoteBook InMemory SqlTypes Sqlite TestUtils Synchronized ApiConvert ClientService ServerP2P ServerStart TestServer Wallet LiquidityBot BotOffers.

(** The macro [dec!] and the comparison of decimals. *)
Class DecimalLiteral (D : Type) := {
  dec : Z → Z → D;
  decimal_eqb : D → D → bool;
}.

(** The test utilities of the mobilecoin crates.  [E] is the test ledger and
    the generator of the test; outputs are for the default subaddress of the
    bot's account. *)
Class BotTestLib (E L P Acc TIC TB : Type) := {
  env_ledger : E → L;
  initialize_ledger : Z → stateful E string unit;
  get_outputs : list Amount → E → list TxOut * E;
  (** [KeyImage::from(rng.next_u64())] *)
  random_key_image : E → KeyImage * E;
  (** The index and the contents of the new block *)
  add_block_data : list TxOut → list KeyImage → stateful E string (BlockIndex * BlockContents);
  random_account : E → Acc * E;
  credentials_for : Amount → Acc → E → TIC * E;
  membership_proofs : TIC → list P;
  (** [TransactionBuilder], for a fee *)
  txb_new : Amount → outcome string TB;
  txb_add_input : TIC → TB → TB;
  txb_add_output : Amount → Acc → TB → stateful E string TB;
  (** for an SCI with these proofs, and the change it leaves *)
  txb_add_presigned_partial_fill_input : list P → SignedContingentInput → Amount → TB → outcome string TB;
  (** The outputs of the transaction *)
  txb_build : TB → stateful E string (list TxOut);
}.

(** [struct TestContext]; the ledger and the generator are [tc_env]. *)
Record TestContext (A R E : Type) := mk_ctx { tc_task : LiquidityBotTask R (TestClientService A); tc_env : E }.
Arguments mk_ctx {A R E} _ _.
Arguments tc_task {A R E} _.
Arguments tc_env {A R E} _.

(** A client of the test server. *)
#[export] Instance test_client {A} : DeqsClient A (TestClientService A) := {|
  submit_quotes_async req w := let '(r, w) := test_submit_quotes req w in (map_err RpcFailure r, w);
|}.

Definition MOB : TokenId := 0.
Definition MILLIMOB_TO_PICOMOB : Z := 1000000000.

Section Tests.
Context `{McLib} {A D R E P IC B L Acc TIC TB : Type} `{!HashIter Z unit, !AccountKey}.
Context `{!SciApi A, !Decimal D, !DecimalLiteral D, !Ledger L, !LedgerTxOuts L P, !SciBuilding R P IC B, !BotTestLib E L P Acc TIC TB}.
(** The clock in milliseconds and in nanoseconds, at each reading. *)
Variable clock nanos : nat → option Z.
Variable fuel : nat.
Local Abbreviation ctx := (TestContext A R E).
Local Abbreviation test := (stateful ctx BotStop).

(** ** Assertions *)

Definition expect_true {W} (b : bool) : stateful W BotStop unit := st_lift (rust_assert b "assertion failed").
Definition expect_eq {W T} `{EqDecision T} (left right : T) : stateful W BotStop unit :=
  st_lift (rust_assert (bool_decide (left = right)) "assertion failed: `(left == right)`").
(** [assert_matches!] with a pattern for an error *)
Definition expect_err {W T} (m : stateful W BotStop T) (pattern : BotError → bool) : stateful W BotStop unit := λ w,
  match m w with
  | (Err (Failed e), w') => (rust_assert (pattern e) "assertion failed: value does not match", w')
  | (Err Hangs, w') => (Err Hangs, w')
  | (Ok _, w') => (Panic "assertion failed: value does not match", w')
  | (Panic p, w') => (Panic p, w')
  end.
Definition is_grpc (e : BotError) : bool := match e with Grpc _ => true | _ => false end.
Definition is_unknown_token (token_id : TokenId) (e : BotError) : bool :=
  match e with UnknownTokenId err_token_id => bool_decide (err_token_id = token_id) | _ => false end.
Definition is_decimal_conversion (e : BotError) : bool := match e with DecimalConversion _ => true | _ => false end.
Definition unwrap_option {W T} (o : option T) : stateful W BotStop T :=
  st_lift (match o with Some x => Ok x | None => Panic "called `Option::unwrap()` on a `None` value" end).
(** An error of another type is unwrapped. *)
Definition unwrap_result {W Er T} (m : outcome Er T) : stateful W BotStop T :=
  st_lift (match m with Ok x => Ok x | Err _ => Panic "called `Result::unwrap()` on an `Err` value" | Panic p => Panic p end).

(** ** The context *)

Definition in_task {T} (m : stateful (LiquidityBotTask R (TestClientService A)) BotStop T) : test T := λ w,
  let '(r, t) := m (tc_task w) in (r, mk_ctx t (tc_env w)).
Definition in_test_env {T} (m : stateful E string T) : test T := λ w,
  let '(r, e) := m (tc_env w) in
  (match r with Ok x => Ok x | Err e => Panic e | Panic p => Panic p end, mk_ctx (tc_task w) e).

Definition default_pairs : list (TokenId * TokenId * D) := [(MOB, 1, dec 5 1); (1, MOB, dec 30 1)].
(** The table of the task, by base token. *)
Definition pairs_table (pairs : list (TokenId * TokenId * D)) : gmap TokenId (TokenId * D) :=
  fold_left (λ m '(base_token, counter_token, rate), <[base_token := (counter_token, rate)]> m) pairs ∅.

(** [TestContext::new], over an empty ledger. *)
Definition blank_context (rng : R) (env : E) : ctx := mk_ctx (mk_task [] [] rng 0 test_service_new) env.
Definition test_context_new : test unit := in_test_env (initialize_ledger 3).

Definition create_matched_tx_out (amount : Amount) : test MatchedTxOut :=
  outputs <-- in_test_env (from_fun (get_outputs [amount])) ;;
  spent <-- in_test_env (from_fun random_key_image) ;;
  block_data <-- in_test_env (unwrap (add_block_data outputs [spent])) ;;
  tx_out <-- st_lift (vec_index (bc_outputs block_data.2) 0) ;;
  key_image <-- in_test_env (from_fun random_key_image) ;;
  st_ret {| mt_block_index := block_data.1; mt_tx_out := tx_out; mt_amount := amount;
            mt_subaddress_index := 0; mt_key_image := key_image |}.
Definition amount_of (value : Z) (token_id : TokenId) : Amount := {| amt_value := value; amt_token_id := token_id |}.

(** The operations of the task on the ledger of the test. *)
Definition update_pending (matched_tx_outs : list MatchedTxOut) : test bool := λ w,
  in_task (update_pending_tx_outs_from_received_tx_outs (P:=P) (IC:=IC) (B:=B) fuel (pairs_table default_pairs)
             (env_ledger (tc_env w)) matched_tx_outs) w.
Definition create_pending (t : MatchedTxOut) : test PendingTxOut := λ w,
  in_task (with_rng (create_pending_tx_out (P:=P) (IC:=IC) (B:=B) fuel (pairs_table default_pairs) (env_ledger (tc_env w)) t)) w.
Definition submit_pending : test unit := in_task (submit_pending_tx_outs (A:=A) clock).
(** in seconds *)
Definition resubmit (secs : Z) : test unit := in_task (resubmit_listed_tx_outs (A:=A) clock (1000 * secs)).
Definition read_now : test Z := in_task (now_since_epoch clock).

Definition get_pending : test (list PendingTxOut) := reading (λ w, Ok (pending_tx_outs (tc_task w))).
Definition get_listed : test (list ListedTxOut) := reading (λ w, Ok (listed_tx_outs (tc_task w))).
Definition put_listed (l : list ListedTxOut) : test unit := in_task (λ s, (Ok tt, set_listed l s)).
Definition pending_at (idx : nat) : test PendingTxOut := l <-- get_pending ;; st_lift (vec_index l idx).
Definition listed_at (idx : nat) : test ListedTxOut := l <-- get_listed ;; st_lift (vec_index l idx).
Definition set_response (resp : SubmitQuotesResponse A) : test unit :=
  in_task (λ s, (Ok tt, mk_task (pending_tx_outs s) (listed_tx_outs s) (task_rng s) (task_clock s)
                          (set_submit_quotes_response (Ok resp) (task_deqs s)))).
Definition response (entries : list (QuoteStatusCode * ApiQuote A)) : SubmitQuotesResponse A :=
  mk_submit_response entries.*1 ((λ _, "") <$> entries) entries.*2.

(** [Quote::new(sci, None).unwrap()] *)
Definition quote_of (sci : SignedContingentInput) : test Quote :=
  now <-- in_task (λ s, (Ok (nanos (task_clock s)),
                         mk_task (pending_tx_outs s) (listed_tx_outs s) (task_rng s) (S (task_clock s)) (task_deqs s))) ;;
  unwrap_result (quote_new now sci None).

(** ** The tests *)

(** The amount an SCI asks for when it is partially filled. *)
Definition partial_fill_amount (sci : SignedContingentInput) : test Amount :=
  ir <-- unwrap_option (input_rules (tx_in sci)) ;;
  partial_fill_output <-- st_lift (vec_index (partial_fill_outputs ir) 0) ;;
  revealed <-- unwrap_result (reveal_amount partial_fill_output) ;;
  st_ret revealed.1.

Definition expect_pending (idx : nat) (t : MatchedTxOut) (expected_token_id : TokenId) (expected_partial_amount : D) : test unit :=
  p <-- pending_at idx ;;
  expect_eq (p_matched_tx_out p) t ;;;
  let sci := p_sci p in
  expect_true (bool_decide (mt_tx_out t ∈ ring (tx_in sci))) ;;;
  ir <-- unwrap_option (input_rules (tx_in sci)) ;;
  expect_eq (length (partial_fill_outputs ir)) 1%nat ;;;
  amount <-- partial_fill_amount sci ;;
  expect_eq (amt_token_id amount) expected_token_id ;;;
  expect_true (decimal_eqb (decimal_from_u64 (amt_value amount)) expected_partial_amount).

Definition update_pending_tx_outs_from_received_tx_outs_behaves_correctly : test unit :=
  test_context_new ;;;
  pending <-- get_pending ;; expect_eq (length pending) 0%nat ;;;
  t0 <-- create_matched_tx_out (amount_of 100 MOB) ;;
  t1 <-- create_matched_tx_out (amount_of 100 1) ;;
  t2 <-- create_matched_tx_out (amount_of 100 2) ;;
  t3 <-- create_matched_tx_out (amount_of 100 3) ;;
  added <-- unwrap (update_pending [t0; t1; t2; t3]) ;; expect_true added ;;;
  pending <-- get_pending ;; expect_eq (length pending) 2%nat ;;;
  expect_pending 0 t0 1 (dec 50 0) ;;;
  expect_pending 1 t1 0 (dec 300 0) ;;;
  orig_pending_tx_outs <-- get_pending ;;
  added <-- unwrap (update_pending [t2; t3]) ;; expect_true (negb added) ;;;
  pending <-- get_pending ;; expect_eq pending orig_pending_tx_outs.

Definition submit_pending_tx_outs_behaves_correctly : test unit :=
  test_context_new ;;;
  t0 <-- create_matched_tx_out (amount_of 100 MOB) ;;
  t1 <-- create_matched_tx_out (amount_of 100 1) ;;
  added <-- unwrap (update_pending [t0; t1]) ;; expect_true added ;;;
  orig_pending_tx_outs <-- get_pending ;;
  expect_err submit_pending is_grpc ;;;
  pending <-- get_pending ;; expect_eq pending orig_pending_tx_outs ;;;
  set_response (response [(QUOTE_IS_STALE, api_quote_default); (INVALID_SCI, api_quote_default)]) ;;;
  unwrap submit_pending ;;;
  pending <-- get_pending ;; expect_eq pending [] ;;;
  listed <-- get_listed ;; expect_eq listed [] ;;;
  added <-- unwrap (update_pending [t0; t1]) ;; expect_true added ;;;
  mtxo <-- create_matched_tx_out (amount_of 100 1) ;;
  ptxo <-- unwrap (create_pending mtxo) ;;
  p0 <-- pending_at 0 ;; quote1 <-- quote_of (p_sci p0) ;;
  quote2 <-- quote_of (p_sci ptxo) ;;
  set_response (response [(CREATED, quote_to_api quote1); (QUOTE_ALREADY_EXISTS, quote_to_api quote2)]) ;;;
  unwrap submit_pending ;;;
  pending <-- get_pending ;; expect_eq pending [] ;;;
  listed <-- get_listed ;; expect_eq (length listed) 2%nat ;;;
  l0 <-- listed_at 0 ;; expect_eq (l_matched_tx_out l0) t0 ;;; expect_eq (l_quote l0) quote1 ;;;
  l1 <-- listed_at 1 ;; expect_eq (l_matched_tx_out l1) t1 ;;; expect_eq (l_quote l1) quote2.

(** An entry of [listed_tx_outs] for an SCI, made now. *)
Definition list_offer (mtxo : MatchedTxOut) (sci : SignedContingentInput) : test ListedTxOut :=
  quote <-- quote_of sci ;; now <-- read_now ;;
  st_ret {| l_matched_tx_out := mtxo; l_quote := quote; l_last_submitted_at := now |}.
Definition list_new (mtxo : MatchedTxOut) : test ListedTxOut :=
  ptxo <-- unwrap (create_pending mtxo) ;; list_offer mtxo (p_sci ptxo).

Definition update_pending_tx_outs_from_received_tx_outs_ignores_duplicates : test unit :=
  test_context_new ;;;
  t0 <-- create_matched_tx_out (amount_of 100 MOB) ;;
  t1 <-- create_matched_tx_out (amount_of 100 MOB) ;;
  added <-- unwrap (update_pending [t0; t1]) ;; expect_true added ;;;
  pending <-- get_pending ;; expect_eq (length pending) 2%nat ;;;
  orig_pending_tx_outs <-- get_pending ;;
  added <-- unwrap (update_pending [t0; t1]) ;; expect_true (negb added) ;;;
  pending <-- get_pending ;; expect_eq orig_pending_tx_outs pending ;;;
  t2 <-- create_matched_tx_out (amount_of 100 MOB) ;;
  t3 <-- create_matched_tx_out (amount_of 100 MOB) ;;
  added <-- unwrap (update_pending [t2; t3]) ;; expect_true added ;;;
  pending <-- get_pending ;; expect_eq (length pending) 4%nat ;;;
  t4 <-- create_matched_tx_out (amount_of 100 MOB) ;;
  t5 <-- create_matched_tx_out (amount_of 100 MOB) ;;
  l4 <-- list_new t4 ;; l5 <-- list_new t5 ;;
  put_listed [l4; l5] ;;;
  orig_pending_tx_outs <-- get_pending ;;
  added <-- unwrap (update_pending [t4; t5]) ;; expect_true (negb added) ;;;
  pending <-- get_pending ;; expect_eq orig_pending_tx_outs pending.

(** [listed_tx_outs[idx].last_submitted_at = f(..)] *)
Definition with_submitted_at (at_ : Z) (l : ListedTxOut) : ListedTxOut :=
  {| l_matched_tx_out := l_matched_tx_out l; l_quote := l_quote l; l_last_submitted_at := at_ |}.
Definition change_submitted_at (idx : nat) (f : Z → Z) : test unit :=
  l <-- get_listed ;; x <-- listed_at idx ;;
  put_listed (<[idx := with_submitted_at (f (l_last_submitted_at x)) x]> l).
(** [-= Duration::from_secs(20).as_millis() as u64] *)
Definition backdate (idx : nat) : test unit := change_submitted_at idx (λ t, u64_sub t 20000).

(** The first listed output, after a resubmission that renewed it. *)
Definition expect_renewed (now : Z) (quote : Quote) : test unit :=
  listed <-- get_listed ;; expect_eq (length listed) 1%nat ;;;
  l <-- listed_at 0 ;; expect_true (now <=? l_last_submitted_at l) ;;;
  expect_eq (l_quote l) quote.

(** The first part of the test: two listed outputs, of which one gets due
    while the DEQS cannot be reached. *)
Definition resubmit_when_unavailable : test unit :=
  mtxo1 <-- create_matched_tx_out (amount_of 100 MOB) ;;
  mtxo2 <-- create_matched_tx_out (amount_of 100 MOB) ;;
  p1 <-- unwrap (create_pending mtxo1) ;; p2 <-- unwrap (create_pending mtxo2) ;;
  l1 <-- list_offer (p_matched_tx_out p1) (p_sci p1) ;; l2 <-- list_offer (p_matched_tx_out p2) (p_sci p2) ;;
  put_listed [l1; l2] ;;;
  orig_listed_tx_outs <-- get_listed ;;
  unwrap (resubmit 10) ;;;
  listed <-- get_listed ;; expect_eq listed orig_listed_tx_outs ;;;
  backdate 0 ;;;
  orig_listed_tx_outs <-- get_listed ;;
  expect_err (resubmit 10) is_grpc ;;;
  listed <-- get_listed ;; expect_eq (length listed) 2%nat ;;;
  x <-- listed_at 0 ;; y <-- st_lift (vec_index orig_listed_tx_outs 1) ;; expect_eq x y ;;;
  x <-- listed_at 1 ;; y <-- st_lift (vec_index orig_listed_tx_outs 0) ;; expect_eq x y.

(** The second part: the one that is due, and the answers of the DEQS. *)
Definition resubmit_answered : test unit :=
  listed <-- get_listed ;; put_listed (delete 0%nat listed) ;;;
  l <-- listed_at 0 ;; set_response (response [(QUOTE_ALREADY_EXISTS, quote_to_api (l_quote l))]) ;;;
  orig_listed_tx_outs <-- get_listed ;;
  unwrap (resubmit 10) ;;;
  listed <-- get_listed ;; expect_true (bool_decide (listed ≠ orig_listed_tx_outs)) ;;;
  orig <-- st_lift (vec_index orig_listed_tx_outs 0) ;;
  change_submitted_at 0 (λ _, l_last_submitted_at orig) ;;;
  listed <-- get_listed ;; expect_eq listed orig_listed_tx_outs ;;;
  mtxo <-- create_matched_tx_out (amount_of 100 MOB) ;;
  ptxo <-- unwrap (create_pending mtxo) ;; quote <-- quote_of (p_sci ptxo) ;;
  set_response (response [(QUOTE_ALREADY_EXISTS, quote_to_api quote)]) ;;;
  now <-- read_now ;; unwrap (resubmit 10) ;;; expect_renewed now quote ;;;
  l <-- listed_at 0 ;; set_response (response [(CREATED, quote_to_api (l_quote l))]) ;;;
  backdate 0 ;;;
  now <-- read_now ;; unwrap (resubmit 10) ;;; expect_renewed now quote ;;;
  set_response (response [(QUOTE_IS_STALE, api_quote_default)]) ;;;
  backdate 0 ;;;
  unwrap (resubmit 10) ;;;
  listed <-- get_listed ;; expect_eq (length listed) 0%nat.

Definition resubmit_listed_tx_outs_behaves_correctly : test unit :=
  test_context_new ;;; resubmit_when_unavailable ;;; resubmit_answered.

Definition create_pending_tx_out_errors_on_unconfigured_token : test unit :=
  test_context_new ;;;
  mtxo <-- create_matched_tx_out (amount_of 100 123) ;;
  expect_err (create_pending mtxo) (is_unknown_token 123).

(** One round of the loops over values. *)
Definition expect_swap (token_id counter_token_id : TokenId) (values : Z * Z) : test unit :=
  mtxo <-- create_matched_tx_out (amount_of values.1 token_id) ;;
  ptxo <-- unwrap (create_pending mtxo) ;;
  amount <-- partial_fill_amount (p_sci ptxo) ;;
  expect_eq amount (amount_of values.2 counter_token_id).
Fixpoint for_each {W T} (f : T → stateful W BotStop unit) (l : list T) : stateful W BotStop unit :=
  match l with [] => st_ret tt | x :: l => f x ;;; for_each f l end.

Definition create_pending_tx_out_calculates_correct_swap_rate : test unit :=
  test_context_new ;;;
  for_each (expect_swap MOB 1) [(99, 50); (100, 50); (101, 51); (2, 1); (1, 1); (U64_MAX, U64_MAX / 2 + 1)] ;;;
  for_each (expect_swap 1 MOB) [(1, 3); (100, 300)] ;;;
  mtxo <-- create_matched_tx_out (amount_of U64_MAX 1) ;;
  expect_err (create_pending mtxo) is_decimal_conversion.

Definition mob_value_offered : Z := 1000 * MILLIMOB_TO_PICOMOB.

(** The start of the last two tests: the bot lists one output. *)
Definition list_one_output : test MatchedTxOut :=
  mtxo <-- create_matched_tx_out (amount_of mob_value_offered MOB) ;;
  added <-- unwrap (update_pending [mtxo]) ;; expect_true added ;;;
  p <-- pending_at 0 ;; quote <-- quote_of (p_sci p) ;;
  set_response (response [(CREATED, quote_to_api quote)]) ;;;
  unwrap submit_pending ;;;
  pending <-- get_pending ;; expect_eq pending [] ;;;
  listed <-- get_listed ;; expect_eq (length listed) 1%nat ;;;
  l <-- listed_at 0 ;; expect_eq (l_matched_tx_out l) mtxo ;;;
  st_ret mtxo.

Definition unlist_spend_tx_outs_behaves_correctly : test unit :=
  test_context_new ;;;
  mtxo <-- list_one_output ;;
  orig_listed_tx_outs <-- get_listed ;;
  mtxo2 <-- create_matched_tx_out (amount_of 100 MOB) ;;
  unlisted <-- in_task (unlist_spent_tx_outs [mtxo2]) ;; expect_eq unlisted [] ;;;
  listed <-- get_listed ;; expect_eq listed orig_listed_tx_outs ;;;
  unlisted <-- in_task (unlist_spent_tx_outs [mtxo]) ;; expect_eq unlisted orig_listed_tx_outs ;;;
  listed <-- get_listed ;; expect_eq listed [].

(** A transaction of somebody else that takes a quarter of the offer: its
    outputs. *)
Definition consume_quarter (sci : SignedContingentInput) : test (list TxOut) :=
  counterparty <-- in_test_env (from_fun random_account) ;;
  let mob_amount_to_consume := mob_value_offered / 4 in
  input_credentials <-- in_test_env (from_fun (credentials_for (amount_of (mob_amount_to_consume / 2) 1) counterparty)) ;;
  let proofs := membership_proofs input_credentials in
  builder <-- unwrap_result (txb_new (amount_of 0 MOB)) ;;
  let builder := txb_add_input input_credentials builder in
  builder <-- in_test_env (unwrap (txb_add_output (amount_of mob_amount_to_consume MOB) counterparty builder)) ;;
  builder <-- unwrap_result (txb_add_presigned_partial_fill_input proofs sci
               (amount_of (mob_value_offered - mob_amount_to_consume) MOB) builder) ;;
  in_test_env (unwrap (txb_build builder)).

(** The subaddresses of an account: the default one and the one for change. *)
Definition spsk_table : gmap bytes Z := default_spsk_to_index_map 0 (U64_MAX - 1).

Definition look_for_fulfilled_scis_identifies_consumed_scis : test unit :=
  test_context_new ;;;
  mtxo <-- list_one_output ;;
  listed_tx_out <-- listed_at 0 ;;
  fulfilled <-- unwrap (st_lift (look_for_fulfilled_scis [listed_tx_out] [])) ;; expect_eq fulfilled [] ;;;
  outputs <-- consume_quarter (q_sci (l_quote listed_tx_out)) ;;
  matched_tx_outs <-- unwrap_result (scan_outputs spsk_table 100 outputs) ;;
  fulfilled_scis <-- unwrap (st_lift (look_for_fulfilled_scis [listed_tx_out] matched_tx_outs)) ;;
  expect_eq (length fulfilled_scis) 1%nat ;;;
  fulfilled_sci <-- st_lift (vec_index fulfilled_scis 0) ;;
  expect_eq (fs_listed_tx_out fulfilled_sci) listed_tx_out ;;;
  expect_eq (mt_amount (fs_received_counter_output fulfilled_sci)) (amount_of (mob_value_offered / 4 / 2) 1) ;;;
  change_output <-- unwrap_option (fs_received_base_change_output fulfilled_sci) ;;
  expect_eq (mt_amount change_output) (amount_of (mob_value_offered * 3 / 4) MOB).
End Tests.

(** * What the test utilities promise *)

Class DecimalLiteralLaws (D : Type) `{!Decimal D, !DecimalLaws D, !DecimalLiteral D} : Prop := {
  dec_ok m s : Z.abs m < 2 ^ 96 → 0 ≤ s ≤ 28 → mantissa (dec m s) = m ∧ scale (dec m s) = s;
  decimal_eqb_ok a b :
    decimal_eqb a b = bool_decide (mantissa a * 10 ^ scale b = mantissa b * 10 ^ scale a);
}.

(** The terms a transaction builder has collected. *)
Record TxTerms (Acc : Type) := mk_terms {
  tt_fee : Amount;
  tt_inputs : list Amount;
  tt_outputs : list (Amount * Acc);
  tt_fills : list (SignedContingentInput * Amount);
}.
Arguments mk_terms {Acc} _ _ _ _.
Arguments tt_fee {Acc} _.
Arguments tt_inputs {Acc} _.
Arguments tt_outputs {Acc} _.
Arguments tt_fills {Acc} _.

(** What the amounts of a token sum up to. *)
Definition total (token_id : TokenId) (l : list Amount) : Z :=
  foldr (λ a n, (if bool_decide (amt_token_id a = token_id) then amt_value a else 0) + n) 0 l.

Class BotTestLaws `{McLib} (R P IC B E L Acc TIC TB : Type) `{!AccountKey, !SciBuilding R P IC B, !SciBuildingLaws R P IC B,
    !Ledger L, !LedgerTxOuts L P, !BotTestLib E L P Acc TIC TB} := {
  (** the ledger was just created; it is in order *)
  env_blank : E → Prop;
  env_wf : E → Prop;
  env_outputs : E → list TxOut;
  (** the random key images so far *)
  env_key_images : E → list KeyImage;
  same_env (e e' : E) : Prop := env_wf e' ∧ env_ledger e' = env_ledger e ∧ env_outputs e' = env_outputs e ∧
                                env_key_images e' = env_key_images e;
  env_num e : env_wf e → num_txos (P:=P) (env_ledger e) = Ok (Z.of_nat (length (env_outputs e)));
  env_index e i o : env_wf e → env_outputs e !! i = Some o →
    get_tx_out_index_by_public_key (P:=P) (txo_public_key o) (env_ledger e) = Ok (Z.of_nat i) ∧
    get_tx_out_by_index (Z.of_nat i) (env_ledger e) = Ok o;
  env_proofs e l : env_wf e → Forall (λ i, 0 ≤ i < Z.of_nat (length (env_outputs e))) l → ∃ proofs,
    get_tx_out_proof_of_memberships (P:=P) l (env_ledger e) = Ok proofs ∧ proof_index <$> proofs = l;
  initialize_ok e : env_blank e → ∃ e', initialize_ledger 3 e = (Ok tt, e') ∧ env_wf e' ∧
    (RING_SIZE ≤ length (env_outputs e'))%nat;
  get_outputs_ok amounts e : env_wf e → Forall amount_wf amounts → ∃ outputs e', get_outputs amounts e = (outputs, e') ∧ same_env e e' ∧
    Forall2 (λ a o, committed o = a ∧ ∃ k, own_key_image o 0 = Some k) amounts outputs ∧
    NoDup (txo_public_key <$> env_outputs e ++ outputs);
  random_key_image_ok e : env_wf e → ∃ k e', random_key_image e = (k, e') ∧ env_wf e' ∧
    env_ledger e' = env_ledger e ∧ env_outputs e' = env_outputs e ∧
    k ∉ env_key_images e ∧ env_key_images e' = k :: env_key_images e;
  add_block_ok outputs ks e : env_wf e → NoDup (txo_public_key <$> env_outputs e ++ outputs) → ∃ index e',
    add_block_data outputs ks e = (Ok (index, {| bc_key_images := ks; bc_outputs := outputs |}), e') ∧
    env_wf e' ∧ env_outputs e' = env_outputs e ++ outputs ∧ env_key_images e' = env_key_images e;
  (** An account of somebody else, and a transaction. *)
  other_account : Acc → Prop;
  tic_amount : TIC → Amount;
  txb_terms : TB → TxTerms Acc;
  random_account_ok e : env_wf e → ∃ acc e', random_account e = (acc, e') ∧ other_account acc ∧ same_env e e';
  credentials_ok a acc e : env_wf e → ∃ tic e', credentials_for a acc e = (tic, e') ∧ tic_amount tic = a ∧ same_env e e';
  txb_new_ok fee : ∃ tb, txb_new fee = Ok tb ∧ txb_terms tb = mk_terms fee [] [] [];
  txb_add_input_ok tic tb : let t := txb_terms tb in
    txb_terms (txb_add_input tic tb) = mk_terms (tt_fee t) (tt_inputs t ++ [tic_amount tic]) (tt_outputs t) (tt_fills t);
  txb_add_output_ok a acc tb e : env_wf e → ∃ tb' e', txb_add_output a acc tb e = (Ok tb', e') ∧ same_env e e' ∧
    let t := txb_terms tb in
    txb_terms tb' = mk_terms (tt_fee t) (tt_inputs t) (tt_outputs t ++ [(a, acc)]) (tt_fills t);
  (** What is left must be change of the kind the SCI is for. *)
  txb_add_presigned_ok proofs sci change tb ir ch c bl :
    input_rules (tx_in sci) = Some ir → partial_fill_change ir = Some ch → reveal_amount ch = Ok (c, bl) →
    amt_token_id change = amt_token_id c → min_partial_fill_value ir = 0 → 0 ≤ amt_value change ≤ amt_value c →
    ∃ tb', txb_add_presigned_partial_fill_input proofs sci change tb = Ok tb' ∧ let t := txb_terms tb in
      txb_terms tb' = mk_terms (tt_fee t) (tt_inputs t) (tt_outputs t) (tt_fills t ++ [(sci, change)]);
  (** A transaction that balances is built, with the outputs of the SCI scaled
      to what is taken of it; the bot finds those, and no others. *)
  txb_build_ok tb e sci change ir pf a ch c bl bl' value fill : let t := txb_terms tb in
    env_wf e → tt_fills t = [(sci, change)] → pseudo_output_amount sci = c →
    input_rules (tx_in sci) = Some ir → required_outputs ir = [] → partial_fill_outputs ir = [pf] →
    reveal_amount pf = Ok (a, bl) → partial_fill_change ir = Some ch → reveal_amount ch = Ok (c, bl') →
    own_output (rto_tx_out pf) → own_output (rto_tx_out ch) →
    txo_public_key (rto_tx_out pf) ≠ txo_public_key (rto_tx_out ch) →
    0 < amt_value c → value * amt_value c = amt_value a * (amt_value c - amt_value change) →
    fill = {| amt_value := value; amt_token_id := amt_token_id a |} →
    (∀ token, total token (tt_inputs t ++ [c]) = total token (tt_fee t :: (tt_outputs t).*1 ++ [fill; change])) →
    Forall (λ o, other_account o.2) (tt_outputs t) →
    ∃ outputs theirs counter_out change_out e', txb_build tb e = (Ok outputs, e') ∧
      outputs ≡ₚ counter_out :: change_out :: theirs ∧
      (∀ i, Forall (λ o, view_key_scan i o spsk_table = Ok None) theirs) ∧
      txo_public_key counter_out = txo_public_key (rto_tx_out pf) ∧
      txo_public_key change_out = txo_public_key (rto_tx_out ch) ∧
      (∀ i, ∃ m, view_key_scan i counter_out spsk_table = Ok (Some m) ∧ mt_amount m = fill) ∧
      (∀ i, ∃ m, view_key_scan i change_out spsk_table = Ok (Some m) ∧ mt_amount m = change);
}.

(** * The rules the tests are checked with *)

Section Rules.
Context `{McLib} `{!McLibLaws _} {A D R E P IC B L Acc TIC TB : Type} `{!HashIter Z unit, !AccountKey}.
Context `{!SciApi A, !SciApiLaws A, !Decimal D, !DecimalLaws D, !DecimalLiteral D, !DecimalLiteralLaws D}.
Context `{!Ledger L, !LedgerTxOuts L P, !SciBuilding R P IC B, !SciBuildingLaws R P IC B}.
Context `{!BotTestLib E L P Acc TIC TB, !BotTestLaws R P IC B E L Acc TIC TB}.
Variable clock nanos : nat → option Z.
Variable fuel : nat.
Local Abbreviation ctx := (TestContext A R E).
Local Abbreviation test := (stateful ctx BotStop).
Implicit Types (w : ctx) (t : MatchedTxOut) (p : PendingTxOut) (q : Quote) (ts : list MatchedTxOut).
Implicit Types (pend : list PendingTxOut) (listed : list ListedTxOut) (resp : outcome RpcStatus (SubmitQuotesResponse A)).

(** The test takes less than ten seconds, long after the epoch; the generator
    of the bot yields enough different numbers. *)
Variable start_time : Z.
Hypothesis start_late : 20000 ≤ start_time ∧ start_time + 10000 < U64_MOD.
Hypothesis clock_runs : ∀ n, ∃ now, clock n = Some now ∧ start_time ≤ now < start_time + 10000.
Hypothesis nanos_runs : ∀ n, ∃ now, nanos n = Some now ∧ is_u64 now.
Hypothesis spreads : ∀ n rng, Z.of_nat RING_SIZE ≤ n → spread (P:=P) (IC:=IC) (B:=B) fuel n rng.

(** ** Plumbing *)

Lemma returns_task {T} (m : stateful (LiquidityBotTask R (TestClientService A)) BotStop T) w (Q : T → ctx → Prop) :
  returns m (tc_task w) (λ a s', Q a (mk_ctx s' (tc_env w))) → returns (in_task m) w Q.
Proof. intros (a & s' & Hm & HQ). exists a, (mk_ctx s' (tc_env w)). unfold in_task. by rewrite Hm. Qed.
Lemma returns_test_env {T} (m : stateful E string T) w (Q : T → ctx → Prop) :
  returns m (tc_env w) (λ a e', Q a (mk_ctx (tc_task w) e')) → returns (in_test_env m) w Q.
Proof. intros (a & e' & Hm & HQ). exists a, (mk_ctx (tc_task w) e'). unfold in_test_env. by rewrite Hm. Qed.
Lemma returns_expect_true {T} (b : bool) w (k : test T) Q : b = true → returns k w Q → returns (expect_true b ;;; k) w Q.
Proof. intros -> HQ. apply returns_bind, (returns_lift _ tt); [done|]. exact HQ. Qed.
Lemma returns_expect_eq {T U} `{EqDecision U} (x y : U) w (k : test T) Q : x = y → returns k w Q → returns (expect_eq x y ;;; k) w Q.
Proof. intros -> HQ. apply returns_bind, (returns_lift _ tt); [by rewrite bool_decide_eq_true_2|]. exact HQ. Qed.
Lemma returns_last_eq {U} `{EqDecision U} (x y : U) w (Q : unit → ctx → Prop) : x = y → Q tt w → returns (expect_eq x y) w Q.
Proof. intros -> HQ. apply (returns_lift _ tt); [by rewrite bool_decide_eq_true_2|]. exact HQ. Qed.
Lemma returns_vec {T U} (l : list U) i x w (k : U → test T) Q :
  l !! i = Some x → returns (k x) w Q → returns (x <-- st_lift (vec_index l i) ;; k x) w Q.
Proof. intros Hx HQ. apply returns_bind, (returns_lift _ x); [unfold vec_index; by rewrite Hx|]. exact HQ. Qed.

(** ** The state of a test *)

(** The output of an entry is in the ledger, is the account's and has a key
    image of its own. *)
Definition in_ledger t (e : E) : Prop :=
  (∃ k, matches t k) ∧ mt_tx_out t ∈ env_outputs e ∧ mt_key_image t ∈ env_key_images e.

(** The outputs made so far, the two lists of the bot and the answer the
    server was told to give. *)
Record stands ts pend listed resp w : Prop := {
  st_wf : env_wf (tc_env w);
  st_outputs : (RING_SIZE ≤ length (env_outputs (tc_env w)))%nat;
  st_known : Forall (λ t, in_ledger t (tc_env w)) ts;
  st_nodup : NoDup (mt_key_image <$> ts);
  st_pending : pending_tx_outs (tc_task w) = pend;
  st_listed : listed_tx_outs (tc_task w) = listed;
  st_resp : submit_quotes_response (task_deqs (tc_task w)) = resp;
}.

(** A change of the task that leaves its lists and its client. *)
Lemma stands_task ts pend listed resp w s :
  stands ts pend listed resp w → pending_tx_outs s = pending_tx_outs (tc_task w) →
  listed_tx_outs s = listed_tx_outs (tc_task w) → task_deqs s = task_deqs (tc_task w) →
  stands ts pend listed resp (mk_ctx s (tc_env w)).
Proof. intros [H1 H2 H3 H4 H5 H6 H7] Hp Hl Hd. split; cbn; congruence. Qed.

(** The environment goes on. *)
Lemma stands_env ts pend listed resp w e' :
  stands ts pend listed resp w → env_wf e' → env_outputs (tc_env w) ⊆ env_outputs e' →
  (length (env_outputs (tc_env w)) ≤ length (env_outputs e'))%nat → env_key_images (tc_env w) ⊆ env_key_images e' →
  stands ts pend listed resp (mk_ctx (tc_task w) e').
Proof.
  intros [H1 H2 H3 H4 H5 H6 H7] Hwf Ho Hl Hk. split; cbn; [done|lia| |done..].
  eapply Forall_impl; [exact H3|]. intros t (Hm & Hin & Hki). split; [done|]. split; [by apply Ho|by apply Hk].
Qed.
Lemma stands_same_env ts pend listed resp w e' :
  stands ts pend listed resp w → same_env (tc_env w) e' → stands ts pend listed resp (mk_ctx (tc_task w) e').
Proof. intros Hs (Hwf & _ & Ho & Hk). apply (stands_env _ _ _ _ _ _ Hs Hwf); by rewrite ?Ho, ?Hk. Qed.

Lemma context_new_returns {T} rng e (k : test T) Q :
  env_blank e → (∀ w, stands [] [] [] (Err UNAVAILABLE) w → returns k w Q) →
  returns (test_context_new ;;; k) (blank_context rng e) Q.
Proof.
  intros Hb Hk. destruct (initialize_ok e Hb) as (e' & He & Hwf & Hn). apply returns_bind, returns_test_env.
  exists tt, e'. split; [done|]. apply Hk. split; cbn; try done; constructor.
Qed.

Lemma create_matched_returns {T} a {ts pend listed resp} w (k : MatchedTxOut → test T) Q :
  stands ts pend listed resp w → amount_wf a → 0 < amt_value a →
  (∀ t w', stands (t :: ts) pend listed resp w' → mt_amount t = a → returns (k t) w' Q) →
  returns (t <-- create_matched_tx_out a ;; k t) w Q.
Proof.
  intros Hs Ha Hpos HQ. apply returns_bind. unfold create_matched_tx_out.
  destruct (get_outputs_ok [a] (tc_env w) (st_wf _ _ _ _ _ Hs) (Forall_cons_2 _ _ _ Ha (Forall_nil_2 _))) as (outs & e1 & H1 & Hsame & Hown & Hnd).
  pose proof (stands_same_env _ _ _ _ _ _ Hs Hsame) as Hs1. destruct Hsame as (Hwf1 & _ & Ho1 & _).
  inversion Hown as [|? o ? outs' [Hc [ki Hki]] Hnil]; subst. inversion Hnil; subst. clear Hown Hnil.
  destruct (random_key_image_ok e1 Hwf1) as (k1 & e2 & H2 & Hwf2 & _ & Ho2 & _ & Hk2).
  assert (stands ts pend listed resp (mk_ctx (tc_task w) e2)) as Hs2.
  { apply (stands_env _ _ _ _ _ e2 Hs1); [done|by rewrite Ho2|by rewrite Ho2|rewrite Hk2; apply list_subseteq_cons; done]. }
  destruct (add_block_ok [o] [k1] e2 Hwf2) as (index & e3 & H3 & Hwf3 & Ho3 & Hk3); [by rewrite Ho2, Ho1|].
  assert (stands ts pend listed resp (mk_ctx (tc_task w) e3)) as Hs3.
  { apply (stands_env _ _ _ _ _ e3 Hs2); [done|rewrite Ho3; set_solver|rewrite Ho3, length_app; cbn; lia|by rewrite Hk3]. }
  destruct (random_key_image_ok e3 Hwf3) as (k4 & e4 & H4 & Hwf4 & _ & Ho4 & Hnew & Hk4).
  assert (stands ts pend listed resp (mk_ctx (tc_task w) e4)) as Hs4.
  { apply (stands_env _ _ _ _ _ e4 Hs3); [done|by rewrite Ho4|by rewrite Ho4|rewrite Hk4; apply list_subseteq_cons; done]. }
  apply returns_bind, returns_test_env, returns_fun. rewrite H1. cbn [fst snd].
  apply returns_bind, returns_test_env, returns_fun. cbn [tc_env]. rewrite H2. cbn [fst snd].
  apply returns_bind, returns_test_env, returns_unwrap. eexists _, _. cbn [tc_env]. split; [exact H3|].
  eapply returns_vec; [done|]. apply returns_bind, returns_test_env, returns_fun. cbn [tc_env]. rewrite H4. cbn [fst snd].
  apply returns_ret. cbn [tc_task]. apply HQ; [|done]. destruct Hs4 as [A1 A2 A3 A4 A5 A6 A7]. split; try done.
  - constructor; [|done]. split; [exists ki; by split|]. cbn. rewrite Ho4, Ho3, Hk4. split; set_solver.
  - cbn. constructor; [|done]. intros (t & Heq & Ht)%list_elem_of_fmap. apply Hnew. rewrite Heq.
    pose proof (st_known _ _ _ _ _ Hs3) as Hall. rewrite Forall_forall in Hall. by apply Hall.
Qed.

(** ** Offers *)

(** The price of an amount at the rates of the tests. *)
Definition price_of (a : Amount) : option Amount :=
  if bool_decide (amt_token_id a = 0) then Some (amount_of (div_up (amt_value a * 5) 10) 1)
  else if bool_decide (amt_token_id a = 1) then Some (amount_of (div_up (amt_value a * 30) 10) 0)
  else None.

Local Abbreviation table := (pairs_table (D:=D) default_pairs).

Lemma price_of_rate a price : price_of a = Some price → is_u64 (amt_value a) → 0 < amt_value a →
  ∃ rate, table !! amt_token_id a = Some (amt_token_id price, rate) ∧ is_u64 (amt_token_id price) ∧ 0 < mantissa rate ∧
    amt_value a * mantissa rate < 2 ^ 96 ∧ at_rate (amt_value a) rate = amt_value price.
Proof.
  unfold price_of, is_u64, U64_MOD. intros Hp Hu Hpos. destruct (bool_decide_reflect (amt_token_id a = 0)) as [E0|E0]; [|case_bool_decide as E1; [|done]];
    injection Hp as <-; cbn [amt_token_id amt_value amount_of].
  - exists (dec 5 1). destruct (dec_ok 5 1 ltac:(done) ltac:(done)) as [Hm Hs]. unfold at_rate. rewrite Hm, Hs, E0.
    split_and!; [by simplify_map_eq|done|done|done|lia|done].
  - exists (dec 30 1). destruct (dec_ok 30 1 ltac:(done) ltac:(done)) as [Hm Hs]. unfold at_rate. rewrite Hm, Hs, E1.
    split_and!; [by simplify_map_eq|done|done|done|lia|done].
Qed.
Lemma price_of_none a : price_of a = None → table !! amt_token_id a = None.
Proof.
  unfold price_of. case_bool_decide; [done|]. case_bool_decide; [done|]. intros _. unfold pairs_table, default_pairs, MOB. cbn.
  by rewrite !lookup_insert_ne by congruence.
Qed.

(** A pending output whose SCI asks for the price. *)
Definition offered p t (price : Amount) : Prop :=
  p_matched_tx_out p = t ∧ ∃ (ledger_db : L) k, sells_output ledger_db t k price (p_sci p).

Lemma ledger_has_output t (e : E) : env_wf e → in_ledger t e → ledger_has (P:=P) (IC:=IC) (B:=B) (env_ledger e) (Z.of_nat (length (env_outputs e))) t.
Proof.
  intros Hwf (_ & [i Hi]%list_elem_of_lookup & _). split.
  - by apply env_num.
  - destruct (env_index e i _ Hwf Hi) as [H1 H2]. exists (Z.of_nat i). apply lookup_lt_Some in Hi. split_and!; [done|lia|lia|done].
  - intros j Hj. destruct (lookup_lt_is_Some_2 (env_outputs e) (Z.to_nat j)) as [o Ho]; [lia|]. exists o.
    rewrite <-(Z2Nat.id j) by lia. by eapply env_index.
  - intros l Hl. by apply env_proofs.
Qed.

Lemma create_offered {ts pend listed resp} w t price :
  stands ts pend listed resp w → t ∈ ts → price_of (mt_amount t) = Some price → is_u64 (amt_value price) →
  returns (create_pending_tx_out (P:=P) (IC:=IC) (B:=B) fuel table (env_ledger (tc_env w)) t) (task_rng (tc_task w))
    (λ p _, offered p t price).
Proof.
  intros Hs Ht Hp Hu. pose proof (st_known _ _ _ _ _ Hs) as Hall. rewrite Forall_forall in Hall. specialize (Hall t Ht).
  pose proof Hall as ((ki & Hm) & _ & _). pose proof Hm as [_ _ [Hv _] Hpos].
  destruct (price_of_rate _ _ Hp Hv Hpos) as (rate & Hpair & Hc & Hr & Hfit & Hat).
  destruct (create_pending_returns fuel table (env_ledger (tc_env w)) _ t ki (task_rng (tc_task w)) (amt_token_id price) rate
    Hpair Hc Hm (ledger_has_output t _ (st_wf _ _ _ _ _ Hs) Hall)) as (sci & rng' & Hr' & Hsell); [|done|done|by rewrite Hat|].
  { apply spreads. pose proof (st_outputs _ _ _ _ _ Hs). lia. }
  eexists _, rng'. split; [exact Hr'|]. split; [done|]. eexists _, ki. cbn. rewrite Hat in Hsell. destruct price. exact Hsell.
Qed.

(** [create_pending_tx_out(t).unwrap()] *)
Lemma create_pending_offers {T} t price {ts pend listed resp} w (k : PendingTxOut → test T) Q :
  stands ts pend listed resp w → t ∈ ts → price_of (mt_amount t) = Some price → is_u64 (amt_value price) →
  (∀ p w', stands ts pend listed resp w' → offered p t price → returns (k p) w' Q) →
  returns (p <-- unwrap (create_pending fuel t) ;; k p) w Q.
Proof.
  intros Hs Ht Hp Hu HQ. destruct (create_offered w t price Hs Ht Hp Hu) as (p & rng' & Hr & Ho).
  apply returns_bind, returns_unwrap, returns_task. eexists p, _. unfold with_rng. rewrite Hr. split; [done|].
  apply HQ; [|done]. by apply (stands_task _ _ _ _ _ _ Hs).
Qed.

(** ** The loop over received outputs *)

Definition loop (l : list MatchedTxOut) (added : bool) : test bool := λ w,
  in_task (update_pending_loop (P:=P) (IC:=IC) (B:=B) fuel table (env_ledger (tc_env w)) l added) w.

Lemma loop_skip t l added w :
  price_of (mt_amount t) = None ∨ mt_key_image t ∈ key_image_of_pending <$> pending_tx_outs (tc_task w) ∨
    mt_key_image t ∈ key_image_of_listed <$> listed_tx_outs (tc_task w) →
  loop (t :: l) added w = loop l added w.
Proof.
  intros Hskip. unfold loop, in_task. cbn [update_pending_loop].
  destruct (bool_decide_reflect (table !! amt_token_id (mt_amount t) = None)) as [|Hcfg]; [done|].
  destruct (bool_decide_reflect (mt_key_image t ∈ key_image_of_pending <$> pending_tx_outs (tc_task w))) as [|Hp]; [done|].
  destruct (bool_decide_reflect (mt_key_image t ∈ key_image_of_listed <$> listed_tx_outs (tc_task w))) as [|Hl]; [done|].
  destruct Hskip as [Hn%price_of_none|[?|?]]; done.
Qed.

Lemma loop_new t price l added {ts pend listed resp} w Q :
  stands ts pend listed resp w → t ∈ ts → price_of (mt_amount t) = Some price → is_u64 (amt_value price) →
  mt_key_image t ∉ key_image_of_pending <$> pend → mt_key_image t ∉ key_image_of_listed <$> listed →
  (∀ p w', stands ts (pend ++ [p]) listed resp w' → offered p t price → returns (loop l true) w' Q) →
  returns (loop (t :: l) added) w Q.
Proof.
  intros Hs Ht Hp Hu Hnp Hnl HQ. destruct (create_offered w t price Hs Ht Hp Hu) as (p & rng' & Hr & Ho).
  set (s' := mk_task (pend ++ [p]) listed rng' (task_clock (tc_task w)) (task_deqs (tc_task w))).
  destruct (HQ p (mk_ctx s' (tc_env w))) as (b & w' & Hb & Hq); [|done|].
  { destruct Hs as [H1 H2 H3 H4 H5 H6 H7]. by split. }
  exists b, w'. split; [|done]. rewrite <-Hb. unfold loop, in_task. cbn [update_pending_loop tc_env tc_task].
  rewrite (st_pending _ _ _ _ _ Hs), (st_listed _ _ _ _ _ Hs).
  pose proof (st_known _ _ _ _ _ Hs) as Hall. rewrite Forall_forall in Hall.
  destruct (Hall t Ht) as ((ki & [_ _ [Hv _] Hpos]) & _ & _). destruct (price_of_rate _ _ Hp Hv Hpos) as (rate & Hpair & _).
  rewrite !bool_decide_eq_false_2 by (rewrite ?Hpair; done). unfold st_bind, with_rng. rewrite Hr. cbn [push_pending].
  unfold set_pending. cbn [pending_tx_outs listed_tx_outs task_rng task_clock task_deqs].
  by rewrite (st_pending _ _ _ _ _ Hs), (st_listed _ _ _ _ _ Hs).
Qed.

Lemma loop_end added w (Q : bool → ctx → Prop) : Q added w → returns (loop [] added) w Q.
Proof. intros HQ. exists added, w. split; [|done]. unfold loop, in_task. cbn. by destruct w. Qed.

Lemma update_pending_returns {T} l w (k : bool → test T) Q :
  returns (loop l false) w (λ b w', returns (k b) w' Q) → returns (b <-- unwrap (update_pending (P:=P) (IC:=IC) (B:=B) fuel l) ;; k b) w Q.
Proof. intros HQ. apply returns_bind, returns_unwrap. exact HQ. Qed.

(** ** Reading and setting *)

Lemma returns_pending {T} {ts pend listed resp} w (k : list PendingTxOut → test T) Q :
  stands ts pend listed resp w → returns (k pend) w Q → returns (l <-- get_pending ;; k l) w Q.
Proof. intros Hs HQ. apply returns_bind. exists pend, w. split; [|done]. unfold get_pending, reading. by rewrite (st_pending _ _ _ _ _ Hs). Qed.
Lemma returns_listed {T} {ts pend listed resp} w (k : list ListedTxOut → test T) Q :
  stands ts pend listed resp w → returns (k listed) w Q → returns (l <-- get_listed ;; k l) w Q.
Proof. intros Hs HQ. apply returns_bind. exists listed, w. split; [|done]. unfold get_listed, reading. by rewrite (st_listed _ _ _ _ _ Hs). Qed.
Lemma returns_pending_at {T} i p {ts pend listed resp} w (k : PendingTxOut → test T) Q :
  stands ts pend listed resp w → pend !! i = Some p → returns (k p) w Q → returns (p <-- pending_at i ;; k p) w Q.
Proof.
  intros Hs Hi HQ. apply returns_bind. unfold pending_at. eapply returns_pending; [done|].
  apply (returns_lift _ p); [unfold vec_index; by rewrite Hi|done].
Qed.
Lemma returns_listed_at {T} i (l : ListedTxOut) {ts pend listed resp} w (k : ListedTxOut → test T) Q :
  stands ts pend listed resp w → listed !! i = Some l → returns (k l) w Q → returns (l <-- listed_at i ;; k l) w Q.
Proof.
  intros Hs Hi HQ. apply returns_bind. unfold listed_at. eapply returns_listed; [done|].
  apply (returns_lift _ l); [unfold vec_index; by rewrite Hi|done].
Qed.
Lemma returns_put_listed {T} l {ts pend listed resp} w (k : test T) Q :
  stands ts pend listed resp w → (∀ w', stands ts pend l resp w' → returns k w' Q) → returns (put_listed l ;;; k) w Q.
Proof.
  intros [H1 H2 H3 H4 H5 H6 H7] HQ. apply returns_bind, returns_task. eexists tt, _. split; [done|]. apply HQ. by split.
Qed.
Lemma returns_set_response {T} r {ts pend listed resp} w (k : test T) Q :
  stands ts pend listed resp w → (∀ w', stands ts pend listed (Ok r) w' → returns k w' Q) → returns (set_response r ;;; k) w Q.
Proof.
  intros [H1 H2 H3 H4 H5 H6 H7] HQ. apply returns_bind, returns_task. eexists tt, _. split; [done|]. apply HQ. by split.
Qed.

Definition in_window (now : Z) : Prop := start_time ≤ now < start_time + 10000.
Lemma now_in_window (s : LiquidityBotTask R (TestClientService A)) : ∃ now s', now_since_epoch clock s = (Ok now, s') ∧ in_window now ∧
  pending_tx_outs s' = pending_tx_outs s ∧ listed_tx_outs s' = listed_tx_outs s ∧ task_deqs s' = task_deqs s ∧
  clock (task_clock s) = Some now ∧ task_clock s' = S (task_clock s).
Proof.
  destruct (clock_runs (task_clock s)) as (now & Hnow & Hwin). eexists now, _. unfold now_since_epoch. rewrite Hnow.
  rewrite wrap64_small by (unfold is_u64; lia). split; [done|]. done.
Qed.

(** The readings from the [n]th on are not before [lo]. *)
Definition since (lo : Z) (n : nat) : Prop := ∀ m now, (n ≤ m)%nat → clock m = Some now → lo ≤ now.
Lemma since_start n : since start_time n.
Proof. intros m now _ Hm. destruct (clock_runs m) as (now' & Hm' & Hwin). rewrite Hm in Hm'. injection Hm' as <-. lia. Qed.
Lemma returns_now {T} {ts pend listed resp} w (k : Z → test T) Q :
  stands ts pend listed resp w → (∀ now w', in_window now → stands ts pend listed resp w' → returns (k now) w' Q) →
  returns (now <-- read_now clock ;; k now) w Q.
Proof.
  intros Hs HQ. destruct (now_in_window (tc_task w)) as (now & s' & Hn & Hwin & Hp & Hl & Hd & _).
  apply returns_bind, returns_task. exists now, s'. split; [done|]. apply HQ; [done|]. by apply (stands_task _ _ _ _ _ _ Hs).
Qed.

(** A quote that goes over the wire unchanged. *)
Definition quote_for q (sci : SignedContingentInput) : Prop := q_sci q = sci ∧ length (q_id q) = 32%nat.

Lemma returns_quote_of {T} p t price {ts pend listed resp} w (k : Quote → test T) Q :
  stands ts pend listed resp w → offered p t price →
  (∀ q w', stands ts pend listed resp w' → quote_for q (p_sci p) → returns (k q) w' Q) →
  returns (q <-- quote_of nanos (p_sci p) ;; k q) w Q.
Proof.
  intros Hs (_ & db & ki & Hsell) HQ. destruct (nanos_runs (task_clock (tc_task w))) as (now & Hnow & Hu).
  apply returns_bind, returns_bind, returns_task. eexists _, _. split; [done|].
  pose proof (sells_output_quote _ _ _ _ _ (Some now) now Hsell) as Hq.
  apply (returns_lift _ (quote_on_terms (p_sci p) (amt_token_id price) (0, amt_value (mt_amount t)) (amt_value price) now)).
  { rewrite Hnow. unfold quote_new in *. cbn [default_timestamp ok_or mbind outcome_bind] in *.
    unfold default_timestamp. cbn. rewrite bool_decide_eq_true_2 by done. cbn. unfold quote_new in Hq. cbn in Hq. by rewrite Hq. }
  apply HQ; [by apply (stands_task _ _ _ _ _ _ Hs)|]. split; [done|]. apply digest32_length.
Qed.

(** ** The answers of the server *)

(** The quote an entry of a response makes the bot list, if any. *)
Inductive answered (sci : SignedContingentInput) : QuoteStatusCode * ApiQuote A → option Quote → Prop :=
| answered_created q : quote_for q sci → answered sci (CREATED, quote_to_api q) (Some q)
| answered_exists q sci' : quote_for q sci' → answered sci (QUOTE_ALREADY_EXISTS, quote_to_api q) (Some q)
| answered_stale aq : answered sci (QUOTE_IS_STALE, aq) None
| answered_invalid aq : answered sci (INVALID_SCI, aq) None.

(** What is listed after the answers, by readings of the clock not before
    [lo]. *)
Inductive listed_as (lo : Z) : list (MatchedTxOut * option Quote) → list ListedTxOut → Prop :=
| listed_nil : listed_as lo [] []
| listed_dropped t l new : listed_as lo l new → listed_as lo ((t, None) :: l) new
| listed_new t q now l new : in_window now → lo ≤ now → listed_as lo l new →
    listed_as lo ((t, Some q) :: l) ({| l_matched_tx_out := t; l_quote := q; l_last_submitted_at := now |} :: new).

Section Settle.
Context {X : Type} (matched_of : X → MatchedTxOut) (sci_of : X → SignedContingentInput).
Local Abbreviation task := (LiquidityBotTask R (TestClientService A)).
Variable settle : list (X * QuoteStatusCode * string * ApiQuote A) → stateful task BotStop unit.

(** Both loops list what was accepted and go on. *)
Hypothesis settle_nil : settle [] = st_ret tt.
Hypothesis settle_cons : ∀ x code msg aq rest answer s, answered (sci_of x) (code, aq) answer →
  settle ((x, code, msg, aq) :: rest) s =
  match answer with
  | None => settle rest s
  | Some q =>
      (now <-- now_since_epoch clock ;;
       push_listed {| l_matched_tx_out := matched_of x; l_quote := q; l_last_submitted_at := now |} ;;;
       settle rest) s
  end.

Lemma settle_answers (xs : list (X * (QuoteStatusCode * ApiQuote A) * option Quote)) lo (s : task) :
  Forall (λ x, answered (sci_of x.1.1) x.1.2 x.2) xs → since lo (task_clock s) →
  returns (settle (zip (zip (zip xs.*1.*1 xs.*1.*2.*1) ((λ _, "") <$> xs.*1.*2)) xs.*1.*2.*2)) s (λ _ s', ∃ new,
    listed_tx_outs s' = listed_tx_outs s ++ new ∧ listed_as lo ((λ x, (matched_of x.1.1, x.2)) <$> xs) new ∧
    pending_tx_outs s' = pending_tx_outs s ∧ task_deqs s' = task_deqs s).
Proof.
  intros HF. revert s. induction HF as [|[[x [code aq]] answer] xs Ha _ IH]; intros s Hlo.
  { exists tt, s. split; [by cbn; rewrite settle_nil|]. exists []. rewrite app_nil_r. split; [done|]. split; [constructor|done]. }
  cbn [fst snd fmap list_fmap zip zip_with] in *. unfold returns. rewrite (settle_cons _ _ _ _ _ answer) by done.
  destruct answer as [q|].
  - destruct (now_in_window s) as (now & s1 & Hn & Hwin & Hp & Hl & Hd & Hnow & Hck).
    set (s2 := set_listed (listed_tx_outs s1 ++ [{| l_matched_tx_out := matched_of x; l_quote := q; l_last_submitted_at := now |}]) s1).
    destruct (IH s2) as (u & s' & Hr & new & Hl' & Has & Hp' & Hd').
    { intros m now' Hm. apply Hlo. cbn in Hm. lia. }
    exists u, s'. split.
    { unfold st_bind at 1. rewrite Hn. exact Hr. }
    eexists (_ :: new). rewrite Hl', Hp', Hd'. cbn. rewrite Hl, Hp, Hd, <-app_assoc. split; [done|].
    split; [constructor; [done|by eapply Hlo|done]|done].
  - destruct (IH s Hlo) as (u & s' & Hr & new & Hl' & Has & Hp' & Hd'). exists u, s'. split; [done|]. exists new.
    split; [done|]. split; [by constructor|done].
Qed.
End Settle.

Lemma settle_pending_cons p code msg aq rest answer (s : LiquidityBotTask R (TestClientService A)) :
  answered (p_sci p) (code, aq) answer →
  settle_pending clock ((p, code, msg, aq) :: rest) s =
  match answer with
  | None => settle_pending clock rest s
  | Some q =>
      (now <-- now_since_epoch clock ;;
       push_listed {| l_matched_tx_out := p_matched_tx_out p; l_quote := q; l_last_submitted_at := now |} ;;;
       settle_pending clock rest) s
  end.
Proof.
  inversion 1 as [q [Hq Hid]|q sci' [Hq Hid]| |]; subst; cbn [settle_pending]; [..|done|done];
    unfold quote_try_from; rewrite quote_from_to_api by done; unfold st_bind at 1 2, st_lift; cbn.
  - by rewrite bool_decide_eq_true_2.
  - by case_bool_decide.
Qed.
Lemma settle_listed_cons (l : ListedTxOut) code msg aq rest answer (s : LiquidityBotTask R (TestClientService A)) :
  answered (q_sci (l_quote l)) (code, aq) answer →
  settle_listed clock ((l, code, msg, aq) :: rest) s =
  match answer with
  | None => settle_listed clock rest s
  | Some q =>
      (now <-- now_since_epoch clock ;;
       push_listed {| l_matched_tx_out := l_matched_tx_out l; l_quote := q; l_last_submitted_at := now |} ;;;
       settle_listed clock rest) s
  end.
Proof.
  inversion 1 as [q [Hq Hid]|q sci' [Hq Hid]| |]; subst; cbn [settle_listed]; [..|done|done];
    unfold quote_try_from; rewrite quote_from_to_api by done; unfold st_bind at 1, st_lift; cbn.
  - by rewrite bool_decide_eq_true_2.
  - by case_bool_decide; subst.
Qed.

Lemma response_sane (entries : list (QuoteStatusCode * ApiQuote A)) n :
  length entries = n → sanity_check_submit_quotes_response (response entries) n = Ok tt.
Proof.
  intros <-. unfold sanity_check_submit_quotes_response, response. cbn. by rewrite !length_fmap, !Nat.eqb_refl.
Qed.

(** ** Submitting *)

Lemma test_submit_quotes_spec req (s : LiquidityBotTask R (TestClientService A)) :
  ∃ s', submit_quotes req s = (map_err (λ e, Failed (Grpc (RpcFailure e))) (submit_quotes_response (task_deqs s)), s') ∧
    pending_tx_outs s' = pending_tx_outs s ∧ listed_tx_outs s' = listed_tx_outs s ∧
    submit_quotes_response (task_deqs s') = submit_quotes_response (task_deqs s) ∧ task_clock s' = task_clock s.
Proof.
  exists (mk_task (pending_tx_outs s) (listed_tx_outs s) (task_rng s) (task_clock s) (test_submit_quotes req (task_deqs s)).2).
  split; [|done]. unfold submit_quotes. cbn. by destruct (submit_quotes_response (task_deqs s)).
Qed.

Lemma submit_pending_unavailable {T} {ts pend listed} w e (k : test T) Q :
  stands ts pend listed (Err e) w → pend ≠ [] →
  (∀ w', stands ts pend listed (Err e) w' → returns k w' Q) →
  returns (expect_err (submit_pending clock) is_grpc ;;; k) w Q.
Proof.
  intros Hs Hne HQ. apply returns_bind.
  destruct (test_submit_quotes_spec ((λ p, sci_to_api (p_sci p)) <$> pend) (tc_task w)) as (s' & Hr & Hp & Hl & Hd & _).
  exists tt, (mk_ctx s' (tc_env w)). split.
  - unfold expect_err, submit_pending, in_task, submit_pending_tx_outs. rewrite (st_pending _ _ _ _ _ Hs).
    destruct pend as [|p0 ps]; [done|]. unfold st_bind. by rewrite Hr, (st_resp _ _ _ _ _ Hs).
  - apply HQ. destruct Hs as [H1 H2 H3 H4 H5 H6 H7]. split; cbn; congruence.
Qed.

Lemma submit_pending_answered {T} (xs : list (PendingTxOut * (QuoteStatusCode * ApiQuote A) * option Quote)) {ts listed} w (k : test T) Q :
  stands ts xs.*1.*1 listed (Ok (response xs.*1.*2)) w → xs ≠ [] → Forall (λ x, answered (p_sci x.1.1) x.1.2 x.2) xs →
  (∀ new w', stands ts [] (listed ++ new) (Ok (response xs.*1.*2)) w' →
     listed_as start_time ((λ x, (p_matched_tx_out x.1.1, x.2)) <$> xs) new → returns k w' Q) →
  returns (unwrap (submit_pending clock) ;;; k) w Q.
Proof.
  intros Hs Hne Ha HQ. apply returns_bind, returns_unwrap, returns_task.
  destruct (test_submit_quotes_spec ((λ p, sci_to_api (p_sci p)) <$> xs.*1.*1) (tc_task w)) as (s1 & Hr & Hp & Hl & Hd & _).
  destruct (settle_answers p_matched_tx_out p_sci (settle_pending clock) eq_refl settle_pending_cons xs start_time (set_pending [] s1) Ha (since_start _))
    as (u & s' & Hset & new & Hl' & Has & Hp' & Hd').
  exists u, s'. split.
  - unfold submit_pending_tx_outs. rewrite (st_pending _ _ _ _ _ Hs).
    destruct (xs.*1.*1) as [|p0 ps] eqn:Hxs; [by destruct xs|]. unfold st_bind at 1. rewrite Hr, (st_resp _ _ _ _ _ Hs).
    cbn [map_err]. unfold st_bind at 1, st_lift. rewrite response_sane by by rewrite length_fmap, <-Hxs, !length_fmap.
    unfold st_bind, drain_pending. rewrite Hp, (st_pending _ _ _ _ _ Hs). exact Hset.
  - apply (HQ new); [|done]. destruct Hs as [H1 H2 H3 H4 H5 H6 H7]. cbn in *. split; cbn; try done; try congruence.
Qed.

(** ** Resubmitting *)

(** Submitted during the test, or backdated. *)
Definition young (l : ListedTxOut) : Prop := in_window (l_last_submitted_at l).
Definition aged (l : ListedTxOut) : Prop := 0 ≤ l_last_submitted_at l < start_time - 10000.

Lemma young_kept now l : in_window now → young l → needs_resubmit now (1000 * 10) l = false.
Proof.
  unfold in_window, young, needs_resubmit, checked_sub. intros Hn Hl. change (wrap64 (1000 * 10)) with 10000.
  unfold in_window in Hl. destruct (Z.leb_spec (l_last_submitted_at l) now); cbn [default from_option id]; apply Z.ltb_ge; lia.
Qed.
Lemma aged_due now l : in_window now → aged l → needs_resubmit now (1000 * 10) l = true.
Proof.
  unfold in_window, aged, needs_resubmit, checked_sub. intros Hn Hl. change (wrap64 (1000 * 10)) with 10000.
  rewrite (proj2 (Z.leb_le _ _)) by lia. cbn. apply Z.ltb_lt. lia.
Qed.
Lemma partition_listed now due keep :
  in_window now → Forall aged due → Forall young keep →
  drain_filter (needs_resubmit now (1000 * 10)) (due ++ keep) = (due, keep).
Proof.
  intros Hn Hd Hk. unfold drain_filter. rewrite !filter_app. rewrite Forall_forall in Hd, Hk. f_equal.
  - rewrite (list_filter_all _ due), (list_filter_none _ keep), app_nil_r; [done| |].
    + intros l Hl. rewrite (young_kept now l) by auto. done.
    + intros l Hl. apply aged_due; auto.
  - rewrite (list_filter_none _ due), (list_filter_all _ keep); [done| |].
    + intros l Hl. apply young_kept; auto.
    + intros l Hl. rewrite (aged_due now l) by auto. done.
Qed.

Lemma resubmit_nothing {T} {ts pend listed resp} w (k : test T) Q :
  stands ts pend listed resp w → Forall young listed →
  (∀ w', stands ts pend listed resp w' → returns k w' Q) → returns (unwrap (resubmit clock 10) ;;; k) w Q.
Proof.
  intros Hs Hy HQ. destruct (now_in_window (tc_task w)) as (now & s1 & Hn & Hwin & Hp & Hl & Hd & _ & Hck).
  apply returns_bind, returns_unwrap, returns_task. exists tt, (set_listed listed s1). split.
  - unfold resubmit_listed_tx_outs, st_bind at 1. rewrite Hn, Hl, (st_listed _ _ _ _ _ Hs).
    pose proof (partition_listed now [] listed Hwin (Forall_nil_2 _) Hy) as Hpart. cbn [app] in Hpart. by rewrite Hpart.
  - apply HQ. destruct Hs as [H1 H2 H3 H4 H5 H6 H7]. split; cbn; congruence.
Qed.

Lemma resubmit_unavailable {T} due keep {ts pend} w e (k : test T) Q :
  stands ts pend (due ++ keep) (Err e) w → due ≠ [] → Forall aged due → Forall young keep →
  (∀ w', stands ts pend (keep ++ due) (Err e) w' → returns k w' Q) →
  returns (expect_err (resubmit clock 10) is_grpc ;;; k) w Q.
Proof.
  intros Hs Hne Ha Hy HQ. destruct (now_in_window (tc_task w)) as (now & s1 & Hn & Hwin & Hp & Hl & Hd & _ & Hck).
  destruct (test_submit_quotes_spec ((λ l, sci_to_api (q_sci (l_quote l))) <$> due) (set_listed keep s1)) as (s2 & Hr & Hp2 & Hl2 & Hd2 & Hck2).
  apply returns_bind. exists tt, (mk_ctx (set_listed (keep ++ due) s2) (tc_env w)). split.
  - unfold expect_err, resubmit, in_task, resubmit_listed_tx_outs, st_bind at 1. rewrite Hn, Hl, (st_listed _ _ _ _ _ Hs).
    rewrite (partition_listed now due keep) by done. destruct due as [|l0 ls]; [done|]. rewrite Hr. cbn in Hd2 |- *.
    rewrite Hd, (st_resp _ _ _ _ _ Hs). cbn. by rewrite Hl2.
  - apply HQ. destruct Hs as [H1 H2 H3 H4 H5 H6 H7]. cbn in *. split; cbn; congruence.
Qed.

Lemma resubmit_answers {T} (xs : list (ListedTxOut * (QuoteStatusCode * ApiQuote A) * option Quote)) lo {ts pend} w (k : test T) Q :
  since lo (task_clock (tc_task w)) → stands ts pend xs.*1.*1 (Ok (response xs.*1.*2)) w → xs ≠ [] → Forall aged xs.*1.*1 →
  Forall (λ x, answered (q_sci (l_quote x.1.1)) x.1.2 x.2) xs →
  (∀ new w', stands ts pend new (Ok (response xs.*1.*2)) w' →
     listed_as lo ((λ x, (l_matched_tx_out x.1.1, x.2)) <$> xs) new → returns k w' Q) →
  returns (unwrap (resubmit clock 10) ;;; k) w Q.
Proof.
  intros Hlo Hs Hne Hag Ha HQ. destruct (now_in_window (tc_task w)) as (now & s1 & Hn & Hwin & Hp & Hl & Hd & _ & Hck).
  destruct (test_submit_quotes_spec ((λ l, sci_to_api (q_sci (l_quote l))) <$> xs.*1.*1) (set_listed [] s1)) as (s2 & Hr & Hp2 & Hl2 & Hd2 & Hck2).
  destruct (settle_answers l_matched_tx_out (λ l, q_sci (l_quote l)) (settle_listed clock) eq_refl settle_listed_cons xs lo s2 Ha)
    as (u & s' & Hset & new & Hl' & Has & Hp' & Hd'); [intros m now' Hm; apply Hlo; cbn in Hck2; lia|].
  apply returns_bind, returns_unwrap, returns_task. exists u, s'. split.
  - unfold resubmit_listed_tx_outs, st_bind at 1. rewrite Hn, Hl, (st_listed _ _ _ _ _ Hs).
    rewrite <-(app_nil_r xs.*1.*1) at 1. rewrite (partition_listed now xs.*1.*1 []) by done.
    destruct (xs.*1.*1) as [|l0 ls] eqn:Hxs; [by destruct xs|]. rewrite Hr. cbn in Hd2 |- *.
    rewrite Hd, (st_resp _ _ _ _ _ Hs). cbn. unfold st_bind, st_lift.
    assert (length xs.*1.*2 = S (length ls)) as Hlen.
    { pose proof (f_equal length Hxs) as Hlen. rewrite !length_fmap in Hlen. by rewrite !length_fmap. }
    rewrite response_sane by by rewrite Hlen, length_fmap.
    exact Hset.
  - apply (HQ new); [|done]. destruct Hs as [H1 H2 H3 H4 H5 H6 H7]. cbn in *. rewrite Hl2 in Hl'. split; cbn; try done; congruence.
Qed.

(** ** The tests *)

Lemma offered_matched p t price : offered p t price → p_matched_tx_out p = t.
Proof. by intros [? _]. Qed.

Lemma partial_fill_amount_returns {T} p t price w (k : Amount → test T) Q :
  offered p t price → returns (k price) w Q → returns (a <-- partial_fill_amount (p_sci p) ;; k a) w Q.
Proof.
  intros (_ & db & ki & [_ _ _ _ (ir & pf & bl & ch & bl' & Hir & _ & Hpf & Hrev & _) _ _ _]) HQ.
  apply returns_bind. unfold partial_fill_amount. apply returns_bind, (returns_lift _ ir); [by rewrite Hir|].
  eapply returns_vec; [by rewrite Hpf|]. apply returns_bind, (returns_lift _ (price, bl)); [by rewrite Hrev|].
  apply returns_ret. exact HQ.
Qed.

Lemma expect_pending_returns {T} idx p t price expected {ts pend listed resp} w (k : test T) Q :
  stands ts pend listed resp w → pend !! idx = Some p → offered p t price → amount_wf price →
  mantissa expected = amt_value price * 10 ^ scale expected →
  returns k w Q → returns (expect_pending idx t (amt_token_id price) expected ;;; k) w Q.
Proof.
  intros Hs Hi Ho [Hu _] Hexp HQ. apply returns_bind. unfold expect_pending. eapply returns_pending_at; [done..|].
  apply returns_expect_eq; [by eapply offered_matched|].
  pose proof Ho as (_ & db & ki & [_ _ _ _ (ir & pf & bl & ch & bl' & Hir & _ & Hpf & _) _ _ Hown]).
  apply returns_expect_true; [by rewrite bool_decide_eq_true_2|]. apply returns_bind, (returns_lift _ ir); [by rewrite Hir|].
  apply returns_expect_eq; [by rewrite Hpf|]. eapply partial_fill_amount_returns; [done|]. apply returns_expect_eq; [done|].
  apply (returns_lift _ tt); [|done]. rewrite decimal_eqb_ok. destruct (from_u64_ok (amt_value price) Hu) as [-> ->].
  by rewrite bool_decide_eq_true_2 by lia.
Qed.

(** Key images of different outputs. *)
Lemma key_distinct t ts pend listed resp w t' : stands (t :: ts) pend listed resp w → t' ∈ ts → mt_key_image t' ≠ mt_key_image t.
Proof.
  intros Hs Ht Heq. pose proof (st_nodup _ _ _ _ _ Hs) as Hnd. cbn in Hnd. apply NoDup_cons in Hnd as [Hn _]. apply Hn.
  rewrite <-Heq. apply list_elem_of_fmap. by exists t'.
Qed.

(** Two new outputs. *)
Lemma take_two {T} t0 t1 price0 price1 {ts pend listed resp} w (k : bool → test T) Q :
  stands ts pend listed resp w → t0 ∈ ts → t1 ∈ ts → mt_key_image t0 ≠ mt_key_image t1 →
  price_of (mt_amount t0) = Some price0 → price_of (mt_amount t1) = Some price1 → amount_wf price0 → amount_wf price1 →
  Forall (λ t, mt_key_image t ∉ key_image_of_pending <$> pend ∧ mt_key_image t ∉ key_image_of_listed <$> listed) [t0; t1] →
  (∀ p0 p1 w', stands ts (pend ++ [p0; p1]) listed resp w' → offered p0 t0 price0 → offered p1 t1 price1 → returns (k true) w' Q) →
  returns (b <-- unwrap (update_pending (P:=P) (IC:=IC) (B:=B) fuel [t0; t1]) ;; k b) w Q.
Proof.
  intros Hs H0' H1' Hne P0 P1 [U0 _] [U1 _] Hnew HQ. rewrite !Forall_cons in Hnew. destruct Hnew as ([N0 N0'] & [N1 N1'] & _).
  apply update_pending_returns. eapply (loop_new t0 price0); [exact Hs|done..|]. intros p0 w1 S1 O0.
  eapply (loop_new t1 price1); [exact S1|done..| |done|].
  { rewrite fmap_app, elem_of_app. intros [?|Hin]; [done|]. apply list_elem_of_singleton in Hin. unfold key_image_of_pending in Hin.
    rewrite (offered_matched _ _ _ O0) in Hin. done. }
  intros p1 w2 S2 O1. apply loop_end. rewrite <-app_assoc in S2. by apply (HQ p0 p1).
Qed.

Variable rng : R.
Variable env : E.
Hypothesis env_new : env_blank env.
Local Abbreviation start := (blank_context (A:=A) rng env).

(** The test returns: no assertion fails, nothing panics. *)
Definition passes (m : test unit) : Prop := returns m start (λ _ _, True).

Lemma update_pending_test_passes :
  passes (update_pending_tx_outs_from_received_tx_outs_behaves_correctly (P:=P) (IC:=IC) (B:=B) (TIC:=TIC) (TB:=TB) (Acc:=Acc) (D:=D) fuel).
Proof.
  apply context_new_returns; [done|]. intros w0 S0. eapply returns_pending; [done|]. apply returns_expect_eq; [done|].
  eapply create_matched_returns; [exact S0|done|done|]. intros t0 w1 S1 A0.
  eapply create_matched_returns; [exact S1|done|done|]. intros t1 w2 S2 A1.
  eapply create_matched_returns; [exact S2|done|done|]. intros t2 w3 S3 A2.
  eapply create_matched_returns; [exact S3|done|done|]. intros t3 w4 S4 A3.
  apply update_pending_returns.
  eapply (loop_new t0 (amount_of 50 1)); [exact S4|set_solver|by rewrite A0|done|set_solver|set_solver|]. intros p0 w5 S5 O0.
  eapply (loop_new t1 (amount_of 300 0)); [exact S5|set_solver|by rewrite A1|done| |set_solver|].
  { cbn. unfold key_image_of_pending. rewrite (offered_matched _ _ _ O0), list_elem_of_singleton.
    pose proof (key_distinct _ _ _ _ _ _ t0 S2 ltac:(set_solver)). done. }
  intros p1 w6 S6 O1. cbn [app] in S6.
  unfold returns. rewrite (loop_skip t2), (loop_skip t3) by (left; by rewrite ?A2, ?A3). apply loop_end.
  apply returns_expect_true; [done|]. eapply returns_pending; [done|]. apply returns_expect_eq; [done|].
  destruct (dec_ok (D:=D) 50 0 ltac:(done) ltac:(done)) as [M1 E1]. destruct (dec_ok (D:=D) 300 0 ltac:(done) ltac:(done)) as [M2 E2].
  eapply (expect_pending_returns 0 p0 t0 (amount_of 50 1)); [done|done|done|done|by rewrite M1, E1|].
  eapply (expect_pending_returns 1 p1 t1 (amount_of 300 0)); [done|done|done|done|by rewrite M2, E2|].
  eapply returns_pending; [done|]. apply update_pending_returns.
  unfold returns. rewrite (loop_skip t2), (loop_skip t3) by (left; by rewrite ?A2, ?A3). apply loop_end.
  apply returns_expect_true; [done|]. eapply returns_pending; [done|]. by apply returns_last_eq.
Qed.

Lemma submit_pending_test_passes :
  passes (submit_pending_tx_outs_behaves_correctly (P:=P) (IC:=IC) (B:=B) (TIC:=TIC) (TB:=TB) (Acc:=Acc) (D:=D) clock nanos fuel).
Proof.
  apply context_new_returns; [done|]. intros w0 S0.
  eapply create_matched_returns; [exact S0|done|done|]. intros t0 w1 S1 A0.
  eapply create_matched_returns; [exact S1|done|done|]. intros t1 w2 S2 A1.
  assert (mt_key_image t0 ≠ mt_key_image t1) as Hne by (eapply key_distinct; [exact S2|set_solver]).
  eapply (take_two t0 t1 (amount_of 50 1) (amount_of 300 0)); [exact S2|set_solver|set_solver|done|by rewrite A0|by rewrite A1|done|done| |].
  { repeat constructor; set_solver. }
  intros p0 p1 w3 S3 O0 O1. cbn [app] in S3. apply returns_expect_true; [done|]. eapply returns_pending; [done|].
  eapply submit_pending_unavailable; [exact S3|done|]. intros w4 S4. eapply returns_pending; [done|]. apply returns_expect_eq; [done|].
  eapply returns_set_response; [exact S4|]. intros w5 S5.
  eapply (submit_pending_answered [(p0, (QUOTE_IS_STALE, api_quote_default), None); (p1, (INVALID_SCI, api_quote_default), None)]);
    [exact S5|done|repeat constructor|].
  intros new w6 S6 Hnew. cbn in Hnew. inversion Hnew as [|? ? ? Hnew'|]; subst. inversion Hnew' as [|? ? ? Hnil|]; subst. inversion Hnil; subst.
  cbn [app] in S6. eapply returns_pending; [done|]. apply returns_expect_eq; [done|]. eapply returns_listed; [done|]. apply returns_expect_eq; [done|].
  eapply (take_two t0 t1 (amount_of 50 1) (amount_of 300 0)); [exact S6|set_solver|set_solver|done|by rewrite A0|by rewrite A1|done|done| |].
  { repeat constructor; set_solver. }
  clear Hnew Hnew' Hnil. intros p3 p4 w7 S7 O3 O4. cbn [app] in S7. apply returns_expect_true; [done|].
  eapply create_matched_returns; [exact S7|done|done|]. intros t2 w8 S8 A2.
  eapply (create_pending_offers t2 (amount_of 300 0)); [exact S8|set_solver|by rewrite A2|done|]. intros p2 w9 S9 O2.
  eapply returns_pending_at; [exact S9|done|]. eapply returns_quote_of; [exact S9|exact O3|]. intros q1 w10 S10 Q1.
  eapply returns_quote_of; [exact S10|exact O2|]. intros q2 w11 S11 Q2.
  eapply returns_set_response; [exact S11|]. intros w12 S12.
  eapply (submit_pending_answered [(p3, (CREATED, quote_to_api q1), Some q1); (p4, (QUOTE_ALREADY_EXISTS, quote_to_api q2), Some q2)]);
    [exact S12|done| |].
  { constructor; [by constructor|]. constructor; [|constructor]. by econstructor. }
  intros new w13 S13 Hnew. cbn in Hnew. inversion Hnew as [| |? ? now1 ? ? _ _ Hnew']; subst.
  inversion Hnew' as [| |? ? now2 ? ? _ _ Hnil]; subst. inversion Hnil; subst. cbn [app] in S13.
  eapply returns_pending; [done|]. apply returns_expect_eq; [done|]. eapply returns_listed; [done|]. apply returns_expect_eq; [done|].
  eapply returns_listed_at; [done|done|]. apply returns_expect_eq; [by eapply offered_matched|]. apply returns_expect_eq; [done|].
  eapply returns_listed_at; [done|done|]. apply returns_expect_eq; [by eapply offered_matched|]. by apply returns_last_eq.
Qed.

(** Listing an offer, and a new output. *)
Lemma listing_returns {T} p t price {ts pend listed resp} w (k : ListedTxOut → test T) Q :
  stands ts pend listed resp w → offered p t price →
  (∀ l w', stands ts pend listed resp w' → l_matched_tx_out l = t → quote_for (l_quote l) (p_sci p) → young l → returns (k l) w' Q) →
  returns (l <-- list_offer clock nanos t (p_sci p) ;; k l) w Q.
Proof.
  intros Hs Ho HQ. apply returns_bind. unfold list_offer. eapply returns_quote_of; [exact Hs|exact Ho|]. intros q w1 S1 Hq.
  eapply returns_now; [exact S1|]. intros now w2 Hwin S2. apply returns_ret. by apply HQ.
Qed.
Lemma list_new_returns {T} t price {ts pend listed resp} w (k : ListedTxOut → test T) Q :
  stands ts pend listed resp w → t ∈ ts → price_of (mt_amount t) = Some price → amount_wf price →
  (∀ l w', stands ts pend listed resp w' → l_matched_tx_out l = t → returns (k l) w' Q) →
  returns (l <-- list_new (P:=P) (IC:=IC) (B:=B) clock nanos fuel t ;; k l) w Q.
Proof.
  intros Hs Ht Hp [Hu _] HQ. apply returns_bind. unfold list_new. eapply create_pending_offers; [done..|]. intros p w1 S1 Ho.
  apply (returns_mono _ _ (λ l w', stands ts pend listed resp w' ∧ l_matched_tx_out l = t)); [naive_solver|].
  unfold list_offer. eapply returns_quote_of; [exact S1|exact Ho|]. intros q w2 S2 Hq.
  eapply returns_now; [exact S2|]. intros now w3 Hwin S3. by apply returns_ret.
Qed.

(** Outputs the bot has already. *)
Lemma take_none {T} l w (k : bool → test T) Q :
  Forall (λ t, mt_key_image t ∈ key_image_of_pending <$> pending_tx_outs (tc_task w) ∨
               mt_key_image t ∈ key_image_of_listed <$> listed_tx_outs (tc_task w)) l →
  returns (k false) w Q → returns (b <-- unwrap (update_pending (P:=P) (IC:=IC) (B:=B) fuel l) ;; k b) w Q.
Proof.
  intros Hl HQ. apply update_pending_returns. induction Hl as [|t l Ht _ IH]; [by apply loop_end|].
  unfold returns. rewrite loop_skip by auto. exact IH.
Qed.

Lemma duplicates_test_passes :
  passes (update_pending_tx_outs_from_received_tx_outs_ignores_duplicates (P:=P) (IC:=IC) (B:=B) (TIC:=TIC) (TB:=TB) (Acc:=Acc) (D:=D) clock nanos fuel).
Proof.
  set (half := amount_of 50 1). apply context_new_returns; [done|]. intros w0 S0.
  eapply create_matched_returns; [exact S0|done|done|]. intros t0 w1 S1 A0.
  eapply create_matched_returns; [exact S1|done|done|]. intros t1 w2 S2 A1.
  eapply (take_two t0 t1 half half); [exact S2|set_solver|set_solver| |by rewrite A0|by rewrite A1|done|done|repeat constructor; set_solver|].
  { eapply key_distinct; [exact S2|set_solver]. }
  intros p0 p1 w3 S3 O0 O1. cbn [app] in S3. apply returns_expect_true; [done|]. eapply returns_pending; [done|].
  apply returns_expect_eq; [done|]. eapply returns_pending; [done|].
  assert (key_image_of_pending <$> [p0; p1] = [mt_key_image t0; mt_key_image t1]) as Hk01.
  { cbn. unfold key_image_of_pending. by rewrite (offered_matched _ _ _ O0), (offered_matched _ _ _ O1). }
  eapply take_none; [rewrite (st_pending _ _ _ _ _ S3), Hk01; repeat constructor; set_solver|].
  apply returns_expect_true; [done|]. eapply returns_pending; [done|]. apply returns_expect_eq; [done|].
  eapply create_matched_returns; [exact S3|done|done|]. intros t2 w4 S4 A2.
  eapply create_matched_returns; [exact S4|done|done|]. intros t3 w5 S5 A3.
  pose proof (st_nodup _ _ _ _ _ S5) as Hnd. cbn in Hnd. rewrite !NoDup_cons, !not_elem_of_cons in Hnd.
  eapply (take_two t2 t3 half half); [exact S5|set_solver|set_solver|naive_solver|by rewrite A2|by rewrite A3|done|done| |].
  { rewrite Hk01. clear -Hnd. rewrite !Forall_cons, !not_elem_of_cons. naive_solver eauto using not_elem_of_nil. }
  intros p2 p3 w6 S6 O2 O3. cbn [app] in S6. apply returns_expect_true; [done|]. eapply returns_pending; [done|].
  apply returns_expect_eq; [done|].
  eapply create_matched_returns; [exact S6|done|done|]. intros t4 w7 S7 A4.
  eapply create_matched_returns; [exact S7|done|done|]. intros t5 w8 S8 A5.
  eapply (list_new_returns t4 half); [exact S8|set_solver|by rewrite A4|done|]. intros l4 w9 S9 M4.
  eapply (list_new_returns t5 half); [exact S9|set_solver|by rewrite A5|done|]. intros l5 w10 S10 M5.
  eapply returns_put_listed; [exact S10|]. intros w11 S11. eapply returns_pending; [done|].
  eapply take_none.
  { rewrite (st_listed _ _ _ _ _ S11). cbn. unfold key_image_of_listed. rewrite M4, M5. clear. rewrite !Forall_cons. split_and!; [right; left|right; right; left|constructor]. }
  apply returns_expect_true; [done|]. eapply returns_pending; [done|]. by apply returns_last_eq.
Qed.

Lemma unconfigured_test_passes :
  passes (create_pending_tx_out_errors_on_unconfigured_token (P:=P) (IC:=IC) (B:=B) (TIC:=TIC) (TB:=TB) (Acc:=Acc) (D:=D) fuel).
Proof.
  apply context_new_returns; [done|]. intros w0 S0.
  eapply create_matched_returns; [exact S0|done|done|]. intros t w1 S1 Ha.
  eexists tt, _. split; [|done]. unfold expect_err, create_pending, in_task, with_rng, create_pending_tx_out, st_bind, st_lift.
  rewrite price_of_none by by rewrite Ha. by rewrite Ha.
Qed.

Lemma change_submitted_returns {T} f l {ts pend listed resp} w (k : test T) Q :
  stands ts pend (l :: listed) resp w →
  (∀ w', stands ts pend (with_submitted_at (f (l_last_submitted_at l)) l :: listed) resp w' → returns k w' Q) →
  returns (change_submitted_at 0 f ;;; k) w Q.
Proof.
  intros Hs HQ. apply returns_bind. unfold change_submitted_at. eapply returns_listed; [done|].
  eapply returns_listed_at; [done|done|]. destruct Hs as [H1' H2' H3' H4' H5' H6' H7'].
  apply returns_task. eexists tt, _. split; [done|]. apply HQ. by split.
Qed.

(** Backdating makes an output due. *)
Lemma backdate_returns {T} l {ts pend listed resp} w (k : test T) Q :
  stands ts pend (l :: listed) resp w → young l →
  (∀ l' w', stands ts pend (l' :: listed) resp w' → l_matched_tx_out l' = l_matched_tx_out l → l_quote l' = l_quote l → aged l' → returns k w' Q) →
  returns (backdate 0 ;;; k) w Q.
Proof.
  intros Hs Hy HQ. eapply change_submitted_returns; [exact Hs|]. intros w' S'. eapply HQ; [exact S'|done|done|].
  unfold aged, young, in_window in *. cbn. unfold u64_sub. rewrite wrap64_small by (unfold is_u64; lia). lia.
Qed.

(** One due output and the answer to it. *)
Lemma resubmit_one {T} l entry answer lo {ts pend} w (k : test T) Q :
  since lo (task_clock (tc_task w)) → stands ts pend [l] (Ok (response [entry])) w → aged l → answered (q_sci (l_quote l)) entry answer →
  (∀ new w', stands ts pend new (Ok (response [entry])) w' → listed_as lo [(l_matched_tx_out l, answer)] new → returns k w' Q) →
  returns (unwrap (resubmit clock 10) ;;; k) w Q.
Proof.
  intros Hlo Hs Ha Hans HQ. eapply (resubmit_answers [(l, entry, answer)]); [exact Hlo|exact Hs|done|by constructor|by constructor|]. exact HQ.
Qed.
Lemma resubmit_renews {T} l code q lo {ts pend} w (k : test T) Q :
  since lo (task_clock (tc_task w)) → stands ts pend [l] (Ok (response [(code, quote_to_api q)])) w → aged l →
  answered (q_sci (l_quote l)) (code, quote_to_api q) (Some q) →
  (∀ l' w', stands ts pend [l'] (Ok (response [(code, quote_to_api q)])) w' → l_matched_tx_out l' = l_matched_tx_out l →
     l_quote l' = q → young l' → lo ≤ l_last_submitted_at l' → returns k w' Q) →
  returns (unwrap (resubmit clock 10) ;;; k) w Q.
Proof.
  intros Hlo Hs Ha Hans HQ. eapply resubmit_one; [exact Hlo|exact Hs|done|exact Hans|]. intros new w' S' Hnew.
  inversion Hnew as [| |? ? now ? ? Hwin Hle Hnil]; subst. inversion Hnil; subst. by eapply HQ; [exact S'|..].
Qed.

(** The clock is read before the resubmission, which reads it again. *)
Hypothesis clock_monotone : ∀ n m a b, (n ≤ m)%nat → clock n = Some a → clock m = Some b → a ≤ b.

Lemma renewed_since {T} l code q {ts pend} w (k : test T) Q :
  stands ts pend [l] (Ok (response [(code, quote_to_api q)])) w → aged l → answered (q_sci (l_quote l)) (code, quote_to_api q) (Some q) →
  (∀ l' w', stands ts pend [l'] (Ok (response [(code, quote_to_api q)])) w' → l_matched_tx_out l' = l_matched_tx_out l →
     l_quote l' = q → young l' → returns k w' Q) →
  returns (now <-- read_now clock ;; unwrap (resubmit clock 10) ;;; expect_renewed now q ;;; k) w Q.
Proof.
  intros Hs Ha Hans HQ. destruct (now_in_window (tc_task w)) as (now & s1 & Hn & Hwin & Hp & Hl & Hd & Hnow & Hck).
  apply returns_bind, returns_task. exists now, s1. split; [done|].
  eapply (resubmit_renews _ _ _ now); [|by apply (stands_task _ _ _ _ _ _ Hs)|exact Ha|exact Hans|].
  { intros m now' Hm. eapply clock_monotone; [|exact Hnow]. cbn in Hm. lia. }
  intros l' w' S' Hmt Hq Hy Hle. apply returns_bind. unfold expect_renewed. eapply returns_listed; [done|]. apply returns_expect_eq; [done|].
  eapply returns_listed_at; [done|done|]. apply returns_expect_true; [by apply Z.leb_le|]. apply returns_last_eq; [done|]. by eapply HQ.
Qed.

Lemma resubmit_unavailable_passes {T} {ts pend listed} w (k : test T) Q :
  stands ts pend listed (Err UNAVAILABLE) w →
  (∀ ts' l1 l2 w', stands ts' pend [l2; l1] (Err UNAVAILABLE) w' → length (q_id (l_quote l1)) = 32%nat → aged l1 → returns k w' Q) →
  returns (resubmit_when_unavailable (P:=P) (IC:=IC) (B:=B) (TIC:=TIC) (TB:=TB) (Acc:=Acc) (D:=D) clock nanos fuel ;;; k) w Q.
Proof.
  intros S0 HQ. apply returns_bind. unfold resubmit_when_unavailable.
  eapply create_matched_returns; [exact S0|done|done|]. intros t1 w1 S1 A1.
  eapply create_matched_returns; [exact S1|done|done|]. intros t2 w2 S2 A2.
  eapply (create_pending_offers t1 (amount_of 50 1)); [exact S2|set_solver|by rewrite A1|done|]. intros p1 w3 S3 O1.
  eapply (create_pending_offers t2 (amount_of 50 1)); [exact S3|set_solver|by rewrite A2|done|]. intros p2 w4 S4 O2.
  rewrite (offered_matched _ _ _ O1), (offered_matched _ _ _ O2).
  eapply listing_returns; [exact S4|exact O1|]. intros l1 w5 S5 M1 [_ Q1] Y1.
  eapply listing_returns; [exact S5|exact O2|]. intros l2 w6 S6 M2 Q2 Y2.
  eapply returns_put_listed; [exact S6|]. intros w7 S7. eapply returns_listed; [done|].
  eapply resubmit_nothing; [exact S7|by auto using Forall_cons_2, Forall_nil_2|]. intros w8 S8. eapply returns_listed; [done|]. apply returns_expect_eq; [done|].
  eapply backdate_returns; [exact S8|done|]. intros l1' w9 S9 M1' Q1' A1'. eapply returns_listed; [done|].
  eapply (resubmit_unavailable [l1'] [l2]); [exact S9|done|by auto using Forall_cons_2, Forall_nil_2|by auto using Forall_cons_2, Forall_nil_2|]. intros w10 S10. cbn [app] in S10.
  eapply returns_listed; [done|]. apply returns_expect_eq; [done|].
  eapply returns_listed_at; [done|done|]. eapply returns_vec; [done|]. apply returns_expect_eq; [done|].
  eapply returns_listed_at; [done|done|]. eapply returns_vec; [done|]. apply returns_last_eq; [done|].
  eapply HQ; [exact S10|by rewrite Q1'|done].
Qed.

Lemma resubmit_answered_passes ts pend l1 l2 w :
  stands ts pend [l2; l1] (Err UNAVAILABLE) w → length (q_id (l_quote l1)) = 32%nat → aged l1 →
  returns (resubmit_answered (P:=P) (IC:=IC) (B:=B) (TIC:=TIC) (TB:=TB) (Acc:=Acc) (D:=D) clock nanos fuel) w (λ _ _, True).
Proof.
  intros S0 Hid Ha. unfold resubmit_answered. eapply returns_listed; [done|]. eapply returns_put_listed; [exact S0|].
  cbn [delete list_delete]. intros w1 S1. eapply returns_listed_at; [done|done|]. eapply returns_set_response; [exact S1|]. intros w2 S2.
  eapply returns_listed; [done|].
  eapply (resubmit_renews _ _ _ start_time); [apply since_start|exact S2|done|by econstructor|]. intros l3 w3 S3 M3 Q3 Y3 _.
  eapply returns_listed; [done|]. apply returns_expect_true.
  { apply bool_decide_eq_true_2. intros [= ->]. unfold aged, young, in_window in *. lia. }
  eapply returns_vec; [done|]. eapply change_submitted_returns; [exact S3|]. intros w4 S4.
  assert (with_submitted_at (l_last_submitted_at l1) l3 = l1) as Heq by (unfold with_submitted_at; rewrite M3, Q3; by destruct l1).
  rewrite Heq in S4. eapply returns_listed; [done|]. apply returns_expect_eq; [done|].
  eapply create_matched_returns; [exact S4|done|done|]. intros t w5 S5 At.
  eapply (create_pending_offers t (amount_of 50 1)); [exact S5|set_solver|by rewrite At|done|]. intros p w6 S6 Op.
  eapply returns_quote_of; [exact S6|exact Op|]. intros q w7 S7 Hq. eapply returns_set_response; [exact S7|]. intros w8 S8.
  eapply renewed_since; [exact S8|done|by econstructor|]. intros l4 w9 S9 M4 Q4 Y4.
  eapply returns_listed_at; [done|done|]. rewrite Q4. eapply returns_set_response; [exact S9|]. intros w10 S10.
  eapply backdate_returns; [exact S10|done|]. intros l5 w11 S11 M5 Q5 A5.
  eapply renewed_since; [exact S11|done|constructor; split; [by rewrite Q5, Q4|apply Hq]|]. intros l6 w12 S12 M6 Q6 Y6.
  eapply returns_set_response; [exact S12|]. intros w13 S13.
  eapply backdate_returns; [exact S13|done|]. intros l7 w14 S14 M7 Q7 A7.
  eapply (resubmit_one _ _ None start_time); [apply since_start|exact S14|done|constructor|]. intros new w15 S15 Hnew.
  inversion Hnew as [|? ? ? Hnil|]; subst. inversion Hnil; subst. eapply returns_listed; [done|]. by apply returns_last_eq.
Qed.

Lemma resubmit_test_passes :
  passes (resubmit_listed_tx_outs_behaves_correctly (P:=P) (IC:=IC) (B:=B) (TIC:=TIC) (TB:=TB) (Acc:=Acc) (D:=D) clock nanos fuel).
Proof.
  apply context_new_returns; [done|]. intros w0 S0. eapply resubmit_unavailable_passes; [exact S0|].
  intros ts l1 l2 w1 S1 Hid Ha. by eapply resubmit_answered_passes.
Qed.

(** *** Rates *)

Lemma expect_swaps {T} token counter l {ts pend listed resp} w (k : test T) Q :
  Forall (λ v, amount_wf (amount_of v.1 token) ∧ 0 < v.1 ∧ price_of (amount_of v.1 token) = Some (amount_of v.2 counter) ∧ is_u64 v.2) l →
  stands ts pend listed resp w → (∀ ts' w', stands ts' pend listed resp w' → returns k w' Q) →
  returns (for_each (expect_swap (P:=P) (IC:=IC) (B:=B) (TIC:=TIC) (TB:=TB) (Acc:=Acc) (D:=D) fuel token counter) l ;;; k) w Q.
Proof.
  intros Hl Hs HQ. apply returns_bind. revert ts w Hs. induction Hl as [|v l (Hwf & Hpos & Hp & Hu) _ IH]; intros ts w Hs; cbn [for_each].
  { apply returns_ret. by eapply HQ. }
  apply returns_bind. unfold expect_swap. eapply create_matched_returns; [exact Hs|done|done|]. intros t w1 S1 Ha.
  eapply create_pending_offers; [exact S1|set_solver|by rewrite Ha|done|]. intros p w2 S2 Ho.
  eapply partial_fill_amount_returns; [done|]. apply returns_last_eq; [done|]. by eapply IH.
Qed.

Lemma swap_rate_test_passes :
  passes (create_pending_tx_out_calculates_correct_swap_rate (P:=P) (IC:=IC) (B:=B) (TIC:=TIC) (TB:=TB) (Acc:=Acc) (D:=D) fuel).
Proof.
  apply context_new_returns; [done|]. intros w0 S0.
  eapply expect_swaps; [|exact S0|]. { repeat apply Forall_cons_2; try apply Forall_nil_2; by vm_compute. }
  intros ts1 w1 S1. eapply expect_swaps; [|exact S1|]. { repeat apply Forall_cons_2; try apply Forall_nil_2; by vm_compute. }
  intros ts2 w2 S2. eapply create_matched_returns; [exact S2|done|done|]. intros t w3 S3 Ha.
  destruct (price_of_rate (amount_of U64_MAX 1) (amount_of (3 * U64_MAX) 0)) as (rate & Hpair & _ & Hr & Hfit & Hat); [done..|].
  cbn [amt_value amt_token_id amount_of] in *.
  eexists tt, _. split; [|done]. unfold expect_err, create_pending, in_task, with_rng, create_pending_tx_out, st_bind, st_lift.
  rewrite Ha. cbn [amt_value amt_token_id amount_of]. rewrite Hpair. cbn [ok_or].
  rewrite counter_amount_at_rate, bool_decide_eq_false_2; [done| |done|].
  - rewrite Hat. unfold is_u64, U64_MAX, U64_MOD. lia.
  - rewrite Z.abs_eq; [done|]. unfold U64_MAX, U64_MOD. lia.
Qed.

(** *** Spent and fulfilled *)

Lemma list_one_output_returns {T} {ts resp} w (k : MatchedTxOut → test T) Q :
  stands ts [] [] resp w →
  (∀ t p l resp' w', stands (t :: ts) [] [l] resp' w' → l_matched_tx_out l = t → q_sci (l_quote l) = p_sci p →
     offered p t (amount_of (mob_value_offered / 2) 1) → mt_amount t = amount_of mob_value_offered MOB → returns (k t) w' Q) →
  returns (t <-- list_one_output (P:=P) (IC:=IC) (B:=B) (TIC:=TIC) (TB:=TB) (Acc:=Acc) (D:=D) clock nanos fuel ;; k t) w Q.
Proof.
  intros S0 HQ. apply returns_bind. unfold list_one_output. eapply create_matched_returns; [exact S0|done|done|]. intros t w1 S1 Ha.
  apply update_pending_returns. eapply (loop_new t (amount_of (mob_value_offered / 2) 1)); [exact S1|set_solver|by rewrite Ha|done|set_solver|set_solver|].
  intros p w2 S2 Ho. cbn [app] in S2. apply loop_end. apply returns_expect_true; [done|].
  eapply returns_pending_at; [done|done|]. eapply returns_quote_of; [exact S2|exact Ho|]. intros q w3 S3 Hq.
  eapply returns_set_response; [exact S3|]. intros w4 S4.
  eapply (submit_pending_answered [(p, (CREATED, quote_to_api q), Some q)]); [exact S4|done|by repeat constructor; apply Hq|].
  intros new w5 S5 Hnew. cbn in Hnew. inversion Hnew as [| |? ? now ? ? _ _ Hnil]; subst. inversion Hnil; subst. cbn [app] in S5.
  eapply returns_pending; [done|]. apply returns_expect_eq; [done|]. eapply returns_listed; [done|]. apply returns_expect_eq; [done|].
  eapply returns_listed_at; [done|done|]. apply returns_expect_eq; [by eapply offered_matched|]. apply returns_ret.
  eapply HQ; [exact S5|by eapply offered_matched|apply Hq|done|done].
Qed.

Lemma returns_unlist {T} spent removed listed' {ts pend listed resp} w (k : list ListedTxOut → test T) Q :
  stands ts pend listed resp w → unlist_loop spent listed = (removed, listed') →
  (∀ w', stands ts pend listed' resp w' → returns (k removed) w' Q) →
  returns (r <-- in_task (unlist_spent_tx_outs spent) ;; k r) w Q.
Proof.
  intros [H1' H2' H3' H4' H5' H6' H7'] Hu HQ. apply returns_bind, returns_task. unfold unlist_spent_tx_outs, returns.
  rewrite H6', Hu. eexists _, _. split; [done|]. apply HQ. by split.
Qed.

Lemma unlist_test_passes :
  passes (unlist_spend_tx_outs_behaves_correctly (P:=P) (IC:=IC) (B:=B) (TIC:=TIC) (TB:=TB) (Acc:=Acc) (D:=D) clock nanos fuel).
Proof.
  apply context_new_returns; [done|]. intros w0 S0. eapply list_one_output_returns; [exact S0|]. intros t p l resp w1 S1 Hm _ _ _.
  eapply returns_listed; [done|]. eapply create_matched_returns; [exact S1|done|done|]. intros t2 w2 S2 _.
  assert (unlist_loop [t2] [l] = ([], [l])) as Hno.
  { cbn. unfold key_image_of_listed. rewrite Hm, decide_False; [done|]. eapply key_distinct; [exact S2|set_solver]. }
  assert (unlist_loop [t] [l] = ([l], [])) as Hyes by (cbn; unfold key_image_of_listed; by rewrite Hm, decide_True).
  eapply returns_unlist; [exact S2|exact Hno|]. intros w3 S3. apply returns_expect_eq; [done|].
  eapply returns_listed; [exact S3|]. apply returns_expect_eq; [done|].
  eapply returns_unlist; [exact S3|exact Hyes|]. intros w4 S4. apply returns_expect_eq; [done|].
  eapply returns_listed; [exact S4|]. by apply returns_last_eq.
Qed.

Lemma view_key_scan_tx_out i o m : view_key_scan i o spsk_table = Ok (Some m) → mt_tx_out m = o.
Proof. unfold view_key_scan. intros Hm. repeat (first [progress inv_ok|case_match]; simplify_eq/=); done. Qed.

Definition scanned i (o : TxOut) : option MatchedTxOut :=
  match view_key_scan i o spsk_table with Ok r => r | _ => None end.
Lemma scan_outputs_omap i outs : Forall (λ o, is_Some (match view_key_scan i o spsk_table with Ok r => Some r | _ => None end)) outs →
  scan_outputs spsk_table i outs = Ok (omap (scanned i) outs).
Proof.
  induction 1 as [|o outs [r Hr] _ IH]; [done|]. cbn [scan_outputs omap list_omap]. rewrite IH. unfold scanned at 2.
  destruct (view_key_scan i o spsk_table) as [r'| |]; [|done..]. cbn. by destruct r'.
Qed.
Lemma find_received_unique ms (o : TxOut) m : m ∈ ms → txo_public_key (mt_tx_out m) = txo_public_key o →
  (∀ m', m' ∈ ms → txo_public_key (mt_tx_out m') = txo_public_key o → m' = m) → find_received ms o = Some m.
Proof.
  intros Hin Hk Huniq. unfold find_received.
  destruct (list_find_elem_of (λ mtxo, txo_public_key (mt_tx_out mtxo) = txo_public_key o) ms m Hin Hk) as [[i m'] Hf].
  rewrite Hf. cbn. f_equal. apply list_find_Some in Hf as (Hi & Hp & _). apply Huniq; [by eapply list_elem_of_lookup_2|done].
Qed.

(** A transaction that takes a quarter of an offer: the bot finds its two
    outputs in it. *)
Lemma consume_quarter_returns {T} p t ir pf ch bl bl' a {ts pend listed resp} w (k : list TxOut → test T) Q :
  stands ts pend listed resp w → pseudo_output_amount (p_sci p) = amount_of mob_value_offered MOB →
  input_rules (tx_in (p_sci p)) = Some ir → required_outputs ir = [] → partial_fill_outputs ir = [pf] →
  reveal_amount pf = Ok (a, bl) → a = amount_of (mob_value_offered / 2) 1 →
  partial_fill_change ir = Some ch → reveal_amount ch = Ok (amount_of mob_value_offered MOB, bl') → min_partial_fill_value ir = 0 →
  own_output (rto_tx_out pf) → own_output (rto_tx_out ch) → txo_public_key (rto_tx_out pf) ≠ txo_public_key (rto_tx_out ch) →
  (∀ outs m1 m2 w', scan_outputs spsk_table 100 outs = Ok (omap (scanned 100) outs) →
     mt_amount m1 = amount_of (mob_value_offered / 4 / 2) 1 → mt_amount m2 = amount_of (mob_value_offered * 3 / 4) MOB →
     find_received (omap (scanned 100) outs) (rto_tx_out pf) = Some m1 →
     find_received (omap (scanned 100) outs) (rto_tx_out ch) = Some m2 → returns (k outs) w' Q) →
  returns (outs <-- consume_quarter (TIC:=TIC) (TB:=TB) (Acc:=Acc) (p_sci p) ;; k outs) w Q.
Proof.
  intros Hs Hps Hir Hreq Hpf Hrev Hav Hch Hrev' Hmin Hop Hoc Hne HQ. apply returns_bind. unfold consume_quarter.
  destruct (random_account_ok (tc_env w) (st_wf _ _ _ _ _ Hs)) as (acc & e1 & H1 & Hacc & Hwf1 & _).
  apply returns_bind, returns_test_env, returns_fun. rewrite H1. cbn [fst snd].
  destruct (credentials_ok (amount_of (mob_value_offered / 4 / 2) 1) acc e1 Hwf1) as (tic & e2 & H2 & Hamt & Hwf2 & _).
  apply returns_bind, returns_test_env, returns_fun. cbn [tc_env]. rewrite H2. cbn [fst snd].
  destruct (txb_new_ok (amount_of 0 MOB)) as (tb0 & H3 & T0). apply returns_bind, (returns_lift _ tb0); [by rewrite H3|].
  pose proof (txb_add_input_ok tic tb0) as T1. rewrite T0, Hamt in T1. cbn in T1. set (tb1 := txb_add_input tic tb0) in *.
  destruct (txb_add_output_ok (amount_of (mob_value_offered / 4) MOB) acc tb1 e2 Hwf2) as (tb2 & e3 & H4 & [Hwf3 _] & T2). rewrite T1 in T2. cbn in T2.
  apply returns_bind, returns_test_env, returns_unwrap. eexists _, _. cbn [tc_env]. split; [exact H4|].
  destruct (txb_add_presigned_ok (membership_proofs tic) (p_sci p) (amount_of (mob_value_offered - mob_value_offered / 4) MOB) tb2 ir ch _ _
    Hir Hch Hrev') as (tb3 & H5 & T3); [done|done|done|]. rewrite T2 in T3. cbn in T3.
  apply returns_bind, (returns_lift _ tb3); [by rewrite H5|].
  destruct (txb_build_ok tb3 e3 (p_sci p) (amount_of (mob_value_offered - mob_value_offered / 4) MOB) ir pf a ch
    (amount_of mob_value_offered MOB) bl bl' (mob_value_offered / 4 / 2) (amount_of (mob_value_offered / 4 / 2) 1))
    as (outs & theirs & o1 & o2 & e4 & H6 & Hperm & Hnone & K1 & K2 & Hm1 & Hm2);
    [exact Hwf3|by rewrite T3|exact Hps|exact Hir|exact Hreq|exact Hpf|exact Hrev|exact Hch|exact Hrev'|exact Hop|exact Hoc|exact Hne|done|subst a; by vm_compute|by rewrite Hav| |by rewrite T3; constructor|].
  { intros token. rewrite T3. cbn. unfold MOB. by repeat case_bool_decide; subst. }
  apply returns_test_env, returns_unwrap. eexists outs, _. split; [exact H6|].
  destruct (Hm1 100) as (m1 & V1 & A1), (Hm2 100) as (m2 & V2 & A2). specialize (Hnone 100). rewrite Forall_forall in Hnone.
  assert (scanned 100 o1 = Some m1) as F1 by (unfold scanned; by rewrite V1). assert (scanned 100 o2 = Some m2) as F2 by (unfold scanned; by rewrite V2).
  apply view_key_scan_tx_out in V1 as X1, V2 as X2.
  assert (∀ m, m ∈ omap (scanned 100) outs ↔ m = m1 ∨ m = m2) as Hin.
  { intros m. rewrite list_elem_of_omap. setoid_rewrite Hperm. split.
    - intros (o & Ho & Hm). apply elem_of_cons in Ho as [->|Ho]; [left; congruence|]. apply elem_of_cons in Ho as [->|Ho]; [right; congruence|].
      unfold scanned in Hm. by rewrite (Hnone o Ho) in Hm.
    - intros [->| ->]; [exists o1|exists o2]; (split; [|done]); [left|right; left]. }
  apply (HQ outs m1 m2); [|done|by rewrite A2| |].
  - apply scan_outputs_omap. rewrite Hperm. apply Forall_cons_2; [by rewrite V1|]. apply Forall_cons_2; [by rewrite V2|].
    apply Forall_forall. intros o Ho. by rewrite (Hnone o Ho).
  - apply find_received_unique; [apply Hin; by left|by rewrite X1|]. intros m' [->| ->]%Hin Hk; [done|]. congruence.
  - apply find_received_unique; [apply Hin; by right|by rewrite X2|]. intros m' [->| ->]%Hin Hk; [|done]. congruence.
Qed.

Lemma fulfilled_test_passes :
  passes (look_for_fulfilled_scis_identifies_consumed_scis (P:=P) (IC:=IC) (B:=B) (TIC:=TIC) (TB:=TB) (Acc:=Acc) (D:=D) clock nanos fuel).
Proof.
  apply context_new_returns; [done|]. intros w0 S0. eapply list_one_output_returns; [exact S0|]. intros t p l resp w1 S1 Hm Hsci Ho Ha.
  eapply returns_listed_at; [exact S1|done|].
  destruct Ho as (_ & db & ki & [_ _ _ Hin (ir & pf & bl & ch & bl' & Hir & Hreq & Hpf & Hrev & Hch & Hrev' & Hop & Hoc & Hne & Hmin & _) _ _ _]).
  rewrite Ha in Hin, Hrev'. assert (∀ ms, look_for_fulfilled_scis [l] ms =
    match find_received ms (rto_tx_out pf) with
    | Some m => Ok [{| fs_listed_tx_out := l; fs_requested_counter_output := pf; fs_received_counter_output := m;
                       fs_received_base_change_output := find_received ms (rto_tx_out ch) |}]
    | None => Ok []
    end) as Hlook.
  { intros ms. cbn [look_for_fulfilled_scis]. rewrite Hsci, Hir. cbn. rewrite Hpf, Hch. cbn.
    destruct (find_received ms (rto_tx_out pf)); [|done]. unfold fill_percents. cbn. by rewrite Hrev. }
  apply returns_bind, returns_unwrap, (returns_lift _ []); [by rewrite Hlook|]. apply returns_expect_eq; [done|].
  rewrite Hsci. eapply (consume_quarter_returns p t); [exact S1|exact Hin|exact Hir|exact Hreq|exact Hpf|exact Hrev|done|exact Hch|exact Hrev'|exact Hmin|exact Hop|exact Hoc|exact Hne|].
  intros outs m1 m2 w2 Hscan A1 A2 F1 F2. apply returns_bind, (returns_lift _ (omap (scanned 100) outs)); [by rewrite Hscan|].
  apply returns_bind, returns_unwrap. eapply returns_lift; [by rewrite Hlook, F1|]. apply returns_expect_eq; [done|].
  eapply returns_vec; [done|]. apply returns_expect_eq; [done|]. apply returns_expect_eq; [exact A1|]. rewrite F2.
  apply returns_bind, (returns_lift _ m2); [done|]. apply returns_last_eq; [exact A2|done].
Qed.

(** C34: the unit tests of the bot pass.  Each of them returns, without a failed
    assertion or a panic, on a new ledger, with a test server that is not told
    what to answer, when the test takes less than ten seconds by a clock that
    does not go back and the generator yields enough different numbers:
    outputs of configured tokens become offers at the configured rates, once;
    what the DEQS answers to a submission or a resubmission is listed, renewed
    or dropped; spent outputs are unlisted; and a transaction that takes a
    quarter of an offer is found with what it paid and what it left. *)
Theorem bot_tests_pass :
  Forall passes
    [ update_pending_tx_outs_from_received_tx_outs_behaves_correctly (P:=P) (IC:=IC) (B:=B) (TIC:=TIC) (TB:=TB) (Acc:=Acc) (D:=D) fuel;
      submit_pending_tx_outs_behaves_correctly (P:=P) (IC:=IC) (B:=B) (TIC:=TIC) (TB:=TB) (Acc:=Acc) (D:=D) clock nanos fuel;
      update_pending_tx_outs_from_received_tx_outs_ignores_duplicates (P:=P) (IC:=IC) (B:=B) (TIC:=TIC) (TB:=TB) (Acc:=Acc) (D:=D) clock nanos fuel;
      resubmit_listed_tx_outs_behaves_correctly (P:=P) (IC:=IC) (B:=B) (TIC:=TIC) (TB:=TB) (Acc:=Acc) (D:=D) clock nanos fuel;
      create_pending_tx_out_errors_on_unconfigured_token (P:=P) (IC:=IC) (B:=B) (TIC:=TIC) (TB:=TB) (Acc:=Acc) (D:=D) fuel;
      create_pending_tx_out_calculates_correct_swap_rate (P:=P) (IC:=IC) (B:=B) (TIC:=TIC) (TB:=TB) (Acc:=Acc) (D:=D) fuel;
      unlist_spend_tx_outs_behaves_correctly (P:=P) (IC:=IC) (B:=B) (TIC:=TIC) (TB:=TB) (Acc:=Acc) (D:=D) clock nanos fuel;
      look_for_fulfilled_scis_identifies_consumed_scis (P:=P) (IC:=IC) (B:=B) (TIC:=TIC) (TB:=TB) (Acc:=Acc) (D:=D) clock nanos fuel ].
Proof.
  repeat apply Forall_cons_2; [apply update_pending_test_passes|apply submit_pending_test_passes|apply duplicates_test_passes|
    apply resubmit_test_passes|apply unconfigured_test_passes|apply swap_rate_test_passes|apply unlist_test_passes|
    apply fulfilled_test_passes|apply Forall_nil_2].
Qed.
End Rules.

(** * The theorem on an example *)

Module BotTestsExamples.
Import Sample SampleLedger SampleCodec ApiConvertExamples BotOffersExamples.

(** An output: the key, the spend key of its owner, the amount. *)
Definition output (key owner : list Z) (a : Amount) : TxOut :=
  {| txo_public_key := key; txo_target_key := owner; txo_rest := [amt_value a; amt_token_id a] |}.
Definition amount_in (o : TxOut) : Amount :=
  match txo_rest o with [v; t] => amount v t | _ => amount 0 0 end.
Definition checked_amount (o : TxOut) : Amount :=
  if bool_decide (amount_wf (amount_in o)) then amount_in o else amount 0 0.
(** The spend keys of the bot are the indices of its subaddresses. *)
Definition bot_key : list Z := [0].
Definition other_key : list Z := [2].

#[export] Instance bot_account : AccountKey := {|
  decompress k := Ok k;
  unmask_amount o _ := Ok (amount_in o);
  recover_spend_key target _ := target;
  onetime_key_image k _ := k;
  subaddress_spend_public_key i := [i];
|}.

Lemma scan_own i o : txo_target_key o = bot_key → ∃ m, view_key_scan i o spsk_table = Ok (Some m) ∧ mt_amount m = amount_in o.
Proof. intros Ho. unfold view_key_scan. cbn. rewrite Ho. eexists. split; [by vm_compute|done]. Qed.
Lemma scan_other i o : txo_target_key o = other_key → view_key_scan i o spsk_table = Ok None.
Proof. intros Ho. unfold view_key_scan. cbn. rewrite Ho. by vm_compute. Qed.

#[export] Instance dec_literal : DecimalLiteral Dec := {|
  dec m s := (m, Z.to_nat s);
  decimal_eqb a b := bool_decide (a.1 * 10 ^ dec_scale b = b.1 * 10 ^ dec_scale a);
|}.
#[export] Instance dec_literal_laws : DecimalLiteralLaws Dec.
Proof. split; [|done]. intros m s _ Hs. cbn. unfold dec_scale. cbn. lia. Qed.

(** The SCI of a builder. *)
Definition built_sci (b : Builder) (a : Amount) : SignedContingentInput :=
  let real := (cr_real (bu_input b)).1 in
  let c := checked_amount real in {|
  pseudo_output_amount := c;
  required_output_amounts := [];
  tx_in := {|
    ring := (cr_members (bu_input b)).*2;
    input_rules := Some {|
      required_outputs := [];
      partial_fill_outputs := [{| rto_tx_out := output [0] bot_key a; rto_secret := [amt_value a; amt_token_id a] |}];
      partial_fill_change := Some {| rto_tx_out := output [1] bot_key c; rto_secret := [amt_value c; amt_token_id c] |};
      min_partial_fill_value := 0;
      max_tombstone_block := 0;
    |} |};
  tx_out_global_indices := (cr_members (bu_input b)).*1;
  sci_signature := take 1 (txo_public_key real);
|}.

#[export] Instance bot_building : SciBuilding Z Z Credentials Builder | 0 := {|
  gen_range n r := (r mod n, r + 1);
  input_credentials_new ring proofs i subaddress :=
    match ring !! Z.to_nat i with
    | Some t => Ok {| cr_real := (t, subaddress); cr_members := zip proofs ring |}
    | None => Err (TxBuilder "InvalidRingSize")
    end;
  sci_builder_new ic := Ok {| bu_input := ic; bu_partial := []; bu_change := None |};
  add_partial_fill_output a b :=
    st_ret {| bu_input := bu_input b; bu_partial := bu_partial b ++ [a]; bu_change := bu_change b |};
  add_partial_fill_change_output a b :=
    st_ret {| bu_input := bu_input b; bu_partial := bu_partial b; bu_change := Some a |};
  sci_build b := st_lift match bu_partial b with [a] => Ok (built_sci b a) | _ => Err (SciBuilder "outputs") end;
|}.

Lemma reveal_wf o a : amount_wf a → reveal {| rto_tx_out := o; rto_secret := [amt_value a; amt_token_id a] |} = Ok (a, []).
Proof. intros Ha. unfold reveal. cbn. rewrite bool_decide_eq_true_2 by exact Ha. by destruct a. Qed.
Lemma checked_amount_wf o : amount_wf (checked_amount o).
Proof. unfold checked_amount. by case_bool_decide. Qed.

#[export] Program Instance bot_building_laws : SciBuildingLaws Z Z Credentials Builder | 0 := {|
  committed := checked_amount;
  own_key_image t _ := Some (take 1 (txo_public_key t));
  own_output o := txo_target_key o = bot_key;
  proof_index p := p;
  ic_real := cr_real; ic_members := cr_members;
  builder_input := bu_input; builder_partial := bu_partial; builder_change := bu_change;
|}.
Next Obligation. intros n r Hn. by apply Z.mod_pos_bound. Qed.
Next Obligation.
  intros ring proofs i t subaddress Hi Ht Hlen. cbn. rewrite Ht. eexists. split_and!; [done..|].
  cbn. by rewrite list_fmap_id.
Qed.
Next Obligation. intros ic. by eexists. Qed.
Next Obligation. intros a b rng _ _. by eexists _, _. Qed.
Next Obligation. intros a b rng _ _ _. by eexists _, _. Qed.
Next Obligation.
  intros b rng t subaddress key_image a Hreal [= <-] Ha Hp Hc. cbn. rewrite Hp.
  eexists (built_sci b a), rng, _, _, [], _, []. unfold built_sci. rewrite Hreal. cbn. split_and!; try done.
  - by destruct (txo_public_key t) as [|? []].
  - by apply reveal_wf.
  - apply reveal_wf, checked_amount_wf.
Qed.

(** The chain of the test, and the key images made up for it. *)
Record Env := { en_chain : Chain; en_key_images : list (list Z) }.
Definition outputs_in (e : Env) : list TxOut := en_chain e ≫= bc_outputs.
Definition new_keys (n : nat) (e : Env) : list (list Z) := fresh_list n (list_to_set (txo_public_key <$> outputs_in e) : gset (list Z)).
Definition new_key_image (e : Env) : list Z := base.fresh (list_to_set (en_key_images e) : gset (list Z)).

(** The outputs of a transaction with one partial fill. *)
Definition tx_outputs (t : TxTerms unit) : option (list TxOut) :=
  match tt_fills t with
  | [(sci, change)] =>
      match input_rules (tx_in sci) with
      | Some ir =>
          match partial_fill_outputs ir, partial_fill_change ir with
          | [pf], Some ch =>
              match reveal_amount pf, reveal_amount ch with
              | Ok (a, _), Ok (c, _) =>
                  let value := amt_value a * (amt_value c - amt_value change) / amt_value c in
                  Some ([output (txo_public_key (rto_tx_out pf)) (txo_target_key (rto_tx_out pf)) (amount value (amt_token_id a));
                         output (txo_public_key (rto_tx_out ch)) (txo_target_key (rto_tx_out ch)) change]
                        ++ ((λ o, output [] other_key o.1) <$> tt_outputs t))
              | _, _ => None
              end
          | _, _ => None
          end
      | None => None
      end
  | _ => None
  end.

#[export] Instance env_lib : BotTestLib Env Chain Z unit Amount (TxTerms unit) := {|
  env_ledger := en_chain;
  initialize_ledger n e :=
    (Ok tt, {| en_chain := [{| bc_key_images := []; bc_outputs := (λ k, output [k] bot_key (amount 1000 0)) <$> seqZ 0 (n + 10) |}];
               en_key_images := [] |});
  get_outputs amounts e := (zip_with (λ k a, output k bot_key a) (new_keys (length amounts) e) amounts, e);
  random_key_image e :=
    (new_key_image e, {| en_chain := en_chain e; en_key_images := new_key_image e :: en_key_images e |});
  add_block_data outputs ks e :=
    let b := {| bc_key_images := ks; bc_outputs := outputs |} in
    (Ok (Z.of_nat (length (en_chain e)), b), {| en_chain := en_chain e ++ [b]; en_key_images := en_key_images e |});
  random_account e := (tt, e);
  credentials_for a _ e := (a, e);
  membership_proofs _ := [];
  txb_new fee := Ok (mk_terms fee [] [] []);
  txb_add_input a t := mk_terms (tt_fee t) (tt_inputs t ++ [a]) (tt_outputs t) (tt_fills t);
  txb_add_output a acc t := st_ret (mk_terms (tt_fee t) (tt_inputs t) (tt_outputs t ++ [(a, acc)]) (tt_fills t));
  txb_add_presigned_partial_fill_input _ sci change t :=
    Ok (mk_terms (tt_fee t) (tt_inputs t) (tt_outputs t) (tt_fills t ++ [(sci, change)]));
  txb_build t := st_lift (ok_or (tx_outputs t) "no partial fill");
|}.

Lemma output_of_new k a : amount_wf a → checked_amount (output k bot_key a) = a.
Proof. intros Ha. unfold checked_amount, amount_in. cbn. destruct a as [v t]. by rewrite bool_decide_eq_true_2. Qed.

Lemma keys_of_outputs (ks : list (list Z)) (amounts : list Amount) : length ks = length amounts →
  txo_public_key <$> zip_with (λ k a, output k bot_key a) ks amounts = ks.
Proof. revert amounts. induction ks as [|k ks IH]; intros [|a amounts] Hl; try done. cbn. f_equal. apply IH. by injection Hl. Qed.

Lemma found_at (l : list TxOut) i o : NoDup (txo_public_key <$> l) → l !! i = Some o →
  list_find (λ t, txo_public_key t = txo_public_key o) l = Some (i, o).
Proof.
  intros Hnd Hi. apply list_find_Some. split_and!; [done|done|]. intros j y Hj Hlt Heq. 
  assert (j = i); [|lia]. eapply NoDup_lookup; [exact Hnd|by rewrite list_lookup_fmap, Hj|]. rewrite list_lookup_fmap, Hi. cbn. by rewrite Heq.
Qed.

#[export] Program Instance env_laws : BotTestLaws Z Z Credentials Builder Env Chain unit Amount (TxTerms unit) := {|
  env_blank _ := True;
  env_wf e := NoDup (txo_public_key <$> outputs_in e);
  env_outputs := outputs_in;
  env_key_images := en_key_images;
  other_account _ := True;
  tic_amount a := a;
  txb_terms t := t;
|}.
Next Obligation. done. Qed.
Next Obligation.
  intros e i o Hwf Hi. cbn. fold (outputs_in e). rewrite (found_at _ i o) by done. split; [done|]. by rewrite Nat2Z.id, Hi.
Qed.
Next Obligation. intros e l _ _. exists l. split; [done|]. apply list_fmap_id. Qed.
Next Obligation.
  intros e _. eexists. split; [done|]. cbn. split; [|by vm_compute; lia]. by apply (bool_decide_eq_true_1 (NoDup _)); vm_compute.
Qed.
Next Obligation.
  intros amounts e Hwf Ha. eexists _, e. split; [done|]. split; [done|]. set (ks := new_keys (length amounts) e).
  assert (length ks = length amounts) as Hlen by apply length_fresh_list. split.
  - clearbody ks. clear -Ha Hlen. revert amounts Ha Hlen. induction ks as [|k ks IH]; intros [|a amounts] Ha Hl; try done; cbn.
    inversion Ha; subst. constructor; [|by apply IH; [|injection Hl]]. split; [by apply output_of_new|by eexists].
  - rewrite fmap_app, keys_of_outputs by done. apply NoDup_app. split; [done|]. split; [|apply NoDup_fresh_list].
    intros k Hk Hk'. apply fresh_list_is_fresh in Hk'. apply Hk'. by apply elem_of_list_to_set.
Qed.
Next Obligation.
  intros e Hwf. eexists _, _. split; [done|]. split_and!; [done|done|done| |done].
  intros Hin. eapply (is_fresh (list_to_set (en_key_images e) : gset (list Z))), elem_of_list_to_set, Hin.
Qed.
Next Obligation.
  intros outputs ks e Hwf Hnd. assert (∀ b ks', outputs_in {| en_chain := en_chain e ++ [b]; en_key_images := ks' |} = outputs_in e ++ bc_outputs b) as Ho.
  { intros b ks'. unfold outputs_in. cbn. rewrite bind_app. cbn. by rewrite app_nil_r. }
  eexists _, _. split; [done|]. rewrite Ho. done.
Qed.
Next Obligation. intros e Hwf. by eexists tt, e. Qed.
Next Obligation. intros a acc e Hwf. by eexists a, e. Qed.
Next Obligation. intros fee. by eexists. Qed.
Next Obligation. done. Qed.
Next Obligation. intros a acc tb e Hwf. by eexists _, e. Qed.
Next Obligation. intros. by eexists. Qed.
Next Obligation.
  intros tb e sci change ir pf a ch c bl bl' value fill t Hwf Hf Hps Hir Hreq Hpf Hrev Hch Hrev' Hop Hoc Hne Hpos Hval -> Hbal _.
  subst t. unfold own_output in Hop, Hoc. cbn in Hop, Hoc. eexists _, _, _, _, e. cbn [txb_build env_lib]. unfold st_lift, tx_outputs. rewrite Hf, Hir, Hpf, Hch, Hrev, Hrev'. cbn [ok_or].
  split; [done|]. split; [cbn [app]; reflexivity|]. split_and!; try done.
  - intros i. apply Forall_fmap, Forall_forall. intros o _. by apply scan_other.
  - intros i. destruct (scan_own i (output (txo_public_key (rto_tx_out pf)) (txo_target_key (rto_tx_out pf)) (amount (amt_value a * (amt_value c - amt_value change) / amt_value c) (amt_token_id a))) Hop)
      as (m & Hm & Ham). exists m. split; [done|]. rewrite Ham. unfold amount_in. cbn. unfold amount. f_equal. rewrite <-Hval. apply Z.div_mul. lia.
  - intros i. destruct (scan_own i (output (txo_public_key (rto_tx_out ch)) (txo_target_key (rto_tx_out ch)) change) Hoc) as (m & Hm & Ham).
    exists m. split; [done|]. rewrite Ham. unfold amount_in. cbn. by destruct change.
Qed.

(** A generator that counts yields eleven different numbers in eleven draws. *)
Lemma draws_counting count n r : draws (P:=Z) (IC:=Credentials) (B:=Builder) count n r = (λ i, (r + Z.of_nat i) mod n) <$> seq 0 count.
Proof.
  revert r. induction count as [|count IH]; intros r; [done|]. cbn [draws]. cbn. rewrite IH. f_equal; [f_equal; lia|].
  rewrite <-fmap_S_seq, <-list_fmap_compose. apply list_fmap_ext. intros _ i _. cbn. f_equal. lia.
Qed.
Lemma counting_spreads n r : Z.of_nat RING_SIZE ≤ n → spread (P:=Z) (IC:=Credentials) (B:=Builder) 11 n r.
Proof.
  unfold spread, RING_SIZE. intros Hn. split; [lia|]. rewrite draws_counting, size_list_to_set; [done|].
  apply NoDup_fmap_2_strong; [|apply NoDup_seq]. intros i j Hi%elem_of_seq Hj%elem_of_seq Heq.
  assert ((Z.of_nat i - Z.of_nat j) mod n = 0) as Hm.
  { replace (Z.of_nat i - Z.of_nat j) with ((r + Z.of_nat i) - (r + Z.of_nat j)) by lia. rewrite Zminus_mod, Heq, Z.sub_diag. apply Z.mod_0_l. lia. }
  apply Z.mod_divide in Hm as [q Hq]; [|lia]. assert (q = 0) by nia. nia.
Qed.

(** A test that starts at 100 s and takes less than ten. *)
Definition test_clock (n : nat) : option Z := Some (100000 + Z.min (Z.of_nat n) 9999).
Definition test_nanos (n : nat) : option Z := Some 5.
Definition empty_env : Env := {| en_chain := []; en_key_images := [] |}.

Lemma bot_tests_pass_witness :
  ∃ w, look_for_fulfilled_scis_identifies_consumed_scis (A:=list Z) (P:=Z) (IC:=Credentials) (B:=Builder) (D:=Dec)
         test_clock test_nanos 11 (blank_context 0 empty_env) = (Ok tt, w).
Proof.
  assert (Forall (passes (A:=list Z) (R:=Z) 0 empty_env)
    [look_for_fulfilled_scis_identifies_consumed_scis (P:=Z) (IC:=Credentials) (B:=Builder) (D:=Dec) test_clock test_nanos 11]) as Hall.
  { epose proof (bot_tests_pass (A:=list Z) (D:=Dec) (P:=Z) (IC:=Credentials) (B:=Builder) test_clock test_nanos 11 100000 _ _ _ _ 0 empty_env _ _) as Hall.
    rewrite !Forall_cons in Hall. apply Forall_cons. split; [apply Hall|constructor]. }
  inversion Hall as [|? ? (a & w & Hw & _) _]; subst. destruct a. by exists w.
Unshelve.
  - unfold U64_MOD. lia.
  - intros n. eexists. split; [done|]. lia.
  - intros n. by exists 5.
  - intros n r. apply counting_spreads.
  - exact I.
  - intros n m a b Hle [= <-] [= <-]. lia.
Defined.
End BotTestsExamples.
