(* ===== verification/BotSubmit.v ===== *)
(** Submitting SCIs from the liquidity bot to a DEQS.

    [DeqsService] is what the bot may rely on a DEQS for; the theorems on the
    submitting operations of LiquidityBot.v are proved against it, and the
    client service of ClientService.v, over any of the quote books, is shown to
    keep it. *)

From S2P Require Import Prelude McTypes QuoteApi QuotePricing QuoteBook InMemory SqlTypes Sqlite Synchronized ApiConvert ClientService Wallet LiquidityBot.

(** * What the bot may rely on a DEQS for *)

(** The entry of the response for an SCI. *)
Definition honest_entry {A} `{!SciApi A} (sci : SignedContingentInput) (code : QuoteStatusCode) (quote : ApiQuote A) : Prop :=
  match code with
  | CREATED => ∃ q, quote_from_api quote = Ok q ∧ q_sci q = sci
  | QUOTE_ALREADY_EXISTS => ∃ q, quote_from_api quote = Ok q
  | _ => True
  end.

Record honest_response {A} `{!SciApi A} (scis : list SignedContingentInput) (resp : SubmitQuotesResponse A) : Prop := {
  honest_codes : length (sr_status_codes resp) = length scis;
  honest_messages : length (sr_error_messages resp) = length scis;
  honest_quotes : length (sr_quotes resp) = length scis;
  honest_entries i sci code quote :
    scis !! i = Some sci → sr_status_codes resp !! i = Some code → sr_quotes resp !! i = Some quote →
    honest_entry sci code quote;
}.

(** A DEQS that keeps its promises as long as its state is fine; a call to it
    fails or returns, but does not panic in the bot. *)
Class DeqsService (A W : Type) `{!SciApi A, !DeqsClient A W} := {
  deqs_inv : W → Prop;
  deqs_submit_inv req w r w' : deqs_inv w → submit_quotes_async (A:=A) req w = (r, w') → deqs_inv w';
  deqs_submit_no_panic (req : list A) w : is_panic (submit_quotes_async req w).1 = false;
  deqs_submit_honest scis w resp w' :
    deqs_inv w → submit_quotes_async (sci_to_api <$> scis) w = (Ok resp, w') → honest_response scis resp;
}.

Definition accepted (code : QuoteStatusCode) : Prop := code = CREATED ∨ code = QUOTE_ALREADY_EXISTS.
#[export] Instance accepted_dec code : Decision (accepted code).
Proof. unfold accepted. apply _. Defined.

Lemma sanity_check_honest {A} `{!SciApi A} scis (resp : SubmitQuotesResponse A) :
  honest_response scis resp → sanity_check_submit_quotes_response resp (length scis) = Ok tt.
Proof.
  intros [H1 H2 H3 _]. unfold sanity_check_submit_quotes_response. by rewrite H1, H2, H3, !Nat.eqb_refl.
Qed.

Lemma st_bind_assoc_ok {St E T U V} (m : stateful St E T) (k : T → stateful St E U) (h : stateful St E V) s u s1 :
  st_bind m k s = (Ok u, s1) → (x <-- m ;; k x ;;; h) s = h s1.
Proof.
  unfold st_bind. destruct (m s) as [[x|e|p] s0]; [|done..]. by destruct (k x s0) as [[]]; intros [= _ <-].
Qed.

Section Settle.
Context {A R W : Type} `{!SciApi A, !DeqsClient A W} (clock : nat → option Z).
Hypothesis clock_ok : ∀ n, is_Some (clock n).
Implicit Types s : LiquidityBotTask R W.

(** The changes of a settling loop: listed outputs are appended, each with
    its own reading of the clock. *)
Record appended (new : list ListedTxOut) s s' : Prop := {
  app_pending : pending_tx_outs s' = pending_tx_outs s;
  app_listed : listed_tx_outs s' = listed_tx_outs s ++ new;
  app_deqs : task_deqs s' = task_deqs s;
  app_clock : task_clock s' = (task_clock s + length new)%nat;
}.

(** The outputs were listed at consecutive readings of the clock, the first of
    which is number [c]. *)
Definition listed_at (c : nat) (new : list ListedTxOut) : Prop :=
  ∀ k l, new !! k = Some l → ∃ millis, clock (c + k) = Some millis ∧ l_last_submitted_at l = wrap64 millis.

(** Listing one output. *)
Lemma list_one mt q s :
  ∃ s1 now, (now <-- now_since_epoch clock ;;
         push_listed {| l_matched_tx_out := mt; l_quote := q; l_last_submitted_at := now |}) s = (Ok tt, s1) ∧
    (∃ millis, clock (task_clock s) = Some millis ∧ now = wrap64 millis) ∧
    appended [ {| l_matched_tx_out := mt; l_quote := q; l_last_submitted_at := now |} ] s s1.
Proof.
  unfold st_bind, now_since_epoch. destruct (clock_ok (task_clock s)) as [millis Hm]. rewrite Hm.
  eexists _, (wrap64 millis). split; [done|]. split; [by exists millis|]. split; cbn; [done..|lia].
Qed.

Lemma appended_trans new1 new2 s s1 s2 :
  appended new1 s s1 → appended new2 s1 s2 → appended (new1 ++ new2) s s2.
Proof.
  intros [Hp1 Hl1 Hd1 Hc1] [Hp2 Hl2 Hd2 Hc2]. split; [by rewrite Hp2|by rewrite Hl2, Hl1, (assoc_L (++))|by rewrite Hd2|].
  rewrite Hc2, Hc1, length_app. lia.
Qed.

(** The two settling loops have the same shape: an accepted entry is listed,
    another one is dropped. *)
Section Loop.
Context {X : Type} (matched : X → MatchedTxOut) (sci_of : X → SignedContingentInput).
Abbreviation entry := (X * QuoteStatusCode * string * ApiQuote A)%type.
Context (loop : list entry → stateful (LiquidityBotTask R W) BotStop unit).
Hypothesis loop_nil : ∀ s, loop [] s = (Ok tt, s).
Hypothesis loop_rejected : ∀ x code msg aq es s, ¬ accepted code → loop ((x, code, msg, aq) :: es) s = loop es s.
Hypothesis loop_accepted : ∀ x code msg aq es s q,
  accepted code → quote_from_api aq = Ok q → (code = CREATED → q_sci q = sci_of x) →
  loop ((x, code, msg, aq) :: es) s =
    (now <-- now_since_epoch clock ;;
     push_listed {| l_matched_tx_out := matched x; l_quote := q; l_last_submitted_at := now |} ;;;
     loop es) s.

(** The output listed for an accepted entry of the response: the one
    submitted, with the quote of the entry, which if it was created is for the
    SCI submitted. *)
Definition lists (e : X * QuoteStatusCode * ApiQuote A) (l : ListedTxOut) : Prop :=
  l_matched_tx_out l = matched e.1.1 ∧ quote_from_api e.2 = Ok (l_quote l) ∧
  (e.1.2 = CREATED → q_sci (l_quote l) = sci_of e.1.1).

Definition listing_entry (e : entry) : X * QuoteStatusCode * ApiQuote A := (e.1.1, e.2).

Lemma loop_spec entries s :
  Forall (λ e, honest_entry (sci_of e.1.1.1) e.1.1.2 e.2) entries →
  ∃ s' new, loop entries s = (Ok tt, s') ∧ appended new s s' ∧ listed_at (task_clock s) new ∧
    Forall2 lists (listing_entry <$> filter (λ e, accepted e.1.1.2) entries) new.
Proof.
  intros HF. revert s. induction HF as [|[[[x code] msg] aq] entries Hh _ IH]; intros s.
  { exists s, []. split; [done|]. split; [|by split; [|constructor]]. split; rewrite ?app_nil_r; cbn; [done..|lia]. }
  rewrite filter_cons. cbn [fst snd] in *.
  destruct (decide (accepted code)) as [Hacc|Hrej]; [|rewrite loop_rejected by done; apply IH].
  assert (∃ q, quote_from_api aq = Ok q ∧ (code = CREATED → q_sci q = sci_of x)) as (q & Hq & Hsci).
  { destruct Hacc as [->| ->]; cbn in Hh; destruct Hh as [q Hq]; exists q; naive_solver. }
  destruct (list_one (matched x) q s) as (s1 & now & Hs1 & Hnow & Happ).
  destruct (IH s1) as (s' & new & Hr & Happ' & Hat & HF2).
  eexists s', (_ :: new). split; [|split; [exact (appended_trans [_] new _ _ _ Happ Happ')|split; [|by constructor]]].
  - rewrite (loop_accepted _ _ _ _ _ _ q) by done. by rewrite (st_bind_assoc_ok _ _ _ _ _ _ Hs1).
  - intros [|k] l; cbn; [intros [= <-]; by rewrite Nat.add_0_r|]. intros Hl.
    pose proof (app_clock _ _ _ Happ) as Hc. cbn in Hc. destruct (Hat k l Hl) as (millis & Hm & Hst).
    exists millis. split; [|done]. rewrite <-Hm, Hc. f_equal. lia.
Qed.

(** The entries of a response, with what was submitted. *)
Definition response_entries (xs : list X) (resp : SubmitQuotesResponse A) : list (X * QuoteStatusCode * ApiQuote A) :=
  zip (zip xs (sr_status_codes resp)) (sr_quotes resp).

Lemma zip_messages {T U V} (l : list T) (k : list U) (m : list V) :
  length k = length l → length m = length l →
  (λ e : T * U * V, (e.1.1, e.2)) <$> zip (zip l k) m = zip l m.
Proof.
  revert k m. induction l as [|x l IH]; intros [|y k] [|z m] Hk Hm; try done. cbn in *. f_equal. apply IH; lia.
Qed.

(** The same, for the entries made of the submitted list and a response. *)
Lemma loop_response xs (resp : SubmitQuotesResponse A) s :
  honest_response (sci_of <$> xs) resp →
  ∃ s' new, loop (zip (zip (zip xs (sr_status_codes resp)) (sr_error_messages resp)) (sr_quotes resp)) s = (Ok tt, s') ∧
    appended new s s' ∧ listed_at (task_clock s) new ∧
    Forall2 lists (filter (λ e, accepted e.1.2) (response_entries xs resp)) new.
Proof.
  intros [H1 H2 H3 He]. rewrite length_fmap in *.
  set (entries := zip (zip (zip xs _) _) _).
  assert (listing_entry <$> entries = response_entries xs resp) as Hfst.
  { unfold entries, listing_entry, response_entries. apply (zip_messages (zip xs (sr_status_codes resp)));
      rewrite length_zip; lia. }
  destruct (loop_spec entries s) as (s' & new & Hr & Happ & Hat & HF).
  { apply Forall_lookup. intros i [[[x code] msg] aq] Hi. unfold entries in Hi.
    apply lookup_zip_Some in Hi as [Hi Haq]. apply lookup_zip_Some in Hi as [Hi _].
    apply lookup_zip_Some in Hi as [Hx Hcode]. cbn in *. apply (He i); [|done..].
    by rewrite list_lookup_fmap, Hx. }
  exists s', new. split; [done|]. split; [done|]. split; [done|]. rewrite <-Hfst, filter_fmap. exact HF.
Qed.
End Loop.

Lemma settle_pending_response xs (resp : SubmitQuotesResponse A) s :
  honest_response (p_sci <$> xs) resp →
  ∃ s' new, settle_pending clock (zip (zip (zip xs (sr_status_codes resp)) (sr_error_messages resp)) (sr_quotes resp)) s
              = (Ok tt, s') ∧ appended new s s' ∧ listed_at (task_clock s) new ∧
    Forall2 (lists p_matched_tx_out p_sci) (filter (λ e, accepted e.1.2) (response_entries xs resp)) new.
Proof.
  apply loop_response; [done| |].
  - intros x code msg aq es s0 Hrej. unfold accepted in Hrej. by destruct code; try tauto.
  - intros x code msg aq es s0 q Hacc Hq Hsci. cbn [settle_pending].
    destruct Hacc as [->| ->]; unfold quote_try_from, st_bind at 1 2, st_lift; rewrite Hq; cbn.
    + by rewrite bool_decide_eq_true_2 by auto.
    + by case_bool_decide.
Qed.

Lemma settle_listed_response xs (resp : SubmitQuotesResponse A) s :
  honest_response ((λ l, q_sci (l_quote l)) <$> xs) resp →
  ∃ s' new, settle_listed clock (zip (zip (zip xs (sr_status_codes resp)) (sr_error_messages resp)) (sr_quotes resp)) s
              = (Ok tt, s') ∧ appended new s s' ∧ listed_at (task_clock s) new ∧
    Forall2 (lists l_matched_tx_out (λ l, q_sci (l_quote l)))
      (filter (λ e, accepted e.1.2) (response_entries xs resp)) new.
Proof.
  apply loop_response; [done| |].
  - intros x code msg aq es s0 Hrej. unfold accepted in Hrej. by destruct code; try tauto.
  - intros x code msg aq es s0 q Hacc Hq Hsci. cbn [settle_listed].
    destruct Hacc as [->| ->]; unfold quote_try_from, st_bind at 1, st_lift; rewrite Hq; cbn.
    + by rewrite bool_decide_eq_true_2 by auto.
    + by case_bool_decide; subst.
Qed.
End Settle.

(** * Submitting to a DEQS that keeps its promises *)

Section Submitting.
Context {A R W : Type} `{!SciApi A, !DeqsClient A W, !DeqsService A W} (clock : nat → option Z).
Implicit Types s : LiquidityBotTask R W.

(** The call of the DEQS: its answer is handed on. *)
Lemma submit_quotes_cases scis s r s' :
  deqs_inv (A:=A) (task_deqs s) → submit_quotes (sci_to_api <$> scis) s = (r, s') →
  ∃ answer w, submit_quotes_async (sci_to_api (A:=A) <$> scis) (task_deqs s) = (answer, w) ∧ deqs_inv (A:=A) w ∧
    s' = mk_task (pending_tx_outs s) (listed_tx_outs s) (task_rng s) (task_clock s) w ∧
    match answer with
    | Ok resp => r = Ok resp ∧ honest_response scis resp
    | Err e => r = Err (Failed (Grpc e))
    | Panic _ => False
    end.
Proof.
  intros Hi. unfold submit_quotes. pose proof (deqs_submit_no_panic (sci_to_api <$> scis) (task_deqs s)) as Hnp.
  destruct (submit_quotes_async _ _) as [answer w] eqn:Hs. intros [= <- <-]. exists answer, w.
  split; [done|]. split; [by eapply deqs_submit_inv|]. split; [done|].
  destruct answer as [resp|e|p]; [|done..]. split; [done|]. by eapply deqs_submit_honest.
Qed.

(** C31: submitting pending outputs.  With nothing pending nothing is done.
    Otherwise the DEQS is asked once, with the SCIs of all pending outputs in
    order, and against a DEQS that keeps its promises (an entry per SCI, quotes
    that can be read, a created quote for the SCI submitted) the call never
    panics and never fails half-way.  If the DEQS answers with an error, both
    lists are as before.  If it responds, nothing is pending afterwards, and
    the outputs whose entry in the response is marked created or already
    existing, and no others, are appended to the listed ones in order, each
    with the quote of its entry and the time at which it was listed.  The
    clock is not before the epoch, where the code panics. *)
Theorem submit_pending_spec s r s' :
  (∀ n, is_Some (clock n)) → deqs_inv (A:=A) (task_deqs s) → submit_pending_tx_outs (A:=A) clock s = (r, s') →
  match pending_tx_outs s with
  | [] => r = Ok tt ∧ s' = s
  | _ => ∃ answer, submit_quotes_async (sci_to_api (A:=A) <$> (p_sci <$> pending_tx_outs s)) (task_deqs s) =
                     (answer, task_deqs s') ∧
    match answer with
    | Err e => r = Err (Failed (Grpc e)) ∧ pending_tx_outs s' = pending_tx_outs s ∧ listed_tx_outs s' = listed_tx_outs s
    | Ok resp => r = Ok tt ∧ pending_tx_outs s' = [] ∧
        ∃ new, listed_tx_outs s' = listed_tx_outs s ++ new ∧
          Forall2 (lists p_matched_tx_out p_sci)
            (filter (λ e, accepted e.1.2) (response_entries (pending_tx_outs s) resp)) new ∧
          listed_at clock (task_clock s) new
    | Panic _ => False
    end
  end.
Proof.
  intros Hclock Hi. unfold submit_pending_tx_outs.
  destruct (pending_tx_outs s) as [|p0 ps] eqn:Hp; [by intros [= <- <-]|].
  rewrite <-Hp. clear p0 ps Hp. rewrite length_fmap. unfold st_bind at 1.
  change (λ p, sci_to_api (p_sci p)) with (sci_to_api ∘ p_sci). rewrite list_fmap_compose.
  destruct (submit_quotes _ s) as [r1 s1] eqn:Hs1.
  destruct (submit_quotes_cases _ _ _ _ Hi Hs1) as ([resp|e|p] & w & Hans & _ & -> & Hcase); [| |done].
  2: { subst r1. intros [= <- <-]. by exists (Err e). }
  destruct Hcase as [-> Hh].
  pose proof (sanity_check_honest _ _ Hh) as Hsc. rewrite length_fmap in Hsc.
  unfold st_bind at 1, st_lift. rewrite Hsc. unfold st_bind, drain_pending. cbn [fst snd pending_tx_outs].
  destruct (settle_pending_response clock Hclock (pending_tx_outs s) resp
    (set_pending [] (mk_task (pending_tx_outs s) (listed_tx_outs s) (task_rng s) (task_clock s) w)) Hh)
    as (s2 & new & -> & [Hp2 Hl2 Hd2 _] & Hat & HF).
  intros [= <- <-]. exists (Ok resp). split; [by rewrite Hd2|]. do 2 (split; [done|]). by exists new.
Qed.

(** C32: resubmitting.  Of the listed outputs, those last submitted longer ago
    than the limit are due and the others are kept.  With none due nothing
    changes.  Otherwise the DEQS is asked once, with the SCIs of the outputs
    that are due, in order, and against a DEQS that keeps its promises the call
    never panics.  If the DEQS answers with an error, the same outputs are
    listed as before, the due ones last.  If it responds, the due outputs whose
    entry in the response is marked created or already existing are listed
    behind the kept ones with the quote of the entry and the time at which they
    were listed again, and the other due outputs are gone.  Pending outputs are
    not touched.  The clock is not before the epoch. *)
Theorem resubmit_spec older_than s r s' millis :
  (∀ n, is_Some (clock n)) → clock (task_clock s) = Some millis →
  deqs_inv (A:=A) (task_deqs s) → resubmit_listed_tx_outs (A:=A) clock older_than s = (r, s') →
  let stale := needs_resubmit (wrap64 millis) older_than in
  let due := filter (λ l, stale l = true) (listed_tx_outs s) in
  let kept := filter (λ l, stale l = false) (listed_tx_outs s) in
  pending_tx_outs s' = pending_tx_outs s ∧
  match due with
  | [] => r = Ok tt ∧ listed_tx_outs s' = listed_tx_outs s ∧ task_deqs s' = task_deqs s
  | _ => ∃ answer, submit_quotes_async (sci_to_api (A:=A) <$> ((λ l, q_sci (l_quote l)) <$> due)) (task_deqs s) =
                     (answer, task_deqs s') ∧
    match answer with
    | Err e => r = Err (Failed (Grpc e)) ∧ listed_tx_outs s' = kept ++ due
    | Ok resp => r = Ok tt ∧
        ∃ new, listed_tx_outs s' = kept ++ new ∧
          Forall2 (lists l_matched_tx_out (λ l, q_sci (l_quote l)))
            (filter (λ e, accepted e.1.2) (response_entries due resp)) new ∧
          listed_at clock (S (task_clock s)) new
    | Panic _ => False
    end
  end.
Proof.
  intros Hclock Hmillis Hi Hr stale. revert Hr. unfold resubmit_listed_tx_outs, st_bind at 1, now_since_epoch.
  rewrite Hmillis. cbn [listed_tx_outs]. fold stale. unfold drain_filter.
  set (due := filter (λ l, stale l = true) _). set (kept := filter (λ l, stale l = false) _).
  cbv beta zeta iota. destruct due as [|l0 ls] eqn:Hdue.
  { intros [= <- <-]. do 2 (split; [done|]). split; [|done]. cbn. apply list_filter_all. intros l Hl.
    apply not_true_is_false. intros Hst. assert (l ∈ due) as Hin by by apply list_elem_of_filter.
    rewrite Hdue in Hin. by apply elem_of_nil in Hin. }
  rewrite <-Hdue in *. clear l0 ls Hdue. rewrite length_fmap.
  change (λ l, sci_to_api (q_sci (l_quote l))) with (sci_to_api ∘ (λ l, q_sci (l_quote l))). rewrite list_fmap_compose.
  set (s0 := set_listed kept _). destruct (submit_quotes _ s0) as [r1 s1] eqn:Hs1.
  destruct (submit_quotes_cases _ _ _ _ (Hi : deqs_inv (task_deqs s0)) Hs1) as ([resp|e|p] & w & Hans & _ & -> & Hcase);
    [| |done].
  2: { subst r1. intros [= <- <-]. split; [done|]. by exists (Err e). }
  destruct Hcase as [-> Hh]. pose proof (sanity_check_honest _ _ Hh) as Hsc. rewrite length_fmap in Hsc.
  unfold st_bind at 1, st_lift. rewrite Hsc.
  match goal with |- context [settle_listed _ _ ?s1] => set (s2 := s1) end.
  destruct (settle_listed_response clock Hclock due resp s2 Hh) as (s3 & new & -> & [Hp2 Hl2 Hd2 _] & Hat & HF).
  intros [= <- <-]. split; [by rewrite Hp2|]. exists (Ok resp). split; [by rewrite Hd2|]. split; [done|]. by exists new.
Qed.
End Submitting.

(** * The client service keeps the promises

    Its answers convert because the ids of the quotes in the book have 32
    bytes, which every book keeps up. *)

Class BookIds (OB : Type) `{!QuoteBook OB} := {
  ids_wf : OB → Prop;
  add_ids_wf q b r b' : ids_wf b → length (q_id q) = 32%nat → qb_add_quote q b = (r, b') → ids_wf b';
  exists_ids_wf q b e b' : ids_wf b → length (q_id q) = 32%nat →
    qb_add_quote q b = (Err (QuoteAlreadyExists e), b') → length (q_id e) = 32%nat;
}.

(** ** The books *)

#[export] Program Instance InMemory_ids `{McLib} `{!HashIter Pair (list Quote)} : BookIds InMemoryQuoteBook := {|
  ids_wf b := Forall (λ q, length (q_id q) = 32%nat) (map_contents (im_scis b));
|}.
Next Obligation.
  intros ?? q b r b' Hb Hq. cbn in Hb |- *. unfold im_add_quote, with_write. destruct (im_poisoned b); [by intros [= <- <-]|].
  rewrite (map_contents_lookup (im_scis b) (q_pair q)) in Hb. apply Forall_app in Hb as [Hqs Hb].
  destruct (list_find _ _) as [[i e]|]; [intros [= <- <-]; cbn; rewrite map_contents_insert; by apply Forall_app|].
  destruct (bset_insert _ _ _) as [ins qs'] eqn:Hins. apply bset_insert_perm in Hins.
  intros [= <- <-]; cbn; rewrite map_contents_insert; apply Forall_app. split; [|done].
  destruct ins; [rewrite Hins; by constructor|by rewrite Hins].
Qed.
Next Obligation.
  intros ?? q b e b' Hb Hq. cbn in Hb |- *. unfold im_add_quote, with_write. destruct (im_poisoned b); [done|].
  rewrite (map_contents_lookup (im_scis b) (q_pair q)) in Hb. apply Forall_app in Hb as [Hqs _].
  destruct (list_find _ _) as [[i e']|] eqn:Hf; [intros [= -> _]|by destruct (bset_insert _ _ _) as [[] ?]].
  apply find_Some in Hf as [He _]. rewrite Forall_forall in Hqs. by apply Hqs.
Qed.

#[export] Program Instance Sqlite_ids `{McLib, SciCodec} {DB QB} `{!SqlDb DB, !SqlDbLaws DB, !QuoteBook QB, !BookIds QB} :
  BookIds (SqliteQuoteBook DB QB) := {| ids_wf s := ids_wf (sq_quote_book s) |}.
Next Obligation.
  intros ???????? q s r s' Hs Hq Hr. cbn in *. apply sq_add_inner in Hr as [[-> _]|(r0 & Hr & _)]; [done|].
  exact (add_ids_wf _ _ _ _ Hs Hq Hr).
Qed.
Next Obligation.
  intros ???????? q s e s' Hs Hq [->|Hr]%sq_add_exists_cases; [done|]. exact (exists_ids_wf _ _ _ _ Hs Hq Hr).
Qed.

#[export] Program Instance Synchronized_ids `{McLib} {Q L} `{!QuoteBook Q, !Ledger L, !BookIds Q} :
  BookIds (SynchronizedQuoteBook Q L) := {| ids_wf s := ids_wf (sync_quote_book s) |}.
Next Obligation.
  intros ?????? q s r s' Hs Hq [(_ & _ & ->)|[_ Hr]]%sync_add_inv; [done|]. exact (add_ids_wf _ _ _ _ Hs Hq Hr).
Qed.
Next Obligation.
  intros ?????? q s e s' Hs Hq [(_ & ?%check_quote_not_exists & _)|[_ Hr]]%sync_add_inv; [done|].
  exact (exists_ids_wf _ _ _ _ Hs Hq Hr).
Qed.

Section Server.
Context `{McLib, !McLibLaws _} {A OB : Type} `{!SciApi A, !SciApiLaws A, !QuoteBook OB, !BookIds OB}.
Context (validator : SignedContingentInput → outcome Error unit).
Hypothesis validator_fails : ∀ sci e, validator sci ≠ Err (QuoteAlreadyExists e).
(** The clock of the server and the order its threads run in, at a state. *)
Context (server_clock : ClientService OB → option Z) (schedule : ClientService OB → nat → list nat).
Hypothesis schedule_ok : ∀ s n, schedule s n ≡ₚ seq 0 n.

Lemma quote_new_not_exists now sci ts e : quote_new now sci ts ≠ Err (QuoteAlreadyExists e).
Proof.
  unfold quote_new, default_timestamp.
  destruct ts as [t|]; [|destruct now; cbn; [case_bool_decide|]]; cbn; try done.
  all: destruct (sci_validate sci); cbn; [|done..]; destruct (input_rules (tx_in sci)) as [ir|]; cbn; [|done].
  all: destruct (quote_terms sci ir) as [[[] ?]|e'|p] eqn:Ht; cbn; [done| |done]; intros [= ->].
  all: revert Ht; unfold quote_terms, vec_index; case_counts ir.
  all: try destruct (reveal_amount _) as [[]| |]; cbn; try done.
  all: destruct (required_output_amounts sci); cbn; try done; try (case_bool_decide; cbn; try done).
  all: by destruct (checked_sub _ _).
Qed.

Lemma submit_one_exists ts sci (b : OB) e b' :
  submit_one validator ts sci b = (Err (QuoteAlreadyExists e), b') →
  ∃ q, quote_new None sci (Some ts) = Ok q ∧ ∃ b1, qb_add_quote q b = (Err (QuoteAlreadyExists e), b1).
Proof.
  unfold submit_one, qb_add_sci, st_bind, st_lift, st_ret.
  destruct (validator sci) as [[]|e'|p] eqn:Hv; [|intros [= -> _]; by apply validator_fails in Hv|done].
  destruct (quote_new None sci (Some ts)) as [q|e'|p] eqn:Hq; [| |done].
  - destruct (qb_add_quote q b) as [[[]|e'|p] b1] eqn:Ha; intros [=]; subst. eauto.
  - intros [= -> _]. by apply quote_new_not_exists in Hq.
Qed.

(** The RPC as the bot sees it: a handler that panics is a failed call. *)
#[local] Instance server_client : DeqsClient A (ClientService OB) := {|
  submit_quotes_async req s :=
    match submit_quotes_impl validator (server_clock s) (schedule s (length req)) req s with
    | (Ok resp, s') => (Ok resp, s')
    | (Err status, s') => (Err (RpcFailure status), s')
    | (Panic p, s') => (Err (ChannelFailure p), s')
    end;
|}.

(** What holds of the result for an SCI. *)
Definition honest_result (sci : SignedContingentInput) (r : outcome Error Quote) : Prop :=
  match r with
  | Ok q => q_sci q = sci ∧ length (q_id q) = 32%nat
  | Err (QuoteAlreadyExists e) => length (q_id e) = 32%nat
  | _ => True
  end.

Lemma submit_one_honest ts sci (b : OB) r b' :
  ids_wf b → submit_one validator ts sci b = (r, b') → ids_wf b' ∧ honest_result sci r.
Proof.
  intros Hb Hr.
  assert (∀ q, quote_new None sci (Some ts) = Ok q → q_sci q = sci ∧ length (q_id q) = 32%nat) as Hq.
  { intros q (_ & ir & c & rg & m & t & _ & _ & _ & ->)%quote_new_inv. split; [done|]. apply digest32_length. }
  split.
  - revert Hr. unfold submit_one, qb_add_sci, st_bind, st_lift, st_ret.
    destruct (validator sci) as [[]|e|p]; [|by intros [= <- <-]..].
    destruct (quote_new None sci (Some ts)) as [q|e|p]; [|by intros [= <- <-]..].
    destruct (Hq q eq_refl) as [_ Hid].
    destruct (qb_add_quote q b) as [[[]|e|p] b1] eqn:Ha; intros [= <- <-]; by eapply add_ids_wf.
  - destruct r as [q|e|p]; [|destruct e as [| |e| | | | | | | |]; try done|done].
    + revert Hr. unfold submit_one, qb_add_sci.
      intros (? & ? & _ & (q' & ? & [= Hn _] & (? & ? & _ & [= -> _])%st_bind_Ok_inv)%st_bind_Ok_inv)%st_bind_Ok_inv.
      by apply Hq.
    + apply submit_one_exists in Hr as (q & Hn & b1 & Ha). eapply exists_ids_wf; [done| |done]. by apply Hq.
Qed.

Lemma submit_all_honest ts scis sched m (b : OB) m' b' :
  ids_wf b → submit_all validator ts scis sched m b = (m', b') →
  (∀ i r, m !! i = Some r → ∃ sci, scis !! i = Some sci ∧ honest_result sci r) →
  ids_wf b' ∧ (∀ i r, m' !! i = Some r → ∃ sci, scis !! i = Some sci ∧ honest_result sci r) ∧
  ∀ i, is_Some (m !! i) ∨ i ∈ sched ∧ is_Some (scis !! i) → is_Some (m' !! i).
Proof.
  revert m b. induction sched as [|i sched IH]; intros m b Hb; cbn [submit_all].
  { intros [= <- <-] Hm. do 2 (split; [done|]). intros i [?|[Hi _]]; [done|by apply elem_of_nil in Hi]. }
  destruct (scis !! i) as [sci|] eqn:Hsci.
  - destruct (submit_one validator ts sci b) as [r b1] eqn:Hr. intros Hall Hm.
    destruct (submit_one_honest _ _ _ _ _ Hb Hr) as [Hb1 Hhr].
    destruct (IH _ _ Hb1 Hall) as (Hb' & Hm' & Hdom).
    { intros j r' [[<- <-]|[_ ?]]%lookup_insert_Some; [by exists sci|by apply Hm]. }
    do 2 (split; [done|]). intros j Hj. apply Hdom. rewrite lookup_insert_is_Some, elem_of_cons in *.
    destruct (decide (i = j)); naive_solver.
  - intros Hall Hm. destruct (IH _ _ Hb Hall Hm) as (Hb' & Hm' & Hdom). do 2 (split; [done|]).
    intros j Hj. apply Hdom. rewrite elem_of_cons in Hj. destruct Hj as [?|[[->|?] Hs]]; auto.
    rewrite Hsci in Hs. by destruct Hs.
Qed.

Lemma honest_result_entry sci r :
  honest_result sci r → honest_entry (A:=A) sci (result_code r) (result_entry r).
Proof.
  destruct r as [q|e|p]; [|destruct e; try done|done]; cbn.
  - intros [? ?]. exists q. by rewrite quote_from_to_api.
  - intros ?. exists existing_quote. by rewrite quote_from_to_api.
Qed.

Lemma server_submit_cases req s :
  ids_wf (cs_quote_book s) → ∃ r s', submit_quotes_async (A:=A) req s = (r, s') ∧ ids_wf (cs_quote_book s') ∧
  ((∃ e, r = Err e) ∨ ∃ scis resp, r = Ok resp ∧ collect_results sci_from_api req = Ok scis ∧ honest_response scis resp).
Proof.
  intros Hb. unfold submit_quotes_async, server_client, submit_quotes_impl. destruct (_ <=? _); [naive_solver|].
  destruct (request_timestamp _) as [ts|e|p]; [|naive_solver..].
  destruct (collect_results sci_from_api req) as [scis|e|p] eqn:Hscis; [|naive_solver..].
  assert (length req = length scis) as Hlen by by eapply Forall2_length, collect_results_Ok.
  destruct (submit_all validator ts scis _ ∅ (cs_quote_book s)) as [m b'] eqn:Hall.
  destruct (submit_all_honest _ _ _ _ _ _ _ Hb Hall) as (Hb' & Hm & Hdom); [done|].
  destruct (omap_seq_total m 0 (length scis)) as [Hlr Hlk].
  { intros i Hi. apply Hdom. right. rewrite schedule_ok, elem_of_seq, lookup_lt_is_Some. lia. }
  destruct (collect_response _ _ _) as [[resp bus]|e|p] eqn:Hresp; [|naive_solver..].
  apply collect_response_spec in Hresp as (Hc & Hmsg & Hq & _). cbn in Hc, Hmsg, Hq.
  eexists _, _. split; [done|]. split; [done|]. right. exists scis, resp. do 2 (split; [done|]).
  split; rewrite ?Hc, ?Hmsg, ?Hq, ?length_fmap; try done.
  intros i sci code quote Hsci. rewrite !list_lookup_fmap. pose proof (lookup_lt_Some _ _ _ Hsci) as Hlt.
  rewrite (Hlk i Hlt). cbn. destruct (m !! i) as [r|] eqn:Hr; [|done]. intros [= <-] [= <-].
  apply honest_result_entry. destruct (Hm i r Hr) as (sci' & Hsci' & ?). by simplify_eq.
Qed.

Lemma collect_api_scis scis : collect_results (E:=string) sci_from_api (sci_to_api (A:=A) <$> scis) = Ok scis.
Proof. apply collect_results_Ok. induction scis; constructor; [apply sci_api_roundtrip|done]. Qed.

#[local] Program Instance server_keeps_promises : DeqsService A (ClientService OB) := {|
  deqs_inv s := ids_wf (cs_quote_book s);
|}.
Next Obligation.
  intros req s r s' Hb Hr. destruct (server_submit_cases req s Hb) as (r1 & s1 & Hr1 & Hb1 & _).
  by rewrite Hr in Hr1; simplify_eq.
Qed.
Next Obligation. intros req s. cbn. by destruct (submit_quotes_impl _ _ _ _ _) as [[]]. Qed.
Next Obligation.
  intros scis s resp s' Hb Hr. destruct (server_submit_cases (sci_to_api <$> scis) s Hb) as (r1 & s1 & Hr1 & _ & Hc).
  rewrite Hr in Hr1. simplify_eq. destruct Hc as [[e ?]|(scis' & resp' & ? & Hs & Hh)]; [done|].
  rewrite collect_api_scis in Hs. by simplify_eq.
Qed.
End Server.

(** * Where the two sides do not fit *)

Section Misfits.
Context `{McLib} {A OB R : Type} `{!SciApi A, !QuoteBook OB}.
Context (validator : SignedContingentInput → outcome Error unit).
Context (server_clock : ClientService OB → option Z) (schedule : ClientService OB → nat → list nat).

(** The bot submits all pending outputs in one request, and the server refuses
    requests of thirty and more: once that many are pending, every submission
    fails and leaves them pending. *)
Theorem too_many_pending_refused clock (s : LiquidityBotTask R (ClientService OB)) :
  (30 ≤ length (pending_tx_outs s))%nat →
  let _ := server_client (A:=A) validator server_clock schedule in
  submit_pending_tx_outs (A:=A) clock s =
    (Err (Failed (Grpc (RpcFailure (InvalidArgument "Too many quotes")))), s).
Proof.
  intros Hlen client. unfold submit_pending_tx_outs. destruct (pending_tx_outs s) as [|p ps] eqn:Hp.
  { cbn in Hlen. lia. }
  rewrite <-Hp in *. unfold st_bind at 1, submit_quotes. cbn [submit_quotes_async client server_client].
  unfold submit_quotes_impl. rewrite length_fmap.
  rewrite (proj2 (Z.leb_le _ _)) by (unfold MAX_SIMULTANEOUS_QUOTES; lia). cbn. by destruct s.
Qed.
End Misfits.

(** When a response to a resubmission does not have an entry per quote, the
    outputs that were due are no longer tracked, unlike when the RPC fails. *)
Theorem malformed_response_drops_listed {A R W} `{!SciApi A, !DeqsClient A W} clock older_than
    (s : LiquidityBotTask R W) millis (resp : SubmitQuotesResponse A) w e :
  let stale := needs_resubmit (wrap64 millis) older_than in
  let due := filter (λ l, stale l = true) (listed_tx_outs s) in
  clock (task_clock s) = Some millis → due ≠ [] →
  submit_quotes_async ((λ l, sci_to_api (q_sci (l_quote l))) <$> due) (task_deqs s) = (Ok resp, w) →
  sanity_check_submit_quotes_response resp (length due) = Err e →
  ∃ s', resubmit_listed_tx_outs (A:=A) clock older_than s = (Err e, s') ∧
        listed_tx_outs s' = filter (λ l, stale l = false) (listed_tx_outs s).
Proof.
  intros stale due Hmillis Hne Hresp Hsc. unfold resubmit_listed_tx_outs, st_bind at 1, now_since_epoch.
  rewrite Hmillis. cbn [listed_tx_outs]. fold stale. unfold drain_filter. fold due. cbv beta zeta iota.
  destruct due as [|l0 ls] eqn:Hdue; [done|]. rewrite <-Hdue in *. rewrite length_fmap.
  unfold submit_quotes. cbn [task_deqs set_listed]. rewrite Hresp. cbn [map_err].
  unfold st_bind, st_lift. rewrite Hsc. eexists. done.
Qed.

(** * The theorems on examples *)

Module BotSubmitExamples.
Import Sample SampleLedger WalletExamples SampleCodec ApiConvertExamples InMemoryExamples BotExamples.

(** The server with the in-memory book that holds [quote_a]. *)
Definition sample_server_clock (_ : ClientService InMemoryQuoteBook) : option Z := Some 6.
Definition sample_schedule (_ : ClientService InMemoryQuoteBook) (n : nat) : list nat := seq 0 n.
#[export] Instance sample_server : DeqsClient (list Z) (ClientService InMemoryQuoteBook) :=
  server_client (sci_validator ∅) sample_server_clock sample_schedule.

Lemma sample_validator_fails sci e : sci_validator ∅ sci ≠ Err (QuoteAlreadyExists e).
Proof. unfold sci_validator. by destruct (_ <? _). Qed.
#[export] Instance sample_server_promises : DeqsService (list Z) (ClientService InMemoryQuoteBook) :=
  server_keeps_promises (sci_validator ∅) sample_validator_fails sample_server_clock sample_schedule (λ _ _, reflexivity _).

(** A new SCI, and one whose quote is in the book. *)
Definition bot_pending : LiquidityBotTask Z (ClientService InMemoryQuoteBook) :=
  mk_task [ {| p_matched_tx_out := matched 0 2; p_sci := sci_partial 2 2 0 |};
            {| p_matched_tx_out := matched 0 1; p_sci := sci_full 1 1 |} ] [] 0 0 (mk_service [] book_a).
Definition late_clock (n : nat) : option Z := Some (1000000 * (1 + Z.of_nat n)).

Lemma book_a_ids : ids_wf book_a.
Proof. apply (Forall_forall (λ q, length (q_id q) = 32%nat)). intros q Hq.
  assert (map_contents (im_scis book_a) = [quote_a]) as E by apply contents_book_a.
  rewrite E in Hq. apply list_elem_of_singleton in Hq as ->. done.
Qed.

(** Both are listed: the first is created, the second known already. *)
Lemma submit_pending_spec_witness :
  let s' := (submit_pending_tx_outs (A:=list Z) late_clock bot_pending).2 in
  pending_tx_outs s' = [] ∧ l_matched_tx_out <$> listed_tx_outs s' = [matched 0 2; matched 0 1] ∧
  ∃ resp, Forall2 (lists p_matched_tx_out p_sci)
    (filter (λ e, accepted e.1.2) (response_entries (A:=list Z) (pending_tx_outs bot_pending) resp)) (listed_tx_outs s').
Proof.
  pose proof (submit_pending_spec (A:=list Z) late_clock bot_pending
              (submit_pending_tx_outs (A:=list Z) late_clock bot_pending).1
              (submit_pending_tx_outs (A:=list Z) late_clock bot_pending).2
              (λ n, ex_intro _ _ eq_refl) book_a_ids (surjective_pairing _)) as (answer & Hans & Hcase).
  destruct answer as [resp|e|p]; [|vm_compute in Hans; discriminate Hans|destruct Hcase].
  destruct Hcase as (_ & Hp & new & Hl & HF & _). split; [exact Hp|]. split; [by vm_compute|].
  exists resp. rewrite Hl. exact HF.
Defined.

Definition bot_listed : LiquidityBotTask Z (ClientService InMemoryQuoteBook) :=
  mk_task [] [ {| l_matched_tx_out := matched 0 1; l_quote := quote_a; l_last_submitted_at := 0 |};
               {| l_matched_tx_out := matched 0 2; l_quote := quote_b; l_last_submitted_at := 900000 |} ]
    0 0 (mk_service [] book_a).

(** The first is due, known to the DEQS, and listed again behind the second. *)
Lemma resubmit_spec_witness :
  let s' := (resubmit_listed_tx_outs (A:=list Z) late_clock QUOTE_REFRESH_INTERVAL bot_listed).2 in
  pending_tx_outs s' = [] ∧
  ∃ new, listed_tx_outs s' = {| l_matched_tx_out := matched 0 2; l_quote := quote_b; l_last_submitted_at := 900000 |} :: new ∧
    l_matched_tx_out <$> new = [matched 0 1] ∧ listed_at late_clock 1 new.
Proof.
  pose proof (resubmit_spec (A:=list Z) late_clock QUOTE_REFRESH_INTERVAL bot_listed
              (resubmit_listed_tx_outs (A:=list Z) late_clock QUOTE_REFRESH_INTERVAL bot_listed).1
              (resubmit_listed_tx_outs (A:=list Z) late_clock QUOTE_REFRESH_INTERVAL bot_listed).2 1000000
              (λ n, ex_intro _ _ eq_refl) eq_refl book_a_ids (surjective_pairing _)) as [Hp (answer & Hans & Hcase)].
  split; [exact Hp|].
  destruct answer as [resp|e|p]; [|vm_compute in Hans; discriminate Hans|destruct Hcase].
  destruct Hcase as (_ & new & Hl & _ & Hat). exists new. split; [exact Hl|]. split; [|exact Hat].
  apply (f_equal (λ l, l_matched_tx_out <$> tail l)) in Hl.
  refine (eq_trans (eq_sym Hl) _). by vm_compute.
Defined.
End BotSubmitExamples.
