(* ===== verification/BotAdmin.v ===== *)
(** Around the liquidity bot's task: the messages of its admin API
    (liquidity-bot/src/convert), the admin service (admin_service.rs), the
    interface to the task (lib.rs), the metrics (metrics.rs) and the program
    that feeds it from the wallet (bin/main.rs). *)

From S2P Require Import Prelude McTypes QuoteApi QuotePricing QuoteBook InMemory SqlTypes Sqlite Synchronized ApiConvert ClientService Wallet WalletRun LiquidityBot.

(** * Messages (convert/) *)

(** The messages of [mc_api::external] for outputs, amounts and key images. *)
Class ExternalApi (T M K : Type) := {
  tx_out_to_api : TxOut → T;
  tx_out_from_api : T → outcome string TxOut;
  api_tx_out_default : T;
  amount_to_api : Amount → M;
  amount_from_api : M → outcome string Amount;
  api_amount_default : M;
  key_image_to_api : KeyImage → K;
  key_image_from_api : K → outcome string KeyImage;
  api_key_image_default : K;
}.
(** What is sent is received as it was; an empty message is no output. *)
Class ExternalApiLaws (T M K : Type) `{!ExternalApi T M K} : Prop := {
  tx_out_api_roundtrip t : tx_out_from_api (tx_out_to_api t) = Ok t;
  amount_api_roundtrip a : amount_wf a → amount_from_api (amount_to_api a) = Ok a;
  key_image_api_roundtrip k : key_image_from_api (key_image_to_api k) = Ok k;
  tx_out_api_default_invalid : is_err (tx_out_from_api api_tx_out_default) = true;
}.

(** The messages of liquidity_bot.proto. *)
Record ApiMatchedTxOut (T M K : Type) := mk_api_matched {
  am_block_index : Z;
  am_tx_out : option T;
  am_amount : option M;
  am_subaddress_index : Z;
  am_key_image : option K;
}.
Arguments mk_api_matched {T M K} _ _ _ _ _.
Arguments am_block_index {T M K} _.
Arguments am_tx_out {T M K} _.
Arguments am_amount {T M K} _.
Arguments am_subaddress_index {T M K} _.
Arguments am_key_image {T M K} _.

Record ApiPendingTxOut (A T M K : Type) := mk_api_pending {
  ap_matched_tx_out : option (ApiMatchedTxOut T M K);
  ap_sci : option A;
}.
Arguments mk_api_pending {A T M K} _ _.
Arguments ap_matched_tx_out {A T M K} _.
Arguments ap_sci {A T M K} _.

Record ApiListedTxOut (A T M K : Type) := mk_api_listed {
  al_matched_tx_out : option (ApiMatchedTxOut T M K);
  al_quote : option (ApiQuote A);
  al_last_submitted_at : Z;
}.
Arguments mk_api_listed {A T M K} _ _ _.
Arguments al_matched_tx_out {A T M K} _.
Arguments al_quote {A T M K} _.
Arguments al_last_submitted_at {A T M K} _.

Section Convert.
Context {A T M K : Type} `{!SciApi A, !ExternalApi T M K}.

Definition api_matched_default : ApiMatchedTxOut T M K := mk_api_matched 0 None None 0 None.

Definition matched_to_api (src : MatchedTxOut) : ApiMatchedTxOut T M K :=
  mk_api_matched (mt_block_index src) (Some (tx_out_to_api (mt_tx_out src))) (Some (amount_to_api (mt_amount src)))
    (mt_subaddress_index src) (Some (key_image_to_api (mt_key_image src))).

Definition matched_from_api (src : ApiMatchedTxOut T M K) : outcome string MatchedTxOut :=
  tx_out ← tx_out_from_api (default api_tx_out_default (am_tx_out src));
  amount ← amount_from_api (default api_amount_default (am_amount src));
  key_image ← key_image_from_api (default api_key_image_default (am_key_image src));
  Ok {| mt_block_index := am_block_index src; mt_tx_out := tx_out; mt_amount := amount;
        mt_subaddress_index := am_subaddress_index src; mt_key_image := key_image |}.

Definition pending_to_api (src : PendingTxOut) : ApiPendingTxOut A T M K :=
  mk_api_pending (Some (matched_to_api (p_matched_tx_out src))) (Some (sci_to_api (p_sci src))).

Definition pending_from_api (src : ApiPendingTxOut A T M K) : outcome string PendingTxOut :=
  matched_tx_out ← matched_from_api (default api_matched_default (ap_matched_tx_out src));
  sci ← sci_from_api (default api_sci_default (ap_sci src));
  Ok {| p_matched_tx_out := matched_tx_out; p_sci := sci |}.

Definition listed_to_api (src : ListedTxOut) : ApiListedTxOut A T M K :=
  mk_api_listed (Some (matched_to_api (l_matched_tx_out src))) (Some (quote_to_api (l_quote src)))
    (l_last_submitted_at src).

Definition listed_from_api (src : ApiListedTxOut A T M K) : outcome string ListedTxOut :=
  matched_tx_out ← matched_from_api (default api_matched_default (al_matched_tx_out src));
  quote ← quote_from_api (default api_quote_default (al_quote src));
  Ok {| l_matched_tx_out := matched_tx_out; l_quote := quote; l_last_submitted_at := al_last_submitted_at src |}.

Context `{!SciApiLaws A, !ExternalApiLaws T M K}.

Lemma matched_roundtrip t : amount_wf (mt_amount t) → matched_from_api (matched_to_api t) = Ok t.
Proof.
  intros Hwf. unfold matched_from_api. cbn. rewrite tx_out_api_roundtrip. cbn.
  rewrite amount_api_roundtrip by done. cbn. rewrite key_image_api_roundtrip. by destruct t.
Qed.

Lemma pending_roundtrip p : amount_wf (mt_amount (p_matched_tx_out p)) → pending_from_api (pending_to_api p) = Ok p.
Proof.
  intros Hwf. unfold pending_from_api. cbn. rewrite matched_roundtrip by done. cbn.
  rewrite sci_api_roundtrip. by destruct p.
Qed.

Lemma listed_roundtrip l :
  amount_wf (mt_amount (l_matched_tx_out l)) → length (q_id (l_quote l)) = 32%nat →
  listed_from_api (listed_to_api l) = Ok l.
Proof.
  intros Hwf Hid. unfold listed_from_api. cbn. rewrite matched_roundtrip by done. cbn.
  rewrite quote_from_to_api by done. by destruct l.
Qed.
End Convert.

(** * The interface to the task (lib.rs), and the admin service *)

Section Interface.
Context `{McLib, HistogramVecs} {A D R W P IC B L : Type}.
Context `{!SciApi A, !DeqsClient A W, !Decimal D, !Ledger L, !LedgerTxOuts L P, !SciBuilding R P IC B, !HashIter Z unit}.
Context {T M K : Type} `{!ExternalApi T M K}.
Variable clock : nat → option Z.
Variable fuel : nat.
Variable pairs : gmap TokenId (TokenId * D).
(** Whether the task still receives commands. *)
Variable running : bool.
Local Abbreviation task := (LiquidityBotTask R W).
Local Abbreviation step := (run_step (A:=A) (P:=P) (IC:=IC) (B:=B) clock fuel pairs (L:=L)).

(** A command with a reply: the [send], and the wait for the task to get to
    the command. *)
Definition interface_call (command : Command) (ledger_db : L) : stateful task BotStop (option Reply) :=
  if running then
    r <-- step (ReceivedCommand command true ledger_db);; st_ret r.2
  else st_lift (Panic "command tx failed").

Definition interface_stats (ledger_db : L) : stateful task BotStop Stats :=
  r <-- interface_call GetStats ledger_db;;
  st_lift (match r with Some (StatsReply stats) => Ok stats | _ => Panic "command rx failed" end).
Definition interface_pending_tx_outs (ledger_db : L) : stateful task BotStop (list PendingTxOut) :=
  r <-- interface_call GetPendingTxOuts ledger_db;;
  st_lift (match r with Some (PendingReply l) => Ok l | _ => Panic "command rx failed" end).
Definition interface_listed_tx_outs (ledger_db : L) : stateful task BotStop (list ListedTxOut) :=
  r <-- interface_call GetListedTxOuts ledger_db;;
  st_lift (match r with Some (ListedReply l) => Ok l | _ => Panic "command rx failed" end).

(** [LiquidityBotInterface::notify_wallet_event]: the command is queued. *)
Definition notify_wallet_event (event : WalletEvent) : stateful (list Command) BotStop unit := λ queue,
  if running then (Ok tt, queue ++ [CmdWalletEvent event]) else (Panic "command tx failed", queue).

(** [LiquidityBot::shutdown], also when the bot is dropped: nothing when the
    task has ended, else the request, which the task gets to after [events]. *)
Definition bot_shutdown (events : list (TaskEvent (L:=L))) : stateful task BotStop (list Reply) :=
  if running then bot_run (A:=A) (P:=P) (IC:=IC) (B:=B) clock fuel pairs (events ++ [ShutdownRequested]) else st_ret [].

(** After a shutdown the task takes nothing more. *)
Lemma bot_shutdown_final events more s :
  running = true →
  bot_run (A:=A) (P:=P) (IC:=IC) (B:=B) clock fuel pairs (events ++ ShutdownRequested :: more) s = bot_shutdown events s.
Proof.
  intros Hrun. unfold bot_shutdown. rewrite Hrun. revert s. induction events as [|e events IH]; intros s; [done|].
  cbn [app bot_run]. unfold st_bind. destruct (run_step _ _ _ _ _) as [[[[] reply]|?|?] s']; [|done..]. by rewrite IH.
Qed.

Definition get_pending_tx_outs_impl (ledger_db : L) : stateful task BotStop (list (ApiPendingTxOut A T M K)) :=
  pending_tx_outs <-- interface_pending_tx_outs ledger_db;; st_ret (pending_to_api <$> pending_tx_outs).
Definition get_listed_tx_outs_impl (ledger_db : L) : stateful task BotStop (list (ApiListedTxOut A T M K)) :=
  listed_tx_outs <-- interface_listed_tx_outs ledger_db;; st_ret (listed_to_api <$> listed_tx_outs).
End Interface.

Lemma collect_results_map {E X Y} (f : X → outcome E Y) (g : Y → X) (l : list Y) :
  Forall (λ y, f (g y) = Ok y) l → collect_results f (g <$> l) = Ok l.
Proof. intros Hl. apply collect_results_Ok. induction Hl; cbn; constructor; auto. Qed.

Section AdminTheorem.
Context `{McLib, HistogramVecs} {A D R W P IC B L : Type}.
Context `{!SciApi A, !SciApiLaws A, !DeqsClient A W, !Decimal D, !Ledger L, !LedgerTxOuts L P, !SciBuilding R P IC B, !HashIter Z unit}.
Context {T M K : Type} `{!ExternalApi T M K, !ExternalApiLaws T M K}.
Context (clock : nat → option Z) (fuel : nat) (pairs : gmap TokenId (TokenId * D)).

(** What the admin API shows is what the bot has: while the task runs,
    the responses convert back to exactly its pending and listed outputs, in
    their order, and asking changes nothing. *)
Lemma admin_shows_lists (ledger_db : L) (s : LiquidityBotTask R W) :
  Forall (λ t, amount_wf (mt_amount t)) (tracked_tx_outs s) →
  Forall (λ l, length (q_id (l_quote l)) = 32%nat) (listed_tx_outs s) →
  ∃ pending listed,
    get_pending_tx_outs_impl (A:=A) (P:=P) (IC:=IC) (B:=B) (T:=T) (M:=M) (K:=K) clock fuel pairs true ledger_db s = (Ok pending, s) ∧
    collect_results pending_from_api pending = Ok (pending_tx_outs s) ∧
    get_listed_tx_outs_impl (A:=A) (P:=P) (IC:=IC) (B:=B) (T:=T) (M:=M) (K:=K) clock fuel pairs true ledger_db s = (Ok listed, s) ∧
    collect_results listed_from_api listed = Ok (listed_tx_outs s).
Proof.
  intros [Hp Hl]%Forall_app Hid. exists (pending_to_api <$> pending_tx_outs s), (listed_to_api <$> listed_tx_outs s).
  split; [done|]. split; [|split; [done|]].
  - apply collect_results_map. rewrite Forall_fmap in Hp. eapply Forall_impl; [exact Hp|].
    intros p Hwf. by apply pending_roundtrip.
  - apply collect_results_map. rewrite Forall_fmap in Hl. apply Forall_forall. intros l Hin.
    rewrite Forall_forall in Hl, Hid. apply listed_roundtrip; [by apply Hl|by apply Hid].
Qed.
End AdminTheorem.

(** * Metrics (metrics.rs) *)

(** An [IntGaugeVec] by its label, a [HistogramVec] by its observations. *)
Record PerTokenMetrics := {
  num_pending_tx_outs_gauge : gmap string Z;
  pending_tx_outs_value_gauge : gmap string Z;
  num_listed_tx_outs_gauge : gmap string Z;
  listed_tx_outs_value_gauge : gmap string Z;
  fulfilled_sci_percentages : gmap string (list (Z * Z));
}.

(** The loop over one of the maps that sets the gauge of each token. *)
Definition set_gauges `{!HashIter Z Z} (values : gmap TokenId Z) (gauge : gmap string Z) : gmap string Z :=
  fold_left (λ gauge '(token_id, value), <[pretty token_id := as_i64 value]> gauge) (hash_entries values) gauge.

Definition update_metrics_from_liquidity_bot `{!HashIter Z Z} (stats : Stats) (m : PerTokenMetrics) : PerTokenMetrics := {|
  num_pending_tx_outs_gauge := set_gauges (num_pending_tx_outs_by_token_id stats) (num_pending_tx_outs_gauge m);
  pending_tx_outs_value_gauge := set_gauges (total_pending_tx_outs_value_by_token_id stats) (pending_tx_outs_value_gauge m);
  num_listed_tx_outs_gauge := set_gauges (num_listed_tx_outs_by_token_id stats) (num_listed_tx_outs_gauge m);
  listed_tx_outs_value_gauge := set_gauges (total_listed_tx_outs_value_by_token_id stats) (listed_tx_outs_value_gauge m);
  fulfilled_sci_percentages := fulfilled_sci_percentages m;
|}.

Definition update_metrics_from_fulfilled_sci `{McLib, HistogramVecs} (fulfilled_sci : FulfilledSci) (m : PerTokenMetrics) :
    outcome BotStop PerTokenMetrics :=
  let label := pretty (base_token_id (q_pair (l_quote (fs_listed_tx_out fulfilled_sci)))) in
  match fill_percents fulfilled_sci with
  | Ok percents =>
      _ ← with_label_values FULFILLED_SCI_BUCKETS label;
      Ok {|
        num_pending_tx_outs_gauge := num_pending_tx_outs_gauge m;
        pending_tx_outs_value_gauge := pending_tx_outs_value_gauge m;
        num_listed_tx_outs_gauge := num_listed_tx_outs_gauge m;
        listed_tx_outs_value_gauge := listed_tx_outs_value_gauge m;
        fulfilled_sci_percentages :=
          <[label := default [] (fulfilled_sci_percentages m !! label) ++ [percents]]> (fulfilled_sci_percentages m) |}
  | Err _ => Ok m
  | Panic p => Panic p
  end.

(** [update_periodic_metrics]: the gauge of the wallet's next block, and the
    gauges per token. *)
Definition bot_periodic_metrics `{!HashIter Z Z} (wallet_next_block_index : Z) (stats : Stats)
    (m : Z * PerTokenMetrics) : Z * PerTokenMetrics :=
  (as_i64 wallet_next_block_index, update_metrics_from_liquidity_bot stats m.2).

Lemma set_gauges_fold (entries : list (Z * Z)) (gauge : gmap string Z) t v :
  NoDup entries.*1 → (t, v) ∈ entries →
  fold_left (λ gauge '(token_id, value), <[pretty token_id := as_i64 value]> gauge) entries gauge !! pretty t
  = Some (as_i64 v).
Proof.
  revert gauge. induction entries as [|[t0 v0] entries IH] using rev_ind; intros gauge Hnd Hin.
  { by apply elem_of_nil in Hin. }
  rewrite fold_left_app. cbn. rewrite fmap_app in Hnd. apply NoDup_app in Hnd as (Hnd & Hdis & _).
  apply elem_of_app in Hin as [Hin|[= -> ->]%list_elem_of_singleton]; [|by rewrite lookup_insert_eq].
  assert (t ≠ t0) as Hne.
  { intros ->. apply (Hdis t0); [|apply list_elem_of_here]. apply list_elem_of_fmap. by exists (t0, v). }
  rewrite lookup_insert_ne by by intros ?%(inj pretty). by apply IH.
Qed.

Lemma set_gauges_lookup `{!HashIter Z Z} values gauge t v :
  values !! t = Some v → set_gauges values gauge !! pretty t = Some (as_i64 v).
Proof.
  intros Hv. apply set_gauges_fold.
  - rewrite hash_entries_perm. apply NoDup_fst_map_to_list.
  - rewrite hash_entries_perm. by apply elem_of_map_to_list.
Qed.

Lemma with_known_tokens_other tokens m t : t ∉ tokens → with_known_tokens tokens m !! t = m !! t.
Proof.
  unfold with_known_tokens. revert m. induction tokens as [|t0 tokens IH]; intros m Hnin; [done|]. cbn [fold_left].
  rewrite IH by set_solver. unfold entry_default. rewrite lookup_insert_ne by set_solver. done.
Qed.

Lemma with_known_tokens_lookup tokens m t :
  t ∈ tokens → with_known_tokens tokens m !! t = Some (default 0 (m !! t)).
Proof.
  revert m. induction tokens as [|t0 tokens IH]; intros m Hin; [by apply elem_of_nil in Hin|].
  change (with_known_tokens (t0 :: tokens) m) with (with_known_tokens tokens (entry_default t0 m)).
  assert (default 0 (entry_default t0 m !! t) = default 0 (m !! t)) as Hsame.
  { unfold entry_default. destruct (decide (t0 = t)) as [->|]; [by rewrite lookup_insert_eq|by rewrite lookup_insert_ne]. }
  destruct (decide (t ∈ tokens)) as [Hin'|Hnin]; [by rewrite IH, Hsame|].
  apply elem_of_cons in Hin as [->|]; [|done]. rewrite with_known_tokens_other by done.
  unfold entry_default. by rewrite lookup_insert_eq.
Qed.

Section MetricsTheorem.
Context {D R W : Type} `{!HashIter Z Z} (pairs : gmap TokenId (TokenId * D)).

(** The amounts of the outputs of a token. *)
Definition pending_of (t : TokenId) (s : LiquidityBotTask R W) : list Amount :=
  of_token t ((λ p, mt_amount (p_matched_tx_out p)) <$> pending_tx_outs s).
Definition listed_of (t : TokenId) (s : LiquidityBotTask R W) : list Amount :=
  of_token t ((λ l, mt_amount (l_matched_tx_out l)) <$> listed_tx_outs s).
Definition total_value (l : list Amount) : Z := foldr (λ a z, amt_value a + z) 0 l.

(** After an update the gauges of every token the bot is configured for
    show the number and the total value of its pending and listed outputs,
    also when there are none left; values are 64-bit, read as signed. *)
Lemma metrics_reflect_lists (s : LiquidityBotTask R W) (m : PerTokenMetrics) (t : TokenId) :
  is_Some (pairs !! t) →
  let m' := update_metrics_from_liquidity_bot (stats_from (map_to_list pairs).*1 s) m in
  num_pending_tx_outs_gauge m' !! pretty t = Some (as_i64 (Z.of_nat (length (pending_of t s)))) ∧
  pending_tx_outs_value_gauge m' !! pretty t = Some (as_i64 (total_value (pending_of t s))) ∧
  num_listed_tx_outs_gauge m' !! pretty t = Some (as_i64 (Z.of_nat (length (listed_of t s)))) ∧
  listed_tx_outs_value_gauge m' !! pretty t = Some (as_i64 (total_value (listed_of t s))).
Proof.
  intros [v Hv] m'. assert (t ∈ (map_to_list pairs).*1) as Hin.
  { apply list_elem_of_fmap. exists (t, v). split; [done|]. by apply elem_of_map_to_list. }
  assert (∀ z, as_i64 (wrap64 z) = as_i64 z) as Hwrap.
  { intros z. unfold as_i64. by rewrite (wrap64_small (wrap64 z)) by apply wrap64_u64. }
  unfold m', update_metrics_from_liquidity_bot, stats_from, pending_of, listed_of, total_value.
  pose proof (stats_of_spec ((λ p, mt_amount (p_matched_tx_out p)) <$> pending_tx_outs s) t) as [Hp1 Hp2].
  pose proof (stats_of_spec ((λ l, mt_amount (l_matched_tx_out l)) <$> listed_tx_outs s) t) as [Hl1 Hl2].
  destruct (stats_of ((λ p, mt_amount (p_matched_tx_out p)) <$> pending_tx_outs s)) as [np tp].
  destruct (stats_of ((λ l, mt_amount (l_matched_tx_out l)) <$> listed_tx_outs s)) as [nl tl].
  cbn [fst snd] in *.
  split; [|split; [|split]]; cbn; (rewrite (set_gauges_lookup _ _ t _ (with_known_tokens_lookup _ _ t Hin))).
  - by rewrite Hp1, Hwrap.
  - by rewrite Hp2, Hwrap.
  - by rewrite Hl1, Hwrap.
  - by rewrite Hl2, Hwrap.
Qed.
End MetricsTheorem.

(** * The program (bin/main.rs) *)

(** [Itertools::group_by] on the block index: runs of equal keys. *)
Fixpoint group_by_block (l : list MatchedTxOut) : list (BlockIndex * list MatchedTxOut) :=
  match l with
  | [] => []
  | t :: rest =>
      match group_by_block rest with
      | (i, group) :: groups =>
          if i =? mt_block_index t then (i, t :: group) :: groups
          else (mt_block_index t, [t]) :: (i, group) :: groups
      | [] => [(mt_block_index t, [t])]
      end
  end.

(** The events made of the wallet's outputs at the start. *)
Definition feed_existing (existing_tx_outs : list MatchedTxOut) : list WalletEvent :=
  (λ '(block_index, received_tx_outs), BlockProcessed block_index received_tx_outs []) <$> group_by_block existing_tx_outs.

(** What the [select!] of [main] receives. *)
Inductive MainEvent := CtrlC | WalletRx (event : option WalletEvent) | MetricsTick.

(** The commands [main] sends to the bot in its loop; a tick asks for the
    statistics. *)
Fixpoint main_loop (events : list MainEvent) : list Command :=
  match events with
  | [] | CtrlC :: _ | WalletRx None :: _ => []
  | WalletRx (Some event) :: rest => CmdWalletEvent event :: main_loop rest
  | MetricsTick :: rest => GetStats :: main_loop rest
  end.

(** [main], from the opened ledger on. *)
Definition bot_main `{!HashIter (list Z) MatchedTxOut} (num_blocks : Z) (wallet : State) (events : list MainEvent) :
    outcome string (list Command) :=
  _ ← rust_assert (negb (num_blocks =? 0)) "assertion failed: 0 != num_blocks";
  Ok ((CmdWalletEvent <$> feed_existing (wallet_matched_tx_outs wallet)) ++ main_loop events).

Definition event_block (e : WalletEvent) : BlockIndex := match e with BlockProcessed i _ _ => i end.
Definition event_received (e : WalletEvent) : list MatchedTxOut := match e with BlockProcessed _ r _ => r end.
Definition event_spent (e : WalletEvent) : list MatchedTxOut := match e with BlockProcessed _ _ s => s end.

#[export] Instance by_block_index_total : Total by_block_index.
Proof. intros a b. unfold by_block_index. lia. Qed.

Lemma group_by_block_head t rest : ∃ group groups, group_by_block (t :: rest) = (mt_block_index t, group) :: groups.
Proof.
  cbn. destruct (group_by_block rest) as [|[i g] groups]; [by eexists _, _|].
  destruct (Z.eqb_spec i (mt_block_index t)) as [->|]; by eexists _, _.
Qed.

Lemma group_by_block_spec l :
  (group_by_block l ≫= snd) = l ∧
  Forall (λ '(i, g), g ≠ [] ∧ Forall (λ t, mt_block_index t = i) g) (group_by_block l) ∧
  (Sorted Z.le (mt_block_index <$> l) → Sorted Z.lt (group_by_block l).*1).
Proof.
  induction l as [|t l (IH1 & IH2 & IH3)]; [split; [done|]; split; constructor|].
  cbn [group_by_block]. destruct (group_by_block l) as [|[i g] groups] eqn:Hg.
  - destruct l; [|destruct (group_by_block_head m l) as (? & ? & E); congruence].
    split; [done|]. split; [by repeat constructor|by repeat constructor].
  - assert (∃ u l', l = u :: l' ∧ i = mt_block_index u) as (u & l' & -> & ->).
    { destruct l as [|u l']; [done|]. destruct (group_by_block_head u l') as (? & ? & E). exists u, l'.
      split; [done|congruence]. }
    apply Forall_cons in IH2 as [[Hg0 Hg1] IH2]. cbn in IH1.
    destruct (Z.eqb_spec (mt_block_index u) (mt_block_index t)) as [Heq|Hne].
    + split; [cbn; by rewrite IH1|]. split; [by repeat constructor|].
      cbn. intros [Hs _]%Sorted_inv. exact (IH3 Hs).
    + split; [cbn; by rewrite IH1|]. split; [by repeat constructor|].
      cbn. intros [Hs Hhd]%Sorted_inv. constructor; [exact (IH3 Hs)|]. constructor. inversion Hhd. lia.
Qed.

(** The events at the start carry the outputs of the wallet. *)
Lemma feed_received `{!HashIter (list Z) MatchedTxOut} (wallet : State) :
  (feed_existing (wallet_matched_tx_outs wallet) ≫= event_received) ≡ₚ (map_to_list (matched_tx_outs wallet)).*2.
Proof.
  destruct (group_by_block_spec (wallet_matched_tx_outs wallet)) as (H1 & _ & _).
  transitivity (wallet_matched_tx_outs wallet).
  - rewrite <-H1 at 2. unfold feed_existing. apply reflexive_eq. clear.
    induction (group_by_block _) as [|[i g] l IH]; [done|]. cbn. by rewrite IH.
  - unfold wallet_matched_tx_outs. by rewrite merge_sort_Permutation, hash_entries_perm.
Qed.

(** At its start the program tells the bot about exactly the outputs of its
    wallet, once each, in one event per block and in the order of the blocks,
    and about no spent ones; then it forwards the wallet's events in order
    until it is interrupted or the wallet ends. *)
Lemma main_feeds_bot `{!HashIter (list Z) MatchedTxOut} num_blocks (wallet : State) events :
  num_blocks ≠ 0 →
  let feed := feed_existing (wallet_matched_tx_outs wallet) in
  bot_main num_blocks wallet events = Ok ((CmdWalletEvent <$> feed) ++ main_loop events) ∧
  (feed ≫= event_received) ≡ₚ (map_to_list (matched_tx_outs wallet)).*2 ∧
  Forall (λ e, event_received e ≠ [] ∧ event_spent e = [] ∧
               Forall (λ t, mt_block_index t = event_block e) (event_received e)) feed ∧
  Sorted Z.lt (event_block <$> feed).
Proof.
  intros Hn feed. split.
  { unfold bot_main. rewrite (proj2 (Z.eqb_neq _ _) Hn). done. }
  destruct (group_by_block_spec (wallet_matched_tx_outs wallet)) as (_ & H2 & H3).
  unfold feed, feed_existing. split; [|split].
  - apply feed_received.
  - apply Forall_fmap. eapply Forall_impl; [exact H2|]. intros [i g] [? ?]. done.
  - rewrite <-list_fmap_compose.
    assert (event_block ∘ (λ '(i, r), BlockProcessed i r []) <$> group_by_block (wallet_matched_tx_outs wallet)
      = (group_by_block (wallet_matched_tx_outs wallet)).*1) as ->
      by (apply list_fmap_ext; by intros ? [? ?]).
    apply H3. unfold wallet_matched_tx_outs.
    pose proof (Sorted_merge_sort by_block_index (hash_entries (matched_tx_outs wallet)).*2) as Hs.
    induction Hs as [|x l Hs IH Hhd]; [constructor|]. cbn. constructor; [done|]. destruct Hhd; by constructor.
Qed.

(** ** The bot hears of every output *)

(** What whoever follows the commands knows to be unspent. *)
Definition told_event (e : WalletEvent) (m : gmap KeyImage MatchedTxOut) : gmap KeyImage MatchedTxOut :=
  insert_received (event_received e) (fold_left (λ m t, delete (mt_key_image t) m) (event_spent e) m).
Definition told_command (c : Command) (m : gmap KeyImage MatchedTxOut) : gmap KeyImage MatchedTxOut :=
  match c with CmdWalletEvent e => told_event e m | _ => m end.
Definition told (commands : list Command) (m : gmap KeyImage MatchedTxOut) : gmap KeyImage MatchedTxOut :=
  fold_left (λ m c, told_command c m) commands m.

Lemma told_app l1 l2 m : told (l1 ++ l2) m = told l2 (told l1 m).
Proof. apply fold_left_app. Qed.

(** A function on maps that overwrites some keys and keeps the others. *)
Definition overwrites {K V} `{Countable K} (f : gmap K V → gmap K V) : Prop :=
  ∀ k, (∃ v, ∀ m, f m !! k = v) ∨ (∀ m, f m !! k = m !! k).

Section Overwrites.
Context {K V : Type} `{Countable K}.

Lemma overwrites_id : overwrites (λ m : gmap K V, m).
Proof. intros k. by right. Qed.
Lemma overwrites_compose (f g : gmap K V → gmap K V) : overwrites f → overwrites g → overwrites (λ m, g (f m)).
Proof.
  intros Hf Hg k. destruct (Hg k) as [[v Hv]|Hk]; [left; by exists v|].
  destruct (Hf k) as [[v Hv]|Hk']; [left; exists v|right]; intros m; by rewrite Hk.
Qed.
Lemma overwrites_fold {X} (f : gmap K V → X → gmap K V) l :
  (∀ x, overwrites (λ m, f m x)) → overwrites (λ m, fold_left f l m).
Proof.
  intros Hf. induction l as [|x l IH]; cbn; [apply overwrites_id|].
  exact (overwrites_compose (λ m, f m x) (λ m, fold_left f l m) (Hf x) IH).
Qed.
Lemma overwrites_insert i (v : V) : overwrites (λ m : gmap K V, <[i := v]> m).
Proof.
  intros k. destruct (decide (i = k)) as [->|]; [left; exists (Some v)|right]; intros m;
    [by rewrite lookup_insert_eq|by rewrite lookup_insert_ne].
Qed.
Lemma overwrites_delete i : overwrites (λ m : gmap K V, delete i m).
Proof.
  intros k. destruct (decide (i = k)) as [->|]; [left; exists None|right]; intros m;
    [by rewrite lookup_delete_eq|by rewrite lookup_delete_ne].
Qed.
(** Doing it again changes nothing. *)
Lemma overwrites_again (f : gmap K V → gmap K V) m : overwrites f → f (f m) = f m.
Proof. intros Hf. apply map_eq. intros k. destruct (Hf k) as [[v Hv]|Hk]; [by rewrite !Hv|by rewrite Hk]. Qed.
End Overwrites.
#[export] Hint Resolve overwrites_id overwrites_insert overwrites_delete : deqs.

Lemma told_overwrites commands : overwrites (told commands).
Proof.
  apply overwrites_fold. intros [e| | |]; cbn; [|auto with deqs..]. unfold told_event, insert_received.
  apply (overwrites_compose (λ m, fold_left _ (event_spent e) m) (λ m, fold_left _ (event_received e) m));
    apply overwrites_fold; auto with deqs.
Qed.

(** Outputs are under their key image. *)
Definition well_keyed (m : gmap KeyImage MatchedTxOut) : Prop := map_Forall (λ k t, mt_key_image t = k) m.

Lemma remove_spent_told ks m :
  well_keyed m → (remove_spent ks m).2 = fold_left (λ m t, delete (mt_key_image t) m) (remove_spent ks m).1 m.
Proof.
  revert m. induction ks as [|k ks IH]; intros m Hm; cbn; [done|]. destruct (m !! k) as [t|] eqn:Hk; [|by apply IH].
  specialize (IH (delete k m)). destruct (remove_spent ks (delete k m)) as [spent m']. cbn in *.
  rewrite (Hm k t Hk). apply IH. by apply map_Forall_delete.
Qed.

Lemma well_keyed_told e m : well_keyed m → well_keyed (told_event e m).
Proof.
  intros Hm. unfold told_event, insert_received.
  assert (∀ l m, well_keyed m → well_keyed (fold_left (λ m t, delete (mt_key_image t) m) l m)) as Hdel.
  { induction l as [|t l IH]; intros m' Hm'; cbn; [done|]. by apply IH, map_Forall_delete. }
  specialize (Hdel (event_spent e) m Hm). revert Hdel. generalize (fold_left (λ m t, delete (mt_key_image t) m) (event_spent e) m).
  induction (event_received e) as [|t l IH]; intros m' Hm'; cbn; [done|]. apply IH. by apply map_Forall_insert_2.
Qed.

Lemma apply_blocks_told bs s events s' :
  well_keyed (matched_tx_outs s) → apply_blocks bs s = (Ok events, s') →
  matched_tx_outs s' = told (CmdWalletEvent <$> events) (matched_tx_outs s) ∧ well_keyed (matched_tx_outs s').
Proof.
  revert s events. induction bs as [|b bs IH]; intros s events Hs; cbn; [by intros [= <- <-]|].
  intros (e & s1 & He & (es & s2 & Hes & [= <- <-])%st_bind_Ok_inv)%st_bind_Ok_inv.
  assert (matched_tx_outs s1 = told_event e (matched_tx_outs s)) as Hs1.
  { unfold apply_block in He. destruct (rust_assert _ _); [|done..].
    pose proof (remove_spent_told (sb_key_images b) _ Hs) as Ht.
    destruct (remove_spent _ _) as [spent m]. injection He as <- <-. cbn in *. unfold told_event. cbn. by rewrite Ht. }
  assert (well_keyed (matched_tx_outs s1)) as Hk1 by (rewrite Hs1; by apply well_keyed_told).
  destruct (IH s1 es Hk1 Hes) as [-> Hk']. split; [|done]. cbn. by rewrite Hs1.
Qed.

(** What the program feeds at its start is the wallet's map. *)
Lemma feed_told `{!HashIter (list Z) MatchedTxOut} (wallet : State) :
  well_keyed (matched_tx_outs wallet) →
  told (CmdWalletEvent <$> feed_existing (wallet_matched_tx_outs wallet)) ∅ = matched_tx_outs wallet.
Proof.
  intros Hk. set (feed := feed_existing _).
  assert (∀ m, told (CmdWalletEvent <$> feed) m = insert_received (feed ≫= event_received) m) as Hins.
  { unfold feed, feed_existing. induction (group_by_block _) as [|[i g] l IH]; intros m; [done|].
    rewrite fmap_cons, bind_cons. cbn [fmap list_fmap]. unfold told in *. cbn [fold_left]. rewrite IH.
    unfold insert_received, told_event. cbn. by rewrite fold_left_app. }
  rewrite Hins. pose proof (feed_received wallet) as Hp. fold feed in Hp.
  set (m := matched_tx_outs wallet) in *.
  assert (mt_key_image <$> (map_to_list m).*2 = (map_to_list m).*1) as Hkeys.
  { rewrite <-list_fmap_compose. apply list_fmap_ext. intros i [k t] Hi%list_elem_of_lookup_2%elem_of_map_to_list.
    by apply Hk in Hi. }
  assert (NoDup (mt_key_image <$> (feed ≫= event_received))) as Hnd
    by (rewrite Hp, Hkeys; apply NoDup_fst_map_to_list).
  apply map_eq. intros k. apply option_eq. intros t. rewrite (insert_received_spec _ _ _ Hnd), lookup_empty, Hp. split.
  - intros [[([k' t'] & -> & Hin%elem_of_map_to_list)%list_elem_of_fmap <-]|[_ ?]]; [|done]. cbn. by rewrite (Hk _ _ Hin).
  - intros Hin. left. split; [|by apply Hk in Hin]. apply list_elem_of_fmap. exists (k, t). split; [done|].
    by apply elem_of_map_to_list.
Qed.

(** What the loop of [main] forwards until it ends. *)
Definition forwarded (e : MainEvent) : option WalletEvent := match e with WalletRx event => event | _ => None end.
Definition goes_on (e : MainEvent) : Prop := e ≠ CtrlC ∧ e ≠ WalletRx None.

Lemma main_loop_told events m :
  Forall goes_on events → told (main_loop events) m = told (CmdWalletEvent <$> omap forwarded events) m.
Proof.
  intros Hev. revert m. induction Hev as [|e events [Hc Hn] _ IH]; intros m; [done|].
  destruct e as [|[e|]|]; [done| |done|]; cbn; apply IH.
Qed.

Section Informed.
Context `{AccountKey, !HashIter (list Z) MatchedTxOut} (spsk : gmap bytes Z).
Context (B : list BlockContents) (first : nat) (bs : list ScannedBlock).
Hypothesis Hscan : scan_chain spsk first (drop first B) = Ok bs.
Hypothesis Hfits : Z.of_nat (first + length B) + SCAN_CHUNK_SIZE < U64_MOD.

Lemma wallet_at_well_keyed n : (n ≤ length bs)%nat → well_keyed (matched_tx_outs (wallet_at first bs n)).
Proof.
  intros Hn. destruct (wallet_at_run spsk B first bs Hscan Hfits n Hn) as [Hr _].
  apply apply_blocks_told in Hr as [_ ?]; [done|]. apply map_Forall_empty.
Qed.

(** The reports about the blocks after the [n]-th. *)
Lemma wallet_at_told n k :
  (n + k ≤ length bs)%nat →
  matched_tx_outs (wallet_at first bs (n + k)) =
    told (CmdWalletEvent <$> take k (drop n (wallet_reports first bs))) (matched_tx_outs (wallet_at first bs n)).
Proof.
  intros Hk. pose proof (wallet_at_step spsk B first bs Hscan Hfits n k Hk) as Hr.
  apply apply_blocks_told in Hr as [-> _]; [done|]. apply wallet_at_well_keyed. lia.
Qed.

(** The race at the start is harmless.  The wallet's thread starts with
    the state of [loaded] blocks and is somewhere later, at [grabbed] blocks,
    when the program reads its outputs and feeds them to the bot; the events
    since the start are forwarded after that, also those from before the
    outputs were read.  Whoever follows the commands then knows exactly the
    outputs the wallet has at the last event. *)
Lemma main_tells_wallet num_blocks loaded grabbed last main_events :
  num_blocks ≠ 0 → (loaded ≤ grabbed ≤ last ∧ last ≤ length bs)%nat → Forall goes_on main_events →
  omap forwarded main_events = take (last - loaded) (drop loaded (wallet_reports first bs)) →
  ∃ commands, bot_main num_blocks (wallet_at first bs grabbed) main_events = Ok commands ∧
    told commands ∅ = matched_tx_outs (wallet_at first bs last).
Proof.
  intros Hnum [Hle Hlast] Hgo Hfwd. destruct (main_feeds_bot num_blocks (wallet_at first bs grabbed) main_events Hnum)
    as (Hmain & _). eexists. split; [exact Hmain|].
  rewrite told_app, feed_told, main_loop_told, Hfwd by (done || apply wallet_at_well_keyed; lia).
  replace (last - loaded)%nat with ((grabbed - loaded) + (last - grabbed))%nat by lia.
  rewrite <-take_take_drop, drop_drop, fmap_app, told_app.
  replace (loaded + (grabbed - loaded))%nat with grabbed by lia.
  assert (told (CmdWalletEvent <$> take (grabbed - loaded) (drop loaded (wallet_reports first bs)))
    (matched_tx_outs (wallet_at first bs grabbed)) = matched_tx_outs (wallet_at first bs grabbed)) as ->.
  { replace (wallet_at first bs grabbed) with (wallet_at first bs (loaded + (grabbed - loaded))) by (f_equal; lia).
    rewrite wallet_at_told by lia. apply overwrites_again, told_overwrites. }
  rewrite <-wallet_at_told by lia. do 2 f_equal. lia.
Qed.
End Informed.

(** * The bot only offers outputs of its wallet *)

Section Tracks.
Context `{McLib, HistogramVecs} {A D R W P IC B L : Type}.
Context `{!SciApi A, !DeqsClient A W, !Decimal D, !Ledger L, !LedgerTxOuts L P, !SciBuilding R P IC B, !HashIter Z unit}.
Context (clock : nat → option Z) (fuel : nat) (pairs : gmap TokenId (TokenId * D)).

Definition received_in (e : TaskEvent (L:=L)) : list MatchedTxOut :=
  match e with ReceivedCommand (CmdWalletEvent e) _ _ => event_received e | _ => [] end.

Lemma drops_then {E T U} extra (m : stateful (LiquidityBotTask R W) E T) (k : T → stateful _ E U) :
  only_drops extra m → (∀ x, only_drops [] (k x)) → only_drops extra (st_bind m k).
Proof. intros Hm Hk. apply (drops_mono (extra ++ [])); [by rewrite app_nil_r|]. by apply drops_bind. Qed.

Lemma drops_update ledger l added :
  only_drops (R:=R) (W:=W) l (update_pending_loop (P:=P) (IC:=IC) (B:=B) fuel pairs (L:=L) ledger l added).
Proof.
  revert added. induction l as [|t l IH]; intros added s r s'; cbn [update_pending_loop]; [by intros [= <- <-]|].
  assert (∀ x, update_pending_loop (P:=P) (IC:=IC) (B:=B) fuel pairs ledger l x s = (r, s') →
    tracked_tx_outs s' ⊆+ t :: l ++ tracked_tx_outs s) as Hskip
    by (intros x Hr; etransitivity; [exact (IH x _ _ _ Hr)|]; by apply submseteq_cons).
  case_bool_decide; [by apply Hskip|]. case_bool_decide; [by apply Hskip|]. case_bool_decide; [by apply Hskip|].
  unfold st_bind at 1, with_rng.
  destruct (create_pending_tx_out fuel pairs ledger t (task_rng s)) as [[p|e|p] rng] eqn:Hc;
    [|by intros [= <- <-]; apply submseteq_inserts_l..].
  apply create_pending_matched in Hc. intros Hr%IH. etransitivity; [exact Hr|].
  unfold tracked_tx_outs. cbn. rewrite fmap_app. cbn. rewrite Hc. apply Permutation_submseteq.
  rewrite <-!(assoc_L (++)). cbn. by rewrite <-!Permutation_middle.
Qed.

Lemma drops_run_step e :
  only_drops (R:=R) (W:=W) (received_in e) (run_step (A:=A) (P:=P) (IC:=IC) (B:=B) clock fuel pairs (L:=L) e).
Proof.
  destruct e as [[[i received spent]| | |] open ledger| | |]; cbn [run_step received_in event_received].
  - apply drops_then; [|intros; apply drops_ret]. cbn [on_wallet_event].
    apply drops_seq; [apply drops_unlist|intros listed]. apply drops_seq; [auto with deqs|intros fulfilled]. apply drops_seq; [auto with deqs|intros _].
    apply drops_then.
    + intros s r s'. unfold log_error. destruct (update_pending_tx_outs_from_received_tx_outs _ _ _ _ s) as [[x|[e|]|p] s1] eqn:E1;
        intros [= <- <-]; exact (drops_update _ _ _ _ _ _ E1).
    + intros [[]|]; [|apply drops_ret..]. apply drops_seq; [apply drops_log_error, drops_submit_pending|auto with deqs].
  - by intros s r s' [= _ <-].
  - by intros s r s' [= _ <-].
  - by intros s r s' [= _ <-].
  - apply drops_ret.
  - apply drops_seq; [|intros; apply drops_ret]. apply drops_seq; [apply drops_log_error, drops_resubmit|intros _].
    apply drops_seq; [apply drops_log_error, drops_submit_pending|auto with deqs].
  - apply drops_ret.
Qed.

Lemma drops_bot_run events :
  only_drops (R:=R) (W:=W) (events ≫= received_in) (bot_run (A:=A) (P:=P) (IC:=IC) (B:=B) clock fuel pairs (L:=L) events).
Proof.
  induction events as [|e events IH]; cbn [bot_run]; [apply drops_ret|].
  rewrite bind_cons. apply drops_bind; [apply drops_run_step|].
  intros [[] reply]; [|apply drops_ret]. apply drops_then; [exact IH|intros; apply drops_ret].
Qed.

(** The wallet events among the commands [main] sends. *)
Definition command_received (c : Command) : list MatchedTxOut :=
  match c with CmdWalletEvent e => event_received e | _ => [] end.

(** C35: The bot offers an output at most as often as its wallet reported it:
    when the commands it receives are those of the program, its pending and
    listed outputs are, counted with multiplicity, among the outputs the wallet
    held at the start and those of the wallet's later events. *)
Theorem bot_tracks_wallet_outputs `{!HashIter (list Z) MatchedTxOut} num_blocks (wallet : State) main_events commands events rng deqs r s' :
  bot_main num_blocks wallet main_events = Ok commands →
  (events ≫= received_in) = (commands ≫= command_received) →
  bot_run (A:=A) (P:=P) (IC:=IC) (B:=B) clock fuel pairs (L:=L) events (bot_new rng deqs) = (r, s') →
  tracked_tx_outs s' ⊆+
    (map_to_list (matched_tx_outs wallet)).*2 ++ (main_loop main_events ≫= command_received).
Proof.
  intros Hmain Hev Hr%drops_bot_run. cbn in Hr. rewrite app_nil_r in Hr. rewrite Hev in Hr.
  unfold bot_main in Hmain. inv_ok. etransitivity; [exact Hr|]. rewrite bind_app.
  apply Permutation_submseteq. apply Permutation_app; [|done]. rewrite <-feed_received. apply reflexive_eq. clear.
  induction (feed_existing _) as [|e l IH]; [done|]. rewrite fmap_cons, !bind_cons, IH. done.
Qed.
End Tracks.

(** * A fulfilled SCI

    The documentation of the prometheus crate asks for buckets in strictly
    increasing order; [with_label_values] panics when the histogram of a new
    label cannot be made. *)
Class HistogramVecsLaws `{HistogramVecs} : Prop := {
  increasing_required buckets label : ¬ StronglySorted Z.lt buckets → ∃ p, with_label_values buckets label = Panic p;
  increasing_suffices buckets label : StronglySorted Z.lt buckets → with_label_values buckets label = Ok tt;
}.

Section FulfilledEnds.
Context `{McLib, HistogramVecs, !HistogramVecsLaws} {A D R W P IC B L : Type}.
Context `{!SciApi A, !DeqsClient A W, !Decimal D, !Ledger L, !LedgerTxOuts L P, !SciBuilding R P IC B, !HashIter Z unit}.
Context (clock : nat → option Z) (fuel : nat) (pairs : gmap TokenId (TokenId * D)).
Implicit Types (s : LiquidityBotTask R W) (l : ListedTxOut).

Lemma buckets_not_increasing : ¬ StronglySorted Z.lt FULFILLED_SCI_BUCKETS.
Proof.
  unfold FULFILLED_SCI_BUCKETS. intros Hs. do 8 apply StronglySorted_inv in Hs as [Hs _]. apply StronglySorted_inv in Hs as [_ Hf].
  apply Forall_cons in Hf as [Hlt _]. lia.
Qed.

(** Every listed output that was spent is found. *)
Lemma unlist_removes spent listed l :
  NoDup (key_image_of_listed <$> listed) → l ∈ listed → key_image_of_listed l ∈ mt_key_image <$> spent →
  l ∈ (unlist_loop spent listed).1.
Proof.
  revert listed. induction spent as [|t spent IH]; intros listed Hnd Hl Hk; [by apply elem_of_nil in Hk|]. cbn.
  destruct (list_find _ listed) as [[i x]|] eqn:Hf.
  - apply list_find_Some in Hf as (Hi & Hx & _). destruct (decide (x = l)) as [->|Hne].
    + destruct (unlist_loop spent (delete i listed)). apply list_elem_of_here.
    + pose proof (delete_Permutation _ _ _ Hi) as Hp. rewrite Hp in Hl, Hnd. cbn in Hnd. apply NoDup_cons in Hnd as [Hnx Hnd].
      apply elem_of_cons in Hl as [->|Hl]; [done|]. apply elem_of_cons in Hk as [Hk|Hk].
      * destruct Hnx. rewrite Hx, <-Hk. apply list_elem_of_fmap. by exists l.
      * specialize (IH _ Hnd Hl Hk). destruct (unlist_loop spent (delete i listed)). by apply elem_of_cons; right.
  - apply elem_of_cons in Hk as [Hk|Hk]; [|by apply IH]. apply list_find_None in Hf. rewrite Forall_forall in Hf. by destruct (Hf l Hl).
Qed.

(** The SCIs of the bot reveal what they ask for. *)
Definition reveals l : Prop := ∀ pf, default [] (partial_fill_outputs <$> input_rules (tx_in (q_sci (l_quote l)))) = [pf] →
  ∃ a, reveal_amount pf = Ok a.

Lemma look_for_returns spent received : Forall reveals spent →
  ∃ fs, look_for_fulfilled_scis spent received = Ok fs ∧ Forall (λ f, ∃ v, fill_percents f = Ok v) fs.
Proof.
  induction 1 as [|l spent Hl _ (fs & Hfs & HF)]; [by exists []|]. cbn [look_for_fulfilled_scis]. unfold reveals in Hl.
  destruct (default [] _) as [|pf [|]]; [by exists fs| |by exists fs]. destruct (Hl pf eq_refl) as [[a bl] Ha].
  destruct (find_received received (rto_tx_out pf)) as [c|]; [|by exists fs]. unfold fill_percents at 1. cbn. rewrite Ha. cbn.
  rewrite Hfs. cbn. eexists. split; [done|]. constructor; [|done]. unfold fill_percents. cbn. rewrite Ha. by eexists.
Qed.

Lemma observe_all_panics f fs : Forall (λ f, ∃ v, fill_percents f = Ok v) (f :: fs) → ∃ p, observe_all (f :: fs) = Panic p.
Proof.
  intros [[v Hv] _]%Forall_cons. cbn. unfold observe_fulfilled. rewrite Hv.
  destruct (increasing_required FULFILLED_SCI_BUCKETS (pretty (base_token_id (q_pair (l_quote (fs_listed_tx_out f))))) buckets_not_increasing)
    as [p ->]. by exists p.
Qed.

(** C33: the first fulfilled SCI ends the bot.  The buckets of the histogram of
    fulfilled SCIs repeat a bound.  When a block spends a listed output of the
    bot and pays the counter amount its SCI asks for, the task panics while it
    updates its metrics: the new outputs of the block are not offered, nothing
    that arrives later is looked at, and whoever asks the bot for its
    statistics panics as well. *)
Theorem fulfilled_sci_ends_bot s l t i received spent open ledger_db later :
  NoDup (key_image_of_listed <$> listed_tx_outs s) → Forall reveals (listed_tx_outs s) →
  l ∈ listed_tx_outs s → t ∈ spent → mt_key_image t = key_image_of_listed l → was_fulfilled received l →
  (∃ p s', bot_run (A:=A) (P:=P) (IC:=IC) (B:=B) clock fuel pairs (L:=L)
             (ReceivedCommand (CmdWalletEvent (BlockProcessed i received spent)) open ledger_db :: later) s = (Panic p, s') ∧
           pending_tx_outs s' = pending_tx_outs s) ∧
  ∀ s', is_panic (interface_stats (A:=A) (P:=P) (IC:=IC) (B:=B) clock fuel pairs (L:=L) false ledger_db s').1 = true.
Proof.
  intros Hnd Hrev Hl Ht Hk Hful. split; [|done].
  assert (l ∈ (unlist_loop spent (listed_tx_outs s)).1) as Hrem.
  { apply unlist_removes; [done|done|]. rewrite <-Hk. apply list_elem_of_fmap. by exists t. }
  pose proof (unlist_loop_perm spent (listed_tx_outs s)) as Hperm.
  cbn [bot_run run_step on_wallet_event]. unfold st_bind, unlist_spent_tx_outs.
  destruct (unlist_loop spent (listed_tx_outs s)) as [removed rest]. cbn in Hrem, Hperm.
  assert (Forall reveals removed) as Hrev' by (rewrite <-Hperm in Hrev; by apply Forall_app in Hrev as [? _]).
  destruct (look_for_returns removed received Hrev') as (fs & Hfs & HF).
  pose proof (look_for_fulfilled_spec _ _ _ Hfs) as Hspec.
  destruct fs as [|f fs].
  { assert (l ∈ filter (was_fulfilled received) removed) as Hin by by apply list_elem_of_filter. rewrite <-Hspec in Hin. by apply elem_of_nil in Hin. }
  destruct (observe_all_panics f fs HF) as [p Hp]. unfold log_error, st_lift. rewrite Hfs. cbn [default from_option id]. rewrite Hp.
  by eexists p, _.
Qed.
End FulfilledEnds.

(** * The theorems on examples *)

Module BotAdminExamples.
Import Sample SampleLedger WalletExamples SampleCodec ApiConvertExamples BotExamples.

#[export] Instance sample_external : ExternalApi (option TxOut) Amount (list Z) := {|
  tx_out_to_api := Some; tx_out_from_api t := ok_or t "TxOut"; api_tx_out_default := None;
  amount_to_api a := a; amount_from_api := Ok; api_amount_default := amount 0 0;
  key_image_to_api k := k; key_image_from_api := Ok; api_key_image_default := [];
|}.
#[export] Instance sample_external_laws : ExternalApiLaws (option TxOut) Amount (list Z).
Proof. by split. Qed.

(** The bot of the examples after its run, with two pending outputs. *)
Definition bot_a : LiquidityBotTask Z unit := sample_run.2.

Lemma admin_shows_lists_witness :
  ∃ pending listed,
    get_pending_tx_outs_impl (A:=list Z) (P:=unit) (IC:=list TxOut) (B:=list TxOut * list Amount)
      (T:=option TxOut) (M:=Amount) (K:=list Z) sample_clock 20 sample_pairs true ledger_12 bot_a = (Ok pending, bot_a) ∧
    collect_results pending_from_api pending = Ok (pending_tx_outs bot_a) ∧
    get_listed_tx_outs_impl (A:=list Z) (P:=unit) (IC:=list TxOut) (B:=list TxOut * list Amount)
      (T:=option TxOut) (M:=Amount) (K:=list Z) sample_clock 20 sample_pairs true ledger_12 bot_a = (Ok listed, bot_a) ∧
    collect_results listed_from_api listed = Ok (listed_tx_outs bot_a).
Proof.
  refine (admin_shows_lists sample_clock 20 sample_pairs ledger_12 bot_a _ _).
  - replace (tracked_tx_outs bot_a) with [matched 0 2; matched 0 4] by (vm_compute; reflexivity).
    repeat constructor; discriminate.
  - replace (listed_tx_outs bot_a) with (@nil ListedTxOut) by (vm_compute; reflexivity). constructor.
Defined.

Lemma metrics_reflect_lists_witness :
  let m := update_metrics_from_liquidity_bot (stats_from (map_to_list sample_pairs).*1 bot_a)
             (Build_PerTokenMetrics ∅ ∅ ∅ ∅ ∅) in
  length (pending_of 1 bot_a) = 2%nat ∧ num_pending_tx_outs_gauge m !! pretty 1 = Some (as_i64 2).
Proof.
  split; [by vm_compute|].
  refine (proj1 (metrics_reflect_lists sample_pairs bot_a (Build_PerTokenMetrics ∅ ∅ ∅ ∅ ∅) 1 _)). by exists (2, 2).
Defined.

Definition wallet_a : State :=
  {| next_block_index := 2; matched_tx_outs := {[ [2] := matched 0 2; [4] := matched 1 4 ]} |}.

Example main_feeds_wallet :
  feed_existing (wallet_matched_tx_outs wallet_a) = [BlockProcessed 0 [matched 0 2] []; BlockProcessed 1 [matched 1 4] []].
Proof. by vm_compute. Qed.

(** The program reads the outputs after the first block, and is then told
    about both blocks. *)
Lemma main_tells_wallet_witness :
  ∃ commands, bot_main 2 (wallet_at 0 blocks_ab 1) [WalletRx (events_ab !! 0%nat); MetricsTick; WalletRx (events_ab !! 1%nat)] = Ok commands ∧
    told commands ∅ = matched_tx_outs wallet_end.
Proof.
  replace wallet_end with (wallet_at 0 blocks_ab 2) by (vm_compute; reflexivity).
  refine (main_tells_wallet spsk chain 0 blocks_ab chain_scanned eq_refl 2 0 1 2 _ _ _ _ _).
  - discriminate.
  - cbn. lia.
  - repeat constructor; done.
  - by vm_compute.
Defined.

Definition feed_events : list (TaskEvent (L:=Chain)) :=
  [ ReceivedCommand (CmdWalletEvent (BlockProcessed 0 [matched 0 2] [])) true ledger_12;
    ReceivedCommand (CmdWalletEvent (BlockProcessed 1 [matched 1 4] [])) true ledger_12; Tick;
    ReceivedCommand (CmdWalletEvent (BlockProcessed 2 [matched 2 6] [matched 0 2])) true ledger_12 ].
Definition wallet_run : outcome BotStop (list Reply) * LiquidityBotTask Z unit :=
  bot_run (A:=list Z) (P:=unit) (IC:=list TxOut) (B:=list TxOut * list Amount)
    sample_clock 20 sample_pairs feed_events (bot_new 0 tt).

Lemma bot_tracks_wallet_outputs_witness :
  tracked_tx_outs wallet_run.2 ⊆+ (map_to_list (matched_tx_outs wallet_a)).*2 ++ [matched 2 6].
Proof.
  refine (bot_tracks_wallet_outputs sample_clock 20 sample_pairs 5 wallet_a
    [WalletRx (Some (BlockProcessed 2 [matched 2 6] [matched 0 2])); CtrlC] _ feed_events 0 tt wallet_run.1 wallet_run.2
    eq_refl _ (surjective_pairing wallet_run)). by vm_compute.
Defined.

(** An output that is spent while it is pending stays pending. *)
Example spent_pending_stays :
  [2] ∈ key_image_of_pending <$> pending_tx_outs wallet_run.2.
Proof. vm_compute. apply list_elem_of_here. Qed.

Lemma increasing_sorted bs : increasing bs = true ↔ StronglySorted Z.lt bs.
Proof.
  split.
  - intros Hi. apply Sorted_StronglySorted; [exact Z.lt_trans|]. induction bs as [|x [|y bs] IH]; [constructor|by constructor; constructor|].
    cbn in Hi. apply andb_true_iff in Hi as [Hlt%Z.ltb_lt Hi]. constructor; [by apply IH|by constructor].
  - induction 1 as [|x bs _ IH Hf]; [done|]. destruct bs as [|y bs]; [done|]. cbn [increasing] in *.
    apply Forall_cons in Hf as [Hlt _]. by rewrite (proj2 (Z.ltb_lt _ _) Hlt), IH.
Qed.
#[export] Instance sample_histograms_laws : HistogramVecsLaws.
Proof.
  split; intros bs label; cbn; rewrite <-increasing_sorted; destruct (increasing bs); try done. intros _. by eexists.
Qed.

(** Ten of token 1 are listed against twenty of token 2, and taken. *)
Definition taken : ListedTxOut := {|
  l_matched_tx_out := matched 0 2;
  l_quote := quote_on_terms (sci 2 2 10 [] [(20, 2)] 0 0) 2 (0, 10) 20 5;
  l_last_submitted_at := 1 |}.
Definition listing_bot : LiquidityBotTask Z unit := mk_task [] [taken] 0 0 tt.

Lemma fulfilled_sci_ends_bot_witness :
  ∃ p s', bot_run (A:=list Z) (P:=unit) (IC:=list TxOut) (B:=list TxOut * list Amount) sample_clock 20 sample_pairs
            [ReceivedCommand (CmdWalletEvent (BlockProcessed 3 [matched 3 20; matched 3 6] [matched 0 2])) true ledger_12; Tick] listing_bot
          = (Panic p, s') ∧ pending_tx_outs s' = [].
Proof.
  refine (proj1 (fulfilled_sci_ends_bot sample_clock 20 sample_pairs listing_bot taken (matched 0 2) 3 [matched 3 20; matched 3 6]
    [matched 0 2] true ledger_12 [Tick] _ _ _ _ _ _)).
  - apply NoDup_singleton.
  - constructor; [|constructor]. intros pf [= <-]. eexists. by vm_compute.
  - apply list_elem_of_here.
  - apply list_elem_of_here.
  - done.
  - by vm_compute; eexists.
Defined.
End BotAdminExamples.
