(* ===== verification/ConvertTests.v ===== *)
(** The unit tests of the conversions to and from protobuf messages
    (api/src/convert, liquidity-bot/src/convert) as programs. *)

From S2P Require Import Prelude McTypes QuoteApi QuotePricing QuoteBook InMemory SqlTypes Sqlite BookEquiv TestUtils Conformance QuoteTests Synchronized ApiConvert ClientService Wallet WalletRun LiquidityBot BotAdmin.

(** Outputs and key images for tests; [PA] and [PK] are public addresses and
    private keys. *)
Class TestOutputs (S PA PK : Type) := {
  public_address_random : S → PA * S;
  private_key_random : S → PK * S;
  (** [TxOut::new(BlockVersion::MAX, amount, address, key, Default::default())] *)
  test_tx_out_new : Amount → PA → PK → outcome string TxOut;
  next_u64 : S → Z * S;
  key_image_from_u64 : Z → KeyImage;
}.

Section Tests.
Context `{McLib} {S Acc IC B PA PK A T M K : Type} `{!TestLib S Acc IC B, !TestOutputs S PA PK}.
Context `{!SciApi A, !ExternalApi T M K}.
Local Abbreviation test := (stateful S Error).

(** [Result::unwrap] of a conversion. *)
Definition converted {X} (r : outcome string X) : test X := in_test (unwrap (st_lift r)).

(** ** api/src/convert *)

Definition test_pair_identity : test unit :=
  let source := {| base_token_id := 10203040; counter_token_id := 40506070 |} in
  let converted := pair_to_api source in
  let recovered := pair_from_api converted in
  assert_eq source recovered.

Definition test_quote_id_from : test unit :=
  let source : QuoteId := replicate 32 4 in
  let converted := quote_id_to_api source in
  assert_eq (aid_data converted) source.

Definition test_quote_id_try_from : test unit :=
  let source := {| aid_data := replicate 32 5 |} in
  quote_id <-- converted (quote_id_from_api source);;
  assert_eq quote_id (replicate 32 5).

Definition expects_array_cast_error (b : bytes) : test unit :=
  match quote_id_from_api {| aid_data := b |} with
  | Ok _ => st_lift (Panic "called `Result::unwrap_err()` on an `Ok` value")
  | Err e => if String.eqb e "ArrayCastError" then st_ret tt else st_lift (Panic "explicit panic")
  | Panic p => st_lift (Panic p)
  end.
Definition test_quote_id_try_from_conversion_errors : test unit :=
  expects_array_cast_error (replicate 119 11);;;
  expects_array_cast_error (replicate 3 11).

Definition test_quote_identity : test unit :=
  sci <-- in_test (tu_create_sci 43432 6886868 10 30 false);;
  source <-- try_from sci;;
  let api_quote : ApiQuote A := quote_to_api source in
  recovered <-- converted (quote_from_api api_quote);;
  assert_eq source recovered.

(** ** liquidity-bot/src/convert *)

(** The output the three tests convert. *)
Definition some_matched_tx_out : test MatchedTxOut :=
  let amount := {| amt_value := 2 ^ 13; amt_token_id := 123 |} in
  address <-- from_fun public_address_random;;
  key <-- from_fun private_key_random;;
  tx_out <-- converted (test_tx_out_new amount address key);;
  n <-- from_fun next_u64;;
  st_ret {| mt_block_index := 123; mt_tx_out := tx_out; mt_amount := amount; mt_subaddress_index := 456;
            mt_key_image := key_image_from_u64 n |}.

Definition matched_tx_out_roundtrip : test unit :=
  src <-- some_matched_tx_out;;
  let msg : ApiMatchedTxOut T M K := matched_to_api src in
  recovered <-- converted (matched_from_api msg);;
  assert_eq src recovered.

Definition MILLIMOB_TO_PICOMOB : Z := 10 ^ 9.

(** The builder both tests of offers start from: 1000 of token 2, filled for
    MOB. *)
Definition partial_builder : test (Acc * B) :=
  charlie <-- from_fun account_random;;
  input_credentials <-- from_fun (get_input_credentials {| amt_value := 1000; amt_token_id := 2 |} charlie);;
  sci_builder <-- in_test (unwrap (st_lift (tb_new input_credentials)));;
  sci_builder <-- in_test (unwrap (tb_add_partial_fill_output
                   {| amt_value := 1000 * MILLIMOB_TO_PICOMOB; amt_token_id := 0 |} charlie sci_builder));;
  st_ret (charlie, sci_builder).

Definition pending_tx_out_roundtrip : test unit :=
  b <-- partial_builder;;
  sci <-- in_test (unwrap (tb_build b.2));;
  matched_tx_out <-- some_matched_tx_out;;
  let src := {| p_matched_tx_out := matched_tx_out; p_sci := sci |} in
  let msg : ApiPendingTxOut A T M K := pending_to_api src in
  recovered <-- converted (pending_from_api msg);;
  assert_eq src recovered.

Definition listed_tx_out_roundtrip : test unit :=
  b <-- partial_builder;;
  sci_builder <-- in_test (unwrap (tb_add_partial_fill_change_output
                   {| amt_value := 1000; amt_token_id := 2 |} b.1 b.2));;
  sci <-- in_test (unwrap (tb_build sci_builder));;
  now <-- from_fun system_time;;
  quote <-- unwrap (st_lift (quote_new now sci None));;
  matched_tx_out <-- some_matched_tx_out;;
  let src := {| l_matched_tx_out := matched_tx_out; l_quote := quote; l_last_submitted_at := 123 |} in
  let msg : ApiListedTxOut A T M K := listed_to_api src in
  recovered <-- converted (listed_from_api msg);;
  assert_eq src recovered.
End Tests.

(** Making outputs does not fail, and leaves the rest of the test's world; the
    SCI builder signs an offer without a change output too, which is for
    [validate] to refuse. *)
Class TestOutputsLaws `{McLib} (S Acc IC B PA PK : Type)
    `{!TestLib S Acc IC B, !TestLibLaws S Acc IC B, !TestOutputs S PA PK} : Prop := {
  tx_out_new_ok amount address key : amount_wf amount → ∃ t, test_tx_out_new amount address key = Ok t;
  builds_without_change b s : of_change (tb_offer b) = None → ∃ sci s', tb_build b s = (Ok sci, s');
}.

Section Pass.
Context `{McLib} `{!McLibLaws _} {S Acc IC B PA PK A T M K : Type}.
Context `{!TestLib S Acc IC B, !TestLibLaws S Acc IC B, !TestOutputs S PA PK, !TestOutputsLaws S Acc IC B PA PK}.
Context `{!SciApi A, !SciApiLaws A, !ExternalApi T M K, !ExternalApiLaws T M K}.
Local Abbreviation test := (stateful S Error).
Implicit Types (s : S).
Local Abbreviation passes_test t s := (returns t s (λ _ _, True)).

Lemma converted_returns {X Y} (r : outcome string X) x s (k : X → test Y) Q :
  r = Ok x → returns (k x) s Q → returns (y <-- converted r;; k y) s Q.
Proof. intros -> Hk. by apply returns_bind, returns_in_test, returns_unwrap, (returns_lift _ x). Qed.

(** What is sent and received as it was passes its test. *)
Lemma recovered_passes {X} `{EqDecision X} (r : outcome string X) x s :
  r = Ok x → passes_test (y <-- converted r;; assert_eq x y) s.
Proof. intros Hr. eapply converted_returns; [done|]. by apply returns_assert_eq. Qed.

Lemma some_matched_returns {X} s (k : MatchedTxOut → test X) Q :
  (∀ m s', amount_wf (mt_amount m) → returns (k m) s' Q) → returns (m <-- some_matched_tx_out;; k m) s Q.
Proof.
  intros Hk. apply returns_bind. do 2 apply returns_bind, returns_fun.
  destruct (tx_out_new_ok {| amt_value := 2 ^ 13; amt_token_id := 123 |} (public_address_random s).1
    (private_key_random (public_address_random s).2).1) as [t Ht]; [done|].
  eapply converted_returns; [exact Ht|]. apply returns_bind, returns_fun, returns_ret. by apply Hk.
Qed.

Lemma partial_builder_returns {X} s (k : Acc * B → test X) Q :
  (∀ b s' key, (∀ j, ticks j (trace s) → ticks j (trace s')) →
     tb_offer b.2 = mk_offer key {| amt_value := 1000; amt_token_id := 2 |} []
                      [{| amt_value := 1000 * MILLIMOB_TO_PICOMOB; amt_token_id := 0 |}] None 0 default_tombstone →
     returns (k b) s' Q) →
  returns (b <-- partial_builder;; k b) s Q.
Proof.
  intros Hk. apply returns_bind. do 2 apply returns_bind, returns_fun.
  pose proof (account_random_trace s) as Htr. destruct (account_random s) as [acc s1]. cbn in Htr |- *.
  destruct (get_input_credentials _ acc s1) as [ic s2] eqn:Hic.
  destruct (credentials_new _ _ _ _ _ Hic) as (Ha & _ & Ht). rewrite Htr in Ht.
  destruct (tb_new_ok ic) as (b & Hb & Ho). apply returns_bind, returns_in_test, returns_unwrap, (returns_lift _ b); [done|].
  destruct (add_partial_ok {| amt_value := 1000 * MILLIMOB_TO_PICOMOB; amt_token_id := 0 |} acc b s2)
    as (b' & s3 & Hb' & Ht3 & Ho'). apply returns_bind, returns_in_test, returns_unwrap. exists b', s3. split; [done|].
  apply returns_ret, (Hk (acc, b') s3 (ic_key_image ic)); cbn; [rewrite Ht3, Ht; done|by rewrite Ho', Ho, Ha].
Qed.

Lemma quote_identity_passes s :
  ticks 1 (trace s) → passes_test (test_quote_identity (A:=A)) s.
Proof.
  intros Hj. apply returns_bind, returns_in_test.
  eapply returns_mono; [|by apply (create_sci_returns {| base_token_id := 43432; counter_token_id := 6886868 |} 10 30)].
  intros sci s1 (Hon & _ & _ & Htr). apply returns_bind, returns_bind, returns_fun.
  destruct (full_terms _ _ _ _ _ _ _ Hon) as (ir & Hir & _ & Ho). cbn in Ho.
  destruct (system_time_ok s1 0) as (t & s2 & Hs & Ht & _); [by rewrite Htr|]. rewrite Hs. cbn [fst snd].
  apply returns_unwrap. eapply returns_lift; [by eapply quote_new_now; [apply Hon|..]|].
  apply recovered_passes, quote_from_to_api. apply digest32_length.
Qed.

Lemma listed_roundtrip_passes s :
  ticks 1 (trace s) → passes_test (listed_tx_out_roundtrip (A:=A) (T:=T) (M:=M) (K:=K)) s.
Proof.
  intros Hj. apply partial_builder_returns. intros b s1 key Hl Ho.
  destruct (add_change_ok {| amt_value := 1000; amt_token_id := 2 |} b.1 b.2 s1) as (b' & s2 & Hb & Ht2 & Ho');
    [by rewrite Ho|]. apply returns_bind, returns_in_test, returns_unwrap. exists b', s2. split; [done|].
  apply returns_bind, returns_in_test, tb_build_returns; rewrite Ho', Ho; cbn.
  { split; cbn; [done|done|by apply Forall_singleton|split; [done|apply default_tombstone_u64]|by eexists]. }
  intros sci s3 Hon _ Ht3. destruct (partial_terms _ _ _ _ _ _ _ Hon) as (ir & Hir & _ & Hof). cbn in Hof.
  apply returns_bind, returns_fun.
  destruct (system_time_ok s3 0) as (t & s4 & Hs & Ht & _); [rewrite Ht3; unfold ticks in *; cbn; rewrite Ht2; by apply Hl|]. rewrite Hs. cbn [fst snd].
  apply returns_bind, returns_unwrap. eapply returns_lift; [by eapply quote_new_now; [apply Hon|..]|].
  apply some_matched_returns. intros m s5 Hwf. apply recovered_passes, listed_roundtrip; [done|apply digest32_length].
Qed.

(** The tests of the conversions pass. *)
Lemma convert_tests_pass s :
  ticks 1 (trace s) →
  Forall (λ t : test unit, passes_test t s)
    [test_pair_identity; test_quote_id_from; test_quote_id_try_from; test_quote_id_try_from_conversion_errors;
     test_quote_identity (A:=A); matched_tx_out_roundtrip (T:=T) (M:=M) (K:=K);
     pending_tx_out_roundtrip (A:=A) (T:=T) (M:=M) (K:=K); listed_tx_out_roundtrip (A:=A) (T:=T) (M:=M) (K:=K)].
Proof.
  intros Hj. do 4 (apply Forall_cons_2; [by eexists _, _|]). apply Forall_cons_2; [by apply quote_identity_passes|].
  apply Forall_cons_2; [|apply Forall_cons_2; [|apply Forall_cons_2; [by apply listed_roundtrip_passes|apply Forall_nil_2]]].
  - apply some_matched_returns. intros m s' Hwf. by apply recovered_passes, matched_roundtrip.
  - apply partial_builder_returns. intros b s' key _ Ho.
    destruct (builds_without_change b.2 s') as (sci & s2 & Hs); [by rewrite Ho|].
    apply returns_bind, returns_in_test, returns_unwrap. exists sci, s2. split; [done|].
    apply some_matched_returns. intros m s3 Hwf. by apply recovered_passes, pending_roundtrip.
Qed.
End Pass.

(** * Example *)

Module ConvertTestsExamples.
Import SampleCodec ConformanceExamples ApiConvertExamples BotAdminExamples.

#[export] Instance sample_outputs : TestOutputs Outside unit unit := {|
  public_address_random s := (tt, s); private_key_random s := (tt, s);
  test_tx_out_new _ _ _ := Ok (no_tx_out [3]); next_u64 s := (9, s); key_image_from_u64 n := [n];
|}.
#[export] Instance sample_outputs_laws : TestOutputsLaws Outside unit (KeyImage * Amount) Offer unit unit.
Proof. split; cbn; eauto. Qed.

Example convert_tests_run :
  Forall (λ t : stateful Outside Error unit, returns t (outside_at_start 10) (λ _ _, True))
    [test_pair_identity; test_quote_id_from; test_quote_id_try_from; test_quote_id_try_from_conversion_errors;
     test_quote_identity (A:=list Z); matched_tx_out_roundtrip (T:=option TxOut) (M:=Amount) (K:=list Z);
     pending_tx_out_roundtrip (A:=list Z) (T:=option TxOut) (M:=Amount) (K:=list Z);
     listed_tx_out_roundtrip (A:=list Z) (T:=option TxOut) (M:=Amount) (K:=list Z)].
Proof. apply convert_tests_pass. by vm_compute. Qed.
End ConvertTestsExamples.
