(* ===== verification/BotProgram.v ===== *)
(** The liquidity bot as a program (liquidity-bot/src/bin/main.rs, config.rs):
    what it opens and starts, and its event loop with the wallet's thread at
    work behind it.

    Opening the ledger database, the key file and the admin server are
    parameters.  The wallet's callback sends into a channel whose receiver
    [main] declares before the wallet, and so drops after it. *)

From S2P Require Import Prelude McTypes QuoteApi QuotePricing QuoteBook InMemory SqlTypes Sqlite Synchronized ApiConvert ClientService Wallet WalletRun WalletTests LiquidityBot BotAdmin.

(** * config.rs *)

Record BotConfig (URI D : Type) := {
  bc_deqs : URI;
  bc_admin_listen_uri : option URI;
  bc_base_token_id : TokenId;
  bc_counter_token_id : TokenId;
  bc_swap_rate : D;
  bc_ledger_db : PathBuf;
  bc_account_key : PathBuf;
  bc_first_block_index : BlockIndex;
  bc_wallet_db : PathBuf;
}.
Arguments bc_deqs {URI D} _.
Arguments bc_admin_listen_uri {URI D} _.
Arguments bc_base_token_id {URI D} _.
Arguments bc_counter_token_id {URI D} _.
Arguments bc_swap_rate {URI D} _.
Arguments bc_ledger_db {URI D} _.
Arguments bc_account_key {URI D} _.
Arguments bc_first_block_index {URI D} _.
Arguments bc_wallet_db {URI D} _.

Class BotIo (L URI D : Type) := {
  (** [LedgerDB::open], [mc_util_keyfile::read_keyfile] *)
  ledger_open : PathBuf → outcome string L;
  read_keyfile : PathBuf → outcome string AccountKey;
  (** [serde_json::to_string(&config)] *)
  config_to_json : BotConfig URI D → outcome string string;
  (** [AdminServer::start(None, uri, name, id, Some(get_config_json), ..)] *)
  admin_server_start : URI → string → string → string → outcome string unit;
}.

(** [Result::expect] of a value *)
Definition or_panic {X} (r : outcome string X) (msg : string) : outcome string X :=
  match r with Err _ => Panic msg | r => r end.

(** * main *)

(** How [main] is doing. *)
Inductive MainStatus := MainRuns | MainReturned | MainPanicked (msg : string).

(** The running program: the wallet's thread and what it works on, with the
    events sent into the channel and the number received from it; the bot's
    pairs and whether its task runs; and the commands [main] has sent to it. *)
Record BotProgram (D : Type) := mk_program {
  bp_thread : bool;
  bp_wallet : Scanner (list WalletEvent);
  bp_received : nat;
  bp_pairs : gmap TokenId (TokenId * D);
  bp_bot : bool;
  bp_commands : list Command;
  bp_main : MainStatus;
}.
Arguments mk_program {D} _ _ _ _ _ _ _.
Arguments bp_thread {D} _.
Arguments bp_wallet {D} _.
Arguments bp_received {D} _.
Arguments bp_pairs {D} _.
Arguments bp_bot {D} _.
Arguments bp_commands {D} _.
Arguments bp_main {D} _.

(** What happens behind [main]: an iteration of the wallet's thread, or the end
    of the bot's task. *)
Inductive BackgroundStep (L : Type) := ThreadTurns (ledger_db : L) | BotEnds.
Arguments ThreadTurns {L} _.
Arguments BotEnds {L}.

(** What happens next in the loop: that, or a branch of the [select!]. *)
Inductive ProgramStep (L : Type) := Background (b : BackgroundStep L) | SelectCtrlC | SelectWallet | SelectMetrics.
Arguments Background {L} _.
Arguments SelectCtrlC {L}.
Arguments SelectWallet {L}.
Arguments SelectMetrics {L}.

Section Main.
Context `{!StateSerial, !HashIter (list Z) MatchedTxOut} {L URI D : Type} `{!Ledger L, !BotIo L URI D}.
Variable config : BotConfig URI D.
Local Abbreviation program := (BotProgram D).

(** [main] up to the admin server, the account it found included. *)
Definition main_start (fs : FileSystem) : outcome string (AccountKey * program) :=
  ledger_db ← or_panic (ledger_open (bc_ledger_db config)) "Could not open ledger db";
  num_blocks ← match num_blocks ledger_db with
               | Ok n => Ok n
               | Err _ => Panic "Could not compute num_blocks"
               | Panic p => Panic p
               end;
  _ ← rust_assert (negb (num_blocks =? 0)) "assertion failed: `(left != right)`";
  account_key ← or_panic (read_keyfile (bc_account_key config)) "Could not read keyfile";
  wallet ← or_panic (mini_wallet_new (bc_wallet_db config) (bc_first_block_index config) fs []) "Could not create MiniWallet";
  let pairs := {[bc_base_token_id config := (bc_counter_token_id config, bc_swap_rate config)]} in
  config_json ← or_panic (config_to_json config) "failed to serialize config to JSON";
  _ ← match bc_admin_listen_uri config with
      | Some uri => or_panic (admin_server_start uri "DEQS-Liquidity-Bot" "" config_json) "Failed starting admin server"
      | None => Ok tt
      end;
  Ok (account_key, mk_program true wallet 0 pairs true [] MainRuns).

Definition set_main (m : MainStatus) (s : program) : program :=
  mk_program (bp_thread s) (bp_wallet s) (bp_received s) (bp_pairs s) (bp_bot s) (bp_commands s) m.
Definition set_thread (running : bool) (sc : Scanner (list WalletEvent)) (s : program) : program :=
  mk_program running sc (bp_received s) (bp_pairs s) (bp_bot s) (bp_commands s) (bp_main s).

(** [command_tx.send(..).expect("command tx failed")]; a query also waits for
    the task to answer. *)
Definition main_sends (commands : list Command) (s : program) : program :=
  if bp_bot s then
    mk_program (bp_thread s) (bp_wallet s) (bp_received s) (bp_pairs s) (bp_bot s) (bp_commands s ++ commands) (bp_main s)
  else if decide (commands = []) then s
  else set_main (MainPanicked "command tx failed") s.

(** The outputs the wallet has are fed to the bot. *)
Definition main_feeds (s : program) : program :=
  if sc_poisoned (bp_wallet s) then set_main (MainPanicked "PoisonError") s
  else main_sends (CmdWalletEvent <$> feed_existing (wallet_matched_tx_outs (sc_state (bp_wallet s)))) s.

(** [main] leaves its loop: the wallet is dropped, which stops its thread. *)
Definition main_leaves (s : program) : program :=
  set_main (match scanner_drop (if bp_thread s then Ok true else Panic "the thread panicked") with
            | Ok _ => MainReturned
            | Err e => MainPanicked e
            | Panic p => MainPanicked p
            end) (set_thread false (bp_wallet s) s).

Definition background_step `{!AccountKey} (step : BackgroundStep L) (s : program) : program :=
  match step with
  | ThreadTurns ledger_db =>
      if bp_thread s then
        match run_iteration push_event account_spsk (bc_wallet_db config) ledger_db (bp_wallet s) with
        | (Panic _, sc) => set_thread false sc s
        | (_, sc) => set_thread true sc s
        end
      else s
  | BotEnds =>
      mk_program (bp_thread s) (bp_wallet s) (bp_received s) (bp_pairs s) false (bp_commands s) (bp_main s)
  end.

(** A turn of the loop; the channel is closed when the thread has ended and its
    events are received. *)
Definition program_step `{!AccountKey} (step : ProgramStep L) (s : program) : program :=
  match bp_main s with
  | MainRuns =>
      match step with
      | Background b => background_step b s
      | SelectCtrlC => main_leaves s
      | SelectWallet =>
          match sc_world (bp_wallet s) !! bp_received s with
          | Some event =>
              main_sends [CmdWalletEvent event]
                (mk_program (bp_thread s) (bp_wallet s) (S (bp_received s)) (bp_pairs s) (bp_bot s) (bp_commands s) (bp_main s))
          | None => if bp_thread s then s else main_leaves s
          end
      | SelectMetrics =>
          match mini_wallet_next_block_index (bp_wallet s) with
          | Ok _ => main_sends [GetStats] s
          | Err e => set_main (MainPanicked e) s
          | Panic p => set_main (MainPanicked p) s
          end
      end
  | _ => s
  end.

(** The program: what happens before [main] reads the wallet, and after. *)
Definition bot_program (fs : FileSystem) (before : list (BackgroundStep L)) (after : list (ProgramStep L)) :
    outcome string program :=
  '(account, s) ← main_start fs;
  let s := fold_left (λ s step, @background_step account step s) before s in
  Ok (fold_left (λ s step, @program_step account step s) after (main_feeds s)).
End Main.

(** * Theorems *)

Section Informed.
Context `{!StateSerial, !StateSerialLaws, !HashIter (list Z) MatchedTxOut} {account : AccountKey} {L URI D : Type}.
Context `{!Ledger L, !LedgerLaws L, !BotIo L URI D} (config : BotConfig URI D).
(** The chain of blocks, and what the account's wallet makes of it. *)
Context (B : list BlockContents) (first : nat) (bs : list ScannedBlock).
Hypothesis Hscan : scan_chain account_spsk first (drop first B) = Ok bs.
Hypothesis Hfits : Z.of_nat (first + length B) + SCAN_CHUNK_SIZE < U64_MOD.
Hypothesis Hfirst : bc_first_block_index config = Z.of_nat first.
Local Abbreviation program := (BotProgram D).

(** Steps while the bot's task runs, on ledgers that show the chain. *)
Definition benign (b : BackgroundStep L) : Prop :=
  match b with ThreadTurns ledger_db => serves_chain B ledger_db | BotEnds => False end.
Definition benign_step (s : ProgramStep L) : Prop := match s with Background b => benign b | _ => True end.

(** The wallet was loaded with [loaded] blocks and has scanned [n]; the events
    since are in the channel, and none was received that was not sent. *)
Record program_ok (loaded n : nat) (s : program) : Prop := {
  ok_wallet : in_sync (bc_wallet_db config) first bs (bp_wallet s) n;
  ok_bounds : (loaded ≤ n)%nat;
  ok_sent : sc_world (bp_wallet s) = take (n - loaded) (drop loaded (wallet_reports first bs));
  ok_received : (bp_received s ≤ n - loaded)%nat;
  ok_bot : bp_bot s = true;
  ok_main : bp_main s = MainRuns ∧ bp_thread s = true ∨ bp_main s = MainReturned;
}.

Lemma reports_length_at loaded n :
  (loaded ≤ n ≤ length bs)%nat → length (take (n - loaded) (drop loaded (wallet_reports first bs))) = (n - loaded)%nat.
Proof.
  intros Hn. destruct (wallet_at_run account_spsk B first bs Hscan Hfits (length bs)) as [Hr _]; [done|].
  apply apply_blocks_length in Hr. rewrite !length_take in Hr. rewrite length_take, length_drop. lia.
Qed.

Lemma background_ok loaded n b s :
  benign b → program_ok loaded n s → bp_main s = MainRuns → bp_thread s = true →
  ∃ n', program_ok loaded n' (background_step config b s) ∧ (n ≤ n')%nat ∧
    bp_commands (background_step config b s) = bp_commands s ∧ bp_received (background_step config b s) = bp_received s ∧
    bp_main (background_step config b s) = MainRuns ∧ bp_thread (background_step config b s) = true.
Proof.
  intros Hb [Hw Hle Hsent Hrec Hbot Hmain] Hm Ht. destruct b as [db|]; [|done]. cbn in Hb.
  destruct (iteration_run push_event account_spsk (bc_wallet_db config) id push_event_queues B first bs Hscan Hfits n db _ Hb Hw)
    as (sc' & Hr & Hw' & Hq). unfold background_step. rewrite Ht, Hr. set (n' := advance first n db) in *.
  assert (n ≤ n')%nat by (unfold n', advance; lia). exists n'. split; [|done].
  split; cbn; [done|lia| |lia|done|by left].
  unfold id in Hq. rewrite Hq, Hsent. replace (n' - loaded)%nat with ((n - loaded) + (n' - n))%nat by lia.
  rewrite <-take_take_drop, drop_drop. by replace (loaded + (n - loaded))%nat with n by lia.
Qed.

(** The commands are those of [bot_main] for what was received. *)
Definition sent_by_main (loaded grabbed : nat) (s : program) : Prop :=
  (loaded ≤ grabbed ≤ length bs)%nat ∧ ∃ main_events,
    bp_commands s = (CmdWalletEvent <$> feed_existing (wallet_matched_tx_outs (wallet_at first bs grabbed))) ++ main_loop main_events ∧
    Forall goes_on main_events ∧
    omap forwarded main_events = take (bp_received s) (drop loaded (wallet_reports first bs)).

Lemma main_loop_snoc events e :
  Forall goes_on events → main_loop (events ++ [e]) = main_loop events ++ main_loop [e].
Proof. induction 1 as [|x events [Hc Hn] _ IH]; [done|]. by destruct x as [|[x|]|]; cbn in *; rewrite ?IH. Qed.

(** A turn of the loop keeps the program in order and adds its command. *)
Lemma program_step_ok loaded grabbed n step s :
  benign_step step → program_ok loaded n s → (grabbed ≤ n)%nat → sent_by_main loaded grabbed s →
  ∃ n', program_ok loaded n' (program_step config step s) ∧ (grabbed ≤ n')%nat ∧
    sent_by_main loaded grabbed (program_step config step s).
Proof.
  intros Hstep Hok Hg Hsent. pose proof Hok as [Hw Hle Hworld Hrec Hbot [[Hm Ht]|Hm]]; unfold program_step; rewrite Hm;
    [|by exists n]. destruct Hsent as (Hb & events & Hc & Hgo & Hf). destruct Hw as (Hst & Hp & Hload & Hfs & Hn) eqn:E.
  clear E. destruct step as [b| | |].
  - destruct (background_ok loaded n b s Hstep Hok Hm Ht) as (n' & Hok' & Hle' & Hc' & Hr' & _).
    exists n'. split; [done|]. split; [lia|]. split; [done|]. exists events. by rewrite Hc', Hr'.
  - exists n. unfold main_leaves. rewrite Ht. split; [by split; [..|right]|]. split; [done|]. split; [done|]. by exists events.
  - rewrite Hworld. destruct (take (n - loaded) _ !! bp_received s) as [e|] eqn:He.
    + assert (bp_received s < n - loaded)%nat as Hlt.
      { apply lookup_lt_Some in He. by rewrite reports_length_at in He by lia. }
      rewrite lookup_take_lt in He by done. exists n. unfold main_sends. cbn. rewrite Hbot. cbn.
      split; [split; cbn; [done..|lia|done|by left]|]. split; [done|]. split; [done|].
      exists (events ++ [WalletRx (Some e)]). cbn. split; [by rewrite main_loop_snoc, Hc, <-(assoc_L (++))|].
      split; [apply Forall_app; split; [done|]; by apply Forall_singleton|].
      rewrite omap_app, Hf. cbn. by rewrite (take_S_r _ _ e).
    + rewrite Ht. exists n. split; [done|]. split; [done|]. split; [done|]. by exists events.
  - unfold mini_wallet_next_block_index. rewrite Hp. exists n. unfold main_sends. rewrite Hbot.
    split; [by split; [..|by left]|]. split; [done|]. split; [done|]. exists (events ++ [MetricsTick]). cbn.
    split; [by rewrite main_loop_snoc, Hc, <-(assoc_L (++))|].
    split; [apply Forall_app; split; [done|]; by apply Forall_singleton|]. by rewrite omap_app, Hf, app_nil_r.
Qed.

Lemma program_run_ok loaded grabbed n steps s :
  Forall benign_step steps → program_ok loaded n s → (grabbed ≤ n)%nat → sent_by_main loaded grabbed s →
  ∃ n', let s' := fold_left (λ s step, program_step config step s) steps s in
    program_ok loaded n' s' ∧ (grabbed ≤ n')%nat ∧ sent_by_main loaded grabbed s'.
Proof.
  intros Hsteps. revert n s. induction Hsteps as [|step steps Hstep _ IH]; intros n s Hok Hg Hsent; [by exists n|].
  destruct (program_step_ok _ _ _ _ _ Hstep Hok Hg Hsent) as (n1 & Hok1 & Hg1 & Hs1). cbn. by eapply IH.
Qed.

(** With nothing left in the channel the commands add up to the wallet. *)
Lemma all_received_informed loaded grabbed n s :
  program_ok loaded n s → (grabbed ≤ n)%nat → sent_by_main loaded grabbed s →
  bp_received s = length (sc_world (bp_wallet s)) → told (bp_commands s) ∅ = matched_tx_outs (sc_state (bp_wallet s)).
Proof.
  intros [(Hst & _ & _ & _ & Hn) Hle Hworld _ _ _] Hg (Hb & events & Hc & Hgo & Hf) Hall.
  rewrite Hworld, reports_length_at in Hall by lia. rewrite Hall in Hf.
  destruct (main_tells_wallet account_spsk B first bs Hscan Hfits 1 loaded grabbed n events) as (commands & Hmain & Htold);
    [done|lia|done|done|]. unfold bot_main in Hmain. injection Hmain as <-. by rewrite Hc, Hst.
Qed.

Lemma main_start_ok fs loaded ledger_db num json :
  ledger_open (bc_ledger_db config) = Ok ledger_db → num_blocks ledger_db = Ok num → num ≠ 0 →
  read_keyfile (bc_account_key config) = Ok account → config_to_json config = Ok json →
  (∀ uri, bc_admin_listen_uri config = Some uri → admin_server_start uri "DEQS-Liquidity-Bot" "" json = Ok tt) →
  saved (bc_wallet_db config) first bs fs loaded →
  ∃ s, main_start config fs = Ok (account, s) ∧ program_ok loaded loaded s ∧ bp_main s = MainRuns ∧
    bp_thread s = true ∧ bp_commands s = [] ∧ bp_received s = 0%nat ∧
    bp_pairs s = {[bc_base_token_id config := (bc_counter_token_id config, bc_swap_rate config)]}.
Proof.
  intros Hdb Hnum Hne Hkey Hjson Hadmin Hsaved. pose proof Hsaved as (Hload & Hfs & Hn).
  unfold main_start, mini_wallet_new. rewrite Hdb. cbn. rewrite Hnum. cbn. rewrite (proj2 (Z.eqb_neq _ _) Hne). cbn.
  rewrite Hkey. cbn. rewrite Hfirst, Hload. cbn. rewrite Hjson. cbn.
  assert (∃ s, (_ ← match bc_admin_listen_uri config with
      | Some uri => or_panic (admin_server_start uri "DEQS-Liquidity-Bot" "" json) "Failed starting admin server"
      | None => Ok tt end; Ok (account, mk_program true (mk_scanner (wallet_at first bs loaded) false fs []) 0
        {[bc_base_token_id config := (bc_counter_token_id config, bc_swap_rate config)]} true [] MainRuns)) = Ok (account, s) ∧
      s = mk_program true (mk_scanner (wallet_at first bs loaded) false fs []) 0
        {[bc_base_token_id config := (bc_counter_token_id config, bc_swap_rate config)]} true [] MainRuns) as (s & Hs & ->).
  { destruct (bc_admin_listen_uri config) as [uri|]; [|by eexists]. rewrite (Hadmin uri eq_refl). by eexists. }
  eexists. split; [exact Hs|]. split; [|done].
  split; cbn; [by split_and!|done|by rewrite Nat.sub_diag|lia|done|by left].
Qed.
(** Behind [main], before it reads the wallet. *)
Lemma before_ok loaded n before s :
  Forall benign before → program_ok loaded n s → bp_main s = MainRuns → bp_thread s = true →
  ∃ n', let s' := fold_left (λ s step, background_step config step s) before s in
    program_ok loaded n' s' ∧ bp_main s' = MainRuns ∧ bp_commands s' = bp_commands s ∧ bp_received s' = bp_received s.
Proof.
  intros Hb. revert n s. induction Hb as [|b before Hb _ IH]; intros n s Hok Hm Ht; [by exists n|].
  destruct (background_ok loaded n b s Hb Hok Hm Ht) as (n1 & Hok1 & _ & Hc1 & Hr1 & Hm1 & Ht1).
  destruct (IH n1 _ Hok1 Hm1 Ht1) as (n2 & Hok2 & Hm2 & Hc2 & Hr2). exists n2. cbn. by rewrite Hc2, Hr2.
Qed.

(** The feed sends what the wallet has. *)
Lemma feeds_ok loaded n s :
  program_ok loaded n s → bp_main s = MainRuns → bp_commands s = [] → bp_received s = 0%nat →
  program_ok loaded n (main_feeds s) ∧ sent_by_main loaded n (main_feeds s).
Proof.
  intros [(Hst & Hp & Hsaved) Hle Hworld Hrec Hbot Hmain] Hm Hc Hr. unfold main_feeds, main_sends. rewrite Hp, Hbot.
  split; [by split|]. pose proof (proj2 (proj2 Hsaved)). split; [lia|]. exists []. cbn. rewrite Hc, Hst, Hr, app_nil_r. done.
Qed.

(** Steps of the loop leave the pairs alone. *)
Lemma pairs_kept step (s : program) : bp_pairs (program_step config step s) = bp_pairs s.
Proof.
  unfold program_step, background_step, main_leaves, main_sends, set_main, set_thread.
  repeat case_match; done.
Qed.

(** With the loop at work the channel empties. *)
Lemma receives_all loaded n k (s : program) :
  program_ok loaded n s → bp_main s = MainRuns → (k + bp_received s = n - loaded)%nat →
  let s' := fold_left (λ s step, program_step config step s) (replicate k SelectWallet) s in
  bp_wallet s' = bp_wallet s ∧ bp_received s' = length (sc_world (bp_wallet s')).
Proof.
  revert s. induction k as [|k IH]; intros s Hok Hm Hk.
  { cbn. split; [done|]. destruct Hok as [Hw Hle -> _ _ _]. pose proof (proj2 (proj2 (proj2 (proj2 Hw)))).
    rewrite reports_length_at by lia. lia. }
  cbn [replicate fold_left]. pose proof Hok as [Hw Hle Hworld Hrec Hbot Hmain].
  pose proof (proj2 (proj2 (proj2 (proj2 Hw)))) as Hn.
  destruct (lookup_lt_is_Some_2 (sc_world (bp_wallet s)) (bp_received s)) as [e He].
  { rewrite Hworld, reports_length_at by lia. lia. }
  set (s1 := mk_program (bp_thread s) (bp_wallet s) (S (bp_received s)) (bp_pairs s) true
    (bp_commands s ++ [CmdWalletEvent e]) MainRuns).
  assert (program_step config SelectWallet s = s1) as ->
    by (unfold program_step, main_sends; rewrite Hm, He; cbn; by rewrite Hbot).
  apply (IH s1); [|done|cbn; lia]. destruct Hmain as [[_ Ht]|]; [|congruence].
  split; cbn; [done..|lia|done|by left].
Qed.

(** C36: The bot is told of every output.  The program starts when the ledger has
    blocks, the key file, the wallet's state and the configuration can be read
    and the admin server starts.  From then on, in whatever order the wallet's
    thread and the loop of [main] run, before and after the program reads the
    wallet's outputs, nothing panics while the bot's task runs; whenever every
    event of the wallet is received, the commands sent to the bot add up to
    exactly the outputs the wallet holds; and receiving the events that wait is
    enough to get there. *)
Theorem bot_program_informed fs loaded ledger_db num json before after :
  ledger_open (bc_ledger_db config) = Ok ledger_db → num_blocks ledger_db = Ok num → num ≠ 0 →
  read_keyfile (bc_account_key config) = Ok account → config_to_json config = Ok json →
  (∀ uri, bc_admin_listen_uri config = Some uri → admin_server_start uri "DEQS-Liquidity-Bot" "" json = Ok tt) →
  saved (bc_wallet_db config) first bs fs loaded →
  Forall benign before → Forall benign_step after →
  ∃ s, bot_program config fs before after = Ok s ∧
    (bp_main s = MainRuns ∧ bp_thread s = true ∨ bp_main s = MainReturned) ∧
    (bp_received s = length (sc_world (bp_wallet s)) → told (bp_commands s) ∅ = matched_tx_outs (sc_state (bp_wallet s))) ∧
    (bp_main s = MainRuns → ∃ k s', bot_program config fs before (after ++ replicate k SelectWallet) = Ok s' ∧
       bp_wallet s' = bp_wallet s ∧ told (bp_commands s') ∅ = matched_tx_outs (sc_state (bp_wallet s))).
Proof.
  intros Hdb Hnum Hne Hkey Hjson Hadmin Hsaved Hbefore Hafter.
  destruct (main_start_ok fs loaded ledger_db num json) as (s0 & Hstart & Hok0 & Hm0 & Ht0 & Hc0 & Hr0 & _); [done..|].
  destruct (before_ok _ _ _ _ Hbefore Hok0 Hm0 Ht0) as (n1 & Hok1 & Hm1 & Hc1 & Hr1). rewrite Hc0 in Hc1. rewrite Hr0 in Hr1.
  destruct (feeds_ok _ _ _ Hok1 Hm1 Hc1 Hr1) as [Hok2 Hsent2].
  destruct (program_run_ok _ _ _ after _ Hafter Hok2 (le_n _) Hsent2) as (n3 & Hok3 & Hg3 & Hsent3).
  unfold bot_program. rewrite Hstart. cbn. eexists. split; [done|]. split; [apply Hok3|]. split; [by eapply all_received_informed|].
  intros Hm3. exists (n3 - loaded - bp_received (fold_left (λ s step, program_step config step s) after (main_feeds
    (fold_left (λ s step, background_step config step s) before s0))))%nat.
  rewrite fold_left_app. set (s3 := fold_left _ after _) in *.
  pose proof (ok_received _ _ _ Hok3) as Hrec.
  destruct (receives_all loaded n3 (n3 - loaded - bp_received s3) s3 Hok3 Hm3) as [Hw4 Hr4]; [lia|].
  eexists. split; [done|]. split; [done|].
  assert (Forall benign_step (replicate (n3 - loaded - bp_received s3) (@SelectWallet L))) as Hb4 by by apply Forall_replicate.
  destruct (program_run_ok _ _ _ _ _ Hb4 Hok3 Hg3 Hsent3) as (n4 & Hok4 & Hg4 & Hsent4).
  rewrite <-Hw4. by eapply all_received_informed.
Qed.
End Informed.

(** Once the bot's task has ended, the next event of the wallet ends the
    program. *)
Lemma bot_end_ends_main `{!StateSerial, !AccountKey} {L URI D : Type} `{!Ledger L, !BotIo L URI D} (config : BotConfig URI D)
    (s : BotProgram D) event :
  bp_main s = MainRuns → sc_world (bp_wallet s) !! bp_received s = Some event →
  bp_main (program_step (L:=L) config SelectWallet (program_step (L:=L) config (Background BotEnds) s)) =
    MainPanicked "command tx failed".
Proof. intros Hm He. unfold program_step at 2. rewrite Hm. unfold program_step. cbn. by rewrite Hm, He. Qed.

(** * The theorem on an example *)

Module BotProgramExamples.
Import SampleLedger WalletExamples WalletRunExamples.

#[export] Instance sample_io : BotIo Chain string Z := {|
  ledger_open _ := Ok chain;
  read_keyfile path := if String.eqb path "account.json" then Ok sample_account else Err "No such file";
  config_to_json _ := Ok "{}";
  admin_server_start _ _ _ _ := Ok tt;
|}.
Definition sample_config : BotConfig string Z := {|
  bc_deqs := "deqs://localhost/"; bc_admin_listen_uri := Some "admin://localhost/"; bc_base_token_id := 1;
  bc_counter_token_id := 0; bc_swap_rate := 5; bc_ledger_db := "ledger"; bc_account_key := "account.json";
  bc_first_block_index := 0; bc_wallet_db := "wallet-state" |}.

Lemma disk_saved : saved "wallet-state" 0 blocks_ab disk 0.
Proof. split; [by vm_compute|]. split; [exact disk_healthy|cbn; lia]. Qed.

(** The thread scans the first block before the program reads the wallet, and
    the second one while the loop runs. *)
Lemma bot_program_informed_witness :
  ∃ s, bot_program sample_config disk [ThreadTurns (take 1 chain)] [Background (ThreadTurns chain); SelectMetrics; SelectWallet] = Ok s ∧
    ∃ k s', bot_program sample_config disk [ThreadTurns (take 1 chain)]
        ([Background (ThreadTurns chain); SelectMetrics; SelectWallet] ++ replicate k SelectWallet) = Ok s' ∧
      told (bp_commands s') ∅ = matched_tx_outs (sc_state (bp_wallet s)).
Proof.
  destruct (bot_program_informed sample_config chain 0 blocks_ab chain_scanned eq_refl eq_refl disk 0 chain 2 "{}"
    [ThreadTurns (take 1 chain)] [Background (ThreadTurns chain); SelectMetrics; SelectWallet])
    as (s & Hs & Hmain & _ & Hk).
  - done.
  - done.
  - done.
  - done.
  - done.
  - done.
  - exact disk_saved.
  - apply Forall_singleton. exact (chain_served 1).
  - apply Forall_cons_2; [exact (chain_served 2)|]. do 2 (apply Forall_cons_2; [exact I|]). apply Forall_nil_2.
  - exists s. split; [exact Hs|]. destruct Hk as (k & s' & Hs' & _ & Htold).
    + assert (match bot_program sample_config disk [ThreadTurns (take 1 chain)] [Background (ThreadTurns chain); SelectMetrics; SelectWallet]
        with Ok s => bp_main s = MainRuns | _ => False end) as Hm by by vm_compute. by rewrite Hs in Hm.
    + exists k, s'. split; [exact Hs'|exact Htold].
Defined.

(** The program runs: the commands for the first block, a query, and the first
    of the two events. *)
Example program_commands :
  match bot_program sample_config disk [ThreadTurns (take 1 chain)] [Background (ThreadTurns chain); SelectMetrics; SelectWallet] with
  | Ok s => bp_commands s =
      [CmdWalletEvent (BlockProcessed 0 [matched 0 0; matched 0 2] []); GetStats;
       CmdWalletEvent (BlockProcessed 0 [matched 0 0; matched 0 2] [])]
  | _ => False
  end.
Proof. by vm_compute. Qed.
End BotProgramExamples.
