(* ===== verification/Network.v ===== *)
(** The peer-to-peer network crate (p2p/src): the client handle, the event loop
    around the libp2p swarm, the RPC codec and the network builder.

    The swarm is a parameter.  A client call makes a one-shot channel for its
    reply; channels are numbered in the order they are made, and a call is in
    one place at a time: in the command queue, in one of the two maps of the
    event loop, or answered. *)

From S2P Require Import Prelude McTypes.

Abbreviation PeerId := (list Z) (only parsing).
Abbreviation RequestId := Z (only parsing).
Abbreviation ListenerId := Z (only parsing).
Abbreviation ResponseChannel := Z (only parsing).

Definition KAD_PEER_KEY : string := "mc/deqs/p2p/kad/peer".
Definition KADEMLIA_PROTO_NAME : string := "/mc/deqs/kad/1.0.0".
Definition IDENTIFY_PROTO_NAME : string := "/mc/deqs/ide/1.0.0".
Definition RPC_PROTO_NAME : string := "/mc/deqs/p2p/rpc".

(** [libp2p::Multiaddr]: its components; [push] and [pop] are at the end. *)
Inductive Protocol := P2p (multihash : bytes) | OtherProtocol (text : string).
Abbreviation Multiaddr := (list Protocol) (only parsing).
#[export] Instance Protocol_eq_dec : EqDecision Protocol.
Proof. solve_decision. Defined.

(** * Errors (error.rs, client.rs); those of libp2p by their text *)

Inductive ClientError :=
| ChannelSend
| ChannelRecv
| OutboundFailure (e : string)
| GossipSubscription (e : string)
| GossipPublish (e : string)
| TransportFailure (e : string).

Inductive NetworkError :=
| GossipsubBuild (e : string)
| GossipsubNew (e : string)
| Io (e : string)
| Noise (e : string)
| Dial (e : string)
| Bootstrap (e : string)
| Transport (e : string)
| Multihash (e : string)
| InvalidPeerAddress (address : Multiaddr) (found : option Protocol)
| MultiaddrError (e : string)
| KadStore (e : string)
| Client (e : ClientError).

(** The [displaydoc] text of a client error. *)
Definition client_error_display (e : ClientError) : string :=
  match e with
  | ChannelSend => "Failed to send to a channel"
  | ChannelRecv => "Failed to receive from a channel"
  | OutboundFailure e => "Outbound failure: " +:+ e
  | GossipSubscription e => "Gossip subscription: " +:+ e
  | GossipPublish e => "Gossip publish: " +:+ e
  | TransportFailure e => "Transport error: " +:+ e
  end.

(** * Commands, replies and events *)

(** [enum Command]; [response_sender] is the number of the one-shot channel. *)
Inductive Command (REQ RESP : Type) :=
| PeerList (response_sender : nat)
| Listen (address : Multiaddr) (response_sender : nat)
| ListenAddrList (response_sender : nat)
| ConnectedPeerList (response_sender : nat)
| PublishGossip (topic : string) (msg : bytes) (response_sender : nat)
| SubscribeGossip (topic : string) (response_sender : nat)
| CmdRpcRequest (peer : PeerId) (request : REQ) (response_sender : nat)
| CmdRpcResponse (response : RESP) (channel : ResponseChannel).
Arguments PeerList {REQ RESP} _.
Arguments Listen {REQ RESP} _ _.
Arguments ListenAddrList {REQ RESP} _.
Arguments ConnectedPeerList {REQ RESP} _.
Arguments PublishGossip {REQ RESP} _ _ _.
Arguments SubscribeGossip {REQ RESP} _ _.
Arguments CmdRpcRequest {REQ RESP} _ _ _.
Arguments CmdRpcResponse {REQ RESP} _ _.

(** What is sent on a one-shot channel. *)
Inductive Reply (RESP : Type) :=
| PeersReply (peers : list PeerId)
| ListenReply (r : outcome ClientError Multiaddr)
| AddrsReply (addrs : list Multiaddr)
| PublishReply (r : outcome string bytes)
| SubscribeReply (r : outcome string bool)
| RpcReply (r : outcome ClientError RESP).
Arguments PeersReply {RESP} _.
Arguments ListenReply {RESP} _.
Arguments AddrsReply {RESP} _.
Arguments PublishReply {RESP} _.
Arguments SubscribeReply {RESP} _.
Arguments RpcReply {RESP} _.

(** [enum NetworkEvent], for the user of the network. *)
Inductive NetEvent (REQ : Type) :=
| NetRpcRequest (peer : PeerId) (request : REQ) (channel : ResponseChannel)
| NetConnectionEstablished (peer_id : PeerId)
| NetNewListenAddr (address : Multiaddr)
| NetGossipMessage (topic : string) (data : bytes).
Arguments NetRpcRequest {REQ} _ _ _.
Arguments NetConnectionEstablished {REQ} _.
Arguments NetNewListenAddr {REQ} _.
Arguments NetGossipMessage {REQ} _ _.

(** [SwarmEvent], by what [handle_swarm_event] distinguishes. *)
Inductive SwarmEvent (REQ RESP : Type) :=
| NewListenAddr (address : Multiaddr) (listener_id : ListenerId)
| ConnectionEstablished (peer_id : PeerId) (num_established : Z)
| RequestMessage (peer : PeerId) (request : REQ) (channel : ResponseChannel)
| ResponseMessage (request_id : RequestId) (response : RESP)
| OutboundFailureEvent (request_id : RequestId) (error : string)
| PingEvent
| KademliaQueryCompleted
| GossipsubMessage (topic : string) (data : bytes)
| IdentifyReceived (peer_id : PeerId) (listen_addrs : list Multiaddr) (protocols : list string)
| OtherSwarmEvent.
Arguments NewListenAddr {REQ RESP} _ _.
Arguments ConnectionEstablished {REQ RESP} _ _.
Arguments RequestMessage {REQ RESP} _ _ _.
Arguments ResponseMessage {REQ RESP} _ _.
Arguments OutboundFailureEvent {REQ RESP} _ _.
Arguments PingEvent {REQ RESP}.
Arguments KademliaQueryCompleted {REQ RESP}.
Arguments GossipsubMessage {REQ RESP} _ _.
Arguments IdentifyReceived {REQ RESP} _ _ _.
Arguments OtherSwarmEvent {REQ RESP}.

(** * The swarm *)

Class Swarm (SW REQ RESP : Type) := {
  listen_on : Multiaddr → stateful SW string ListenerId;
  listeners : SW → list Multiaddr;
  local_peer_id : SW → PeerId;
  swarm_connected_peers : SW → list PeerId;
  gossipsub_all_peers : SW → list PeerId;
  send_request : PeerId → REQ → SW → RequestId * SW;
  send_response : ResponseChannel → RESP → stateful SW string unit;
  gossipsub_publish : string → bytes → stateful SW string bytes;
  gossipsub_subscribe : string → stateful SW string bool;
  kad_add_address : PeerId → Multiaddr → SW → SW;
  kad_bootstrap : stateful SW string unit;
  kad_start_providing : string → stateful SW string unit;
  kad_get_providers : string → SW → SW;
  add_external_address : Multiaddr → SW → SW;
  (** [PeerId::from_multihash] *)
  peer_id_from_multihash : bytes → outcome string PeerId;
  (** [libp2p::kad::protocol::DEFAULT_PROTO_NAME] *)
  kad_default_proto_name : string;
  (** the swarm after it returned this event *)
  swarm_polled : SwarmEvent REQ RESP → SW → SW;
}.

(** What the event loop relies on: the ids of requests and listeners are
    fresh.  [swarm_requests] are the requests made so far, by id. *)
Class SwarmLaws (SW REQ RESP : Type) `{!Swarm SW REQ RESP} := {
  swarm_requests : SW → gmap RequestId (PeerId * REQ);
  swarm_listeners : SW → gset ListenerId;
  send_request_fresh p r s i s' : send_request p r s = (i, s') →
    swarm_requests s !! i = None ∧ swarm_requests s' = <[i := (p, r)]> (swarm_requests s) ∧
    swarm_listeners s' = swarm_listeners s;
  listen_on_fresh a s r s' : listen_on a s = (r, s') →
    swarm_requests s' = swarm_requests s ∧ is_panic r = false ∧
    match r with
    | Ok i => i ∉ swarm_listeners s ∧ swarm_listeners s' = {[i]} ∪ swarm_listeners s
    | _ => swarm_listeners s' = swarm_listeners s
    end;
  send_response_frame c r s x s' : send_response c r s = (x, s') →
    swarm_requests s' = swarm_requests s ∧ swarm_listeners s' = swarm_listeners s;
  publish_frame t m s x s' : gossipsub_publish t m s = (x, s') →
    swarm_requests s' = swarm_requests s ∧ swarm_listeners s' = swarm_listeners s;
  subscribe_frame t s x s' : gossipsub_subscribe t s = (x, s') →
    swarm_requests s' = swarm_requests s ∧ swarm_listeners s' = swarm_listeners s;
  add_address_frame p a s :
    swarm_requests (kad_add_address p a s) = swarm_requests s ∧
    swarm_listeners (kad_add_address p a s) = swarm_listeners s;
  kad_bootstrap_frame s x s' : kad_bootstrap s = (x, s') →
    swarm_requests s' = swarm_requests s ∧ swarm_listeners s' = swarm_listeners s;
  start_providing_frame k s x s' : kad_start_providing k s = (x, s') →
    swarm_requests s' = swarm_requests s ∧ swarm_listeners s' = swarm_listeners s;
  get_providers_frame k s :
    swarm_requests (kad_get_providers k s) = swarm_requests s ∧
    swarm_listeners (kad_get_providers k s) = swarm_listeners s;
  polled_frame e s :
    swarm_requests (swarm_polled e s) = swarm_requests s ∧
    swarm_listeners (swarm_polled e s) = swarm_listeners s;
}.

(** * The event loop (network_event_loop.rs) *)

(** The channels between the loop and its users: the replies sent on one-shot
    channels, the one-shot receivers that were dropped, the events sent and
    whether their receiver was dropped. *)
Record Wires (REQ RESP : Type) := mk_wires {
  replies : gmap nat (Reply RESP);
  dropped : gset nat;
  events : list (NetEvent REQ);
  events_closed : bool;
}.
Arguments mk_wires {REQ RESP} _ _ _ _.
Arguments replies {REQ RESP} _.
Arguments dropped {REQ RESP} _.
Arguments events {REQ RESP} _.
Arguments events_closed {REQ RESP} _.

(** [struct NetworkEventLoop]; a one-shot sender is its channel's number. *)
Record NetworkEventLoop (SW REQ RESP : Type) := mk_event_loop {
  swarm : SW;
  pending_rpc_requests : gmap RequestId nat;
  listener_requests : gmap ListenerId nat;
  wires : Wires REQ RESP;
}.
Arguments mk_event_loop {SW REQ RESP} _ _ _ _.
Arguments swarm {SW REQ RESP} _.
Arguments pending_rpc_requests {SW REQ RESP} _.
Arguments listener_requests {SW REQ RESP} _.
Arguments wires {SW REQ RESP} _.

Section EventLoop.
Context {SW REQ RESP : Type} `{!Swarm SW REQ RESP}.
Local Abbreviation loop := (NetworkEventLoop SW REQ RESP).

Definition set_swarm (sw : SW) (s : loop) : loop :=
  mk_event_loop sw (pending_rpc_requests s) (listener_requests s) (wires s).
Definition set_pending (m : gmap RequestId nat) (s : loop) : loop :=
  mk_event_loop (swarm s) m (listener_requests s) (wires s).
Definition set_listeners (m : gmap ListenerId nat) (s : loop) : loop :=
  mk_event_loop (swarm s) (pending_rpc_requests s) m (wires s).
Definition set_wires (w : Wires REQ RESP) (s : loop) : loop :=
  mk_event_loop (swarm s) (pending_rpc_requests s) (listener_requests s) w.

(** [sender.send(..).expect(..)] on a one-shot channel. *)
Definition send_oneshot (sender : nat) (r : Reply RESP) : stateful loop NetworkError unit := λ s,
  let w := wires s in
  if bool_decide (sender ∈ dropped w) then (Panic "receiver should not be closed", s)
  else (Ok tt, set_wires (mk_wires (<[sender := r]> (replies w)) (dropped w) (events w) (events_closed w)) s).

(** [self.event_sender.send(..).expect(..)] *)
Definition send_event (e : NetEvent REQ) : stateful loop NetworkError unit := λ s,
  let w := wires s in
  if events_closed w then (Panic "event queue should not be closed", s)
  else (Ok tt, set_wires (mk_wires (replies w) (dropped w) (events w ++ [e]) (events_closed w)) s).

(** A call of the swarm that returns a [Result], which the caller looks at. *)
Definition on_swarm {A} (f : stateful SW string A) : stateful loop NetworkError (outcome string A) := λ s,
  let '(r, sw) := f (swarm s) in
  match r with
  | Panic p => (Panic p, set_swarm sw s)
  | _ => (Ok r, set_swarm sw s)
  end.
Definition upd_swarm (f : SW → SW) : stateful loop NetworkError unit := λ s,
  (Ok tt, set_swarm (f (swarm s)) s).

(** [self.pending_rpc_requests.remove(&request_id)] and the reply. *)
Definition reply_rpc (request_id : RequestId) (r : outcome ClientError RESP) : stateful loop NetworkError unit := λ s,
  match pending_rpc_requests s !! request_id with
  | Some sender => send_oneshot sender (RpcReply r) (set_pending (delete request_id (pending_rpc_requests s)) s)
  | None => (Ok tt, s)
  end.

Definition reply_listen (listener_id : ListenerId) (address : Multiaddr) : stateful loop NetworkError unit := λ s,
  match listener_requests s !! listener_id with
  | Some sender => send_oneshot sender (ListenReply (Ok address)) (set_listeners (delete listener_id (listener_requests s)) s)
  | None => (Ok tt, s)
  end.

(** The addresses of a peer that supports the protocol looked for are added to
    the routing table. *)
Definition handle_identify (peer_id : PeerId) (listen_addrs : list Multiaddr) (protocols : list string) :
    stateful loop NetworkError unit :=
  if existsb (String.eqb kad_default_proto_name) protocols then
    upd_swarm (λ sw, foldl (λ sw addr, kad_add_address peer_id addr sw) sw listen_addrs)
  else st_ret tt.

Definition handle_swarm_event (event : SwarmEvent REQ RESP) : stateful loop NetworkError unit :=
  match event with
  | NewListenAddr address listener_id =>
      reply_listen listener_id address;;; send_event (NetNewListenAddr address)
  | ConnectionEstablished peer_id num_established =>
      if num_established =? 1 then send_event (NetConnectionEstablished peer_id) else st_ret tt
  | RequestMessage peer request channel => send_event (NetRpcRequest peer request channel)
  | ResponseMessage request_id response => reply_rpc request_id (Ok response)
  | OutboundFailureEvent request_id error => reply_rpc request_id (Err (OutboundFailure error))
  | PingEvent => st_ret tt
  | KademliaQueryCompleted => st_ret tt
  | GossipsubMessage topic data => send_event (NetGossipMessage topic data)
  | IdentifyReceived peer_id listen_addrs protocols => handle_identify peer_id listen_addrs protocols
  | OtherSwarmEvent => st_ret tt
  end.

Definition handle_command (command : Command REQ RESP) : stateful loop NetworkError unit :=
  match command with
  | PeerList response_sender => λ s,
      send_oneshot response_sender (PeersReply (gossipsub_all_peers (swarm s))) s
  | Listen address response_sender =>
      r <-- on_swarm (listen_on address);;
      match r with
      | Ok listener_id => λ s, (Ok tt, set_listeners (<[listener_id := response_sender]> (listener_requests s)) s)
      | Err err => send_oneshot response_sender (ListenReply (Err (TransportFailure err)))
      | Panic p => st_lift (Panic p)
      end
  | ListenAddrList response_sender => λ s,
      send_oneshot response_sender
        (AddrsReply ((λ a, a ++ [P2p (local_peer_id (swarm s))]) <$> listeners (swarm s))) s
  | ConnectedPeerList response_sender => λ s,
      send_oneshot response_sender (PeersReply (swarm_connected_peers (swarm s))) s
  | CmdRpcRequest peer request response_sender => λ s,
      let '(request_id, sw) := send_request peer request (swarm s) in
      (Ok tt, set_pending (<[request_id := response_sender]> (pending_rpc_requests s)) (set_swarm sw s))
  | CmdRpcResponse response channel => on_swarm (send_response channel response);;; st_ret tt
  | PublishGossip topic msg response_sender =>
      resp <-- on_swarm (gossipsub_publish topic msg);; send_oneshot response_sender (PublishReply resp)
  | SubscribeGossip topic response_sender =>
      resp <-- on_swarm (gossipsub_subscribe topic);; send_oneshot response_sender (SubscribeReply resp)
  end.

(** [Vec::pop] of the address: the last component and the rest. *)
Definition addr_pop (a : Multiaddr) : option Protocol * Multiaddr :=
  (last a, take (length a - 1) a).

Fixpoint add_bootstrap_peers (bootstrap_peers : list Multiaddr) : stateful loop NetworkError unit :=
  match bootstrap_peers with
  | [] => st_ret tt
  | orig_peer_addr :: rest =>
      let '(popped, peer_addr) := addr_pop orig_peer_addr in
      match popped with
      | Some (P2p peer_id) =>
          peer_id <-- st_lift (map_err Multihash (peer_id_from_multihash peer_id));;
          upd_swarm (kad_add_address peer_id peer_addr);;;
          add_bootstrap_peers rest
      | other => st_lift (Err (InvalidPeerAddress orig_peer_addr other))
      end
  end.

(** The [?] after a call of the swarm. *)
Definition try_swarm {A} (from : string → NetworkError) (f : stateful SW string A) : stateful loop NetworkError A :=
  r <-- on_swarm f;; st_lift (map_err from r).

Definition bootstrap (bootstrap_peers : list Multiaddr) : stateful loop NetworkError unit :=
  add_bootstrap_peers bootstrap_peers;;;
  (if bool_decide (bootstrap_peers = []) then st_ret tt else try_swarm Bootstrap kad_bootstrap);;;
  try_swarm KadStore (kad_start_providing KAD_PEER_KEY);;;
  upd_swarm (kad_get_providers KAD_PEER_KEY).
End EventLoop.

(** * The client (client.rs), and the loop with its clients *)

(** A call of a client method that waits for a reply. *)
Inductive ClientCall (REQ : Type) :=
| rpc_request (peer : PeerId) (request : REQ)
| subscribe_gossip (topic : string)
| publish_gossip (topic : string) (msg : bytes)
| peer_list
| listen (address : Multiaddr)
| listen_addrs
| connected_peers.
Arguments rpc_request {REQ} _ _.
Arguments subscribe_gossip {REQ} _.
Arguments publish_gossip {REQ} _ _.
Arguments peer_list {REQ}.
Arguments listen {REQ} _.
Arguments listen_addrs {REQ}.
Arguments connected_peers {REQ}.

(** The command the method sends. *)
Definition call_command {REQ RESP} (c : ClientCall REQ) (response_sender : nat) : Command REQ RESP :=
  match c with
  | rpc_request peer request => CmdRpcRequest peer request response_sender
  | subscribe_gossip topic => SubscribeGossip topic response_sender
  | publish_gossip topic msg => PublishGossip topic msg response_sender
  | peer_list => PeerList response_sender
  | listen address => Listen address response_sender
  | listen_addrs => ListenAddrList response_sender
  | connected_peers => ConnectedPeerList response_sender
  end.

(** The one-shot sender a command carries. *)
Definition command_sender {REQ RESP} (c : Command REQ RESP) : option nat :=
  match c with
  | PeerList i | Listen _ i | ListenAddrList i | ConnectedPeerList i
  | PublishGossip _ _ i | SubscribeGossip _ i | CmdRpcRequest _ _ i => Some i
  | CmdRpcResponse _ _ => None
  end.

(** What a method returns. *)
Inductive ClientValue (RESP : Type) :=
| VResponse (r : RESP)
| VSubscribed (b : bool)
| VMessageId (id : bytes)
| VPeers (peers : list PeerId)
| VAddress (a : Multiaddr)
| VAddresses (l : list Multiaddr).
Arguments VResponse {RESP} _.
Arguments VSubscribed {RESP} _.
Arguments VMessageId {RESP} _.
Arguments VPeers {RESP} _.
Arguments VAddress {RESP} _.
Arguments VAddresses {RESP} _.

(** The method's result from what its receiver got: [response_receiver.await?]
    for results of the loop, [await??] for those of gossipsub.  The channel of
    a method only carries replies of one type. *)
Definition call_result {REQ RESP} (c : ClientCall REQ) (reply : outcome ClientError (Reply RESP)) :
    outcome ClientError (ClientValue RESP) :=
  reply ← reply;
  match c, reply with
  | rpc_request _ _, RpcReply r => VResponse <$> r
  | subscribe_gossip _, SubscribeReply r => VSubscribed <$> map_err GossipSubscription r
  | publish_gossip _ _, PublishReply r => VMessageId <$> map_err GossipPublish r
  | peer_list, PeersReply l => Ok (VPeers l)
  | listen _, ListenReply r => VAddress <$> r
  | listen_addrs, AddrsReply l => Ok (VAddresses l)
  | connected_peers, PeersReply l => Ok (VPeers l)
  | _, _ => Panic "reply of another type"
  end.

(** The task of the loop: spawned, in its [select!] loop, or ended, by a
    shutdown or by a panic. *)
Inductive Phase := Spawned | Running | Ended.
#[export] Instance Phase_eq_dec : EqDecision Phase.
Proof. solve_decision. Defined.

(** The loop, its command queue and everything its clients did: [calls] are
    the calls so far, the number of a call is that of its one-shot channel;
    [refused] are those that could not send their command. *)
Record Net (SW REQ RESP : Type) := mk_net {
  net_loop : NetworkEventLoop SW REQ RESP;
  net_phase : Phase;
  command_queue : list (Command REQ RESP);
  calls : list (ClientCall REQ);
  refused : list nat;
  shutdown_sent : bool;
}.
Arguments mk_net {SW REQ RESP} _ _ _ _ _ _.
Arguments net_loop {SW REQ RESP} _.
Arguments net_phase {SW REQ RESP} _.
Arguments command_queue {SW REQ RESP} _.
Arguments calls {SW REQ RESP} _.
Arguments refused {SW REQ RESP} _.
Arguments shutdown_sent {SW REQ RESP} _.

(** What happens: a client calls a method or drops its receiver, the handle is
    used (or dropped), the user of the network drops the receiver of events,
    and the branches of [select!]. *)
Inductive NetInput (REQ RESP : Type) :=
| ClientCalls (c : ClientCall REQ)
| ClientResponds (response : RESP) (channel : ResponseChannel)
| ReceiverDropped (i : nat)
| EventsDropped
| ShutdownSignal
| LoopStart
| LoopSwarm (event : SwarmEvent REQ RESP)
| LoopCommand
| LoopTick
| LoopShutdown.
Arguments ClientCalls {REQ RESP} _.
Arguments ClientResponds {REQ RESP} _ _.
Arguments ReceiverDropped {REQ RESP} _.
Arguments EventsDropped {REQ RESP}.
Arguments ShutdownSignal {REQ RESP}.
Arguments LoopStart {REQ RESP}.
Arguments LoopSwarm {REQ RESP} _.
Arguments LoopCommand {REQ RESP}.
Arguments LoopTick {REQ RESP}.
Arguments LoopShutdown {REQ RESP}.

Section Net.
Context {SW REQ RESP : Type} `{!Swarm SW REQ RESP}.
Local Abbreviation net := (Net SW REQ RESP).
Local Abbreviation loop := (NetworkEventLoop SW REQ RESP).

(** [NetworkEventLoop::start]: empty maps, a spawned task. *)
Definition net_start (sw : SW) : net :=
  mk_net (mk_event_loop sw ∅ ∅ (mk_wires ∅ ∅ [] false)) Spawned [] [] [] false.

(** The task ends: the command queue and both maps are dropped, and with them
    the one-shot senders in them. *)
Definition end_loop (s : net) : net :=
  mk_net (set_pending ∅ (set_listeners ∅ (net_loop s))) Ended [] (calls s) (refused s) (shutdown_sent s).

(** One round of [select!] with the result of its handler. *)
Definition after_handler (r : outcome NetworkError unit * loop) (s : net) : net :=
  let s' := mk_net r.2 (net_phase s) (command_queue s) (calls s) (refused s) (shutdown_sent s) in
  if is_panic r.1 then end_loop s' else s'.

Definition set_net_wires (w : Wires REQ RESP) (s : net) : net :=
  mk_net (set_wires w (net_loop s)) (net_phase s) (command_queue s) (calls s) (refused s) (shutdown_sent s).
Definition set_command_queue (q : list (Command REQ RESP)) (s : net) : net :=
  mk_net (net_loop s) (net_phase s) q (calls s) (refused s) (shutdown_sent s).
Definition set_phase (p : Phase) (s : net) : net :=
  mk_net (net_loop s) p (command_queue s) (calls s) (refused s) (shutdown_sent s).

(** [self.sender.send(command)?]: refused once the receiver is dropped. *)
Definition client_call (c : ClientCall REQ) (s : net) : net :=
  let i := length (calls s) in
  if decide (net_phase s = Ended) then
    mk_net (net_loop s) Ended (command_queue s) (calls s ++ [c]) (refused s ++ [i]) (shutdown_sent s)
  else
    mk_net (net_loop s) (net_phase s) (command_queue s ++ [call_command c i]) (calls s ++ [c])
      (refused s) (shutdown_sent s).

Definition client_rpc_response (response : RESP) (channel : ResponseChannel) :
    stateful net ClientError unit := λ s,
  if decide (net_phase s = Ended) then (Err ChannelSend, s)
  else (Ok tt, set_command_queue (command_queue s ++ [CmdRpcResponse response channel]) s).

(** [NetworkEventLoop::run], one event at a time. *)
Definition net_step (bootstrap_peers : list Multiaddr) (input : NetInput REQ RESP) (s : net) : net :=
  match net_phase s, input with
  | Spawned, LoopStart =>
      let '(r, l) := bootstrap bootstrap_peers (net_loop s) in
      let s' := mk_net l Running (command_queue s) (calls s) (refused s) (shutdown_sent s) in
      if is_ok r then s' else end_loop s'
  | Running, LoopSwarm event =>
      after_handler (handle_swarm_event event (set_swarm (swarm_polled event (swarm (net_loop s))) (net_loop s))) s
  | Running, LoopCommand =>
      match command_queue s with
      | command :: rest => after_handler (handle_command command (net_loop s)) (set_command_queue rest s)
      | [] => s
      end
  | Running, LoopTick => after_handler (bootstrap bootstrap_peers (net_loop s)) s
  | Running, LoopShutdown => if shutdown_sent s then end_loop s else s
  | _, _ => s
  end.

Definition net_exec (bootstrap_peers : list Multiaddr) (s : net) (input : NetInput REQ RESP) : net :=
  let w := wires (net_loop s) in
  match input with
  | ClientCalls c => client_call c s
  | ClientResponds response channel => (client_rpc_response response channel s).2
  | ReceiverDropped i =>
      if bool_decide (i < length (calls s))%nat then
        set_net_wires (mk_wires (replies w) ({[i]} ∪ dropped w) (events w) (events_closed w)) s
      else s
  | EventsDropped => set_net_wires (mk_wires (replies w) (dropped w) (events w) true) s
  | ShutdownSignal => mk_net (net_loop s) (net_phase s) (command_queue s) (calls s) (refused s) true
  | _ => net_step bootstrap_peers input s
  end.

Definition net_run (bootstrap_peers : list Multiaddr) (inputs : list (NetInput REQ RESP)) (sw : SW) : net :=
  foldl (net_exec bootstrap_peers) (net_start sw) inputs.

(** The calls whose sender is held by the queue or by the loop. *)
Definition held (s : net) : list nat :=
  omap command_sender (command_queue s) ++
  (map_to_list (pending_rpc_requests (net_loop s))).*2 ++
  (map_to_list (listener_requests (net_loop s))).*2.

(** [response_receiver.await]: [None] while a sender exists and has not sent. *)
Definition recv_oneshot (s : net) (i : nat) : option (outcome ClientError (Reply RESP)) :=
  match replies (wires (net_loop s)) !! i with
  | Some r => Some (Ok r)
  | None => if bool_decide (i ∈ held s) then None else Some (Err ChannelRecv)
  end.

(** The result of the [i]-th call, [None] while it waits. *)
Definition call_outcome (s : net) (i : nat) : option (outcome ClientError (ClientValue RESP)) :=
  c ← calls s !! i;
  if bool_decide (i ∈ refused s) then Some (Err ChannelSend)
  else call_result c <$> recv_oneshot s i.
End Net.

(** * Where a call is *)

Section Accounts.
Context {SW REQ RESP : Type} `{!Swarm SW REQ RESP, !SwarmLaws SW REQ RESP}.
Local Abbreviation loop := (NetworkEventLoop SW REQ RESP).
Implicit Types (l : loop) (cs : list (ClientCall REQ)) (hist : list (NetInput REQ RESP)) (owner : gmap RequestId nat).

Definition held_loop l : list nat :=
  (map_to_list (pending_rpc_requests l)).*2 ++ (map_to_list (listener_requests l)).*2.
Definition answered l : list nat := (map_to_list (replies (wires l))).*1.
(** The calls the loop holds or has answered. *)
Definition load l : list nat := held_loop l ++ answered l.

(** Where a reply comes from: the reply to an RPC request is the swarm's
    response or failure for the id the swarm gave to this request to this
    peer, and [owner] gives each id to one call. *)
Definition justified hist owner (requests : gmap RequestId (PeerId * REQ)) (i : nat)
    (c : ClientCall REQ) (r : Reply RESP) : Prop :=
  match c, r with
  | rpc_request peer request, RpcReply (Ok response) => ∃ id,
      owner !! id = Some i ∧ requests !! id = Some (peer, request) ∧
      LoopSwarm (ResponseMessage id response) ∈ hist
  | rpc_request peer request, RpcReply (Err e) => ∃ id error,
      e = OutboundFailure error ∧ owner !! id = Some i ∧ requests !! id = Some (peer, request) ∧
      LoopSwarm (OutboundFailureEvent id error) ∈ hist
  | listen _, ListenReply (Ok address) => ∃ id, LoopSwarm (NewListenAddr address id) ∈ hist
  | listen _, ListenReply (Err e) => ∃ error, e = TransportFailure error
  | subscribe_gossip _, SubscribeReply r => is_panic r = false
  | publish_gossip _ _, PublishReply r => is_panic r = false
  | peer_list, PeersReply _ | listen_addrs, AddrsReply _ | connected_peers, PeersReply _ => True
  | _, _ => False
  end.

Record loop_inv cs hist owner l : Prop := {
  li_nodup : NoDup (load l);
  li_pending id i : pending_rpc_requests l !! id = Some i → owner !! id = Some i ∧
    ∃ peer request, cs !! i = Some (rpc_request peer request) ∧
      swarm_requests (swarm l) !! id = Some (peer, request);
  li_owner id : is_Some (owner !! id) → is_Some (swarm_requests (swarm l) !! id);
  li_listen id i : listener_requests l !! id = Some i →
    id ∈ swarm_listeners (swarm l) ∧ ∃ a, cs !! i = Some (listen a);
  li_replies i r : replies (wires l) !! i = Some r →
    ∃ c, cs !! i = Some c ∧ justified hist owner (swarm_requests (swarm l)) i c r;
}.

(** A handler that takes over the senders [ids] neither loses nor doubles one,
    and no reply changes. *)
Definition accounts {A} (ids : list nat) (r : outcome NetworkError A) l l' : Prop :=
  replies (wires l) ⊆ replies (wires l') ∧
  if is_panic r then load l' ⊆+ ids ++ load l else load l' ≡ₚ ids ++ load l.

Lemma accounts_perm {A} ids ids' (r : outcome NetworkError A) l0 l l' :
  replies (wires l0) ⊆ replies (wires l) →
  ids' ++ load l0 ≡ₚ ids ++ load l → accounts ids r l l' → accounts ids' r l0 l'.
Proof.
  unfold accounts. intros Hr Hperm [Hr' Hacc]. split; [by etrans|].
  destruct (is_panic r); by rewrite Hperm.
Qed.

Lemma accounts_refl {A} (a : A) l l' :
  load l = load l' → replies (wires l) = replies (wires l') → accounts [] (Ok a) l l'.
Proof. unfold accounts. cbn. by intros -> ->. Qed.

Lemma justified_mono hist hist' owner owner' reqs reqs' i c r :
  hist ⊆ hist' → owner ⊆ owner' → reqs ⊆ reqs' →
  justified hist owner reqs i c r → justified hist' owner' reqs' i c r.
Proof.
  intros Hh Ho Hr. unfold justified.
  assert (∀ id, owner !! id = Some i → owner' !! id = Some i) by (intros; by eapply lookup_weaken).
  assert (∀ id x, reqs !! id = Some x → reqs' !! id = Some x) by (intros; by eapply lookup_weaken).
  destruct c, r as [|[]| | | |[]]; naive_solver.
Qed.

Lemma loop_inv_weaken cs cs' hist hist' owner owner' l sw :
  cs `prefix_of` cs' → hist ⊆ hist' → owner ⊆ owner' →
  (∀ id, is_Some (owner' !! id) → is_Some (swarm_requests sw !! id)) →
  swarm_requests (swarm l) ⊆ swarm_requests sw → swarm_listeners (swarm l) ⊆ swarm_listeners sw →
  loop_inv cs hist owner l → loop_inv cs' hist' owner' (set_swarm sw l).
Proof.
  intros Hcs Hh Ho Hdom Hreq Hlis [Hn Hp How Hl Hr].
  assert (∀ i c, cs !! i = Some c → cs' !! i = Some c) as Hc by (intros; by eapply prefix_lookup_Some).
  split; cbn; [exact Hn|..|exact Hdom| |].
  - intros id i (? & p & q & ? & ?)%Hp. split; [by eapply lookup_weaken|].
    exists p, q. split; [auto|by eapply lookup_weaken].
  - intros id i (? & a & ?)%Hl. split; [set_solver|eauto].
  - intros i r (c & ? & ?)%Hr. exists c. split; [auto|]. by eapply justified_mono.
Qed.

Lemma loop_inv_frame cs hist owner l sw :
  swarm_requests sw = swarm_requests (swarm l) → swarm_listeners sw = swarm_listeners (swarm l) →
  loop_inv cs hist owner l → loop_inv cs hist owner (set_swarm sw l).
Proof.
  intros Hr Hl Hinv. eapply loop_inv_weaken; [reflexivity..| | | |exact Hinv]; rewrite ?Hr, ?Hl; [|done..].
  apply Hinv.
Qed.

Lemma map_to_list_delete_snd {V} (m : gmap Z V) k v :
  m !! k = Some v → (map_to_list m).*2 ≡ₚ v :: (map_to_list (delete k m)).*2.
Proof. intros Hk. by rewrite <-(map_to_list_delete m k v Hk). Qed.
Lemma map_to_list_insert_snd {V} (m : gmap Z V) k v :
  m !! k = None → (map_to_list (<[k := v]> m)).*2 ≡ₚ v :: (map_to_list m).*2.
Proof. intros Hk. by rewrite map_to_list_insert. Qed.

Lemma answered_lookup l i : i ∉ load l → replies (wires l) !! i = None.
Proof.
  intros Hi. apply eq_None_not_Some. intros [r Hr]. apply Hi. apply elem_of_app. right.
  apply list_elem_of_fmap. exists (i, r). split; [done|]. by apply elem_of_map_to_list.
Qed.

(** Sending a reply. *)
Lemma send_oneshot_inv cs hist owner l i c r x l' :
  loop_inv cs hist owner l → i ∉ load l → cs !! i = Some c →
  justified hist owner (swarm_requests (swarm l)) i c r →
  send_oneshot i r l = (x, l') → loop_inv cs hist owner l' ∧ accounts [i] x l l'.
Proof.
  intros Hinv Hi Hc Hj. unfold send_oneshot, accounts. case_bool_decide; intros [= <- <-]; cbn.
  { split; [done|]. split; [done|]. by apply submseteq_cons. }
  assert (load (set_wires (mk_wires (<[i:=r]> (replies (wires l))) (dropped (wires l)) (events (wires l))
      (events_closed (wires l))) l) ≡ₚ i :: load l) as Hload.
  { unfold load, answered. cbn. rewrite map_to_list_insert by by apply answered_lookup.
    cbn. by rewrite Permutation_middle. }
  split; [|split; [by apply insert_subseteq, answered_lookup|exact Hload]].
  destruct Hinv as [Hn Hp Ho Hl Hr]. split; cbn; [|done..|].
  - rewrite Hload. by constructor.
  - intros j r' [[-> ->]|[? ?]]%lookup_insert_Some; eauto.
Qed.

Lemma send_event_inv cs hist owner l e x l' :
  loop_inv cs hist owner l → send_event e l = (x, l') →
  loop_inv cs hist owner l' ∧ accounts [] x l l'.
Proof.
  intros [Hn Hp Ho Hl Hr]. unfold send_event, accounts. destruct (events_closed _); intros [= <- <-]; cbn.
  - by split.
  - split; [|done]. by split.
Qed.

(** Taking a sender out of a map and using it. *)
Lemma reply_rpc_inv cs hist owner l id r x l' :
  loop_inv cs hist owner l →
  (∀ i peer request, owner !! id = Some i → swarm_requests (swarm l) !! id = Some (peer, request) →
    justified hist owner (swarm_requests (swarm l)) i (rpc_request peer request) (RpcReply r)) →
  reply_rpc id r l = (x, l') → loop_inv cs hist owner l' ∧ accounts [] x l l'.
Proof.
  intros Hinv Hj. unfold reply_rpc. destruct (pending_rpc_requests l !! id) as [i|] eqn:Hid; last first.
  { intros [= <- <-]. split; [done|]. by apply accounts_refl. }
  assert (load l ≡ₚ i :: load (set_pending (delete id (pending_rpc_requests l)) l)) as Hload.
  { unfold load, held_loop. cbn. by rewrite (map_to_list_delete_snd _ _ _ Hid). }
  destruct Hinv as [Hn Hp Ho Hl Hr]. rewrite Hload in Hn. apply NoDup_cons in Hn as [Hni Hn].
  destruct (Hp _ _ Hid) as (Hown & p & q & Hc & Hreq). intros Hs.
  eapply send_oneshot_inv in Hs as [Hinv' Hacc]; [split; [exact Hinv'|]|split|exact Hni|exact Hc|..]; cbn.
  - refine (accounts_perm [i] [] _ _ _ _ _ Hload Hacc); done.
  - done.
  - intros id' j [? ?]%lookup_delete_Some. by apply Hp.
  - done.
  - done.
  - done.
  - by apply Hj.
Qed.

Lemma reply_listen_inv cs hist owner l id a x l' :
  loop_inv cs hist owner l → LoopSwarm (NewListenAddr a id) ∈ hist →
  reply_listen id a l = (x, l') → loop_inv cs hist owner l' ∧ accounts [] x l l'.
Proof.
  intros Hinv Hh. unfold reply_listen. destruct (listener_requests l !! id) as [i|] eqn:Hid; last first.
  { intros [= <- <-]. split; [done|]. by apply accounts_refl. }
  assert (load l ≡ₚ i :: load (set_listeners (delete id (listener_requests l)) l)) as Hload.
  { unfold load, held_loop. cbn. rewrite (map_to_list_delete_snd _ _ _ Hid). by rewrite <-Permutation_middle. }
  destruct Hinv as [Hn Hp Ho Hl Hr]. rewrite Hload in Hn. apply NoDup_cons in Hn as [Hni Hn].
  destruct (Hl _ _ Hid) as (Hown & b & Hc). intros Hs.
  eapply send_oneshot_inv in Hs as [Hinv' Hacc]; [split; [exact Hinv'|]|split|exact Hni|exact Hc|..]; cbn.
  - refine (accounts_perm [i] [] _ _ _ _ _ Hload Hacc); done.
  - done.
  - done.
  - done.
  - intros id' j [? ?]%lookup_delete_Some. by apply Hl.
  - done.
  - by exists id.
Qed.

Lemma swarm_requests_add_addresses peer addrs (sw : SW) :
  let sw' := foldl (λ sw addr, kad_add_address peer addr sw) sw addrs in
  swarm_requests sw' = swarm_requests sw ∧ swarm_listeners sw' = swarm_listeners sw.
Proof.
  revert sw. induction addrs as [|a addrs IH]; intros sw; cbn; [done|].
  destruct (IH (kad_add_address peer a sw)) as [-> ->]. apply add_address_frame.
Qed.

Lemma handle_swarm_event_inv cs hist owner l e x l' :
  loop_inv cs hist owner l → LoopSwarm e ∈ hist →
  handle_swarm_event e l = (x, l') → loop_inv cs hist owner l' ∧ accounts [] x l l'.
Proof.
  intros Hinv Hh. assert (loop_inv cs hist owner l ∧ accounts [] (Ok tt : outcome NetworkError unit) l l)
    as Hskip by (split; [done|by apply accounts_refl]).
  destruct e as [a id|p n|p q ch|id resp|id err| | |t d|p addrs protos|]; cbn.
  - unfold st_bind. destruct (reply_listen id a l) as [y l1] eqn:Hy.
    destruct (reply_listen_inv _ _ _ _ _ _ _ _ Hinv Hh Hy) as [Hinv1 Hacc1].
    destruct y; [|by intros [= <- <-]..]. intros Hs.
    destruct (send_event_inv _ _ _ _ _ _ _ Hinv1 Hs) as [? Hacc2]. split; [done|].
    exact (accounts_perm [] [] _ _ _ _ (proj1 Hacc1) (Permutation_sym (proj2 Hacc1)) Hacc2).
  - case_match; [by apply send_event_inv|by intros [= <- <-]].
  - by apply send_event_inv.
  - apply reply_rpc_inv; [done|]. intros i peer request Ho Hr. by exists id.
  - apply reply_rpc_inv; [done|]. intros i peer request Ho Hr. by exists id, err.
  - by intros [= <- <-].
  - by intros [= <- <-].
  - by apply send_event_inv.
  - unfold handle_identify. case_match; [|by intros [= <- <-]]. unfold upd_swarm. intros [= <- <-]. split; [|by apply accounts_refl].
    apply loop_inv_frame; [apply swarm_requests_add_addresses..|done].
  - by intros [= <- <-].
Qed.

Lemma on_swarm_inv {A} (f : stateful SW string A) l x l' :
  on_swarm f l = (x, l') → ∃ r sw, f (swarm l) = (r, sw) ∧ l' = set_swarm sw l ∧
    if is_panic r then is_panic x = true else x = Ok r.
Proof.
  unfold on_swarm. destruct (f (swarm l)) as [r sw]. intros Hx. exists r, sw. split; [done|].
  destruct r; naive_solver.
Qed.

Definition sender_list (c : Command REQ RESP) : list nat := from_option (λ i, [i]) [] (command_sender c).

(** A call of the swarm whose result is the reply. *)
Lemma swarm_reply_inv {A} (f : stateful SW string A) (mk : outcome string A → Reply RESP) cs hist owner l i c x l' :
  (∀ s y s', f s = (y, s') → swarm_requests s' = swarm_requests s ∧ swarm_listeners s' = swarm_listeners s) →
  (∀ y, is_panic y = false → justified hist owner (swarm_requests (swarm l)) i c (mk y)) →
  loop_inv cs hist owner l → i ∉ load l → cs !! i = Some c →
  (r <-- on_swarm f;; send_oneshot i (mk r)) l = (x, l') →
  loop_inv cs hist owner l' ∧ accounts [i] x l l'.
Proof.
  intros Hframe Hj Hinv Hi Hc. unfold st_bind.
  destruct (on_swarm f l) as [y l1] eqn:Hy. apply on_swarm_inv in Hy as (r & sw & Hf & -> & Hr).
  destruct (Hframe _ _ _ Hf) as [Hq Hl].
  assert (loop_inv cs hist owner (set_swarm sw l)) as Hinv1 by by apply loop_inv_frame.
  destruct (is_panic r) eqn:Hp.
  - destruct y; [done..|]. intros [= <- <-]. split; [done|]. split; [done|]. by apply submseteq_cons.
  - rewrite Hr. intros Hs. eapply send_oneshot_inv in Hs as [? Hacc]; [split; [done|]|done|..|done|].
    + refine (accounts_perm [i] [i] _ _ _ _ _ (Permutation_refl _) Hacc); done.
    + exact Hi.
    + cbn. rewrite Hq. by apply Hj.
Qed.

Lemma rpc_command_inv cs hist owner l i peer request x l' :
  loop_inv cs hist owner l → i ∉ load l → cs !! i = Some (rpc_request peer request) →
  handle_command (CmdRpcRequest peer request i) l = (x, l') →
  ∃ owner', owner ⊆ owner' ∧ loop_inv cs hist owner' l' ∧ accounts [i] x l l'.
Proof.
  intros Hinv Hi Hc. cbn. destruct (send_request peer request (swarm l)) as [id sw] eqn:Hs.
  intros [= <- <-]. apply send_request_fresh in Hs as (Hfresh & Hreq & Hlis).
  assert (owner !! id = None) as Hown.
  { apply eq_None_not_Some. intros [? Hsome]%(li_owner _ _ _ _ Hinv). congruence. }
  assert (pending_rpc_requests l !! id = None) as Hpen.
  { apply eq_None_not_Some. intros [j (_ & p & q & _ & ?)%(li_pending _ _ _ _ Hinv)]. congruence. }
  assert (load (set_pending (<[id:=i]> (pending_rpc_requests l)) (set_swarm sw l)) ≡ₚ i :: load l) as Hload.
  { unfold load, held_loop. cbn. by rewrite map_to_list_insert_snd. }
  exists (<[id := i]> owner). split; [by apply insert_subseteq|]. split; [|by split; [|exact Hload]].
  assert (loop_inv cs hist (<[id := i]> owner) (set_swarm sw l)) as [Hn Hp Ho Hl Hr].
  { eapply loop_inv_weaken; [done|done|by apply insert_subseteq| | | |exact Hinv].
    - rewrite Hreq. intros id' [j [[-> _]|[? ?]]%lookup_insert_Some]; [by rewrite lookup_insert_eq|].
      rewrite lookup_insert_ne by done. apply (li_owner _ _ _ _ Hinv). by exists j.
    - rewrite Hreq. by apply insert_subseteq.
    - by rewrite Hlis. }
  split; cbn in *; [|..|done|done|done].
  - rewrite Hload. constructor; [done|apply Hinv].
  - intros id' j [[<- <-]|[? ?]]%lookup_insert_Some; [|by apply Hp].
    rewrite lookup_insert_eq. split; [done|]. exists peer, request. rewrite Hreq. by rewrite lookup_insert_eq.
Qed.

Lemma listen_command_inv cs hist owner l i a x l' :
  loop_inv cs hist owner l → i ∉ load l → cs !! i = Some (listen a) →
  handle_command (Listen a i) l = (x, l') → loop_inv cs hist owner l' ∧ accounts [i] x l l'.
Proof.
  intros Hinv Hi Hc. cbn [handle_command]. unfold st_bind.
  destruct (on_swarm _ l) as [y l1] eqn:Hy. apply on_swarm_inv in Hy as (r & sw & Hf & -> & Hr).
  apply listen_on_fresh in Hf as (Hreq & Hp & Hfresh). rewrite Hp in Hr. subst y.
  destruct r as [id|err|]; [|intros Hs|done].
  - intros [= <- <-]. destruct Hfresh as [Hnew Hlis].
    assert (listener_requests l !! id = None) as Hpen.
    { apply eq_None_not_Some. intros [j [? _]%(li_listen _ _ _ _ Hinv)]. done. }
    assert (load (set_listeners (<[id:=i]> (listener_requests l)) (set_swarm sw l)) ≡ₚ i :: load l) as Hload.
    { unfold load, held_loop. cbn. rewrite map_to_list_insert_snd by done. by rewrite <-Permutation_middle. }
    split; [|by split; [|exact Hload]].
    assert (loop_inv cs hist owner (set_swarm sw l)) as [Hn Hp' Ho Hl Hr].
    { eapply loop_inv_weaken; [done..| | | |exact Hinv]; rewrite ?Hreq, ?Hlis; [apply Hinv|done|set_solver]. }
    split; cbn in *; [|done|done| |done].
    + rewrite Hload. constructor; [done|apply Hinv].
    + intros id' j [[<- <-]|[? ?]]%lookup_insert_Some; [|by apply Hl]. rewrite Hlis. split; [set_solver|eauto].
  - eapply send_oneshot_inv in Hs as [? Hacc]; [split; [done|]| |exact Hi|exact Hc|by exists err].
    + refine (accounts_perm [i] [i] _ _ _ _ _ (Permutation_refl _) Hacc); done.
    + by apply loop_inv_frame.
Qed.

Lemma handle_command_inv cs hist owner l cmd x l' :
  loop_inv cs hist owner l →
  (∀ i, command_sender cmd = Some i → i ∉ load l ∧ ∃ c, cs !! i = Some c ∧ cmd = call_command c i) →
  handle_command cmd l = (x, l') →
  ∃ owner', owner ⊆ owner' ∧ loop_inv cs hist owner' l' ∧ accounts (sender_list cmd) x l l'.
Proof.
  intros Hinv Hcmd. unfold sender_list. destruct (command_sender cmd) as [i|] eqn:Hi; cbn [from_option].
  - destruct (Hcmd i eq_refl) as (Hnew & c & Hc & ->).
    destruct c; cbn [call_command]; [by apply rpc_command_inv|..]; intros Hs; exists owner; (split; [done|]).
    + cbn in Hs. eapply swarm_reply_inv in Hs; [exact Hs|..|done|done|exact Hc]; [apply subscribe_frame|done].
    + cbn in Hs. eapply swarm_reply_inv in Hs; [exact Hs|..|done|done|exact Hc]; [apply publish_frame|done].
    + by eapply send_oneshot_inv in Hs.
    + by eapply listen_command_inv in Hs.
    + by eapply send_oneshot_inv in Hs.
    + by eapply send_oneshot_inv in Hs.
  - destruct cmd; try done. cbn [handle_command]. unfold st_bind, st_ret. exists owner. split; [done|].
    destruct (on_swarm _ l) as [y l1] eqn:Hy. apply on_swarm_inv in Hy as (r & sw & Hf & -> & Hr).
    apply send_response_frame in Hf as [? ?].
    assert (loop_inv cs hist owner (set_swarm sw l)) by by apply loop_inv_frame.
    destruct y; simplify_eq/=; (split; [done|]); unfold accounts; cbn; done.
Qed.

(** [bootstrap] only talks to the swarm. *)
Definition swarm_only {A} (m : stateful loop NetworkError A) : Prop := ∀ l x l', m l = (x, l') →
  ∃ sw, l' = set_swarm sw l ∧ swarm_requests sw = swarm_requests (swarm l) ∧
    swarm_listeners sw = swarm_listeners (swarm l).

Lemma swarm_only_bind {A B} (m : stateful loop NetworkError A) (k : A → stateful loop NetworkError B) :
  swarm_only m → (∀ a, swarm_only (k a)) → swarm_only (st_bind m k).
Proof.
  intros Hm Hk l x l'. unfold st_bind. destruct (m l) as [[a| |] l1] eqn:E.
  - intros (sw' & -> & Hr' & Hl')%Hk. apply Hm in E as (sw & -> & Hr & Hl).
    exists sw'. split; [done|]. cbn in *. by rewrite Hr', Hl'.
  - intros [= <- <-]. by eapply Hm.
  - intros [= <- <-]. by eapply Hm.
Qed.

Lemma swarm_only_lift {A} (r : outcome NetworkError A) : swarm_only (st_lift r).
Proof. intros [sw0 ???] x l' [= <- <-]. by exists sw0. Qed.

Lemma swarm_only_upd f :
  (∀ sw, swarm_requests (f sw) = swarm_requests sw ∧ swarm_listeners (f sw) = swarm_listeners sw) →
  swarm_only (upd_swarm f).
Proof. intros Hf l x l' [= <- <-]. destruct (Hf (swarm l)). by exists (f (swarm l)). Qed.

Lemma swarm_only_try {A} from (f : stateful SW string A) :
  (∀ s y s', f s = (y, s') → swarm_requests s' = swarm_requests s ∧ swarm_listeners s' = swarm_listeners s) →
  swarm_only (try_swarm from f).
Proof.
  intros Hf. apply swarm_only_bind; [|intros; apply swarm_only_lift].
  intros l x l' (r & sw & E & -> & _)%on_swarm_inv. apply Hf in E as [? ?]. by exists sw.
Qed.

Lemma bootstrap_swarm_only peers : swarm_only (bootstrap peers).
Proof.
  apply swarm_only_bind; [|intros _; apply swarm_only_bind; [|intros _; apply swarm_only_bind; [|intros _]]].
  - induction peers as [|a peers IH]; [apply (swarm_only_lift (Ok tt))|]. cbn.
    destruct (last a) as [[h|]|]; [|apply swarm_only_lift..].
    apply swarm_only_bind; [apply swarm_only_lift|intros id].
    apply swarm_only_bind; [|intros _; exact IH]. apply swarm_only_upd. intros. apply add_address_frame.
  - case_bool_decide; [apply (swarm_only_lift (Ok tt))|]. apply swarm_only_try. apply kad_bootstrap_frame.
  - apply swarm_only_try. apply start_providing_frame.
  - apply swarm_only_upd. intros. apply get_providers_frame.
Qed.
End Accounts.

(** * Invariants of a run *)

Section NetInvariant.
Context {SW REQ RESP : Type} `{!Swarm SW REQ RESP, !SwarmLaws SW REQ RESP}.
Context (bootstrap_peers : list Multiaddr).
Local Abbreviation net := (Net SW REQ RESP).
Implicit Types (s : net) (hist : list (NetInput REQ RESP)) (owner : gmap RequestId nat) (lost : list nat).

Definition queued s : list nat := omap command_sender (command_queue s).

(** [lost] are the calls whose sender was dropped without a reply. *)
Record net_inv hist owner lost s : Prop := {
  ni_loop : loop_inv (calls s) hist owner (net_loop s);
  ni_queue cmd i : cmd ∈ command_queue s → command_sender cmd = Some i →
    ∃ c, calls s !! i = Some c ∧ cmd = call_command c i;
  ni_places : queued s ++ load (net_loop s) ++ refused s ++ lost ≡ₚ seq 0 (length (calls s));
  ni_running : net_phase s ≠ Ended → refused s = [] ∧ lost = [];
  ni_ended : net_phase s = Ended → command_queue s = [] ∧
    pending_rpc_requests (net_loop s) = ∅ ∧ listener_requests (net_loop s) = ∅;
}.

Lemma net_inv_start sw : net_inv [] ∅ [] (net_start sw).
Proof.
  split; cbn; [|by intros ?? ?%elem_of_nil|done|done|done].
  split; cbn; [constructor|..]; intros ? *; by rewrite ?lookup_empty; try (intros [? [=]]).
Qed.

(** Ending the loop turns what was held into [lost]. *)
Lemma net_inv_end hist owner s (ids : list nat) :
  loop_inv (calls s) hist owner (net_loop s) → refused s = [] →
  ids ++ load (net_loop s) ⊆+ seq 0 (length (calls s)) →
  ∃ lost, net_inv hist owner lost (end_loop s).
Proof.
  intros [Hn Hp Ho Hl Hr] Href Hsub.
  assert (answered (net_loop s) ⊆+ seq 0 (length (calls s))) as [lost Hlost]%submseteq_Permutation.
  { etrans; [|exact Hsub]. unfold load. etrans; [|apply submseteq_inserts_l; reflexivity].
    apply submseteq_inserts_l. reflexivity. }
  exists lost. split; cbn; [|by intros ?? ?%elem_of_nil| |done|done].
  - split; cbn; try done; [|intros ??; by rewrite lookup_empty..].
    unfold load in Hn. by apply NoDup_app in Hn as (_ & _ & ?).
  - rewrite Href, Hlost. reflexivity.
Qed.

(** After a handler that took over the senders [ids]. *)
Lemma net_inv_after hist owner s (ids : list nat) r :
  net_phase s = Running → refused s = [] →
  loop_inv (calls s) hist owner r.2 → accounts ids r.1 (net_loop s) r.2 →
  (∀ cmd i, cmd ∈ command_queue s → command_sender cmd = Some i →
    ∃ c, calls s !! i = Some c ∧ cmd = call_command c i) →
  queued s ++ ids ++ load (net_loop s) ≡ₚ seq 0 (length (calls s)) →
  ∃ lost, net_inv hist owner lost (after_handler r s).
Proof.
  intros Hph Href Hloop [_ Hacc] Hq Hplaces. unfold after_handler. destruct (is_panic r.1).
  - apply (net_inv_end _ _ _ (queued s)); [done|done|]. cbn.
    rewrite <-Hplaces. by apply submseteq_app.
  - exists []. split; cbn; [done|done| |done|by rewrite Hph].
    unfold queued in *. cbn. by rewrite Href, !app_nil_r, Hacc, <-Hplaces.
Qed.

Lemma loop_inv_hist cs hist owner (l : NetworkEventLoop SW REQ RESP) e :
  loop_inv cs hist owner l → loop_inv cs (hist ++ [e]) owner l.
Proof.
  intros Hinv. destruct l as [sw m1 m2 w].
  apply (loop_inv_weaken cs cs hist (hist ++ [e]) owner owner (mk_event_loop sw m1 m2 w) sw);
    [done|set_solver|done|apply Hinv|done|done|exact Hinv].
Qed.

Lemma net_inv_hist hist owner lost s e : net_inv hist owner lost s → net_inv (hist ++ [e]) owner lost s.
Proof. intros []. split; [by apply loop_inv_hist|done..]. Qed.

Lemma net_inv_step hist owner lost s e :
  net_inv hist owner lost s →
  ∃ owner' lost', owner ⊆ owner' ∧ net_inv (hist ++ [e]) owner' lost' (net_step bootstrap_peers e s).
Proof.
  intros Hinv0. pose proof (net_inv_hist _ _ _ _ e Hinv0) as Hinv.
  assert (∃ owner' lost', owner ⊆ owner' ∧ net_inv (hist ++ [e]) owner' lost' s) as Hskip by eauto.
  destruct Hinv as [Hloop Hq Hplaces Hrun Hend]. unfold net_step.
  destruct (net_phase s) eqn:Hph; [| |done].
  - (* Spawned *)
    destruct (Hrun ltac:(done)) as [Href ->]. rewrite Href, !app_nil_r in Hplaces.
    destruct e; try done. destruct (bootstrap _ _) as [r l] eqn:Hb.
    apply bootstrap_swarm_only in Hb as (sw & -> & Hr & Hl).
    assert (loop_inv (calls s) (hist ++ [LoopStart]) owner (set_swarm sw (net_loop s))) as Hloop'
      by by apply loop_inv_frame.
    exists owner. destruct (is_ok r).
    + exists []. split; [done|]. split; cbn; [done|done| |done|done]. by rewrite Href, app_nil_r.
    + edestruct (net_inv_end (hist ++ [LoopStart]) owner
        (mk_net (set_swarm sw (net_loop s)) Running (command_queue s) (calls s) (refused s) (shutdown_sent s)) (queued s))
        as [lost' ?]; [done|done| |by exists lost'].
      cbn. rewrite <-Hplaces. done.
  - (* Running *)
    destruct (Hrun ltac:(done)) as [Href ->]. rewrite Href, !app_nil_r in Hplaces.
    destruct e as [| | | | | |ev| | |]; try done.
    + destruct (handle_swarm_event _ _) as [x l'] eqn:Hx.
      destruct (polled_frame ev (swarm (net_loop s))) as [Hr Hl].
      eapply handle_swarm_event_inv in Hx as [Hloop' Hacc]; [|by apply loop_inv_frame|set_solver].
      destruct (net_inv_after (hist ++ [LoopSwarm ev]) owner s [] (x, l')) as [lost' ?]; eauto 10.
    + destruct (command_queue s) as [|cmd rest] eqn:Hcq; [done|].
      assert (sender_list cmd ++ omap command_sender rest ++ load (net_loop s) ≡ₚ seq 0 (length (calls s))) as Hpl.
      { rewrite <-Hplaces. unfold queued, sender_list. rewrite Hcq. cbn. by destruct (command_sender cmd). }
      destruct (handle_command _ _) as [x l'] eqn:Hx.
      eapply handle_command_inv in Hx as (owner' & Ho & Hloop' & Hacc); [|done|].
      * destruct (net_inv_after (hist ++ [LoopCommand]) owner' (set_command_queue rest s) (sender_list cmd) (x, l'))
          as [lost' ?]; cbn; try done; [|..|by exists owner', lost'].
        -- intros c i Hc. apply Hq. by apply list_elem_of_further.
        -- unfold queued. cbn. rewrite <-Hpl. by rewrite Permutation_app_swap_app.
      * intros i Hi. destruct (Hq cmd i) as (c & Hc & ->); [apply list_elem_of_here|done|].
        split; [|eauto]. unfold sender_list in Hpl. rewrite Hi in Hpl. cbn in Hpl.
        pose proof (NoDup_seq 0 (length (calls s))) as Hnd. rewrite <-Hpl in Hnd.
        apply NoDup_cons in Hnd as [Hnot _]. intros Hin. apply Hnot. apply elem_of_app. by right.
    + destruct (bootstrap _ _) as [r l] eqn:Hb. apply bootstrap_swarm_only in Hb as (sw & -> & Hr & Hl).
      destruct (net_inv_after (hist ++ [LoopTick]) owner s [] (r, set_swarm sw (net_loop s))) as [lost' ?];
        cbn; eauto 10; [by apply loop_inv_frame|]. split; [done|]. by destruct (is_panic r).
    + destruct (shutdown_sent s); [|done].
      destruct (net_inv_end (hist ++ [LoopShutdown]) owner s (queued s)) as [lost' ?]; [done|done| |eauto].
      by rewrite <-Hplaces.
Qed.

Lemma loop_inv_wires cs hist owner (l : NetworkEventLoop SW REQ RESP) w :
  replies w = replies (wires l) → loop_inv cs hist owner l → loop_inv cs hist owner (set_wires w l).
Proof.
  intros Hw [Hn Hp Ho Hl Hr]. split; cbn; [|done..|].
  - unfold load, answered in *. cbn. by rewrite Hw.
  - by rewrite Hw.
Qed.

Lemma net_inv_wires hist owner lost s w :
  replies w = replies (wires (net_loop s)) → net_inv hist owner lost s → net_inv hist owner lost (set_net_wires w s).
Proof.
  intros Hw [Hloop Hq Hplaces Hrun Hend]. split; cbn; [by apply loop_inv_wires|done| |done|done].
  unfold queued, load, answered in *. cbn. by rewrite Hw.
Qed.

Lemma loop_inv_calls cs hist owner (l : NetworkEventLoop SW REQ RESP) c :
  loop_inv cs hist owner l → loop_inv (cs ++ [c]) hist owner l.
Proof.
  intros Hinv. destruct l as [sw m1 m2 w].
  apply (loop_inv_weaken cs (cs ++ [c]) hist hist owner owner (mk_event_loop sw m1 m2 w) sw);
    [by apply prefix_app_r|done|done|apply Hinv|done|done|exact Hinv].
Qed.

Lemma net_inv_call hist owner lost s c :
  net_inv hist owner lost s → net_inv hist owner lost (client_call c s).
Proof.
  intros [Hloop Hq Hplaces Hrun Hend]. unfold client_call.
  assert (∀ cmd i, cmd ∈ command_queue s → command_sender cmd = Some i →
    ∃ c', (calls s ++ [c]) !! i = Some c' ∧ cmd = call_command c' i) as Hq'.
  { intros cmd i Hin Hi. destruct (Hq cmd i Hin Hi) as (c' & Hc & ->). exists c'.
    split; [by apply lookup_app_l_Some|done]. }
  case_decide as Hph; (split; cbn; [by apply loop_inv_calls|..]); rewrite ?length_app, ?seq_app; cbn.
  - exact Hq'.
  - rewrite <-Hplaces. unfold queued. cbn. solve_Permutation.
  - done.
  - intros _. by apply Hend.
  - intros cmd i [Hin| ->%list_elem_of_singleton]%elem_of_app; [by apply Hq'|].
    intros Hi. exists c. assert (i = length (calls s)) as -> by by destruct c; simplify_eq/=.
    split; [|done]. by rewrite lookup_app_r, Nat.sub_diag by lia.
  - rewrite <-Hplaces. unfold queued. cbn. rewrite omap_app.
    assert (omap (command_sender (RESP:=RESP)) [call_command c (length (calls s))] = [length (calls s)]) as ->
      by by destruct c. solve_Permutation.
  - intros _. by apply Hrun.
  - done.
Qed.

Lemma net_inv_exec hist owner lost s e :
  net_inv hist owner lost s →
  ∃ owner' lost', owner ⊆ owner' ∧ net_inv (hist ++ [e]) owner' lost' (net_exec bootstrap_peers s e).
Proof.
  intros Hinv. unfold net_exec. destruct e; try by eapply net_inv_step.
  all: exists owner, lost; (split; [done|]); apply net_inv_hist.
  - by apply net_inv_call.
  - unfold client_rpc_response. case_decide; [done|]. destruct Hinv as [Hloop Hq Hplaces Hrun Hend].
    split; cbn; [done| |..|done|done].
    + intros cmd i [Hin| ->%list_elem_of_singleton]%elem_of_app; [by apply Hq|done].
    + unfold queued in *. cbn. by rewrite omap_app, app_nil_r.
  - case_bool_decide; [|done]. by apply net_inv_wires.
  - by apply net_inv_wires.
  - destruct Hinv. by split.
Qed.

Lemma net_run_inv inputs sw : ∃ owner lost, net_inv inputs owner lost (net_run bootstrap_peers inputs sw).
Proof.
  induction inputs as [|e inputs IH] using rev_ind.
  - exists ∅, []. apply net_inv_start.
  - destruct IH as (owner & lost & Hinv). unfold net_run in *. rewrite foldl_app. cbn.
    destruct (net_inv_exec _ _ _ _ e Hinv) as (owner' & lost' & _ & ?). by exists owner', lost'.
Qed.
End NetInvariant.

(** * What a call is answered *)

Section Expected.
Context {SW REQ RESP : Type} `{!Swarm SW REQ RESP}.
Context (bootstrap_peers : list Multiaddr).
Local Abbreviation net := (Net SW REQ RESP).
Local Abbreviation input := (NetInput REQ RESP).
Implicit Types (s : net) (e : input) (after : list input) (sw : SW).

(** The call whose command the loop takes from its queue with this input. *)
Definition handles s e : option nat :=
  match net_phase s, e, command_queue s with
  | Running, LoopCommand, command :: _ => command_sender command
  | _, _, _ => None
  end.

(** When the loop takes up the [i]-th call: the swarm as it is then, and the
    inputs that come after. *)
Fixpoint taken_up (i : nat) s (inputs : list input) : option (SW * list input) :=
  match inputs with
  | [] => None
  | e :: after =>
      if bool_decide (handles s e = Some i) then Some (swarm (net_loop s), after)
      else taken_up i (net_exec bootstrap_peers s e) after
  end.

(** What the swarm reports on a request, and on a listener. *)
Definition rpc_answer (id : RequestId) e : option (outcome ClientError RESP) :=
  match e with
  | LoopSwarm (ResponseMessage id' response) => if id' =? id then Some (Ok response) else None
  | LoopSwarm (OutboundFailureEvent id' error) => if id' =? id then Some (Err (OutboundFailure error)) else None
  | _ => None
  end.
Definition listen_answer (id : ListenerId) e : option Multiaddr :=
  match e with
  | LoopSwarm (NewListenAddr address id') => if id' =? id then Some address else None
  | _ => None
  end.
Definition first_of {A} (f : input → option A) after : option A := head (omap f after).

(** What a method returns when the loop takes it up with the swarm [sw] and
    the inputs [after] follow, [None] while the swarm has not answered. *)
Definition expected_result (c : ClientCall REQ) sw after : option (outcome ClientError (ClientValue RESP)) :=
  match c with
  | rpc_request peer request =>
      fmap (M := outcome ClientError) VResponse <$> first_of (rpc_answer (send_request peer request sw).1) after
  | subscribe_gossip topic =>
      Some (fmap (M := outcome ClientError) VSubscribed (map_err GossipSubscription (gossipsub_subscribe topic sw).1))
  | publish_gossip topic msg =>
      Some (fmap (M := outcome ClientError) VMessageId (map_err GossipPublish (gossipsub_publish topic msg sw).1))
  | peer_list => Some (Ok (VPeers (gossipsub_all_peers sw)))
  | listen address =>
      match (listen_on address sw).1 with
      | Ok id => (λ a, Ok (VAddress a)) <$> first_of (listen_answer id) after
      | Err error => Some (Err (TransportFailure error))
      | Panic p => None
      end
  | listen_addrs => Some (Ok (VAddresses ((λ a, a ++ [P2p (local_peer_id sw)]) <$> listeners sw)))
  | connected_peers => Some (Ok (VPeers (swarm_connected_peers sw)))
  end.

(** The reply the method's channel then carries. *)
Definition expected_reply (c : ClientCall REQ) sw after : option (Reply RESP) :=
  match c with
  | rpc_request peer request => RpcReply <$> first_of (rpc_answer (send_request peer request sw).1) after
  | subscribe_gossip topic => Some (SubscribeReply (gossipsub_subscribe topic sw).1)
  | publish_gossip topic msg => Some (PublishReply (gossipsub_publish topic msg sw).1)
  | peer_list => Some (PeersReply (gossipsub_all_peers sw))
  | listen address =>
      match (listen_on address sw).1 with
      | Ok id => (λ a, ListenReply (Ok a)) <$> first_of (listen_answer id) after
      | Err error => Some (ListenReply (Err (TransportFailure error)))
      | Panic p => None
      end
  | listen_addrs => Some (AddrsReply ((λ a, a ++ [P2p (local_peer_id sw)]) <$> listeners sw))
  | connected_peers => Some (PeersReply (swarm_connected_peers sw))
  end.

(** The same for the [i]-th call of a run, [None] too while its command waits
    in the queue. *)
Definition expected_outcome s (inputs : list input) (i : nat) (c : ClientCall REQ) :=
  match taken_up i s inputs with
  | Some (sw, after) => expected_result c sw after
  | None => None
  end.

Lemma expected_result_reply c sw after :
  expected_result c sw after = (λ r, call_result c (Ok r)) <$> expected_reply c sw after.
Proof.
  destruct c; cbn; try done; [by destruct (first_of _ _)|].
  destruct (listen_on _ _) as [[] ?]; cbn; try done. by destruct (first_of _ _).
Qed.

Lemma first_of_app {A} (f : input → option A) after e :
  first_of f (after ++ [e]) = match first_of f after with Some a => Some a | None => f e end.
Proof.
  unfold first_of. rewrite omap_app. cbn. destruct (omap f after); cbn; [|done]. by destruct (f e).
Qed.

Lemma expected_reply_app c sw after e r :
  expected_reply c sw after = Some r → expected_reply c sw (after ++ [e]) = Some r.
Proof.
  destruct c; cbn; try done; [|destruct (listen_on _ _) as [[] ?]; cbn; try done];
    rewrite first_of_app; by destruct (first_of _ _).
Qed.

Lemma taken_up_app i s inputs e :
  taken_up i s (inputs ++ [e]) =
  match taken_up i s inputs with
  | Some (sw, after) => Some (sw, after ++ [e])
  | None =>
      let s' := foldl (net_exec bootstrap_peers) s inputs in
      if bool_decide (handles s' e = Some i) then Some (swarm (net_loop s'), []) else None
  end.
Proof. revert s. induction inputs as [|e' inputs IH]; intros s; cbn; [done|]. by case_bool_decide. Qed.
End Expected.

Section Answers.
Context {SW REQ RESP : Type} `{!Swarm SW REQ RESP}.
Local Abbreviation loop := (NetworkEventLoop SW REQ RESP).
Local Abbreviation input := (NetInput REQ RESP).
Implicit Types (l : loop) (cs : list (ClientCall REQ)) (e : input) (story : nat → option (SW * list input)).

(** The calls the loop has taken up, by [story]: those it holds are not
    answered yet, and a reply is the one expected. *)
Record answers cs story l : Prop := {
  an_pending id i : pending_rpc_requests l !! id = Some i → ∃ peer request sw after,
    cs !! i = Some (rpc_request peer request) ∧ story i = Some (sw, after) ∧
    (send_request peer request sw).1 = id ∧ first_of (rpc_answer id) after = None;
  an_listen id i : listener_requests l !! id = Some i → ∃ a sw after,
    cs !! i = Some (listen a) ∧ story i = Some (sw, after) ∧
    (listen_on a sw).1 = Ok id ∧ first_of (listen_answer id) after = None;
  an_replies i r : replies (wires l) !! i = Some r → ∃ c sw after,
    cs !! i = Some c ∧ story i = Some (sw, after) ∧ expected_reply c sw after = Some r;
}.

(** What the loop may do with an input that is no command: a sender leaves its
    map when its answer comes, and then sends this answer. *)
Record moves e l l' : Prop := {
  mv_pending id i : pending_rpc_requests l' !! id = Some i →
    pending_rpc_requests l !! id = Some i ∧ rpc_answer id e = None;
  mv_listen id i : listener_requests l' !! id = Some i →
    listener_requests l !! id = Some i ∧ listen_answer id e = None;
  mv_replies i r : replies (wires l') !! i = Some r → replies (wires l) !! i = Some r ∨
    (∃ id a, pending_rpc_requests l !! id = Some i ∧ rpc_answer id e = Some a ∧ r = RpcReply a) ∨
    (∃ id a, listener_requests l !! id = Some i ∧ listen_answer id e = Some a ∧ r = ListenReply (Ok a));
}.

Definition longer e story : nat → option (SW * list input) := λ i, prod_map id (λ after, after ++ [e]) <$> story i.

Lemma answers_moves cs story e l l' : answers cs story l → moves e l l' → answers cs (longer e story) l'.
Proof.
  intros [Hp Hl Hr] [Mp Ml Mr]. unfold longer. split.
  - intros id i [(peer & request & sw & after & ? & Hs & ? & Hf)%Hp He]%Mp.
    exists peer, request, sw, (after ++ [e]). rewrite Hs, first_of_app, Hf. done.
  - intros id i [(a & sw & after & ? & Hs & ? & Hf)%Hl He]%Ml.
    exists a, sw, (after ++ [e]). rewrite Hs, first_of_app, Hf. done.
  - intros i r [(c & sw & after & ? & Hs & He)%Hr|[(id & a & (peer & request & sw & after & ? & Hs & <- & Hf)%Hp & He & ->)
      |(id & a & (b & sw & after & ? & Hs & Hid & Hf)%Hl & He & ->)]]%Mr.
    + exists c, sw, (after ++ [e]). rewrite Hs. split; [done|]. split; [done|]. by apply expected_reply_app.
    + exists (rpc_request peer request), sw, (after ++ [e]). rewrite Hs. cbn. by rewrite first_of_app, Hf, He.
    + exists (listen b), sw, (after ++ [e]). rewrite Hs. cbn. by rewrite Hid, first_of_app, Hf, He.
Qed.

Lemma moves_idle e l l' :
  (∀ id, rpc_answer id e = None) → (∀ id, listen_answer id e = None) →
  pending_rpc_requests l' = pending_rpc_requests l → listener_requests l' = listener_requests l →
  replies (wires l') = replies (wires l) → moves e l l'.
Proof. intros ?? Hp Hl Hr. split; rewrite ?Hp, ?Hl, ?Hr; auto. Qed.

Lemma moves_empty e l l' :
  pending_rpc_requests l' = ∅ → listener_requests l' = ∅ → replies (wires l') = replies (wires l) → moves e l l'.
Proof. intros Hp Hl Hr. split; intros ??; rewrite ?Hp, ?Hl, ?Hr, ?lookup_empty; auto; done. Qed.

Lemma send_oneshot_frame i r l x l' :
  send_oneshot i r l = (x, l') →
  pending_rpc_requests l' = pending_rpc_requests l ∧ listener_requests l' = listener_requests l ∧
  (∀ j r', replies (wires l') !! j = Some r' → replies (wires l) !! j = Some r' ∨ (j = i ∧ r' = r)).
Proof.
  unfold send_oneshot. case_bool_decide; intros [= <- <-]; cbn; [by eauto|]. split; [done|]. split; [done|].
  intros j r' [[-> ->]|[? ?]]%lookup_insert_Some; auto.
Qed.

Lemma send_event_frame ev l x l' :
  send_event ev l = (x, l') → pending_rpc_requests l' = pending_rpc_requests l ∧
  listener_requests l' = listener_requests l ∧ replies (wires l') = replies (wires l).
Proof. unfold send_event. by destruct (events_closed _); intros [= <- <-]. Qed.

Lemma reply_rpc_moves e id r l x l' :
  (∀ id', rpc_answer id' e = if id =? id' then Some r else None) → (∀ id', listen_answer id' e = None) →
  reply_rpc id r l = (x, l') → moves e l l'.
Proof.
  intros He Hl. unfold reply_rpc. destruct (pending_rpc_requests l !! id) as [i|] eqn:Hid.
  - intros (Hp & Hli & Hr)%send_oneshot_frame. cbn in *. split.
    + rewrite Hp. intros id' j [Hne ?]%lookup_delete_Some. split; [done|]. rewrite He. by case_match; [lia|].
    + rewrite Hli. auto.
    + intros j r' [?|[-> ->]]%Hr; [by left|]. right. left. exists id, r. by rewrite He, Z.eqb_refl.
  - intros [= <- <-]. split; [|auto..]. intros id' j Hj. split; [done|]. rewrite He.
    case_match; [|done]. assert (id = id') as -> by lia. congruence.
Qed.

Lemma reply_listen_moves e id a l x l' :
  (∀ id', listen_answer id' e = if id =? id' then Some a else None) → (∀ id', rpc_answer id' e = None) →
  reply_listen id a l = (x, l') → moves e l l'.
Proof.
  intros He Hl. unfold reply_listen. destruct (listener_requests l !! id) as [i|] eqn:Hid.
  - intros (Hp & Hli & Hr)%send_oneshot_frame. cbn in *. split.
    + rewrite Hp. auto.
    + rewrite Hli. intros id' j [Hne ?]%lookup_delete_Some. split; [done|]. rewrite He. by case_match; [lia|].
    + intros j r' [?|[-> ->]]%Hr; [by left|]. right. right. exists id, a. by rewrite He, Z.eqb_refl.
  - intros [= <- <-]. split; [auto| |auto]. intros id' j Hj. split; [done|]. rewrite He.
    case_match; [|done]. assert (id = id') as -> by lia. congruence.
Qed.

Lemma handle_swarm_event_moves ev l x l' :
  handle_swarm_event ev l = (x, l') → moves (LoopSwarm ev) l l'.
Proof.
  assert (∀ e, (∀ id, rpc_answer id e = None) → (∀ id, listen_answer id e = None) → moves e l l) as Hskip
    by (intros; by apply moves_idle).
  destruct ev; cbn; try (intros (? & ? & ?)%send_event_frame; by apply moves_idle); try (intros [= <- <-]; by apply Hskip).
  - unfold st_bind. destruct (reply_listen _ _ l) as [y l1] eqn:Hy. apply (reply_listen_moves (LoopSwarm (NewListenAddr address listener_id))) in Hy; [|done|done].
    destruct y; [|by intros [= <- <-]..]. intros (Hp & Hl & Hr)%send_event_frame.
    destruct Hy as [Mp Ml Mr]. split; by rewrite ?Hp, ?Hl, ?Hr.
  - case_match; [|intros [= <- <-]; by apply Hskip]. intros (? & ? & ?)%send_event_frame. by apply moves_idle.
  - by apply reply_rpc_moves.
  - by apply reply_rpc_moves.
  - unfold handle_identify. case_match; intros [= <- <-]; [by apply moves_idle|by apply Hskip].
Qed.

(** The story when the loop takes up the [i]-th call, with the swarm [sw]. *)
Definition takes (i : nat) (sw : SW) e story : nat → option (SW * list input) :=
  λ j, if decide (j = i) then Some (sw, []) else longer e story j.

Lemma answers_ext cs story story' l : (∀ i, story i = story' i) → answers cs story l → answers cs story' l.
Proof. intros Heq [Hp Hl Hr]. split; intros *; rewrite <-Heq; auto. Qed.

Lemma answers_calls cs cs' story l : cs `prefix_of` cs' → answers cs story l → answers cs' story l.
Proof.
  intros Hpre [Hp Hl Hr].
  assert (∀ i c, cs !! i = Some c → cs' !! i = Some c) by (intros; by eapply prefix_lookup_Some).
  split; intros ? ?; [intros (? & ? & ? & ? & ? & ?)%Hp|intros (? & ? & ? & ? & ?)%Hl|intros (? & ? & ? & ? & ?)%Hr];
    naive_solver.
Qed.

Lemma answers_swarm cs story l sw : answers cs story l → answers cs story (set_swarm sw l).
Proof. intros [Hp Hl Hr]. by split. Qed.

Lemma answers_takes cs story l i sw : answers cs story l → story i = None → answers cs (takes i sw LoopCommand story) l.
Proof.
  intros Ha Hi. assert (answers cs (longer LoopCommand story) l) as [Hp Hl Hr]
    by (eapply answers_moves; [exact Ha|by apply moves_idle]).
  assert (∀ j x, longer LoopCommand story j = Some x → takes i sw LoopCommand story j = Some x) as Ht.
  { intros j x Hx. unfold takes. case_decide; [|done]. subst j. unfold longer in Hx. by rewrite Hi in Hx. }
  split; intros ? ?; [intros (? & ? & ? & ? & ? & ? & ?)%Hp|intros (? & ? & ? & ? & ? & ?)%Hl|intros (? & ? & ? & ? & ? & ?)%Hr];
    eauto 10.
Qed.

Lemma send_oneshot_answers cs story l i c sw after r x l' :
  answers cs story l → cs !! i = Some c → story i = Some (sw, after) → expected_reply c sw after = Some r →
  send_oneshot i r l = (x, l') → answers cs story l'.
Proof.
  intros [Hp Hl Hr] Hc Hs He (Hp' & Hl' & Hr')%send_oneshot_frame. split; rewrite ?Hp', ?Hl'; [done..|].
  intros j r' [?|[-> ->]]%Hr'; [by apply Hr|by exists c, sw, after].
Qed.

(** A call of the swarm whose result is the reply. *)
Lemma swarm_reply_answers {A} (f : stateful SW string A) (mk : outcome string A → Reply RESP) cs story l i c sw after x l' :
  answers cs story l → cs !! i = Some c → story i = Some (sw, after) →
  expected_reply c sw after = Some (mk (f (swarm l)).1) →
  (r <-- on_swarm f;; send_oneshot i (mk r)) l = (x, l') → answers cs story l'.
Proof.
  intros Ha Hc Hs He. unfold st_bind, on_swarm. destruct (f (swarm l)) as [y sw'].
  assert (answers cs story (set_swarm sw' l)) by by apply answers_swarm.
  destruct y; [by eapply send_oneshot_answers..|]. by intros [= <- <-].
Qed.

Lemma handle_call_answers cs story l i c x l' :
  answers cs story l → cs !! i = Some c → story i = None → handle_command (call_command c i) l = (x, l') →
  answers cs (takes i (swarm l) LoopCommand story) l'.
Proof.
  intros Ha Hc Hi. pose proof (answers_takes _ _ _ _ (swarm l) Ha Hi) as Ht.
  assert (takes i (swarm l) LoopCommand story i = Some (swarm l, [])) as Hs by (unfold takes; by rewrite decide_True).
  destruct c as [peer request|topic|topic msg| |a| |]; cbn [call_command handle_command].
  - destruct (send_request peer request (swarm l)) as [id sw'] eqn:Hreq. intros [= <- <-].
    destruct Ht as [Hp Hl Hr]. split; cbn; [|done..].
    intros id' j [[<- <-]|[? ?]]%lookup_insert_Some; [|by apply Hp].
    exists peer, request, (swarm l), []. by rewrite Hreq.
  - by eapply swarm_reply_answers.
  - by eapply swarm_reply_answers.
  - by eapply send_oneshot_answers.
  - unfold st_bind, on_swarm. destruct (listen_on a (swarm l)) as [[id|err|p] sw'] eqn:Hlis.
    + intros [= <- <-]. destruct Ht as [Hp Hl Hr]. split; cbn; [done| |done].
      intros id' j [[<- <-]|[? ?]]%lookup_insert_Some; [|by apply Hl].
      exists a, (swarm l), []. by rewrite Hlis.
    + intros Hsend. eapply send_oneshot_answers; [by apply answers_swarm|done|done| |exact Hsend].
      cbn. by rewrite Hlis.
    + intros [= <- <-]. by apply answers_swarm.
  - by eapply send_oneshot_answers.
  - by eapply send_oneshot_answers.
Qed.

Lemma moves_end e l l' : moves e l l' → moves e l (set_pending ∅ (set_listeners ∅ l')).
Proof. intros [_ _ Mr]. split; cbn; [intros ??; by rewrite lookup_empty..|exact Mr]. Qed.

Lemma answers_end cs story l : answers cs story l → answers cs story (set_pending ∅ (set_listeners ∅ l)).
Proof. intros [_ _ Hr]. split; cbn; [intros ??; by rewrite lookup_empty..|exact Hr]. Qed.
End Answers.

(** * Stories of a run *)

Section Stories.
Context {SW REQ RESP : Type} `{!Swarm SW REQ RESP, !SwarmLaws SW REQ RESP}.
Context (bootstrap_peers : list Multiaddr).
Local Abbreviation net := (Net SW REQ RESP).
Local Abbreviation input := (NetInput REQ RESP).
Implicit Types (s : net) (e : input) (story : nat → option (SW * list input)).

Record stories story s : Prop := {
  st_answers : answers (calls s) story (net_loop s);
  st_queued i : i ∈ queued s → story i = None;
  st_new i : (length (calls s) ≤ i)%nat → story i = None;
  st_spawned : net_phase s = Spawned → pending_rpc_requests (net_loop s) = ∅ ∧ listener_requests (net_loop s) = ∅;
}.

Definition next_story s e story : nat → option (SW * list input) := λ i,
  match story i with
  | Some (sw, after) => Some (sw, after ++ [e])
  | None => if bool_decide (handles s e = Some i) then Some (swarm (net_loop s), []) else None
  end.

Lemma next_story_longer s e story i : handles s e = None → longer e story i = next_story s e story i.
Proof.
  intros Hh. unfold longer, next_story. rewrite Hh. destruct (story i) as [[sw after]|]; [done|].
  by rewrite bool_decide_eq_false_2.
Qed.

Lemma stories_moves story s e s' :
  stories story s → handles s e = None → moves e (net_loop s) (net_loop s') → calls s `prefix_of` calls s' →
  (∀ i, i ∈ queued s' → i ∈ queued s ∨ (length (calls s) ≤ i)%nat) →
  (net_phase s' = Spawned → net_phase s = Spawned) → stories (next_story s e story) s'.
Proof.
  intros [Ha Hq Hn Hs] Hh Hm Hpre Hqueue Hph.
  assert (∀ i, story i = None → next_story s e story i = None) as Hnone.
  { intros i Hi. rewrite <-next_story_longer by done. unfold longer. by rewrite Hi. }
  split.
  - eapply answers_ext; [intros i; by apply next_story_longer|]. eapply answers_calls; [exact Hpre|].
    by eapply answers_moves.
  - intros i [?|?]%Hqueue; auto.
  - intros i Hi. apply Hnone, Hn. apply prefix_length in Hpre. lia.
  - intros [Hp Hl]%Hph%Hs. destruct Hm as [Mp Ml _]. rewrite Hp in Mp. rewrite Hl in Ml.
    split; apply map_empty; intros k; apply eq_None_not_Some; intros [j Hj]; [apply Mp in Hj as [Hj _]|apply Ml in Hj as [Hj _]];
      by rewrite lookup_empty in Hj.
Qed.

Lemma stories_after story s e r :
  stories story s → handles s e = None → net_phase s = Running → moves e (net_loop s) r.2 →
  stories (next_story s e story) (after_handler r s).
Proof.
  intros Hs Hh Hph Hm. unfold after_handler. destruct (is_panic r.1).
  - apply (stories_moves story s e); cbn; [done|done|by apply moves_end|done|set_solver|done].
  - apply (stories_moves story s e); cbn; [done|done|done|done|auto|by rewrite Hph].
Qed.

(** The loop takes up a call. *)
Lemma stories_command hist owner lost story s cmd rest :
  net_inv hist owner lost s → stories story s → net_phase s = Running → command_queue s = cmd :: rest →
  stories (next_story s LoopCommand story)
    (after_handler (handle_command cmd (net_loop s)) (set_command_queue rest s)).
Proof.
  intros Hinv Hst Hph Hcq. assert (handles s LoopCommand = command_sender cmd) as Hh
    by (unfold handles; by rewrite Hph, Hcq).
  pose proof Hst as [Ha Hq Hn Hs]. unfold queued in Hq. rewrite Hcq in Hq. cbn in Hq.
  destruct (handle_command cmd (net_loop s)) as [x l'] eqn:Hx.
  destruct (command_sender cmd) as [i|] eqn:Hi.
  - destruct (ni_queue _ _ _ _ Hinv cmd i) as (c & Hc & ->); [rewrite Hcq; apply list_elem_of_here|done|].
    assert (story i = None) as Hnone by (apply Hq, list_elem_of_here).
    assert (∀ j, takes i (swarm (net_loop s)) LoopCommand story j = next_story s LoopCommand story j) as Heq.
    { intros j. unfold takes, next_story. rewrite Hh. case_decide as Hj.
      - subst j. by rewrite Hnone, bool_decide_eq_true_2.
      - unfold longer. destruct (story j) as [[sw after]|]; [done|]. by rewrite bool_decide_eq_false_2 by congruence. }
    assert (answers (calls s) (next_story s LoopCommand story) l') as Ha'
      by (eapply answers_ext; [exact Heq|]; by eapply handle_call_answers).
    assert (∀ j, j ≠ i → story j = None → next_story s LoopCommand story j = None) as Hother.
    { intros j Hj Hjn. rewrite <-Heq. unfold takes, longer. rewrite decide_False by done. by rewrite Hjn. }
    assert (∀ j, (length (calls s) ≤ j)%nat → next_story s LoopCommand story j = None) as Hnew.
    { intros j Hj. apply Hother; [|by apply Hn]. intros ->. apply lookup_lt_Some in Hc. lia. }
    assert (∀ j, j ∈ omap command_sender rest → next_story s LoopCommand story j = None) as Hrest.
    { intros j Hj. apply Hother; [|by apply Hq, list_elem_of_further]. intros ->.
      pose proof (NoDup_seq 0 (length (calls s))) as Hnd. rewrite <-(ni_places _ _ _ _ Hinv) in Hnd.
      unfold queued in Hnd. rewrite Hcq in Hnd. cbn in Hnd. rewrite Hi in Hnd. cbn in Hnd.
      apply NoDup_cons in Hnd as [Hnot _]. apply Hnot, elem_of_app. by left. }
    unfold after_handler. cbn. destruct (is_panic x); split; cbn; try done.
    + by apply answers_end.
    + intros j Hj. by apply elem_of_nil in Hj.
    + by rewrite Hph.
  - destruct cmd; try done. cbn [handle_command] in Hx. unfold st_bind, on_swarm, st_ret in Hx.
    assert (moves LoopCommand (net_loop s) l') as Hm
      by (destruct (send_response _ _ _) as [[] ?]; simplify_eq/=; by apply moves_idle).
    unfold after_handler. cbn. destruct (is_panic x); apply (stories_moves story s LoopCommand); cbn; try done.
    + by apply moves_end.
    + set_solver.
    + unfold queued. rewrite Hcq. cbn. auto.
Qed.

Lemma stories_step hist owner lost story s e :
  net_inv hist owner lost s → stories story s →
  match e with ClientCalls _ | ClientResponds _ _ | ReceiverDropped _ | EventsDropped | ShutdownSignal => False | _ => True end →
  stories (next_story s e story) (net_step bootstrap_peers e s).
Proof.
  intros Hinv Hst He.
  assert (handles s e = None → moves e (net_loop s) (net_loop s) → stories (next_story s e story) s) as Hsame.
  { intros Hh Hm. apply (stories_moves story s e); auto. }
  unfold net_step. destruct (net_phase s) eqn:Hph.
  - assert (handles s e = None) as Hh by (unfold handles; by rewrite Hph).
    destruct (st_spawned _ _ Hst Hph) as [Hp Hl].
    destruct e; try done; try (apply Hsame; [done|by apply moves_empty]).
    destruct (bootstrap _ _) as [r l] eqn:Hb. apply bootstrap_swarm_only in Hb as (sw & -> & _).
    destruct (is_ok r); apply (stories_moves story s LoopStart); cbn; try done; try (by apply moves_empty); auto.
    set_solver.
  - destruct e; try done; try (apply Hsame; [unfold handles; by rewrite Hph|by apply moves_idle]).
    + apply stories_after; [done|unfold handles; by rewrite Hph|done|].
      destruct (handle_swarm_event _ _) as [x l'] eqn:Hx. by apply handle_swarm_event_moves in Hx as [].
    + destruct (command_queue s) as [|cmd rest] eqn:Hcq; [|by eapply stories_command].
      apply Hsame; [unfold handles; by rewrite Hph, Hcq|by apply moves_idle].
    + apply stories_after; [done|unfold handles; by rewrite Hph|done|].
      destruct (bootstrap _ _) as [r l] eqn:Hb. apply bootstrap_swarm_only in Hb as (sw & -> & _). by apply moves_idle.
    + destruct (shutdown_sent s); [|apply Hsame; [unfold handles; by rewrite Hph|by apply moves_idle]].
      apply (stories_moves story s LoopShutdown); cbn; [done|unfold handles; by rewrite Hph| |done|set_solver|done].
      by apply moves_empty.
  - destruct (ni_ended _ _ _ _ Hinv Hph) as (_ & Hp & Hl).
    destruct e; try done; (apply Hsame; [unfold handles; by rewrite Hph|by apply moves_empty]).
Qed.

Lemma stories_exec hist owner lost story s e :
  net_inv hist owner lost s → stories story s → stories (next_story s e story) (net_exec bootstrap_peers s e).
Proof.
  intros Hinv Hst. unfold net_exec. destruct e; try by eapply stories_step.
  all: assert (∀ e' : input, match e' with LoopCommand => False | _ => True end → handles s e' = None) as Hh
    by (intros []; unfold handles; by destruct (net_phase s)).
  all: apply (stories_moves story s); [done|by apply Hh|..].
  - unfold client_call. case_decide; by apply moves_idle.
  - unfold client_call. case_decide; cbn; by apply prefix_app_r.
  - unfold client_call, queued. case_decide; cbn; [auto|]. intros i. rewrite omap_app, elem_of_app.
    intros [?|Hi]; [auto|right]. destruct c; cbn in Hi; apply list_elem_of_singleton in Hi; lia.
  - unfold client_call. by case_decide.
  - unfold client_rpc_response. case_decide; by apply moves_idle.
  - unfold client_rpc_response. by case_decide.
  - unfold client_rpc_response, queued. case_decide; cbn; [auto|]. intros i. rewrite omap_app, app_nil_r. auto.
  - unfold client_rpc_response. by case_decide.
  - case_bool_decide; by apply moves_idle.
  - by case_bool_decide.
  - case_bool_decide; cbn; auto.
  - by case_bool_decide.
  - by apply moves_idle.
  - done.
  - auto.
  - done.
  - by apply moves_idle.
  - done.
  - auto.
  - done.
Qed.

Lemma stories_ext story story' s : (∀ i, story i = story' i) → stories story s → stories story' s.
Proof. intros Heq [Ha Hq Hn Hs]. split; [by eapply answers_ext|..|done]; intros i; rewrite <-Heq; auto. Qed.

Lemma net_run_stories inputs sw :
  stories (λ i, taken_up bootstrap_peers i (net_start sw) inputs) (net_run bootstrap_peers inputs sw).
Proof.
  induction inputs as [|e inputs IH] using rev_ind.
  - by split.
  - destruct (net_run_inv bootstrap_peers inputs sw) as (owner & lost & Hinv).
    pose proof (stories_exec _ _ _ _ _ e Hinv IH) as Hst. unfold net_run in *. rewrite foldl_app. cbn.
    eapply stories_ext; [|exact Hst]. intros i. unfold next_story. by rewrite taken_up_app.
Qed.
End Stories.

(** * What the client's callers can rely on *)

(** The calls that are answered as soon as their command is handled. *)
Definition immediate {REQ} (c : ClientCall REQ) : bool :=
  match c with rpc_request _ _ | listen _ => false | _ => true end.

Section NetTheorems.
Context {SW REQ RESP : Type} `{!Swarm SW REQ RESP, !SwarmLaws SW REQ RESP}.
Context (bootstrap_peers : list Multiaddr).
Local Abbreviation net := (Net SW REQ RESP).
Implicit Types (s : net) (hist : list (NetInput REQ RESP)).

Lemma net_exec_grows s e :
  let s' := net_exec bootstrap_peers s e in
  calls s `prefix_of` calls s' ∧
  (∀ i, i ∈ refused s → i ∈ refused s') ∧ (∀ i, i ∈ refused s' → i ∈ refused s ∨ i = length (calls s)).
Proof.
  assert (∀ s', calls s' = calls s → refused s' = refused s → calls s `prefix_of` calls s' ∧
    (∀ i, i ∈ refused s → i ∈ refused s') ∧
    (∀ i, i ∈ refused s' → i ∈ refused s ∨ i = length (calls s))) as Hsame by (intros s' -> ->; auto).
  assert (∀ r q, calls (after_handler r (set_command_queue q s)) = calls s ∧
    refused (after_handler r (set_command_queue q s)) = refused s) as Hafter
    by (intros [r l] q; unfold after_handler; by case_match).
  assert (∀ r, calls (after_handler r s) = calls s ∧ refused (after_handler r s) = refused s) as Hafter'
    by (intros [r l]; unfold after_handler; by case_match).
  destruct e; cbn [net_exec]; unfold client_call, client_rpc_response, net_step; repeat case_match; try by apply Hsame.
  all: try (apply Hsame; (apply Hafter || apply Hafter')); cbn; (split; [by apply prefix_app_r|]); set_solver.
Qed.

Lemma net_exec_ended s e :
  net_phase s = Ended → command_queue s = [] →
  net_phase (net_exec bootstrap_peers s e) = Ended ∧
  replies (wires (net_loop (net_exec bootstrap_peers s e))) = replies (wires (net_loop s)).
Proof.
  intros Hph Hq. destruct e; cbn [net_exec]; unfold client_call, client_rpc_response, net_step; rewrite ?Hph; cbn; try done.
  by case_bool_decide.
Qed.

Lemma net_exec_replies hist owner lost s e :
  net_inv hist owner lost s →
  replies (wires (net_loop s)) ⊆ replies (wires (net_loop (net_exec bootstrap_peers s e))).
Proof.
  intros Hinv. destruct (decide (net_phase s = Ended)) as [Hph|Hph].
  { destruct (net_exec_ended s e Hph) as [_ ->]; [by apply (ni_ended _ _ _ _ Hinv)|done]. }
  assert (∀ r s0, wires (net_loop (after_handler r s0)) = wires r.2) as Hafter
    by (intros [r l] s0; unfold after_handler; cbn; by case_match).
  apply (net_inv_hist _ _ _ _ e) in Hinv. destruct Hinv as [Hloop Hq Hplaces Hrun Hend].
  destruct (Hrun Hph) as [Href ->]. rewrite Href, !app_nil_r in Hplaces.
  destruct e as [c| | | | | |ev| | |]; cbn [net_exec]; try done.
  - unfold client_call. by case_decide.
  - unfold client_rpc_response. by case_decide.
  - by case_bool_decide.
  - unfold net_step. destruct (net_phase s); try done.
    destruct (bootstrap _ _) as [r l] eqn:Hb. apply bootstrap_swarm_only in Hb as (sw & -> & _). by case_match.
  - unfold net_step. destruct (net_phase s); try done. rewrite Hafter.
    destruct (handle_swarm_event _ _) as [x l'] eqn:Hx. destruct (polled_frame ev (swarm (net_loop s))) as [Hr Hl].
    eapply handle_swarm_event_inv in Hx as [_ [Hacc _]]; [exact Hacc|by apply loop_inv_frame|set_solver].
  - unfold net_step. destruct (net_phase s); try done. destruct (command_queue s) as [|cmd rest] eqn:Hcq; [done|].
    rewrite Hafter. destruct (handle_command _ _) as [x l'] eqn:Hx.
    eapply handle_command_inv in Hx as (_ & _ & _ & [Hacc _]); [exact Hacc|done|].
    intros i Hi. destruct (Hq cmd i) as (c & Hc & ->); [apply list_elem_of_here|done|]. split; [|eauto].
    pose proof (NoDup_seq 0 (length (calls s))) as Hnd. rewrite <-Hplaces in Hnd. unfold queued in Hnd.
    rewrite Hcq in Hnd. cbn in Hnd. rewrite Hi in Hnd. cbn in Hnd. apply NoDup_cons in Hnd as [Hnot _].
    intros Hin. apply Hnot. apply elem_of_app. by right.
  - unfold net_step. destruct (net_phase s); try done. rewrite Hafter.
    destruct (bootstrap _ _) as [r l] eqn:Hb. by apply bootstrap_swarm_only in Hb as (sw & -> & _).
  - unfold net_step. destruct (net_phase s); try done. by destruct (shutdown_sent s).
Qed.

(** A call that is not waiting is answered, refused or lost. *)
Lemma call_place hist owner lost s i c :
  net_inv hist owner lost s → calls s !! i = Some c →
  i ∈ held s ∨ is_Some (replies (wires (net_loop s)) !! i) ∨ i ∈ refused s ∨ i ∈ lost.
Proof.
  intros Hinv Hc. assert (i ∈ seq 0 (length (calls s))) as Hi
    by (apply elem_of_seq; apply lookup_lt_Some in Hc; lia).
  rewrite <-(ni_places _ _ _ _ Hinv) in Hi. unfold load, answered, held_loop in Hi.
  rewrite !elem_of_app in Hi. unfold held. rewrite !elem_of_app.
  destruct Hi as [?|[[[?|?]|Hr]|?]]; try tauto.
  apply list_elem_of_fmap in Hr as ([j r] & -> & Hr%elem_of_map_to_list). right. left. by exists r.
Qed.

(** No call is at two places. *)
Lemma places_NoDup hist owner lost s :
  net_inv hist owner lost s → NoDup (held s ++ answered (net_loop s) ++ refused s ++ lost).
Proof.
  intros Hinv. pose proof (NoDup_seq 0 (length (calls s))) as Hnd. rewrite <-(ni_places _ _ _ _ Hinv) in Hnd.
  unfold load, held_loop, queued, held in *. by rewrite <-!app_assoc in *.
Qed.

Lemma held_ended hist owner lost s : net_inv hist owner lost s → net_phase s = Ended → held s = [].
Proof. intros Hinv (Hq & Hp & Hl)%(ni_ended _ _ _ _ Hinv). unfold held. by rewrite Hq, Hp, Hl. Qed.

Lemma replied_not_refused hist owner lost s i r :
  net_inv hist owner lost s → replies (wires (net_loop s)) !! i = Some r → i ∉ refused s.
Proof.
  intros Hinv%places_NoDup Hr Hi. apply NoDup_app in Hinv as (_ & _ & Hinv). apply NoDup_app in Hinv as (_ & Hdis & _).
  apply (Hdis i); [|apply elem_of_app; by left]. apply list_elem_of_fmap. exists (i, r).
  split; [done|]. by apply elem_of_map_to_list.
Qed.

Lemma call_outcome_stable hist owner lost s e i r :
  net_inv hist owner lost s → call_outcome s i = Some r →
  call_outcome (net_exec bootstrap_peers s e) i = Some r.
Proof.
  intros Hinv. destruct (net_inv_exec bootstrap_peers _ _ _ _ e Hinv) as (owner' & lost' & _ & Hinv').
  destruct (net_exec_grows s e) as (Hcalls & Href1 & Href2).
  unfold call_outcome. destruct (calls s !! i) as [c|] eqn:Hc; [|done]. cbn.
  rewrite (prefix_lookup_Some _ _ _ _ Hc Hcalls). cbn. apply lookup_lt_Some in Hc as Hlt.
  case_bool_decide as Hri; [by rewrite bool_decide_eq_true_2 by auto|].
  rewrite (bool_decide_eq_false_2 (i ∈ refused (net_exec _ s e))) by (intros [?|?]%Href2; [done|lia]).
  unfold recv_oneshot. destruct (replies (wires (net_loop s)) !! i) as [rep|] eqn:Hr.
  { by rewrite (lookup_weaken _ _ _ _ Hr (net_exec_replies _ _ _ _ e Hinv)). }
  case_bool_decide as Hheld; [done|].
  assert (net_phase s = Ended) as Hph.
  { destruct (decide (net_phase s = Ended)) as [|Hph]; [done|].
    destruct (ni_running _ _ _ _ Hinv Hph) as [_ ->].
    destruct (call_place _ _ _ _ _ _ Hinv Hc) as [?|[[? ?]|[?|?%elem_of_nil]]]; congruence || done. }
  destruct (net_exec_ended s e Hph) as [Hph' ->]; [by apply (ni_ended _ _ _ _ Hinv)|].
  rewrite Hr, (held_ended _ _ _ _ Hinv' Hph'). by rewrite bool_decide_eq_false_2 by apply not_elem_of_nil.
Qed.

Lemma call_outcome_run inputs more sw i r :
  call_outcome (net_run bootstrap_peers inputs sw) i = Some r →
  call_outcome (net_run bootstrap_peers (inputs ++ more) sw) i = Some r.
Proof.
  intros H. induction more as [|e more IH] using rev_ind; [by rewrite app_nil_r|].
  destruct (net_run_inv bootstrap_peers (inputs ++ more) sw) as (owner & lost & Hinv).
  unfold net_run in *. rewrite app_assoc, foldl_app. cbn. by eapply call_outcome_stable.
Qed.

Lemma call_ended hist owner lost s i c :
  net_inv hist owner lost s → calls s !! i = Some c → net_phase s = Ended → is_Some (call_outcome s i).
Proof.
  intros Hinv Hc Hph. unfold call_outcome. rewrite Hc. cbn. case_bool_decide; [done|].
  unfold recv_oneshot. rewrite (held_ended _ _ _ _ Hinv Hph).
  rewrite bool_decide_eq_false_2 by apply not_elem_of_nil. by case_match.
Qed.

Lemma call_running hist owner lost s i c :
  net_inv hist owner lost s → calls s !! i = Some c → net_phase s ≠ Ended →
  (call_outcome s i = None ∧ i ∈ held s) ∨
  (∃ r, replies (wires (net_loop s)) !! i = Some r ∧ call_outcome s i = Some (call_result c (Ok r))).
Proof.
  intros Hinv Hc Hph. destruct (ni_running _ _ _ _ Hinv Hph) as [Href Hlost].
  unfold call_outcome. rewrite Hc, Href. cbn. rewrite bool_decide_eq_false_2 by apply not_elem_of_nil.
  unfold recv_oneshot. destruct (replies (wires (net_loop s)) !! i) as [r|] eqn:Hr; [right; by exists r|left].
  destruct (call_place _ _ _ _ _ _ Hinv Hc) as [Hh|[[? ?]|[Hh|Hh]]];
    [|congruence|rewrite Href in Hh; by apply elem_of_nil in Hh|rewrite Hlost in Hh; by apply elem_of_nil in Hh].
  by rewrite bool_decide_eq_true_2.
Qed.

(** C37: A call of the network's client is in one place at a time: while the
    event loop runs it either waits and its sender is held by the command
    queue or by the loop, or it has its reply, it never fails for a closed
    channel; once the loop has ended, by shutdown or by a panic, every call has
    returned; and a result never changes. *)
Theorem net_calls_accounted inputs more sw i c :
  let s := net_run bootstrap_peers inputs sw in
  calls s !! i = Some c →
  NoDup (held s ++ answered (net_loop s) ++ refused s) ∧
  (net_phase s ≠ Ended →
    (call_outcome s i = None ∧ i ∈ held s) ∨
    (∃ r, replies (wires (net_loop s)) !! i = Some r ∧ call_outcome s i = Some (call_result c (Ok r)))) ∧
  (net_phase s = Ended → is_Some (call_outcome s i)) ∧
  (∀ r, call_outcome s i = Some r → call_outcome (net_run bootstrap_peers (inputs ++ more) sw) i = Some r).
Proof.
  intros s Hc. destruct (net_run_inv bootstrap_peers inputs sw) as (owner & lost & Hinv). fold s in Hinv.
  split; [|split; [|split]].
  - eapply NoDup_submseteq_inv; [|exact (places_NoDup _ _ _ _ Hinv)].
    rewrite !app_assoc. apply submseteq_inserts_r. done.
  - by eapply call_running.
  - by eapply call_ended.
  - intros r. by apply call_outcome_run.
Qed.

(** The result of a call, from the invariant. *)
Lemma call_outcome_cases inputs sw i r :
  let s := net_run bootstrap_peers inputs sw in
  call_outcome s i = Some r → ∃ c, calls s !! i = Some c ∧
    ((net_phase s = Ended ∧ (r = Err ChannelSend ∨ r = Err ChannelRecv)) ∨
     ∃ rep, replies (wires (net_loop s)) !! i = Some rep ∧ r = call_result c (Ok rep)).
Proof.
  intros s Hs. destruct (calls s !! i) as [c|] eqn:Hc; [|unfold call_outcome in Hs; by rewrite Hc in Hs].
  exists c. split; [done|]. destruct (decide (net_phase s = Ended)) as [Hph|Hph].
  - unfold call_outcome in Hs. rewrite Hc in Hs. cbn in Hs. case_bool_decide; [naive_solver|].
    unfold recv_oneshot in Hs. destruct (replies (wires (net_loop s)) !! i) as [rep|]; simplify_eq/=; [eauto|].
    case_bool_decide; simplify_eq/=. eauto.
  - right. destruct (net_run_inv bootstrap_peers inputs sw) as (owner & lost & Hinv).
    destruct (call_running _ _ _ _ _ _ Hinv Hc Hph) as [[Hnone _]|(rep & Hr & Hsome)]; fold s in Hr || fold s in Hnone.
    + congruence.
    + exists rep. fold s in Hsome. split; [done|congruence].
Qed.

Lemma replied_as_expected inputs sw i c rep :
  let s := net_run bootstrap_peers inputs sw in
  calls s !! i = Some c → replies (wires (net_loop s)) !! i = Some rep →
  expected_outcome bootstrap_peers (net_start sw) inputs i c = Some (call_result c (Ok rep)).
Proof.
  intros s Hc Hrep. destruct (net_run_stories bootstrap_peers inputs sw) as [[_ _ Hr] _ _ _].
  destruct (Hr _ _ Hrep) as (c' & sw0 & after & Hc' & Hst & He). fold s in Hc'.
  assert (c' = c) as -> by congruence. unfold expected_outcome. by rewrite Hst, expected_result_reply, He.
Qed.

Lemma held_as_expected inputs sw i c :
  let s := net_run bootstrap_peers inputs sw in
  calls s !! i = Some c → i ∈ held s → expected_outcome bootstrap_peers (net_start sw) inputs i c = None.
Proof.
  intros s Hc Hi. destruct (net_run_stories bootstrap_peers inputs sw) as [[Hp Hl _] Hq _ _].
  fold s in Hp, Hl, Hq. unfold held in Hi. unfold expected_outcome.
  apply elem_of_app in Hi as [Hi%Hq|[([id j] & -> & Hin%elem_of_map_to_list)%list_elem_of_fmap
    |([id j] & -> & Hin%elem_of_map_to_list)%list_elem_of_fmap]%elem_of_app]; cbn in *.
  - by rewrite Hi.
  - destruct (Hp _ _ Hin) as (p & q & sw0 & after & Hc' & -> & Hid & Hf). simplify_eq. cbn. by rewrite Hf.
  - destruct (Hl _ _ Hin) as (a & sw0 & after & Hc' & -> & Hid & Hf). simplify_eq. cbn. by rewrite Hid, Hf.
Qed.

(** C38: Every call of the client gets what it asked for, from the moment the
    loop takes its command from the queue: the peers of gossipsub, the connected
    peers or the addresses (with the local peer id) the swarm has at that moment;
    the result of subscribing to this topic, of publishing this message or of
    the failed attempt to listen; the first address reported for the listener
    made for this call; the first response or failure reported for the id the
    swarm gave to this request to this peer.  While the loop lives the call
    has exactly this result, as soon as it is there and not before; after its
    end the only other results are those of closed channels. *)
Theorem calls_answered_as_asked inputs sw i c :
  let s := net_run bootstrap_peers inputs sw in
  let expected := expected_outcome bootstrap_peers (net_start sw) inputs i c in
  calls s !! i = Some c →
  (net_phase s ≠ Ended → call_outcome s i = expected) ∧
  (net_phase s = Ended →
    call_outcome s i = Some (Err ChannelSend) ∨ call_outcome s i = Some (Err ChannelRecv) ∨
    call_outcome s i = expected).
Proof.
  intros s expected Hc. destruct (net_run_inv bootstrap_peers inputs sw) as (owner & lost & Hinv). fold s in Hinv.
  split; intros Hph.
  - destruct (call_running _ _ _ _ _ _ Hinv Hc Hph) as [[-> Hheld]|(rep & Hrep & ->)]; symmetry.
    + by apply held_as_expected.
    + by apply replied_as_expected.
  - destruct (call_ended _ _ _ _ _ _ Hinv Hc Hph) as [r Hr].
    destruct (call_outcome_cases _ _ _ _ Hr) as (c' & Hc' & Hcases). fold s in Hc', Hcases.
    assert (c' = c) as -> by congruence. rewrite Hr.
    destruct Hcases as [[_ [-> | ->]]|(rep & Hrep & ->)]; [auto..|]. right. right. symmetry. by apply replied_as_expected.
Qed.

(** The result of an RPC request is the swarm's answer to that request: if
    it is not that the loop ended, there is an id, which no other call has, that
    the swarm gave to this request to this peer, and the swarm reported the
    response, or the failure, for this id. *)
Lemma rpc_reply_provenance inputs sw :
  let s := net_run bootstrap_peers inputs sw in
  ∃ owner : gmap RequestId nat, ∀ i peer request r,
  calls s !! i = Some (rpc_request peer request) → call_outcome s i = Some r →
  (net_phase s = Ended ∧ (r = Err ChannelSend ∨ r = Err ChannelRecv)) ∨
  ∃ id, owner !! id = Some i ∧ swarm_requests (swarm (net_loop s)) !! id = Some (peer, request) ∧
    ((∃ response, r = Ok (VResponse response) ∧ LoopSwarm (ResponseMessage id response) ∈ inputs) ∨
     (∃ error, r = Err (OutboundFailure error) ∧ LoopSwarm (OutboundFailureEvent id error) ∈ inputs)).
Proof.
  intros s. destruct (net_run_inv bootstrap_peers inputs sw) as (owner & lost & Hinv). fold s in Hinv.
  exists owner. intros i peer request r Hc (c & Hc' & [?|(rep & Hrep & ->)])%call_outcome_cases; [by left|right].
  fold s in Hc', Hrep. assert (c = rpc_request peer request) as -> by congruence.
  destruct (li_replies _ _ _ _ (ni_loop _ _ _ _ Hinv) _ _ Hrep) as (c' & Hc'' & Hj).
  assert (c' = rpc_request peer request) as -> by congruence.
  destruct rep as [| | | | |[]]; cbn in *; try done.
  - destruct Hj as (id & ? & ? & ?). exists id. eauto 10.
  - destruct Hj as (id & error & -> & ? & ? & ?). exists id. eauto 10.
Qed.

(** Handling the whole queue, or ending on the way. *)
Lemma drain_queue s n :
  net_phase s = Running →
  let s' := foldl (net_exec bootstrap_peers) s (replicate n LoopCommand) in
  calls s' = calls s ∧
  (net_phase s' = Ended ∨ (net_phase s' = Running ∧ length (command_queue s') = (length (command_queue s) - n)%nat)).
Proof.
  revert s. induction n as [|n IH]; intros s Hph; cbn [replicate foldl].
  { split; [done|]. right. split; [done|lia]. }
  assert (net_exec bootstrap_peers s LoopCommand = match command_queue s with
    | cmd :: rest => after_handler (handle_command cmd (net_loop s)) (set_command_queue rest s) | [] => s end) as ->
    by (cbn; unfold net_step; by rewrite Hph).
  assert (∀ s, net_phase s = Ended → foldl (net_exec bootstrap_peers) s (replicate n LoopCommand) = s) as Hdead.
  { intros s0 H0. clear IH. induction n as [|n IH]; [done|]. cbn. unfold net_step. by rewrite H0. }
  destruct (command_queue s) as [|cmd rest] eqn:Hq.
  { destruct (IH s Hph) as [Hc Hcases]. rewrite Hq in Hcases. cbn in *. auto. }
  unfold after_handler. destruct (handle_command cmd (net_loop s)) as [x l]. cbn [fst snd].
  destruct (is_panic x).
  - rewrite Hdead by done. auto.
  - match goal with |- context [foldl _ ?s1 _] => destruct (IH s1 Hph) as [Hc Hcases] end. cbn in *. auto.
Qed.

Lemma drained_calls_return inputs sw i c :
  let s := net_run bootstrap_peers inputs sw in
  net_phase s = Running → calls s !! i = Some c → immediate c = true →
  is_Some (call_outcome
    (net_run bootstrap_peers (inputs ++ replicate (length (command_queue s)) LoopCommand) sw) i).
Proof.
  intros s Hph Hc Himm. set (more := replicate _ _).
  destruct (net_run_inv bootstrap_peers (inputs ++ more) sw) as (owner & lost & Hinv).
  set (s' := net_run bootstrap_peers (inputs ++ more) sw) in *.
  destruct (drain_queue s (length (command_queue s)) Hph) as [Hc' Hcases].
  assert (s' = foldl (net_exec bootstrap_peers) s more) as Hs' by (unfold s', net_run; by rewrite foldl_app).
  fold more in Hc', Hcases. rewrite <-Hs' in Hc', Hcases. rewrite Nat.sub_diag in Hcases.
  rewrite <-Hc' in Hc. destruct (decide (net_phase s' = Ended)) as [He|He].
  { by eapply call_ended. }
  destruct Hcases as [|[_ Hlen]]; [done|]. apply nil_length_inv in Hlen.
  destruct (call_running _ _ _ _ _ _ Hinv Hc He) as [[_ Hheld]|(r & _ & ->)]; [exfalso|done].
  destruct (ni_loop _ _ _ _ Hinv) as [_ Hp _ Hl _].
  unfold held in Hheld. rewrite Hlen in Hheld. cbn in Hheld.
  apply elem_of_app in Hheld as [([id j] & -> & Hin%elem_of_map_to_list)%list_elem_of_fmap
    |([id j] & -> & Hin%elem_of_map_to_list)%list_elem_of_fmap]; cbn in *.
  - apply Hp in Hin as (_ & p & q & ? & _). simplify_eq/=.
  - apply Hl in Hin as (_ & a & ?). simplify_eq/=.
Qed.

(** Once the commands in the queue are handled, every call that does not
    wait for the swarm has returned: listing peers and addresses, subscribing
    and publishing never hang on a running loop. *)
Lemma immediate_calls_return inputs sw i c :
  let s := net_run bootstrap_peers inputs sw in
  net_phase s = Running → calls s !! i = Some c → immediate c = true →
  is_Some (call_outcome
    (net_run bootstrap_peers (inputs ++ replicate (length (command_queue s)) LoopCommand) sw) i).
Proof. apply drained_calls_return. Qed.

(** [NetworkEventLoopHandle::shutdown]: nothing when the loop has ended;
    else the signal, and the wait until the loop has seen it. *)
Definition shutdown s : net :=
  if decide (net_phase s = Ended) then s
  else net_exec bootstrap_peers (net_exec bootstrap_peers s ShutdownSignal) LoopShutdown.

(** C39: Shutting down ends the running loop: every call made before has
    returned, and every call made later fails at once. *)
Theorem shutdown_ends_calls inputs sw c :
  let s := shutdown (net_run bootstrap_peers inputs sw) in
  net_phase (net_run bootstrap_peers inputs sw) ≠ Spawned →
  net_phase s = Ended ∧ (∀ i, (i < length (calls s))%nat → is_Some (call_outcome s i)) ∧
  call_outcome (client_call c s) (length (calls s)) = Some (Err ChannelSend).
Proof.
  intros s Hph.
  assert (∃ inputs', s = net_run bootstrap_peers inputs' sw ∧ net_phase s = Ended) as (inputs' & Hs & Hend).
  { unfold s, shutdown. case_decide as Hd; [by exists inputs|].
    exists (inputs ++ [ShutdownSignal; LoopShutdown]). split; [unfold net_run; by rewrite foldl_app|].
    cbn. unfold net_step. cbn. by destruct (net_phase (net_run _ _ _)). }
  destruct (net_run_inv bootstrap_peers inputs' sw) as (owner & lost & Hinv). rewrite <-Hs in Hinv.
  split; [done|]. split.
  - intros i [c' Hc']%lookup_lt_is_Some_2. by eapply call_ended.
  - unfold client_call. rewrite decide_True by done. unfold call_outcome. cbn.
    rewrite lookup_app_r, Nat.sub_diag by lia. cbn. by rewrite bool_decide_eq_true_2 by set_solver.
Qed.
End NetTheorems.

(** * Examples *)

Module NetworkExamples.
(** A swarm that knows the requests and listeners it made and what was added
    to its routing table; requests and responses are strings, multihashes of
    one byte are peer ids. *)
Record SampleSwarm := mk_swarm {
  sw_requests : gmap Z (list Z * string);
  sw_listeners : gset Z;
  sw_addresses : list (list Z * list Protocol);
}.

#[export] Instance sample_swarm : Swarm SampleSwarm string string := {|
  listen_on a s :=
    if bool_decide (a = []) then (Err "unsupported", s)
    else let id := fresh (sw_listeners s) in
      (Ok id, mk_swarm (sw_requests s) ({[id]} ∪ sw_listeners s) (sw_addresses s));
  listeners s := [[OtherProtocol "tcp"]];
  local_peer_id _ := [7];
  swarm_connected_peers s := (sw_addresses s).*1;
  gossipsub_all_peers s := (sw_addresses s).*1;
  send_request p r s :=
    let id := fresh (dom (sw_requests s)) in
    (id, mk_swarm (<[id := (p, r)]> (sw_requests s)) (sw_listeners s) (sw_addresses s));
  send_response _ _ s := (Ok tt, s);
  gossipsub_publish _ m s := (Ok m, s);
  gossipsub_subscribe _ s := (Ok true, s);
  kad_add_address p a s := mk_swarm (sw_requests s) (sw_listeners s) (sw_addresses s ++ [(p, a)]);
  kad_bootstrap s := (if bool_decide (sw_addresses s = []) then Err "no known peers" else Ok tt, s);
  kad_start_providing _ s := (Ok tt, s);
  kad_get_providers _ s := s;
  add_external_address _ s := s;
  peer_id_from_multihash h := if bool_decide (length h = 1%nat) then Ok h else Err "multihash";
  kad_default_proto_name := "/ipfs/kad/1.0.0";
  swarm_polled _ s := s;
|}.

#[export] Program Instance sample_swarm_laws : SwarmLaws SampleSwarm string string := {|
  swarm_requests := sw_requests;
  swarm_listeners := sw_listeners;
|}.
Next Obligation.
  intros p r s i s' [= <- <-]. split; [|done]. apply not_elem_of_dom. apply is_fresh.
Qed.
Next Obligation.
  cbn. intros a s r s'. case_bool_decide; intros [= <- <-]; [done|]. split; [done|]. split; [done|].
  split; [apply is_fresh|done].
Qed.
Solve All Obligations with (cbn; naive_solver).

Definition boot : list (list Protocol) := [[OtherProtocol "dns/node1"; P2p [1]]].
Definition empty_swarm : SampleSwarm := mk_swarm ∅ ∅ [].

(** Two requests to two peers are answered in the other order, the second with
    a failure; the peer list is asked for in between. *)
Definition session : list (NetInput string string) :=
  [LoopStart; ClientCalls (rpc_request [1] "ids"); ClientCalls (rpc_request [2] "ids");
   LoopCommand; LoopCommand; LoopSwarm (OutboundFailureEvent 1 "timeout");
   LoopSwarm (ResponseMessage 0 "none"); LoopSwarm (ResponseMessage 5 "stray"); ClientCalls peer_list].

Example session_outcomes :
  let s := net_run boot session empty_swarm in
  (call_outcome s 0, call_outcome s 1, call_outcome s 2) =
  (Some (Ok (VResponse "none")), Some (Err (OutboundFailure "timeout")), None).
Proof. vm_compute. reflexivity. Qed.

Lemma net_calls_accounted_witness :
  let s := net_run boot session empty_swarm in
  calls s !! 2%nat = Some peer_list ∧ net_phase s = Running ∧
  ((call_outcome s 2 = None ∧ 2%nat ∈ held s) ∨
   (∃ r, replies (wires (net_loop s)) !! 2%nat = Some r ∧
      call_outcome s 2 = Some (call_result (@peer_list string) (Ok r)))).
Proof.
  split; [vm_compute; reflexivity|]. split; [vm_compute; reflexivity|].
  refine (proj1 (proj2 (net_calls_accounted boot session [] empty_swarm 2 peer_list _)) _);
    [vm_compute; reflexivity|vm_compute; discriminate].
Defined.

(** Peers are listed as they are when the command is handled; a second report
    on a request changes nothing; a listener gets its own address. *)
Definition asking : list (NetInput string string) :=
  [LoopStart; ClientCalls (rpc_request [1] "ids"); ClientCalls (rpc_request [2] "ids");
   ClientCalls connected_peers; ClientCalls (listen [OtherProtocol "tcp"]); LoopCommand; LoopCommand; LoopCommand;
   LoopSwarm (ResponseMessage 1 "second"); LoopSwarm (ResponseMessage 0 "first"); LoopSwarm (ResponseMessage 0 "late");
   LoopCommand; LoopSwarm (NewListenAddr [OtherProtocol "other"] 7); LoopSwarm (NewListenAddr [OtherProtocol "own"] 0)].

Lemma calls_answered_as_asked_witness :
  let s := net_run boot asking empty_swarm in
  call_outcome s 0 = Some (Ok (VResponse "first")) ∧ call_outcome s 1 = Some (Ok (VResponse "second")) ∧
  call_outcome s 2 = Some (Ok (VPeers [[1]])) ∧ call_outcome s 3 = Some (Ok (VAddress [OtherProtocol "own"])).
Proof.
  split; [|split; [|split]].
  - refine (eq_trans (proj1 (calls_answered_as_asked boot asking empty_swarm 0 (rpc_request [1] "ids") _) _) _);
      [vm_compute; reflexivity|vm_compute; discriminate|vm_compute; reflexivity].
  - refine (eq_trans (proj1 (calls_answered_as_asked boot asking empty_swarm 1 (rpc_request [2] "ids") _) _) _);
      [vm_compute; reflexivity|vm_compute; discriminate|vm_compute; reflexivity].
  - refine (eq_trans (proj1 (calls_answered_as_asked boot asking empty_swarm 2 connected_peers _) _) _);
      [vm_compute; reflexivity|vm_compute; discriminate|vm_compute; reflexivity].
  - refine (eq_trans (proj1 (calls_answered_as_asked boot asking empty_swarm 3 (listen [OtherProtocol "tcp"]) _) _) _);
      [vm_compute; reflexivity|vm_compute; discriminate|vm_compute; reflexivity].
Defined.

Lemma immediate_calls_return_witness :
  is_Some (call_outcome (net_run boot (session ++ [LoopCommand]) empty_swarm) 2).
Proof.
  refine (immediate_calls_return boot session empty_swarm 2 peer_list _ _ _); vm_compute; reflexivity.
Defined.

Lemma shutdown_ends_calls_witness :
  net_phase (shutdown boot (net_run boot session empty_swarm)) = Ended.
Proof.
  refine (proj1 (shutdown_ends_calls boot session empty_swarm peer_list _)). vm_compute. discriminate.
Defined.

(** A client that gives up before its reply ends the loop for all others. *)
Example dropped_receiver_ends_loop :
  let s := net_run boot (session ++ [ReceiverDropped 2; LoopCommand; ClientCalls listen_addrs]) empty_swarm in
  net_phase s = Ended ∧ call_outcome s 3 = Some (Err ChannelSend).
Proof. vm_compute. split; reflexivity. Qed.
End NetworkExamples.
