(* ===== verification/NetBuild.v ===== *)
(** Around the event loop of the p2p crate: what [bootstrap] does with its
    peers, the [NetworkBuilder], the retries of the client and the RPC codec. *)

From S2P Require Import Prelude McTypes Network.

(** * Bootstrap peers (network_event_loop.rs) *)

Section BootstrapPeers.
Context {SW REQ RESP : Type} `{!Swarm SW REQ RESP}.
Local Abbreviation loop := (NetworkEventLoop SW REQ RESP).

(** A peer's id and address, from an address that ends in its id. *)
Definition parse_peer (a : Multiaddr) : outcome NetworkError (PeerId * Multiaddr) :=
  match addr_pop a with
  | (Some (P2p h), rest) => id ← map_err Multihash (peer_id_from_multihash (REQ:=REQ) (RESP:=RESP) h); Ok (id, rest)
  | (other, _) => Err (InvalidPeerAddress a other)
  end.

(** The addresses before the first malformed one are added. *)
Fixpoint good_peers (peers : list Multiaddr) : list (PeerId * Multiaddr) :=
  match peers with
  | [] => []
  | a :: rest => match parse_peer a with Ok p => p :: good_peers rest | _ => [] end
  end.

Definition add_peers (sw : SW) (l : list (PeerId * Multiaddr)) : SW :=
  foldl (λ sw '(p, a), kad_add_address p a sw) sw l.

Lemma add_bootstrap_peers_spec peers (l : loop) :
  add_bootstrap_peers peers l =
  (_ ← collect_results parse_peer peers; Ok tt, set_swarm (add_peers (swarm l) (good_peers peers)) l).
Proof.
  revert l. induction peers as [|a peers IH]; intros l; [by destruct l|].
  cbn [add_bootstrap_peers collect_results good_peers].
  destruct (parse_peer a) as [[id rest]|e|p] eqn:Hp; unfold parse_peer in Hp;
    destruct (addr_pop a) as [[[h|]|] rest']; simplify_eq/=; try (by destruct l);
    unfold st_bind, st_lift; destruct (peer_id_from_multihash h); simplify_eq/=; try by destruct l.
  rewrite IH. by destruct (collect_results parse_peer peers).
Qed.

Lemma bootstrap_bad_peer peers (l : loop) :
  is_ok (collect_results parse_peer peers) = false → is_ok (bootstrap peers l).1 = false.
Proof.
  unfold bootstrap, st_bind. rewrite add_bootstrap_peers_spec. by destruct (collect_results parse_peer peers).
Qed.

(** What identify reports is only used when the peer speaks the Kademlia
    protocol under libp2p's default name. *)
Lemma identify_other_protocols peer_id addrs protocols (l : loop) :
  kad_default_proto_name ∉ protocols →
  handle_swarm_event (IdentifyReceived peer_id addrs protocols) l = (Ok tt, l).
Proof.
  intros Hn. cbn. unfold handle_identify. destruct (existsb _ protocols) eqn:He; [|done].
  apply existsb_exists in He as (x & Hx & Heq%String.eqb_eq). subst x. by apply list_elem_of_In in Hx.
Qed.
End BootstrapPeers.

(** * The behaviour of a node (behaviour.rs) *)

Definition GOSSIPSUB_PROTO_ID_PREFIX : string := "mc/deqs/gossipsub".

Inductive ValidationMode := Strict | Permissive | Anonymous | NoValidation.

(** What is set of gossipsub's configuration; a message is seen by its data. *)
Record GossipsubConfig := {
  gc_protocol_id_prefix : string;
  gc_heartbeat_interval_secs : Z;
  gc_validation_mode : ValidationMode;
  gc_message_id_fn : bytes → string;
}.

(** The constructors of libp2p's behaviours, for a keypair [K], and the hash of
    [DefaultHasher] on bytes. *)
Class Libp2p (K G KD ID RR : Type) := {
  public_peer_id : K → PeerId;
  gossipsub_config_build : GossipsubConfig → outcome string unit;
  gossipsub_new : K → GossipsubConfig → outcome string G;
  kademlia_with_config : PeerId → list string → KD;
  identify_new : string → K → ID;
  request_response_new : string → RR;
  default_hash : bytes → Z;
}.

(** [struct Behaviour]; [keep_alive] and [ping] are the defaults. *)
Record Behaviour (G KD ID RR : Type) := mk_behaviour {
  bh_identify : ID;
  bh_kademlia : KD;
  bh_gossipsub : G;
  bh_rpc : RR;
}.
Arguments mk_behaviour {G KD ID RR} _ _ _ _.
Arguments bh_identify {G KD ID RR} _.
Arguments bh_kademlia {G KD ID RR} _.
Arguments bh_gossipsub {G KD ID RR} _.
Arguments bh_rpc {G KD ID RR} _.

Section BehaviourNew.
Context {K G KD ID RR : Type} `{!Libp2p K G KD ID RR}.

(** The id of a message is the hash of its contents, in decimal. *)
Definition message_id_fn (data : bytes) : string := pretty (default_hash data).

Definition gossipsub_config : GossipsubConfig := {|
  gc_protocol_id_prefix := GOSSIPSUB_PROTO_ID_PREFIX;
  gc_heartbeat_interval_secs := 10;
  gc_validation_mode := Strict;
  gc_message_id_fn := message_id_fn;
|}.

Definition create_gossipsub (local_key : K) : outcome NetworkError G :=
  _ ← map_err GossipsubBuild (gossipsub_config_build gossipsub_config);
  map_err GossipsubNew (gossipsub_new local_key gossipsub_config).
Definition create_kademlia (local_peer_id : PeerId) : KD := kademlia_with_config local_peer_id [KADEMLIA_PROTO_NAME].
Definition create_identify (local_key : K) : ID := identify_new IDENTIFY_PROTO_NAME local_key.
Definition create_rpc : RR := request_response_new RPC_PROTO_NAME.

Definition behaviour_new (local_key : K) : outcome NetworkError (Behaviour G KD ID RR) :=
  gossipsub ← create_gossipsub local_key;
  let kademlia := create_kademlia (public_peer_id local_key) in
  Ok (mk_behaviour (create_identify local_key) kademlia gossipsub create_rpc).

(** Messages with the same contents are one message to the network, and only
    those, up to collisions of the hash. *)
Lemma message_id_by_contents data data' :
  message_id_fn data = message_id_fn data' ↔ default_hash data = default_hash data'.
Proof. unfold message_id_fn. split; [apply (inj pretty)|by intros ->]. Qed.
End BehaviourNew.

(** * [NetworkBuilder] (network_builder.rs) *)

Record NetworkBuilder (K T B : Type) := mk_network_builder {
  nb_keypair : K;
  nb_transport : T;
  nb_listen_address : Multiaddr;
  nb_external_addresses : list Multiaddr;
  nb_behaviour : B;
  nb_bootstrap_peers : list Multiaddr;
}.
Arguments mk_network_builder {K T B} _ _ _ _ _ _.
Arguments nb_keypair {K T B} _.
Arguments nb_transport {K T B} _.
Arguments nb_listen_address {K T B} _.
Arguments nb_external_addresses {K T B} _.
Arguments nb_behaviour {K T B} _.
Arguments nb_bootstrap_peers {K T B} _.

Definition DEFAULT_LISTEN_ADDRESS : string := "/ip4/127.0.0.1/tcp/0".

Section Builder.
Context {SW REQ RESP : Type} `{!Swarm SW REQ RESP} {K T B : Type}.
(** [Multiaddr::from_str], [default_transport] and [SwarmBuilder]. *)
Context (parse_multiaddr : string → outcome string Multiaddr).
Context (default_transport : K → outcome NetworkError T) (swarm_new : T → B → K → SW).
Local Abbreviation builder := (NetworkBuilder K T B).

Definition default_listen_address : outcome NetworkError Multiaddr :=
  map_err MultiaddrError (parse_multiaddr DEFAULT_LISTEN_ADDRESS).

Definition network_builder_new (keypair : K) (behaviour : B) (bootstrap_peers : list Multiaddr) :
    outcome NetworkError builder :=
  transport ← default_transport keypair;
  listen_address ← default_listen_address;
  Ok (mk_network_builder keypair transport listen_address [] behaviour bootstrap_peers).

Definition nb_set_listen_address (address : Multiaddr) (b : builder) : builder :=
  mk_network_builder (nb_keypair b) (nb_transport b) address (nb_external_addresses b) (nb_behaviour b) (nb_bootstrap_peers b).
Definition nb_set_external_addresses (addresses : list Multiaddr) (b : builder) : builder :=
  mk_network_builder (nb_keypair b) (nb_transport b) (nb_listen_address b) addresses (nb_behaviour b) (nb_bootstrap_peers b).
Definition nb_set_transport (transport : T) (b : builder) : builder :=
  mk_network_builder (nb_keypair b) transport (nb_listen_address b) (nb_external_addresses b) (nb_behaviour b) (nb_bootstrap_peers b).

Definition build_swarm (b : builder) : SW :=
  foldl (λ sw addr, add_external_address addr sw)
    (swarm_new (nb_transport b) (nb_behaviour b) (nb_keypair b)) (nb_external_addresses b).

(** The network after [build] sent its [listen] command: what happened before,
    when nobody but [build] has the client, and after. *)
Definition build_net (b : builder) (before after : list (NetInput REQ RESP)) : Net SW REQ RESP :=
  net_run (nb_bootstrap_peers b) (before ++ ClientCalls (listen (nb_listen_address b)) :: after) (build_swarm b).

(** [build]: [None] while it waits for the address. *)
Definition build (b : builder) (before after : list (NetInput REQ RESP)) : option (outcome NetworkError (Net SW REQ RESP)) :=
  let s := build_net b before after in
  match call_outcome s 0 with
  | None => None
  | Some (Ok _) => Some (Ok s)
  | Some (Err e) => Some (Err (Client e))
  | Some (Panic p) => Some (Panic p)
  end.

Definition no_calls (inputs : list (NetInput REQ RESP)) : Prop := ∀ c, ClientCalls c ∉ inputs.

Context `{!SwarmLaws SW REQ RESP}.

Lemma no_calls_run peers inputs (sw : SW) : no_calls inputs → calls (net_run peers inputs sw) = [].
Proof.
  intros Hn. induction inputs as [|e inputs IH] using rev_ind; [done|].
  unfold net_run in *. rewrite foldl_app. cbn [foldl]. set (s := foldl _ _ inputs) in *.
  assert (calls s = []) as Hs by (apply IH; intros c Hc; apply (Hn c); set_solver).
  assert (∀ r (s0 : Net SW REQ RESP), calls (after_handler r s0) = calls s0) as Hafter
    by (intros [r l] s0; unfold after_handler; by case_match).
  destruct e; cbn [net_exec]; unfold net_step, client_rpc_response; repeat case_match; rewrite ?Hafter; try exact Hs.
  exfalso. apply (Hn c). set_solver.
Qed.

(** [build]'s call is the first one. *)
Lemma build_call b before after :
  no_calls before → calls (build_net b before after) !! 0%nat = Some (listen (nb_listen_address b)).
Proof.
  intros Hn. unfold build_net. rewrite cons_middle, app_assoc. unfold net_run. rewrite foldl_app.
  set (s := foldl _ _ (before ++ _)).
  assert (calls s !! 0%nat = Some (listen (nb_listen_address b))) as Hs.
  { unfold s. rewrite foldl_app. cbn. fold (net_run (nb_bootstrap_peers b) before (build_swarm b)).
    unfold client_call. rewrite (no_calls_run _ _ _ Hn). by case_decide. }
  clearbody s. induction after as [|e after IH] using rev_ind; [done|]. rewrite foldl_app. cbn [foldl].
  destruct (net_exec_grows (nb_bootstrap_peers b) (foldl (net_exec (nb_bootstrap_peers b)) s after) e) as [Hpre _].
  by eapply prefix_lookup_Some.
Qed.

(** A loop whose bootstrap peers are malformed never handles anything. *)
Lemma bad_peers_never_run peers inputs (sw : SW) :
  is_ok (collect_results (parse_peer (REQ:=REQ) (RESP:=RESP)) peers) = false →
  let s := net_run peers inputs sw in
  net_phase s ≠ Running ∧ replies (wires (net_loop s)) = ∅ ∧ (LoopStart ∈ inputs → net_phase s = Ended).
Proof.
  intros Hbad. induction inputs as [|e inputs IH] using rev_ind.
  { split; [done|]. split; [done|]. by intros ?%elem_of_nil. }
  unfold net_run in *. rewrite foldl_app. cbn [foldl]. set (s := foldl _ _ inputs) in *.
  destruct IH as (Hph & Hrep & Hend).
  assert (LoopStart ∈ inputs ++ [e] → LoopStart ∈ inputs ∨ e = LoopStart) as Hin by set_solver.
  assert (∀ s' : Net SW REQ RESP, e ≠ LoopStart → net_phase s' = net_phase s →
    replies (wires (net_loop s')) = replies (wires (net_loop s)) → net_phase s' ≠ Running ∧
    replies (wires (net_loop s')) = ∅ ∧ (LoopStart ∈ inputs ++ [e] → net_phase s' = Ended)) as Hkeep.
  { intros s' He -> ->. split; [done|]. split; [done|]. intros [?|?]%Hin; [auto|done]. }
  destruct e; cbn [net_exec]; unfold net_step, client_call, client_rpc_response;
    try (case_decide || case_bool_decide); try (apply Hkeep; [done|done|done]);
    destruct (net_phase s) eqn:Ep; try done; try (apply Hkeep; [done|by rewrite Ep|done]);
    [|by rewrite Ep].
  destruct (bootstrap peers (net_loop s)) as [r l] eqn:Hb.
  pose proof (bootstrap_bad_peer peers (net_loop s) Hbad) as Hr. rewrite Hb in Hr. cbn in Hr. rewrite Hr.
  apply bootstrap_swarm_only in Hb as (sw' & -> & _). done.
Qed.

Lemma build_cases b before after :
  no_calls before →
  (∀ s, build b before after = Some (Ok s) →
    is_ok (collect_results (parse_peer (REQ:=REQ) (RESP:=RESP)) (nb_bootstrap_peers b)) = true ∧
    ∃ address id, LoopSwarm (NewListenAddr address id) ∈ before ++ after) ∧
  (is_ok (collect_results (parse_peer (REQ:=REQ) (RESP:=RESP)) (nb_bootstrap_peers b)) = false →
    LoopStart ∈ before ++ after →
    build b before after = Some (Err (Client ChannelSend)) ∨
    build b before after = Some (Err (Client ChannelRecv))).
Proof.
  intros Hn. pose proof (build_call b before after Hn) as Hc. unfold build.
  set (inputs := before ++ ClientCalls (listen (nb_listen_address b)) :: after).
  assert (∀ i, LoopSwarm i ∈ inputs → LoopSwarm i ∈ before ++ after) as Hin by set_solver.
  pose proof (bad_peers_never_run (nb_bootstrap_peers b) inputs (build_swarm b)) as Hbad.
  change (net_run (nb_bootstrap_peers b) inputs (build_swarm b)) with (build_net b before after) in Hbad.
  destruct (call_outcome (build_net b before after) 0) as [r|] eqn:Hr.
  - apply call_outcome_cases in Hr as Hcases. destruct Hcases as (c & Hc' & Hcases).
    fold (build_net b before after) in Hc', Hcases. rewrite Hc in Hc'. injection Hc' as <-.
    split.
    + intros s Hs. destruct r as [v| |]; [|done..]. destruct Hcases as [[_ [?|?]]|(rep & Hrep & Hv)]; [done..|].
      split.
      * destruct (is_ok _) eqn:Hok; [done|]. destruct (Hbad eq_refl) as (_ & Hempty & _).
        rewrite Hempty in Hrep. by rewrite lookup_empty in Hrep.
      * destruct (net_run_inv (nb_bootstrap_peers b) inputs (build_swarm b)) as (owner & lost & Hinv).
        destruct (li_replies _ _ _ _ (ni_loop _ _ _ _ Hinv) _ _ Hrep) as (c & Hc' & Hj).
        change (net_run _ inputs _) with (build_net b before after) in Hc'. rewrite Hc in Hc'. injection Hc' as <-.
        destruct rep as [|[a| |]| | | |]; cbn in *; try done. destruct Hj as [id Hid]. eauto.
    + intros Hok _. destruct (Hbad Hok) as (_ & Hempty & _).
      destruct Hcases as [[_ [-> | ->]]|(rep & Hrep & _)]; [by left|by right|].
      rewrite Hempty in Hrep. by rewrite lookup_empty in Hrep.
  - split; [done|]. intros Hok Hstart. destruct (Hbad Hok) as (_ & _ & Hend).
    destruct (net_run_inv (nb_bootstrap_peers b) inputs (build_swarm b)) as (owner & lost & Hinv).
    destruct (call_ended _ _ _ _ _ _ Hinv Hc) as [r' Hr']; [apply Hend; set_solver|].
    change (net_run _ inputs _) with (build_net b before after) in Hr'. congruence.
Qed.

(** Building a network: when it succeeds, the swarm reported the address of
    a listener; when a bootstrap peer's address is malformed it never does, and
    the caller only learns that a channel is closed once the task has started. *)
Lemma build_spec b before after :
  no_calls before →
  (∀ s, build b before after = Some (Ok s) →
    is_ok (collect_results (parse_peer (REQ:=REQ) (RESP:=RESP)) (nb_bootstrap_peers b)) = true ∧
    ∃ address id, LoopSwarm (NewListenAddr address id) ∈ before ++ after) ∧
  (is_ok (collect_results (parse_peer (REQ:=REQ) (RESP:=RESP)) (nb_bootstrap_peers b)) = false →
    LoopStart ∈ before ++ after →
    build b before after = Some (Err (Client ChannelSend)) ∨
    build b before after = Some (Err (Client ChannelRecv))).
Proof. apply build_cases. Qed.
End Builder.

(** * Retries (client.rs) *)

(** [Retry::spawn]: the action, and again while the strategy gives a delay. *)
Fixpoint retry_spawn {E A} (delays k : nat) (action : nat → outcome E A) : outcome E A :=
  match action k with
  | Err e => match delays with O => Err e | S delays => retry_spawn delays (S k) action end
  | r => r
  end.

(** [retrying_rpc_request]; [attempt k] is the result of the [k]-th
    [rpc_request] it makes. *)
Definition retrying_rpc_request {RESP} (attempt : nat → outcome ClientError RESP) : outcome ClientError RESP :=
  retry_spawn 50 0 attempt.

Lemma retry_spawn_spec {E A} n k (action : nat → outcome E A) :
  (∀ j p, action j ≠ Panic p) →
  (∃ j a, (k ≤ j ≤ k + n)%nat ∧ action j = Ok a ∧ retry_spawn n k action = Ok a ∧
     ∀ i, (k ≤ i < j)%nat → is_err (action i) = true) ∨
  (∃ e, action (k + n)%nat = Err e ∧ retry_spawn n k action = Err e ∧
     ∀ i, (k ≤ i ≤ k + n)%nat → is_err (action i) = true).
Proof.
  intros Hp. revert k. induction n as [|n IH]; intros k; cbn; destruct (action k) as [a|e|p] eqn:Hk;
    try (by destruct (Hp k p)).
  - left. exists k, a. rewrite Nat.add_0_r. repeat split; [lia..|done|]. intros; lia.
  - right. exists e. rewrite Nat.add_0_r. repeat split; [done|]. intros i Hi. assert (i = k) as -> by lia. by rewrite Hk.
  - left. exists k, a. repeat split; [lia..|done|]. intros; lia.
  - destruct (IH (S k)) as [(j & a & Hj & Ha & Hr & Hbefore)|(e' & He & Hr & Hall)].
    + left. exists j, a. repeat split; [lia..|done|done|]. intros i Hi.
      destruct (decide (i = k)) as [->|]; [by rewrite Hk|]. apply Hbefore. lia.
    + right. exists e'. rewrite Nat.add_succ_r. repeat split; [done|done|]. intros i Hi.
      destruct (decide (i = k)) as [->|]; [by rewrite Hk|]. apply Hall. lia.
Qed.

(** A retrying request makes at most 51 attempts: its result is the first
    success among them, and if there is none the error of the last. *)
Lemma retrying_rpc_request_bounded {RESP} (attempt : nat → outcome ClientError RESP) :
  (∀ j p, attempt j ≠ Panic p) →
  (∃ j a, (j ≤ 50)%nat ∧ attempt j = Ok a ∧ retrying_rpc_request attempt = Ok a ∧
     ∀ i, (i < j)%nat → is_err (attempt i) = true) ∨
  (∃ e, attempt 50%nat = Err e ∧ retrying_rpc_request attempt = Err e ∧
     ∀ i, (i ≤ 50)%nat → is_err (attempt i) = true).
Proof.
  intros Hp. destruct (retry_spawn_spec 50 0 attempt Hp) as [(j & a & ? & ? & ? & H)|(e & ? & ? & H)].
  - left. exists j, a. repeat split; [lia|done..|]. intros i Hi. apply H. lia.
  - right. exists e. repeat split; [done..|]. intros i Hi. apply H. lia.
Qed.

(** * The RPC codec (rpc.rs) *)

Inductive IoErrorKind := UnexpectedEof | InvalidInput | OtherKind | KindOf (name : string).
Record IoError := mk_io_error { io_kind : IoErrorKind; io_text : string }.

Definition MAX_REQUEST_SIZE : Z := 1000000.
Definition MAX_RESPONSE_SIZE : Z := 500000000.

(** [mc_util_serial] on the messages, and libp2p's framing: writing to a
    stream, and reading from what the other side wrote. *)
Class RpcIo (IO MSG : Type) := {
  rpc_serialize : MSG → outcome string bytes;
  rpc_deserialize : bytes → outcome string MSG;
  write_length_prefixed : bytes → stateful IO IoError unit;
  io_close : stateful IO IoError unit;
  read_length_prefixed : bytes → Z → outcome IoError bytes;
  io_sent : IO → bytes;
}.

(** Serialization loses nothing and is never empty; a frame is read back
    unless it is longer than the limit. *)
Class RpcIoLaws (IO MSG : Type) `{!RpcIo IO MSG} := {
  frame : bytes → bytes;
  serialize_roundtrip m data : rpc_serialize m = Ok data → rpc_deserialize data = Ok m;
  serialize_nonempty m data : rpc_serialize m = Ok data → data ≠ [];
  write_frame data io io' : write_length_prefixed data io = (Ok tt, io') → io_sent io' = io_sent io ++ frame data;
  close_sent io r io' : io_close io = (r, io') → io_sent io' = io_sent io;
  read_frame data max : Z.of_nat (length data) ≤ max → read_length_prefixed (frame data) max = Ok data;
  read_too_long data max : max < Z.of_nat (length data) → is_err (read_length_prefixed (frame data) max) = true;
}.

Section Codec.
Context {IO MSG : Type} `{!RpcIo IO MSG}.

(** [read_request] and [read_response] differ in the limit, [write_request]
    and [write_response] in the text of the error. *)
Definition read_message (max : Z) (io : bytes) : outcome IoError MSG :=
  vec ← read_length_prefixed (MSG:=MSG) io max;
  if bool_decide (vec = []) then Err (mk_io_error UnexpectedEof "unexpected end of file")
  else map_err (mk_io_error InvalidInput) (rpc_deserialize vec).
Definition write_message (what : string) (m : MSG) : stateful IO IoError unit :=
  data <-- st_lift (map_err (λ err, mk_io_error OtherKind ("Failed to serialize " +:+ what +:+ ": " +:+ err)) (rpc_serialize (IO:=IO) m));;
  write_length_prefixed data;;; io_close;;; st_ret tt.

Definition read_request : bytes → outcome IoError MSG := read_message MAX_REQUEST_SIZE.
Definition read_response : bytes → outcome IoError MSG := read_message MAX_RESPONSE_SIZE.
Definition write_request : MSG → stateful IO IoError unit := write_message "request".
Definition write_response : MSG → stateful IO IoError unit := write_message "response".

Context `{!RpcIoLaws IO MSG}.

Lemma write_message_frame what m io io' :
  io_sent io = [] → write_message what m io = (Ok tt, io') →
  ∃ data, rpc_serialize m = Ok data ∧ io_sent io' = frame data.
Proof.
  intros Hio (data & io1 & Hs & (u & io2 & Hw & (v & io3 & Hc & [= <-])%st_bind_Ok_inv)%st_bind_Ok_inv)%st_bind_Ok_inv.
  injection Hs as Hs ->. inv_ok. destruct u. exists data. split; [done|].
  by rewrite (close_sent _ _ _ Hc), (write_frame _ _ _ Hw), Hio.
Qed.

Lemma read_message_frame max m data :
  rpc_serialize (IO:=IO) m = Ok data →
  if decide (Z.of_nat (length data) ≤ max) then read_message max (frame data) = Ok m
  else is_err (read_message max (frame data)) = true.
Proof.
  intros Hs. unfold read_message. case_decide as Hlen.
  - rewrite read_frame by done. cbn. rewrite bool_decide_eq_false_2 by by eapply serialize_nonempty.
    by rewrite (serialize_roundtrip m data Hs).
  - pose proof (read_too_long (MSG:=MSG) data max ltac:(lia)) as He.
    by destruct (read_length_prefixed (frame data) max).
Qed.

(** C40: What one side writes the other reads: a request or a response that was
    written is read back as it was, unless its serialization exceeds the limit
    of the reader, in which case the reader reports an error. *)
Theorem rpc_codec_roundtrip m io io1 io2 :
  io_sent io = [] → write_request m io = (Ok tt, io1) → write_response m io = (Ok tt, io2) →
  ∃ data, rpc_serialize (IO:=IO) m = Ok data ∧
    (if decide (Z.of_nat (length data) ≤ 1000000) then read_request (io_sent io1) = Ok m
     else is_err (read_request (io_sent io1)) = true) ∧
    (if decide (Z.of_nat (length data) ≤ 500000000) then read_response (io_sent io2) = Ok m
     else is_err (read_response (io_sent io2)) = true).
Proof.
  intros Hio (data & Hs & ->)%write_message_frame (data2 & Hs2 & ->)%write_message_frame; [|done..].
  assert (data2 = data) as -> by congruence. exists data. split; [done|].
  split; [exact (read_message_frame MAX_REQUEST_SIZE m data Hs)|exact (read_message_frame MAX_RESPONSE_SIZE m data Hs)].
Qed.
End Codec.

(** * Examples *)

Module NetBuildExamples.
Import NetworkExamples.

(** A stream is the bytes written, a message a list of bytes behind a tag. *)
#[export] Instance sample_io : RpcIo (list Z) (list Z) := {|
  rpc_serialize m := Ok (1 :: m);
  rpc_deserialize data := match data with 1 :: m => Ok m | _ => Err "tag" end;
  write_length_prefixed data io := (Ok tt, io ++ Z.of_nat (length data) :: data);
  io_close io := (Ok tt, io);
  read_length_prefixed io max :=
    match io with
    | n :: rest => if n <=? max then Ok (take (Z.to_nat n) rest) else Err (mk_io_error (KindOf "InvalidData") "too long")
    | [] => Err (mk_io_error UnexpectedEof "")
    end;
  io_sent io := io;
|}.
#[export] Program Instance sample_io_laws : RpcIoLaws (list Z) (list Z) := {|
  frame data := Z.of_nat (length data) :: data;
|}.
Next Obligation. by intros m data [= <-]. Qed.
Next Obligation. by intros m data [= <-]. Qed.
Next Obligation. by intros data io io' [= <-]. Qed.
Next Obligation. by intros io r io' [= <- <-]. Qed.
Next Obligation.
  intros data max Hlen. cbn. rewrite (proj2 (Z.leb_le _ _) Hlen), Nat2Z.id. by rewrite take_ge.
Qed.
Next Obligation. intros data max Hlen. cbn. by rewrite (proj2 (Z.leb_gt _ _)) by lia. Qed.

Definition example_builder (peers : list (list Protocol)) : NetworkBuilder unit unit unit :=
  mk_network_builder tt tt [OtherProtocol "tcp"] [] tt peers.
Definition example_swarm_new (_ _ _ : unit) : SampleSwarm := empty_swarm.
Definition listening : list (NetInput string string) := [LoopCommand; LoopSwarm (NewListenAddr [OtherProtocol "tcp"] 0)].

Example build_returns : is_Some (build example_swarm_new (example_builder boot) [LoopStart] listening).
Proof. vm_compute. eauto. Qed.

Lemma build_spec_witness :
  no_calls (REQ:=string) (RESP:=string) [LoopStart] ∧
  (build example_swarm_new (example_builder [[OtherProtocol "dns/node1"]]) [LoopStart] listening =
     Some (Err (Client ChannelSend)) ∨
   build example_swarm_new (example_builder [[OtherProtocol "dns/node1"]]) [LoopStart] listening =
     Some (Err (Client ChannelRecv))).
Proof.
  assert (no_calls (REQ:=string) (RESP:=string) [LoopStart]) as Hn
    by (intros c Hc; apply list_elem_of_singleton in Hc; discriminate).
  split; [exact Hn|].
  refine (proj2 (build_spec example_swarm_new (example_builder [[OtherProtocol "dns/node1"]]) [LoopStart] listening Hn) _ _);
    [vm_compute; reflexivity|apply list_elem_of_here].
Defined.

Lemma retrying_rpc_request_bounded_witness :
  ∃ r, retrying_rpc_request (λ k, if Nat.leb 2 k then Ok k else Err ChannelRecv) = r ∧
  ((∃ j a, (j ≤ 50)%nat ∧ (if Nat.leb 2 j then Ok j else Err ChannelRecv) = Ok a ∧ r = Ok a ∧
     ∀ i, (i < j)%nat → is_err (if Nat.leb 2 i then Ok i else Err ChannelRecv) = true) ∨
   (∃ e, (if Nat.leb 2 50 then Ok 50%nat else Err ChannelRecv) = Err e ∧ r = Err e ∧
     ∀ i, (i ≤ 50)%nat → is_err (if Nat.leb 2 i then Ok i else Err ChannelRecv) = true)).
Proof.
  eexists. split; [reflexivity|].
  apply (retrying_rpc_request_bounded (λ k, if Nat.leb 2 k then Ok k else Err ChannelRecv)).
  intros j p. destruct (Nat.leb 2 j); discriminate.
Defined.

Lemma rpc_codec_roundtrip_witness :
  read_request (IO:=list Z) [3; 1; 8; 9] = Ok [8; 9] ∧ ∃ data, rpc_serialize (IO:=list Z) [8; 9] = Ok data ∧
    (if decide (Z.of_nat (length data) ≤ 1000000) then read_request (IO:=list Z) [3; 1; 8; 9] = Ok [8; 9]
     else is_err (read_request (IO:=list Z) (MSG:=list Z) [3; 1; 8; 9]) = true).
Proof.
  split; [vm_compute; reflexivity|].
  destruct (rpc_codec_roundtrip (IO:=list Z) (MSG:=list Z) [8; 9] [] [3; 1; 8; 9] [3; 1; 8; 9]) as (data & Hs & Hr & _); [reflexivity..|].
  exists data. exact (conj Hs Hr).
Defined.
End NetBuildExamples.
