(* ===== verification/ServerNet.v ===== *)
(** Starting a server's peer-to-peer layer on the network of the p2p crate:
    [P2P::new] (server/src/p2p/mod.rs), [Server::start] and
    [Server::shutdown] (server/src/server.rs), and the topics a node is
    subscribed to. *)

From S2P Require Import Prelude McTypes QuoteApi QuotePricing QuoteBook InMemory SqlTypes Sqlite Synchronized ApiConvert ClientService ServerP2P ServerStart Network NetBuild.

(** * Awaiting a call of the client *)

Section Await.
Context {SW REQ RESP : Type} `{!Swarm SW REQ RESP}.
Local Abbreviation net := (Net SW REQ RESP).

(** [client.method(..).await]: the call, what happens while it waits, and its
    result, [None] while there is none. *)
Definition client_await (peers : list Multiaddr) (c : ClientCall REQ) (meanwhile : list (NetInput REQ RESP)) (s : net) :
    option (outcome ClientError (ClientValue RESP)) * net :=
  let s' := foldl (net_exec peers) s (ClientCalls c :: meanwhile) in
  (call_outcome s' (length (calls s)), s').
End Await.

(** * Topics *)

(** The topics gossipsub is subscribed to: a subscription that succeeds adds
    one, and nothing else takes one away. *)
Class SwarmTopics (SW REQ RESP : Type) `{!Swarm SW REQ RESP} := {
  topics : SW → gset string;
  subscribe_topics t s r s' : gossipsub_subscribe t s = (r, s') →
    topics s ⊆ topics s' ∧ (is_ok r = true → t ∈ topics s');
  listen_topics a s r s' : listen_on a s = (r, s') → topics s ⊆ topics s';
  send_request_topics p q s i s' : send_request p q s = (i, s') → topics s ⊆ topics s';
  send_response_topics c q s r s' : send_response c q s = (r, s') → topics s ⊆ topics s';
  publish_topics t m s r s' : gossipsub_publish t m s = (r, s') → topics s ⊆ topics s';
  add_address_topics p a s : topics s ⊆ topics (kad_add_address p a s);
  kad_bootstrap_topics s r s' : kad_bootstrap s = (r, s') → topics s ⊆ topics s';
  start_providing_topics k s r s' : kad_start_providing k s = (r, s') → topics s ⊆ topics s';
  get_providers_topics k s : topics s ⊆ topics (kad_get_providers k s);
  polled_topics e s : topics s ⊆ topics (swarm_polled e s);
}.

Section Topics.
Context {SW REQ RESP : Type} `{!Swarm SW REQ RESP, !SwarmLaws SW REQ RESP, !SwarmTopics SW REQ RESP}.
Local Abbreviation loop := (NetworkEventLoop SW REQ RESP).
Local Abbreviation net := (Net SW REQ RESP).

(** Steps of the loop that keep the topics. *)
Definition keeps_topics {A} (m : stateful loop NetworkError A) : Prop :=
  ∀ l r l', m l = (r, l') → topics (swarm l) ⊆ topics (swarm l').

Lemma keeps_topics_bind {A B} (m : stateful loop NetworkError A) (k : A → stateful loop NetworkError B) :
  keeps_topics m → (∀ a, keeps_topics (k a)) → keeps_topics (st_bind m k).
Proof.
  intros Hm Hk l r l'. unfold st_bind. destruct (m l) as [[a|e|p] l1] eqn:Hl; apply Hm in Hl.
  - intros Hr%Hk. set_solver.
  - by intros [= _ <-].
  - by intros [= _ <-].
Qed.
Lemma keeps_topics_ret {A} (a : A) : keeps_topics (st_ret a).
Proof. by intros l r l' [= _ <-]. Qed.
Lemma keeps_topics_lift {A} (x : outcome NetworkError A) : keeps_topics (st_lift x).
Proof. by intros l r l' [= _ <-]. Qed.
Lemma keeps_topics_oneshot i x : keeps_topics (send_oneshot i x).
Proof. intros l r l'. unfold send_oneshot. by case_bool_decide; intros [= _ <-]. Qed.
Lemma keeps_topics_event e : keeps_topics (send_event e).
Proof. intros l r l'. unfold send_event. by destruct (events_closed _); intros [= _ <-]. Qed.
Lemma keeps_topics_on_swarm {A} (f : stateful SW string A) :
  (∀ s r s', f s = (r, s') → topics s ⊆ topics s') → keeps_topics (on_swarm f).
Proof.
  intros Hf l r l'. unfold on_swarm. destruct (f (swarm l)) as [x sw] eqn:Hx. apply Hf in Hx.
  by destruct x; intros [= _ <-].
Qed.
Lemma keeps_topics_upd f : (∀ s, topics s ⊆ topics (f s)) → keeps_topics (upd_swarm f).
Proof. intros Hf l r l' [= _ <-]. apply Hf. Qed.
Lemma keeps_topics_try {A} from (f : stateful SW string A) :
  (∀ s r s', f s = (r, s') → topics s ⊆ topics s') → keeps_topics (try_swarm from f).
Proof. intros Hf. apply keeps_topics_bind; [by apply keeps_topics_on_swarm|intros; apply keeps_topics_lift]. Qed.
End Topics.

Create HintDb topics.
#[export] Hint Resolve keeps_topics_ret keeps_topics_lift keeps_topics_oneshot keeps_topics_event
  keeps_topics_on_swarm keeps_topics_upd keeps_topics_try keeps_topics_bind : topics.
#[export] Hint Resolve listen_topics send_response_topics publish_topics add_address_topics
  kad_bootstrap_topics start_providing_topics get_providers_topics : topics.

Section Subscribed.
Context {SW REQ RESP : Type} `{!Swarm SW REQ RESP, !SwarmLaws SW REQ RESP, !SwarmTopics SW REQ RESP}.
Context (peers : list Multiaddr).
Local Abbreviation loop := (NetworkEventLoop SW REQ RESP).
Local Abbreviation net := (Net SW REQ RESP).

Lemma keeps_topics_add_peers ps : keeps_topics (add_bootstrap_peers (SW:=SW) (REQ:=REQ) (RESP:=RESP) ps).
Proof.
  induction ps as [|a ps IH]; cbn [add_bootstrap_peers]; [auto with topics|].
  destruct (addr_pop a) as [[[h|]|] rest]; auto with topics.
Qed.

Lemma keeps_topics_bootstrap ps : keeps_topics (bootstrap (SW:=SW) (REQ:=REQ) (RESP:=RESP) ps).
Proof.
  unfold bootstrap. apply keeps_topics_bind; [apply keeps_topics_add_peers|intros _].
  apply keeps_topics_bind; [case_bool_decide; eauto with topics|intros _]. eauto with topics.
Qed.

Lemma topics_add_addresses p addrs (sw : SW) :
  topics sw ⊆ topics (foldl (λ sw addr, kad_add_address p addr sw) sw addrs).
Proof.
  revert sw. induction addrs as [|a addrs IH]; intros sw; [done|]. cbn.
  etransitivity; [apply (add_address_topics p a)|apply IH].
Qed.

Lemma keeps_topics_swarm_event e : keeps_topics (handle_swarm_event (SW:=SW) (REQ:=REQ) (RESP:=RESP) e).
Proof.
  assert (∀ id r, keeps_topics (reply_rpc (SW:=SW) (REQ:=REQ) (RESP:=RESP) id r)) as Hrpc.
  { intros id x l r l'. unfold reply_rpc. destruct (pending_rpc_requests l !! id); [|by intros [= _ <-]].
    intros Hr%keeps_topics_oneshot. exact Hr. }
  assert (∀ id a, keeps_topics (reply_listen (SW:=SW) (REQ:=REQ) (RESP:=RESP) id a)) as Hlisten.
  { intros id x l r l'. unfold reply_listen. destruct (listener_requests l !! id); [|by intros [= _ <-]].
    intros Hr%keeps_topics_oneshot. exact Hr. }
  destruct e; cbn [handle_swarm_event]; auto with topics.
  - case_match; auto with topics.
  - unfold handle_identify. case_match; [|auto with topics]. apply keeps_topics_upd. intros s. apply topics_add_addresses.
Qed.

Lemma keeps_topics_command c : keeps_topics (handle_command (SW:=SW) (REQ:=REQ) (RESP:=RESP) c).
Proof.
  destruct c; cbn [handle_command]; eauto with topics.
  - intros l r l'. apply keeps_topics_oneshot.
  - apply keeps_topics_bind; [eauto with topics|]. intros [x|e|p]; [|auto with topics..]. by intros l r l' [= _ <-].
  - intros l r l'. apply keeps_topics_oneshot.
  - intros l r l'. apply keeps_topics_oneshot.
  - apply keeps_topics_bind; [|auto with topics]. apply keeps_topics_on_swarm. intros s r s' Hs.
    exact (proj1 (subscribe_topics _ _ _ _ Hs)).
  - intros l r l'. destruct (send_request peer request (swarm l)) as [i sw] eqn:Hs. intros [= _ <-].
    by apply send_request_topics in Hs.
Qed.

(** Once subscribed, always subscribed. *)
Lemma net_exec_topics (s : net) e : topics (swarm (net_loop s)) ⊆ topics (swarm (net_loop (net_exec peers s e))).
Proof.
  assert (∀ (r : outcome NetworkError unit * loop) (s0 : net), swarm (net_loop (after_handler r s0)) = swarm r.2) as Hafter
    by (intros [r l] s0; unfold after_handler; cbn; by case_match).
  destruct e as [c| | | | | |ev| | |]; cbn [net_exec]; try done.
  - unfold client_call. by case_decide.
  - unfold client_rpc_response. by case_decide.
  - by case_bool_decide.
  - unfold net_step. destruct (net_phase s); try done.
    destruct (bootstrap _ _) as [r l] eqn:Hb. apply keeps_topics_bootstrap in Hb. by case_match.
  - unfold net_step. destruct (net_phase s); try done. rewrite Hafter.
    destruct (handle_swarm_event _ _) as [x l'] eqn:Hx. apply keeps_topics_swarm_event in Hx.
    pose proof (polled_topics ev (swarm (net_loop s))). cbn in *. set_solver.
  - unfold net_step. destruct (net_phase s); try done. destruct (command_queue s); [done|]. rewrite Hafter.
    destruct (handle_command _ _) as [x l'] eqn:Hx. by apply keeps_topics_command in Hx.
  - unfold net_step. destruct (net_phase s); try done. rewrite Hafter.
    destruct (bootstrap _ _) as [r l] eqn:Hb. by apply keeps_topics_bootstrap in Hb.
  - unfold net_step. destruct (net_phase s); try done. by destruct (shutdown_sent s).
Qed.

Lemma net_exec_topics_run (s : net) inputs :
  topics (swarm (net_loop s)) ⊆ topics (swarm (net_loop (foldl (net_exec peers) s inputs))).
Proof.
  revert s. induction inputs as [|e inputs IH]; intros s; [done|]. cbn.
  etransitivity; [apply net_exec_topics|apply IH].
Qed.

(** A step that sends no confirmation of a subscription. *)
Definition no_confirmation {A} (m : stateful loop NetworkError A) : Prop :=
  ∀ l r l' i b, m l = (r, l') → replies (wires l') !! i = Some (SubscribeReply (Ok b)) →
    replies (wires l) !! i = Some (SubscribeReply (Ok b)).

Lemma no_confirmation_bind {A B} (m : stateful loop NetworkError A) (k : A → stateful loop NetworkError B) :
  no_confirmation m → (∀ a, no_confirmation (k a)) → no_confirmation (st_bind m k).
Proof.
  intros Hm Hk l r l' i b. unfold st_bind. destruct (m l) as [[a|e|p] l1] eqn:Hl.
  - intros Hr Hi. eapply Hm; [done|]. by eapply Hk.
  - intros [= _ <-]. by eapply Hm.
  - intros [= _ <-]. by eapply Hm.
Qed.
Lemma no_confirmation_same {A} (m : stateful loop NetworkError A) :
  (∀ l r l', m l = (r, l') → replies (wires l') = replies (wires l)) → no_confirmation m.
Proof. intros Hm l r l' i b ->%Hm. done. Qed.
Lemma no_confirmation_oneshot i r :
  (∀ b, r ≠ SubscribeReply (Ok b)) → no_confirmation (send_oneshot i r).
Proof.
  intros Hr l x l' j b. unfold send_oneshot. case_bool_decide; intros [= _ <-]; [done|]. cbn.
  rewrite lookup_insert_Some. by intros [[_ ?]|[_ ?]]; [destruct (Hr b)|].
Qed.
Lemma on_swarm_replies {A} (f : stateful SW string A) (l : loop) r l' :
  on_swarm f l = (r, l') → replies (wires l') = replies (wires l).
Proof. unfold on_swarm. destruct (f (swarm l)) as [[] ?]; by intros [= _ <-]. Qed.
Lemma bootstrap_replies ps (l : loop) r l' :
  bootstrap ps l = (r, l') → replies (wires l') = replies (wires l).
Proof. by intros (sw & -> & _)%bootstrap_swarm_only. Qed.

Lemma no_confirmation_swarm_event e : no_confirmation (handle_swarm_event (SW:=SW) (REQ:=REQ) (RESP:=RESP) e).
Proof.
  assert (∀ e, no_confirmation (send_event (SW:=SW) (REQ:=REQ) (RESP:=RESP) e)) as Hevent.
  { intros e0. apply no_confirmation_same. intros l r l'. unfold send_event. by case_match; intros [= _ <-]. }
  assert (∀ id r, no_confirmation (reply_rpc (SW:=SW) (REQ:=REQ) (RESP:=RESP) id r)) as Hrpc.
  { intros id x l r l' i b. unfold reply_rpc. destruct (pending_rpc_requests l !! id); [|by intros [= _ <-]].
    intros Hr Hi. exact (no_confirmation_oneshot _ (RpcReply x) ltac:(done) _ _ _ _ _ Hr Hi). }
  assert (∀ id a, no_confirmation (reply_listen (SW:=SW) (REQ:=REQ) (RESP:=RESP) id a)) as Hlisten.
  { intros id x l r l' i b. unfold reply_listen. destruct (listener_requests l !! id); [|by intros [= _ <-]].
    intros Hr Hi. exact (no_confirmation_oneshot _ (ListenReply (Ok x)) ltac:(done) _ _ _ _ _ Hr Hi). }
  assert (no_confirmation (st_ret (S:=loop) (E:=NetworkError) tt)) as Hret by by intros l r l' i b [= _ <-].
  destruct e; cbn [handle_swarm_event]; auto.
  - by apply no_confirmation_bind.
  - case_match; auto.
  - unfold handle_identify. case_match; [|done]. by intros l r l' i b [= _ <-].
Qed.

(** Only the command of a subscription confirms it, when gossipsub has the
    topic. *)
Lemma command_confirms cmd (l : loop) r l' i b :
  handle_command cmd l = (r, l') → replies (wires l') !! i = Some (SubscribeReply (Ok b)) →
  replies (wires l) !! i = Some (SubscribeReply (Ok b)) ∨ ∃ t, cmd = SubscribeGossip t i ∧ t ∈ topics (swarm l').
Proof.
  assert (∀ m : stateful loop NetworkError unit, no_confirmation m → m l = (r, l') →
    replies (wires l') !! i = Some (SubscribeReply (Ok b)) → replies (wires l) !! i = Some (SubscribeReply (Ok b)) ∨
      ∃ t, cmd = SubscribeGossip t i ∧ t ∈ topics (swarm l')) as Hno.
  { intros m Hm Hr Hi. left. by eapply Hm. }
  destruct cmd as [j|a j|j|j|t m j|t j|p q j|q c]; cbn [handle_command].
  - by apply (Hno (λ l, send_oneshot j _ l)); intros ?????; apply no_confirmation_oneshot.
  - apply Hno, no_confirmation_bind; [apply no_confirmation_same, on_swarm_replies|].
    intros [id|e|p]; [by intros ????? [= _ <-]|by apply no_confirmation_oneshot|by intros ????? [= _ <-]].
  - by apply (Hno (λ l, send_oneshot j _ l)); intros ?????; apply no_confirmation_oneshot.
  - by apply (Hno (λ l, send_oneshot j _ l)); intros ?????; apply no_confirmation_oneshot.
  - apply Hno, no_confirmation_bind; [apply no_confirmation_same, on_swarm_replies|].
    intros x. by apply no_confirmation_oneshot.
  - unfold st_bind, on_swarm. destruct (gossipsub_subscribe t (swarm l)) as [x sw] eqn:Hs. apply subscribe_topics in Hs as [_ Hs].
    assert (∀ l0 : loop, swarm l0 = sw → replies (wires l0) = replies (wires l) → send_oneshot j (SubscribeReply x) l0 = (r, l') →
      replies (wires l') !! i = Some (SubscribeReply (Ok b)) →
      replies (wires l) !! i = Some (SubscribeReply (Ok b)) ∨ ∃ t0, SubscribeGossip (REQ:=REQ) (RESP:=RESP) t j = SubscribeGossip t0 i ∧ t0 ∈ topics (swarm l')) as Hsend.
    { intros l0 Hsw <-. unfold send_oneshot. case_bool_decide; intros [= _ <-]; [by left|]. cbn.
      rewrite lookup_insert_Some. intros [[-> [= ->]]|[_ ?]]; [right; exists t|by left].
      split; [done|]. rewrite Hsw. by apply Hs. }
    destruct x as [x|e|p]; [by apply Hsend..|by intros [= _ <-]; left].
  - intros Hr Hi. left. destruct (send_request p q (swarm l)) as [id sw]. by injection Hr as _ <-.
  - apply Hno, no_confirmation_bind; [apply no_confirmation_same, on_swarm_replies|]. by intros ?????? [= _ <-].
Qed.

Lemma exec_confirms (s : net) e i b :
  replies (wires (net_loop (net_exec peers s e))) !! i = Some (SubscribeReply (Ok b)) →
  replies (wires (net_loop s)) !! i = Some (SubscribeReply (Ok b)) ∨
  ∃ t, SubscribeGossip t i ∈ command_queue s ∧ t ∈ topics (swarm (net_loop (net_exec peers s e))).
Proof.
  assert (∀ (r : outcome NetworkError unit * loop) (s0 : net), wires (net_loop (after_handler r s0)) = wires r.2 ∧
    swarm (net_loop (after_handler r s0)) = swarm r.2) as Hafter
    by (intros [r l] s0; unfold after_handler; cbn; by case_match).
  destruct e as [c| | | | | |ev| | |]; cbn [net_exec]; try (by left).
  - unfold client_call. case_decide; by left.
  - unfold client_rpc_response. case_decide; by left.
  - case_bool_decide; by left.
  - unfold net_step. destruct (net_phase s); try (by left).
    destruct (bootstrap _ _) as [r l] eqn:Hb. apply bootstrap_replies in Hb as Hr. case_match; cbn; rewrite Hr; by left.
  - unfold net_step. destruct (net_phase s); try (by left).
    match goal with |- context [after_handler ?r ?s0] => destruct (Hafter r s0) as [-> ->] end.
    destruct (handle_swarm_event _ _) as [x l'] eqn:Hx. intros Hi. left.
    exact (no_confirmation_swarm_event _ _ _ _ _ _ Hx Hi).
  - unfold net_step. destruct (net_phase s); try (by left). destruct (command_queue s) as [|cmd q]; [by left|].
    match goal with |- context [after_handler ?r ?s0] => destruct (Hafter r s0) as [-> ->] end.
    destruct (handle_command _ _) as [x l'] eqn:Hx. intros Hi.
    destruct (command_confirms _ _ _ _ _ _ Hx Hi) as [?|(t & -> & Ht)]; [by left|right].
    exists t. split; [apply list_elem_of_here|done].
  - unfold net_step. destruct (net_phase s); try (by left).
    match goal with |- context [after_handler ?r ?s0] => destruct (Hafter r s0) as [-> ->] end.
    destruct (bootstrap _ _) as [r l] eqn:Hb. apply bootstrap_replies in Hb. cbn. rewrite Hb. by left.
  - unfold net_step. destruct (net_phase s); try (by left). destruct (shutdown_sent s); by left.
Qed.

(** A subscription that was confirmed is in force. *)
Lemma confirmed_subscribed inputs sw i t b :
  let s := net_run peers inputs sw in
  calls s !! i = Some (subscribe_gossip t) → replies (wires (net_loop s)) !! i = Some (SubscribeReply (Ok b)) →
  t ∈ topics (swarm (net_loop s)).
Proof.
  induction inputs as [|e inputs IH] using rev_ind; [done|].
  destruct (net_run_inv peers inputs sw) as (owner & lost & Hinv).
  unfold net_run in *. rewrite foldl_app. cbn [foldl]. set (s := foldl _ _ inputs) in *. cbn. intros Hc Hr.
  destruct (net_exec_grows peers s e) as [Hpre _].
  apply exec_confirms in Hr as [Hr|(t' & Hq & Ht')].
  - destruct (li_replies _ _ _ _ (ni_loop _ _ _ _ Hinv) _ _ Hr) as (c & Hc' & _).
    pose proof (prefix_lookup_Some _ _ _ _ Hc' Hpre) as Hc''.
    assert (c = subscribe_gossip t) as -> by congruence. exact (net_exec_topics s e t (IH Hc' Hr)).
  - destruct (ni_queue _ _ _ _ Hinv _ i Hq) as (c & Hc' & Hcmd); [done|].
    pose proof (prefix_lookup_Some _ _ _ _ Hc' Hpre) as Hc''.
    assert (c = subscribe_gossip t) as -> by congruence. by injection Hcmd as ->.
Qed.
End Subscribed.

(** * [P2P::new] (p2p/mod.rs) *)

(** The options of the peer-to-peer layer. *)
Record P2POptions (K : Type) := mk_p2p_options {
  o_bootstrap_peers : list Multiaddr;
  o_listen_addr : option Multiaddr;
  o_external_addr : option Multiaddr;
  o_keypair : option K;
}.
Arguments mk_p2p_options {K} _ _ _ _.
Arguments o_bootstrap_peers {K} _.
Arguments o_listen_addr {K} _.
Arguments o_external_addr {K} _.
Arguments o_keypair {K} _.

(** The errors of the start, those of the p2p crate in full. *)
Inductive StartError := StartNetwork (e : NetworkError) | StartClient (e : ClientError).

Section P2PNew.
Context {SW QB K T G KD ID RR : Type} `{!Swarm SW Request Response, !Libp2p K G KD ID RR}.
Context (generate_ed25519 : K) (parse_multiaddr : string → outcome string Multiaddr).
Context (default_transport : K → outcome NetworkError T) (swarm_new : T → Behaviour G KD ID RR → K → SW).
Local Abbreviation input := (NetInput Request Response).
Local Abbreviation net := (Net SW Request Response).

(** The builder with the options. *)
Definition p2p_builder (o : P2POptions K) : outcome NetworkError (NetworkBuilder K T (Behaviour G KD ID RR)) :=
  let keypair := default generate_ed25519 (o_keypair o) in
  behaviour ← behaviour_new keypair;
  network_builder ← network_builder_new parse_multiaddr default_transport keypair behaviour (o_bootstrap_peers o);
  let network_builder :=
    match o_listen_addr o with
    | Some listen_addr => nb_set_listen_address listen_addr network_builder
    | None => network_builder
    end in
  Ok (match o_external_addr o with
      | Some external_addr => nb_set_external_addresses [external_addr] network_builder
      | None => network_builder
      end).

(** [P2P::new] with what the network does before and after [build] asks it to
    listen, and while the subscription waits: [None] while it waits.  The
    metrics are the process's. *)
Definition p2p_new (metrics : P2PRpcMetrics) (quote_book : QB) (o : P2POptions K) (before listening subscribing : list input) :
    option (outcome StartError (P2P QB * net)) :=
  match p2p_builder o with
  | Err e => Some (Err (StartNetwork e))
  | Panic p => Some (Panic p)
  | Ok network_builder =>
      match build swarm_new network_builder before listening with
      | None => None
      | Some (Err e) => Some (Err (StartNetwork e))
      | Some (Panic p) => Some (Panic p)
      | Some (Ok network) =>
          let '(r, network) :=
            client_await (o_bootstrap_peers o) (subscribe_gossip MSG_BUS_TOPIC) subscribing network in
          match r with
          | None => None
          | Some (Err e) => Some (Err (StartClient e))
          | Some (Panic p) => Some (Panic p)
          | Some (Ok _) => Some (Ok (mk_p2p quote_book metrics [] [] [], network))
          end
      end
  end.

(** [P2P::listen_addrs] *)
Definition p2p_listen_addrs (o : P2POptions K) (meanwhile : list input) (network : net) :
    option (outcome StartError (list Multiaddr)) * net :=
  let '(r, network) := client_await (o_bootstrap_peers o) listen_addrs meanwhile network in
  (match r with
   | None => None
   | Some (Ok (VAddresses l)) => Some (Ok l)
   | Some (Ok _) => Some (Panic "reply of another type")
   | Some (Err e) => Some (Err (StartClient e))
   | Some (Panic p) => Some (Panic p)
   end, network).
End P2PNew.

(** * [Server::start] and [Server::shutdown] (server.rs) *)

(** [struct Server], with the task and the network it keeps running. *)
Record Server (QB SRV SW : Type) := mk_server {
  sv_grpc_server : GrpcServer SRV;
  sv_quote_minimum_map : gmap Z Z;
  sv_p2p_listen_addrs : list Multiaddr;
  sv_loop : ServerLoop QB;
  sv_ended : bool;
  sv_net : Net SW Request Response;
}.
Arguments mk_server {QB SRV SW} _ _ _ _ _ _.
Arguments sv_grpc_server {QB SRV SW} _.
Arguments sv_quote_minimum_map {QB SRV SW} _.
Arguments sv_p2p_listen_addrs {QB SRV SW} _.
Arguments sv_loop {QB SRV SW} _.
Arguments sv_ended {QB SRV SW} _.
Arguments sv_net {QB SRV SW} _.

(** What the network does in the phases of the start. *)
Record StartPhases := mk_phases {
  ph_before : list (NetInput Request Response);
  ph_listening : list (NetInput Request Response);
  ph_subscribing : list (NetInput Request Response);
  ph_addressing : list (NetInput Request Response);
}.

Section Start.
Context {SW QB K T G KD ID RR SRV W : Type} `{!Swarm SW Request Response, !Libp2p K G KD ID RR, !GrpcIo SRV W}.
Context (generate_ed25519 : K) (parse_multiaddr : string → outcome string Multiaddr).
Context (default_transport : K → outcome NetworkError T) (swarm_new : T → Behaviour G KD ID RR → K → SW).
Local Abbreviation new := (p2p_new (QB:=QB) generate_ed25519 parse_multiaddr default_transport swarm_new).
Local Abbreviation net := (Net SW Request Response).

(** [Server::start]: [None] while it waits for the network. *)
Definition server_start (metrics : P2PRpcMetrics) (quote_book : QB) (grpc_listen_address : ClientUri) (o : P2POptions K)
    (quote_minimum_tuples : list (TokenId * Z)) (ph : StartPhases) (w : W) :
    option (outcome StartError (Server QB SRV SW * W)) :=
  match new metrics quote_book o (ph_before ph) (ph_listening ph) (ph_subscribing ph) with
  | None => None
  | Some (Err e) => Some (Err e)
  | Some (Panic p) => Some (Panic p)
  | Some (Ok (p2p, network)) =>
      let '(r, network) := p2p_listen_addrs o (ph_addressing ph) network in
      match r with
      | None => None
      | Some (Err e) => Some (Err e)
      | Some (Panic p) => Some (Panic p)
      | Some (Ok p2p_listen_addrs) =>
          match grpc_server_start (grpc_new grpc_listen_address, w) with
          | (Ok _, (grpc_server, w)) =>
              Some (Ok (mk_server grpc_server (quote_minimum_map quote_minimum_tuples) p2p_listen_addrs
                          (mk_loop p2p 0 0) false network, w))
          | _ => Some (Panic "Failed starting client GRPC server")
          end
      end
  end.

(** [Server::shutdown]: nothing when the task has ended, else the request, and
    the wait until the task has seen it, after the events before it. *)
Definition server_shutdown `{McLib, GossipCodec, !QuoteBook QB} publish respond connected_peers (events : list LoopEvent)
    (sv : Server QB SRV SW) : Server QB SRV SW :=
  if sv_ended sv then sv
  else
    let '(ended, loop) := event_loop publish respond connected_peers (events ++ [ShutdownRequested]) (sv_loop sv) in
    mk_server (sv_grpc_server sv) (sv_quote_minimum_map sv) (sv_p2p_listen_addrs sv) loop ended (sv_net sv).

(** [Server::grpc_listen_uri] *)
Definition grpc_listen_uri (sv : Server QB SRV SW) : option ClientUri := actual_listen_uri (sv_grpc_server sv).
End Start.

(** * Theorems *)

Section AwaitTheory.
Context {SW REQ RESP : Type} `{!Swarm SW REQ RESP, !SwarmLaws SW REQ RESP} (peers : list Multiaddr).
Implicit Types (inputs more : list (NetInput REQ RESP)) (sw : SW).

Lemma client_await_run c inputs more sw :
  client_await peers c more (net_run peers inputs sw) =
  (call_outcome (net_run peers (inputs ++ ClientCalls c :: more) sw) (length (calls (net_run peers inputs sw))),
   net_run peers (inputs ++ ClientCalls c :: more) sw).
Proof. unfold client_await, net_run. by rewrite foldl_app. Qed.

Lemma calls_grow inputs more sw : calls (net_run peers inputs sw) `prefix_of` calls (net_run peers (inputs ++ more) sw).
Proof.
  induction more as [|e more IH] using rev_ind; [by rewrite app_nil_r|].
  rewrite app_assoc. unfold net_run in *. rewrite (foldl_app _ (inputs ++ more)). cbn.
  etransitivity; [exact IH|]. apply net_exec_grows.
Qed.

Lemma await_call c inputs more sw :
  calls (net_run peers (inputs ++ ClientCalls c :: more) sw) !! length (calls (net_run peers inputs sw)) = Some c.
Proof.
  rewrite cons_middle, app_assoc. eapply prefix_lookup_Some; [|apply calls_grow].
  unfold net_run. rewrite foldl_app. cbn. unfold client_call.
  case_decide; cbn; by rewrite lookup_app_r, Nat.sub_diag.
Qed.

(** A call that needs no peer returns when the loop has handled its queue. *)
Lemma await_returns c inputs sw :
  immediate c = true → net_phase (net_run peers inputs sw) = Running →
  is_Some (client_await peers c (replicate (S (length (command_queue (net_run peers inputs sw)))) LoopCommand)
    (net_run peers inputs sw)).1.
Proof.
  intros Himm Hrun. rewrite client_await_run. cbn [fst].
  assert (net_run peers (inputs ++ [ClientCalls c]) sw = client_call c (net_run peers inputs sw)) as Hs
    by (unfold net_run; by rewrite foldl_app).
  pose proof (drained_calls_return peers (inputs ++ [ClientCalls c]) sw (length (calls (net_run peers inputs sw))) c) as Hd.
  rewrite Hs in Hd. unfold client_call in Hd. rewrite decide_False in Hd by congruence. cbn in Hd.
  rewrite length_app in Hd. cbn [length] in Hd. rewrite Nat.add_1_r, <-app_assoc in Hd. apply Hd; [done| |done].
  by rewrite lookup_app_r, Nat.sub_diag.
Qed.
End AwaitTheory.

Section StartTheorem.
Context {SW QB K T G KD ID RR SRV W : Type}.
Context `{!Swarm SW Request Response, !SwarmLaws SW Request Response, !SwarmTopics SW Request Response}.
Context `{!Libp2p K G KD ID RR, !GrpcIo SRV W, !GrpcIoLaws SRV W}.
Context (generate_ed25519 : K) (parse_multiaddr : string → outcome string Multiaddr).
Context (default_transport : K → outcome NetworkError T) (swarm_new : T → Behaviour G KD ID RR → K → SW).
Local Abbreviation new := (p2p_new (QB:=QB) generate_ed25519 parse_multiaddr default_transport swarm_new).
Local Abbreviation start := (server_start (QB:=QB) (SRV:=SRV) (W:=W) generate_ed25519 parse_multiaddr default_transport swarm_new).
Local Abbreviation builder_of := (p2p_builder generate_ed25519 parse_multiaddr default_transport).

Lemma p2p_builder_peers o b : builder_of o = Ok b → nb_bootstrap_peers b = o_bootstrap_peers o.
Proof.
  unfold p2p_builder, network_builder_new. intros Hb. inv_ok.
  by destruct (o_listen_addr o), (o_external_addr o).
Qed.

(** What [P2P::new] has done when it returns. *)
Lemma p2p_new_ok metrics qb o before listening subscribing p2p network :
  no_calls before → new metrics qb o before listening subscribing = Some (Ok (p2p, network)) →
  is_ok (collect_results (parse_peer (REQ:=Request) (RESP:=Response)) (o_bootstrap_peers o)) = true ∧
  (∃ address id, LoopSwarm (NewListenAddr address id) ∈ before ++ listening) ∧
  p2p_quote_book p2p = qb ∧ MSG_BUS_TOPIC ∈ topics (swarm (net_loop network)).
Proof.
  intros Hn. unfold p2p_new. destruct (builder_of o) as [b|e|p] eqn:Hb; [|done..]. apply p2p_builder_peers in Hb.
  destruct (build swarm_new b before listening) as [[network0|e|p]|] eqn:Hbuild; [|done..].
  destruct (build_cases swarm_new b before listening Hn) as [Hok _].
  destruct (Hok _ Hbuild) as [Hpeers Haddr]. rewrite Hb in Hpeers.
  assert (network0 = build_net swarm_new b before listening) as ->.
  { unfold build in Hbuild. destruct (call_outcome _ 0) as [[]|]; congruence. }
  unfold build_net. rewrite Hb, client_await_run.
  set (inputs := before ++ _). set (i := length (calls _)).
  pose proof (await_call (o_bootstrap_peers o) (subscribe_gossip MSG_BUS_TOPIC) inputs subscribing (build_swarm swarm_new b)) as Hc.
  fold i in Hc. destruct (call_outcome _ i) as [[v|e|p]|] eqn:Hr; [|done..]. intros [= <- <-].
  split; [done|]. split; [done|]. split; [done|].
  apply call_outcome_cases in Hr as (c & Hc' & [[_ [?|?]]|(rep & Hrep & Hv)]); [done..|].
  rewrite Hc in Hc'. injection Hc' as <-. destruct rep as [| | | |[b0|e|p]|]; try done.
  by eapply confirmed_subscribed.
Qed.

(** A started server hears its peers.  When [Server::start] returns a
    server, every bootstrap peer was well-formed, the swarm reported a
    listener, the node is subscribed to the topic of the announcements and
    stays so whatever happens to the network afterwards, and the gRPC server
    accepts calls; a gRPC server that cannot start is a panic.  While it waits
    for the subscription it does not hang: the loop's handling of the queued
    commands is enough for [P2P::new] to return. *)
Lemma server_start_spec metrics qb uri o tuples ph w :
  no_calls (ph_before ph) →
  (∀ sv w', start metrics qb uri o tuples ph w = Some (Ok (sv, w')) →
    is_ok (collect_results (parse_peer (REQ:=Request) (RESP:=Response)) (o_bootstrap_peers o)) = true ∧
    (∃ address id, LoopSwarm (NewListenAddr address id) ∈ ph_before ph ++ ph_listening ph) ∧
    (∀ more, MSG_BUS_TOPIC ∈ topics (swarm (net_loop (foldl (net_exec (o_bootstrap_peers o)) (sv_net sv) more)))) ∧
    p2p_quote_book (sl_p2p (sv_loop sv)) = qb ∧
    ∃ srv, grpc_server (sv_grpc_server sv) = Some srv ∧ serving srv w') ∧
  (∀ b network, builder_of o = Ok b → build swarm_new b (ph_before ph) (ph_listening ph) = Some (Ok network) →
    net_phase network = Running →
    is_Some (new metrics qb o (ph_before ph) (ph_listening ph) (replicate (S (length (command_queue network))) LoopCommand))).
Proof.
  intros Hn. split.
  - intros sv w'. unfold server_start.
    destruct (new metrics qb o _ _ _) as [[[p2p network]|e|p]|] eqn:Hnew; [|done..].
    apply p2p_new_ok in Hnew as (Hpeers & Haddr & Hqb & Htopic); [|done].
    unfold p2p_listen_addrs. destruct (client_await _ _ _ _) as [r network'] eqn:Haw.
    destruct r as [[v|e|p]|]; [|done..]. destruct v as [| | | | |addrs]; [done..|].
    destruct (grpc_server_start (grpc_new uri, w)) as [x [g w1]] eqn:Hg. destruct x as [[]|e|p]; [|done..].
    intros [= <- <-]. cbn. do 2 (split; [done|]). split; [|split; [done|]].
    + intros more. unfold client_await in Haw. injection Haw as _ <-.
      apply (net_exec_topics_run _ _ more).
      exact (net_exec_topics_run (o_bootstrap_peers o) network (ClientCalls listen_addrs :: ph_addressing ph) _ Htopic).
    + apply grpc_lifecycle in Hg as [[_ (srv & port & Hsrv & Hserving & _)]|[? _]]; [|done]. by exists srv.
  - intros b network Hb Hbuild Hrun. unfold p2p_new. rewrite Hb, Hbuild. apply p2p_builder_peers in Hb.
    assert (network = net_run (o_bootstrap_peers o) (ph_before ph ++ ClientCalls (listen (nb_listen_address b)) :: ph_listening ph) (build_swarm swarm_new b)) as Hnet.
    { unfold build, build_net in Hbuild. rewrite Hb in Hbuild. destruct (call_outcome _ 0) as [[]|]; congruence. }
    rewrite Hnet in Hrun |- *. pose proof (await_returns _ (subscribe_gossip MSG_BUS_TOPIC) _ _ eq_refl Hrun) as [r Hr].
    destruct (client_await _ _ _ _) as [r' network']. cbn in Hr. subst r'. by destruct r as [[]| |].
Qed.

(** Without an address to listen on, the layer is not off: it listens on the
    default address. *)
Lemma p2p_listens_by_default o b :
  o_listen_addr o = None → builder_of o = Ok b →
  default_listen_address parse_multiaddr = Ok (nb_listen_address b).
Proof.
  intros Hnone. unfold p2p_builder, network_builder_new. intros Hb. inv_ok. rewrite Hnone. by destruct (o_external_addr o).
Qed.
End StartTheorem.

Section ShutdownTheorem.
Context `{McLib, GossipCodec} {QB SRV SW : Type} `{!QuoteBook QB} (publish : string → bytes → outcome string unit).
Context (respond : Response → outcome string unit) (peers : outcome string (list bytes)).

(** A shutdown ends the event loop whatever is queued before it, and a second
    one does nothing; the gRPC server is not part of it and goes on. *)
Lemma server_shutdown_ends events events' (sv : Server QB SRV SW) :
  let sv' := server_shutdown publish respond peers events sv in
  sv_ended sv' = true ∧ server_shutdown publish respond peers events' sv' = sv' ∧
  sv_grpc_server sv' = sv_grpc_server sv.
Proof.
  assert (∀ l, (event_loop publish respond peers (events ++ [ShutdownRequested]) l).1 = true) as Hends.
  { induction events as [|e events IH]; intros l; [done|]. cbn [app event_loop]. by case_match. }
  unfold server_shutdown. destruct (sv_ended sv) eqn:Hended; [by rewrite Hended|].
  specialize (Hends (sv_loop sv)). destruct (event_loop _ _ _ _ _) as [ended l]. cbn in *. by rewrite Hends.
Qed.
End ShutdownTheorem.

(** * The theorem on an example *)

Module ServerNetExamples.
Import NetworkExamples ServerStartExamples.

(** The sample swarm, with topics. *)
Record TopicSwarm := mk_topic_swarm {
  ts_requests : gmap Z (list Z * Request);
  ts_listeners : gset Z;
  ts_topics : gset string;
}.

#[export] Instance topic_swarm : Swarm TopicSwarm Request Response := {|
  listen_on a s :=
    let id := base.fresh (ts_listeners s) in
    (Ok id, mk_topic_swarm (ts_requests s) ({[id]} ∪ ts_listeners s) (ts_topics s));
  listeners s := [[OtherProtocol "tcp"]];
  local_peer_id _ := [7];
  swarm_connected_peers s := [];
  gossipsub_all_peers s := [];
  send_request p r s :=
    let id := base.fresh (dom (ts_requests s)) in
    (id, mk_topic_swarm (<[id := (p, r)]> (ts_requests s)) (ts_listeners s) (ts_topics s));
  send_response _ _ s := (Ok tt, s);
  gossipsub_publish _ m s := (Ok m, s);
  gossipsub_subscribe t s := (Ok true, mk_topic_swarm (ts_requests s) (ts_listeners s) ({[t]} ∪ ts_topics s));
  kad_add_address _ _ s := s;
  kad_bootstrap s := (Ok tt, s);
  kad_start_providing _ s := (Ok tt, s);
  kad_get_providers _ s := s;
  add_external_address _ s := s;
  peer_id_from_multihash h := if bool_decide (length h = 1%nat) then Ok h else Err "multihash";
  kad_default_proto_name := "/ipfs/kad/1.0.0";
  swarm_polled _ s := s;
|}.
#[export] Program Instance topic_swarm_laws : SwarmLaws TopicSwarm Request Response := {|
  swarm_requests := ts_requests;
  swarm_listeners := ts_listeners;
|}.
Next Obligation. intros p r s i s' [= <- <-]. split; [|done]. apply not_elem_of_dom. apply is_fresh. Qed.
Next Obligation. cbn. intros a s r s' [= <- <-]. split; [done|]. split; [done|]. split; [apply is_fresh|done]. Qed.
Solve All Obligations with (cbn; naive_solver).
#[export] Program Instance topic_swarm_topics : SwarmTopics TopicSwarm Request Response := {| topics := ts_topics |}.
Next Obligation. cbn. intros t s r s' [= <- <-]. set_solver. Qed.
Solve All Obligations with (cbn; naive_solver).

#[export] Instance sample_libp2p : Libp2p Z unit unit unit unit := {|
  public_peer_id k := [k];
  gossipsub_config_build _ := Ok tt;
  gossipsub_new _ _ := Ok tt;
  kademlia_with_config _ _ := tt;
  identify_new _ _ := tt;
  request_response_new _ := tt;
  default_hash data := foldr Z.add 0 data;
|}.

Definition options : P2POptions Z := mk_p2p_options [[OtherProtocol "dns/node1"; P2p [1]]] None None (Some 5).
Definition phases : StartPhases :=
  mk_phases [LoopStart] [LoopCommand; LoopSwarm (NewListenAddr [OtherProtocol "tcp"] 0)] [LoopCommand] [LoopCommand].
Definition no_metrics : P2PRpcMetrics := {| num_req := ∅; num_success := ∅; num_error := ∅ |}.
Local Abbreviation start_sample :=
  (server_start (QB:=unit) (T:=unit) 9 (λ _, Ok [OtherProtocol "ip4"]) (λ _, Ok tt) (λ _ _ _, mk_topic_swarm ∅ ∅ ∅)
    no_metrics tt (mk_uri "localhost" 0) options [] phases ([] : list Z)).

Example start_sample_returns :
  match start_sample with
  | Some (Ok (sv, w)) => sv_p2p_listen_addrs sv = [[OtherProtocol "tcp"; P2p [7]]] ∧ w = [0] ∧
      grpc_listen_uri sv = Some (mk_uri "localhost" 49152)
  | _ => False
  end.
Proof. by vm_compute. Qed.

Lemma server_start_spec_witness :
  no_calls (ph_before phases) ∧
  match start_sample with
  | Some (Ok (sv, _)) => ∀ more, MSG_BUS_TOPIC ∈ ts_topics (swarm (net_loop (foldl (net_exec (o_bootstrap_peers options)) (sv_net sv) more)))
  | _ => False
  end.
Proof.
  assert (no_calls (ph_before phases)) as Hn by (intros c Hc; apply list_elem_of_singleton in Hc; discriminate).
  split; [exact Hn|].
  pose proof (proj1 (server_start_spec (QB:=unit) (T:=unit) 9 (λ _, Ok [OtherProtocol "ip4"]) (λ _, Ok tt) (λ _ _ _, mk_topic_swarm ∅ ∅ ∅)
    no_metrics tt (mk_uri "localhost" 0) options [] phases ([] : list Z) Hn)) as H.
  pose proof start_sample_returns as Hret.
  destruct (server_start _ _ _ _ _ _ _ _ _ _ _) as [[[sv w']|e|p]|]; [|contradiction..].
  exact (proj1 (proj2 (proj2 (H sv w' eq_refl)))).
Defined.
End ServerNetExamples.
