(* ===== verification/ServerProgram.v ===== *)
(** The server as a program (server/src/bin/main.rs, config.rs): from the
    configuration to the running server, on the SQLite file, the ledger, the
    key file and the network.

    Opening the ledger database and starting the admin server are parameters. *)

From S2P Require Import Prelude McTypes QuoteApi QuotePricing QuoteBook InMemory SqlTypes Sqlite BookEquiv TestUtils Conformance BookTests Synchronized ApiConvert ClientService ServerP2P ServerStart Wallet WalletRun TestCli Network NetBuild ServerNet.

Record ServerConfig (P URI : Type) := {
  db_path : P;
  client_listen_uri : ClientUri;
  admin_listen_uri : option URI;
  ledger_db_path : PathBuf;
  p2p_bootstrap_peers : list Multiaddr;
  p2p_listen : option Multiaddr;
  p2p_external_address : option Multiaddr;
  p2p_keypair_path : option PathBuf;
  config_quote_minimum_map : list (TokenId * Z);
}.
Arguments db_path {P URI} _.
Arguments client_listen_uri {P URI} _.
Arguments admin_listen_uri {P URI} _.
Arguments ledger_db_path {P URI} _.
Arguments p2p_bootstrap_peers {P URI} _.
Arguments p2p_listen {P URI} _.
Arguments p2p_external_address {P URI} _.
Arguments p2p_keypair_path {P URI} _.
Arguments config_quote_minimum_map {P URI} _.

Class ServerIo (L P URI : Type) := {
  (** [LedgerDB::open] *)
  server_ledger_open : PathBuf → outcome string L;
  (** [serde_json::to_string(&config)], [client_listen_uri.to_string()] *)
  server_config_json : ServerConfig P URI → outcome string string;
  uri_to_string : ClientUri → string;
  (** [AdminServer::start(None, uri, name, id, Some(get_config_json), vec![], ..)] *)
  server_admin_start : URI → string → string → string → outcome string unit;
}.

(** The errors [main] returns. *)
Inductive ServerMainError := MainKeypair (e : string) | MainStart (e : StartError).

Definition must {X} (r : outcome string X) (msg : string) : outcome ServerMainError X :=
  match r with Ok x => Ok x | Err _ => Panic msg | Panic p => Panic p end.

Section Main.
Context `{McLib, SciCodec} `{!HashIter Pair (list Quote)} {DB CONN P F L URI : Type}.
Context `{!SqlDb DB, !SqlitePools DB CONN P F, !Ledger L, !ServerIo L P URI}.
Context {SW K S T G KD ID RR SRV W : Type} `{!Keypairs K S, !Swarm SW Request Response, !Libp2p K G KD ID RR, !GrpcIo SRV W}.
Context (random_keypair : K) (parse_multiaddr : string → outcome string Multiaddr).
Context (default_transport : K → outcome NetworkError T) (swarm_new : T → Behaviour G KD ID RR → K → SW).
Local Abbreviation books := (SynchronizedQuoteBook (SqliteQuoteBook DB InMemoryQuoteBook) L).
Variable config : ServerConfig P URI.

(** [main] up to the start of the server: the key pair and the quote book,
    whose file is among the files [F]. *)
Definition main_prepare (fs : FileSystem) : stateful F ServerMainError (option K * books) := λ f,
  match (ledger_db ← must (server_ledger_open (ledger_db_path config)) "Could not open ledger db";
         num_blocks ← match num_blocks ledger_db with
                      | Ok n => Ok n
                      | Err _ => Panic "Could not compute num_blocks"
                      | Panic p => Panic p
                      end;
         _ ← rust_assert (negb (num_blocks =? 0)) "assertion failed: `(left != right)`";
         keypair ← map_err MainKeypair (read_keypair (p2p_keypair_path config) fs);
         Ok (ledger_db, keypair)) with
  | Ok (ledger_db, keypair) =>
      let '(book, f) := sq_new_from_file_path (db_path config) 10 im_default f in
      match book with
      | Ok internal_quote_book =>
          (config_json ← must (server_config_json config) "failed to serialize config to JSON";
           _ ← match admin_listen_uri config with
               | Some uri => must (server_admin_start uri "DEQS" (uri_to_string (client_listen_uri config)) config_json)
                               "Failed starting admin server"
               | None => Ok tt
               end;
           Ok (keypair, sync_new internal_quote_book ledger_db), f)
      | Err _ => (Panic "failed initializing database", f)
      | Panic p => (Panic p, f)
      end
  | Err e => (Err e, f)
  | Panic p => (Panic p, f)
  end.

(** The options of the peer-to-peer layer. *)
Definition config_options (keypair : option K) : P2POptions K :=
  mk_p2p_options (p2p_bootstrap_peers config) (p2p_listen config) (p2p_external_address config) keypair.

(** [main] until it waits for Ctrl-C: [None] while it waits for the network. *)
Definition deqs_server_main (metrics : P2PRpcMetrics) (fs : FileSystem) (f : F) (ph : StartPhases) (w : W) :
    option (outcome ServerMainError (Server books SRV SW * W)) :=
  match main_prepare fs f with
  | (Ok (keypair, quote_book), _) =>
      match server_start (QB:=books) random_keypair parse_multiaddr default_transport swarm_new metrics quote_book
              (client_listen_uri config) (config_options keypair) (config_quote_minimum_map config) ph w with
      | None => None
      | Some r => Some (map_err MainStart r)
      end
  | (Err e, _) => Some (Err e)
  | (Panic p, _) => Some (Panic p)
  end.
End Main.

(** * Theorems *)

Section Prepared.
Context `{McLib, SciCodec} `{!McLibLaws _, !TombstoneLaws _, !SciCodecLaws _} `{!HashIter Pair (list Quote)} {DB CONN P F L URI : Type}.
Context `{!SqlDb DB, !SqlDbLaws DB, !WorkingDb DB, !SqlitePools DB CONN P F, !SqlitePoolsLaws DB CONN P F}.
Context `{!Ledger L, !ServerIo L P URI} {K S : Type} `{!Keypairs K S} (config : ServerConfig P URI).

(** On a new file, with everything in place, the server gets a book that is up
    and empty, over the ledger it opened. *)
Lemma main_prepare_ok fs f url ledger_db num json keypair :
  server_ledger_open (ledger_db_path config) = Ok ledger_db → num_blocks ledger_db = Ok num → num ≠ 0 →
  read_keypair (p2p_keypair_path config) fs = Ok keypair →
  path_to_str (db_path config) = Some url → new_file f url → server_config_json config = Ok json →
  (∀ uri, admin_listen_uri config = Some uri →
     server_admin_start uri "DEQS" (uri_to_string (client_listen_uri config)) json = Ok tt) →
  returns (main_prepare (K:=K) (DB:=DB) config fs) f (λ r _,
    r.1 = keypair ∧ book_up (sync_quote_book r.2) ∧ contents r.2 = [] ∧ sync_ledger r.2 = ledger_db ∧
    sync_highest_processed_block_index r.2 = 0).
Proof.
  intros Hdb Hnum Hne Hkey Hurl Hnew Hjson Hadmin.
  destruct (new_from_new_file (QB:=InMemoryQuoteBook) (db_path config) url 10 im_default f Hurl Hnew ltac:(done) im_default_up eq_refl)
    as (b & f' & Hb & Hup & Hc).
  exists (keypair, sync_new b ledger_db), f'. split; [|done].
  unfold main_prepare. unfold must at 1. rewrite Hdb. cbn [mbind outcome_bind]. rewrite Hnum. cbn [mbind outcome_bind].
  rewrite (proj2 (Z.eqb_neq _ _) Hne). cbn [mbind outcome_bind negb rust_assert]. rewrite Hkey. cbn [mbind outcome_bind map_err].
  rewrite Hb. unfold must at 1. rewrite Hjson. cbn [mbind outcome_bind].
  destruct (admin_listen_uri config) as [uri|]; [|done]. unfold must. cbn. by rewrite (Hadmin uri eq_refl).
Qed.

(** A key file that cannot be read is an error that [main] returns; a database
    that cannot be opened is a panic, also when the file's path is not UTF-8. *)
Lemma main_prepare_fails fs f ledger_db num :
  server_ledger_open (ledger_db_path config) = Ok ledger_db → num_blocks ledger_db = Ok num → num ≠ 0 →
  (∀ e, read_keypair (K:=K) (p2p_keypair_path config) fs = Err e →
     main_prepare (K:=K) (DB:=DB) config fs f = (Err (MainKeypair e), f)) ∧
  (∀ keypair, read_keypair (K:=K) (p2p_keypair_path config) fs = Ok keypair → path_to_str (db_path config) = None →
     main_prepare (K:=K) (DB:=DB) config fs f = (Panic "failed initializing database", f)).
Proof.
  intros Hdb Hnum Hne.
  split.
  - intros e Hkey. unfold main_prepare, must. rewrite Hdb. cbn. rewrite Hnum. cbn. rewrite (proj2 (Z.eqb_neq _ _) Hne). cbn.
    by rewrite Hkey.
  - intros keypair Hkey Hp. unfold main_prepare.
    rewrite (proj1 (new_from_file_path_refuses (db_path config) 10 im_default f) Hp).
    unfold must. rewrite Hdb. cbn. rewrite Hnum. cbn. rewrite (proj2 (Z.eqb_neq _ _) Hne). cbn. by rewrite Hkey.
Qed.
End Prepared.

Section Started.
Context `{McLib, SciCodec} `{!McLibLaws _, !SciCodecLaws _} `{!HashIter Pair (list Quote)} {DB CONN P F L URI : Type}.
Context `{!SqlDb DB, !SqlitePools DB CONN P F, !Ledger L, !ServerIo L P URI}.
Context {SW K S T G KD ID RR SRV W : Type} `{!Keypairs K S, !Swarm SW Request Response, !SwarmLaws SW Request Response}.
Context `{!SwarmTopics SW Request Response, !Libp2p K G KD ID RR, !GrpcIo SRV W, !GrpcIoLaws SRV W}.
Context (random_keypair : K) (parse_multiaddr : string → outcome string Multiaddr).
Context (default_transport : K → outcome NetworkError T) (swarm_new : T → Behaviour G KD ID RR → K → SW).

(** A server that [main] started has the prepared book behind its event loop,
    the minimums of the configuration, a gRPC server that accepts calls, and a
    node that is and stays subscribed to the topic of the announcements; every
    bootstrap peer of the configuration is well-formed. *)
Lemma deqs_server_main_ok (config : ServerConfig P URI) metrics fs f ph w sv w' :
  no_calls (ph_before ph) →
  deqs_server_main (DB:=DB) (SRV:=SRV) random_keypair parse_multiaddr default_transport swarm_new config metrics fs f ph w
    = Some (Ok (sv, w')) →
  ∃ keypair book f', main_prepare config fs f = (Ok (keypair, book), f') ∧
    p2p_quote_book (sl_p2p (sv_loop sv)) = book ∧
    is_ok (collect_results (parse_peer (REQ:=Request) (RESP:=Response)) (p2p_bootstrap_peers config)) = true ∧
    (∀ more, MSG_BUS_TOPIC ∈ topics (swarm (net_loop (foldl (net_exec (p2p_bootstrap_peers config)) (sv_net sv) more)))) ∧
    ∃ srv, grpc_server (sv_grpc_server sv) = Some srv ∧ serving srv w'.
Proof.
  intros Hn. unfold deqs_server_main. destruct (main_prepare config fs f) as [[[keypair book]|e|p] f'] eqn:Hp; [|done..].
  destruct (server_start _ _ _ _ _ _ _ _ _ _ _) as [[[sv0 w0]|e|p]|] eqn:Hs; [|done..]. intros [= <- <-].
  destruct (proj1 (server_start_spec random_keypair parse_multiaddr default_transport swarm_new metrics book
    (client_listen_uri config) (config_options config keypair) (config_quote_minimum_map config) ph w Hn) sv0 w0 Hs)
    as (Hpeers & _ & Htopic & Hqb & Hsrv).
  by exists keypair, book, f'.
Qed.
End Started.

(** * Example *)

Module ServerProgramExamples.
Import Sample SampleCodec SampleDb SampleLedger SyncExamples BookEquivExamples BookTestsExamples ServerStartExamples ServerNetExamples TestCliExamples WalletRunExamples.

#[export] Instance sample_server_io : ServerIo Chain string string := {|
  server_ledger_open _ := Ok [origin];
  server_config_json _ := Ok "{}";
  uri_to_string u := uri_host u;
  server_admin_start _ _ _ _ := Ok tt;
|}.
#[export] Instance sample_keypairs : Keypairs Z Z := {|
  generate_ed25519 s := (s, s + 1);
  to_protobuf_encoding k := Ok [k];
  from_protobuf_encoding data := match data with [k] => Ok k | _ => Err "unexpected end of file" end;
  peer_id_of k := pretty k;
|}.
#[export] Instance sample_keypairs_laws : KeypairsLaws Z Z.
Proof. intros k data [= <-]. done. Qed.
Definition server_config : ServerConfig string string := {|
  db_path := "quotes.db"; client_listen_uri := mk_uri "localhost" 0; admin_listen_uri := None; ledger_db_path := "ledger";
  p2p_bootstrap_peers := [[OtherProtocol "dns/node1"; P2p [1]]]; p2p_listen := None; p2p_external_address := None;
  p2p_keypair_path := None; config_quote_minimum_map := [(1, 1000)] |}.

Example server_starts :
  match deqs_server_main (DB:=Db) (F:=nat) (K:=Z) (S:=Z) (T:=unit) (SRV:=Z) 9 (λ _, Ok [OtherProtocol "ip4"]) (λ _, Ok tt) (λ _ _ _, mk_topic_swarm ∅ ∅ ∅)
          server_config no_metrics disk 0%nat phases ([] : list Z) with
  | Some (Ok (sv, w)) => sv_quote_minimum_map sv = {[1 := 1000]} ∧ grpc_listen_uri sv = Some (mk_uri "localhost" 49152) ∧
      contents (p2p_quote_book (sl_p2p (sv_loop sv))) = []
  | _ => False
  end.
Proof. by vm_compute. Qed.
End ServerProgramExamples.
